(* ===== verification/_CoqProject ===== *)
-Q . S2P
Prelude.v
Wire.v
Replay.v
Input.v
NoiseCore.v
Session.v
Handshake.v
Reassembler.v
Stream.v
Mux.v
StreamNet.v
Cell.v
Text.v
Literal.v
Socks.v
Grid.v
GridOps.v
Status.v
Diff.v
Predict.v
Shell.v
Control.v
Auth.v
SshConfig.v
Pty.v
Runtime.v
Server.v
ServerInv.v
ServerMux.v
ServerProps.v
Client.v
ClientProps.v
Connect.v
Forward.v
Tunnel.v
Forwarder.v
Grace.v
Exec.v
Files.v
Config.v
Xfer.v
Delivery.v
ServerDriver.v
Drain.v
Daemon.v
ClientDriver.v
Script.v
Ssh.v
Cli.v
Tty.v
Interactive.v
Noisshd.v
Main.v
