(* ===== verification/Prelude.v ===== *)
(** * noissh: a verification development

    noissh is a remote shell over UDP: a client and a server share a Noise session,
    the server runs a terminal emulator and sends the client numbered screen
    differences, keystrokes travel as an acknowledged byte stream, and a stream
    multiplexer carries port forwards, file transfers and commands beside them.
    This library models the logic of that program, definition by definition, and
    proves what makes it correct.  The name of each definition is the source's;
    the comment before it says which lines it is.

    ** The parts, and the file of each

    - [Prelude]: Rust's results, readers over a cursor, machine integers with
      their wrapping written out, bytes and decimal digits; shared lemmas and
      automation.
    - [Wire] (crates/wire): varints, zig-zag, the frames and their codec.
    - [Replay], [Input], [NoiseCore], [Session] (crates/transport, noise-core):
      the anti-replay window, the acknowledged input channel, the wrapper of the
      [snow] library, sealed datagrams and roaming.
    - [Handshake] (crates/proto/handshake.rs): the driver of the three messages.
    - [Reassembler], [Stream], [Mux], [StreamNet] (crates/transport/stream.rs):
      reassembly, one stream's two halves with congestion control, the
      multiplexer, and two multiplexers over a network.
    - [Cell], [Grid], [GridOps], [Diff] (crates/term): the emulator's screen, each
      operation of it, and the screen differences.
    - [Predict] (crates/predict): predictive local echo.
    - [Shell] (crates/proto/shell.rs): the two ends of the interactive shell, and
      the two over a network.
    - [Text], [Control] (crates/proto/control.rs, xfer.rs): strings, control
      messages, transfer requests.
    - [Auth] (crates/auth): key texts, authorized keys, known hosts.
    - [Pty] (crates/pty): handles over pseudo-terminals, what a spawn executes.
    - [Runtime], [Server], [ServerInv], [ServerMux], [ServerProps] (src/lib.rs,
      src/server.rs): the errors; the socket-free server that ties all of this
      together; its invariant; what holds of all its streams; its theorems.
    - [Client], [ClientProps], [Connect] (src/client.rs): the socket-free client;
      its theorems; client core and server core run against each other, from the
      first message to an open shell.
    - [Socks], [Status], [SshConfig] (src/socks.rs, status.rs, sshconfig.rs): the
      client's SOCKS front end, its escape key and banner, its ssh settings.
    - [Forward], [Tunnel], [Grace] (src/forward.rs): a bridge between a socket and
      a stream, two bridges at the ends of a network, streams that linger.
    - [Forwarder], [ClientDriver] (src/client.rs): the client's driver, with local,
      remote and SOCKS forwards, the agent's bridges, and the loops of transfers,
      commands and forwards turn by turn.
    - [Exec], [Xfer] (src/exec.rs, xfer.rs): the pipes of a command, the two ends of
      a file transfer; [Delivery]: an upload end to end.
    - [Files], [Config] (src/config.rs, noise-core): a file system with crashes, and
      the configuration, known hosts and key files on it.
    - [ServerDriver], [Daemon], [Drain] (src/server.rs): the server's driver, a round
      of its loop, what its rounds keep, and that its inner loops end.
    - [Script]: programs as trees of calls; [Literal]: text written out.
    - [Ssh] (src/ssh.rs): the bootstrap over ssh.
    - [Cli], [Main], [Interactive] (src/bin/noissh.rs): the arguments, the run from the
      arguments to what is done once connected, the loop behind the terminal.
    - [Tty] (src/tty.rs): the writers and the renderer.
    - [Noisshd] (src/bin/noisshd.rs, noissh-keygen.rs): the server program.

    ** How state and effects appear

    A method on [&mut self] is a function that returns the new state beside its
    result; a [Result] is [result], an [Option] is [option].  Unsigned integers are [Z] with the wrapping,
    saturating or checked operation of the source; [usize] indices are [nat].
    Maps are finite maps; where the code iterates over a hash map the order is an
    argument, and theorems hold for every order.  What the operating system answers
    (reads, writes, exits of children) is an argument, a list of answers in order;
    what is done to it is a log of effects.  Time is the number of ticks, or the
    readings of a clock.  After a crash of the file system ([Files]) the names are
    those of some moment since the disk was quiet, a file that was synced is as it
    was, and any other may hold anything.  A command-line program is a tree of calls
    ([Script]); a theorem about it ([wp]) quantifies over all answers and speaks of
    the result and of the calls that were made, in order.

    Panics: every slice, copy and index on the path of the server core (the parser of
    packets, the decoders of frames, control messages and diffs, the input stream,
    reassembly, send buffers, the diff encoder, the emulator) is a step that is [None]
    out of range ([slice_checked], [copy_checked], a lookup); so is everything built on
    it up to [Server.handle_packet] and [Server.tick], so that a theorem that one of
    these is [Some] says that the code does not panic.  Where theorems about values
    are clearer on a total function, there is a [_checked] definition, which is what
    the code does, and the total one takes its result; a lemma [_calm] shows that the
    former never is [None] (from the ranges that its callers keep), a lemma [_agrees]
    that they agree otherwise.  Outside that path, in the client's and the driver's
    bridges, the SOCKS front end and the command-line programs, a slice right behind
    its length check is a total [slice].  Overflow of [+] and [-] wraps, as it does in
    a release build.

    Networks are relations on states that remember every packet ever sent: a step
    may deliver any of them, any number of times, in any order, or never.  So loss,
    duplication and reordering need no further assumption.

    ** What the theorems show

    - Codecs: frames, control messages and SOCKS requests decode to what was
      encoded; the frame decoder ends on every input; the diff decoder leaves a
      bounded, well-formed screen on every input.
    - Security of the transport: a nonce is accepted once; only an authentic packet
      changes a session; the server creates sessions for authorized keys only,
      and an unacceptable datagram changes nothing; the first key of a host is
      pinned, and a client has a session only with the holder of the pinned key;
      a client is authorized exactly when the file lists its key.
    - Delivery: the bytes that reach a pty or the reader of a stream are a prefix of
      those that were written; an end of stream is reported only after all of them;
      windows and buffers stay within their bounds; one exchange without loss
      catches up.
    - The screen: the emulator never indexes out of range, and neither does anything
      else on the server's path (at two columns or more); scrolling moves whole
      rows; a diff renders its target; the client always shows the numbered snapshot it
      says it does, and converges unless it was moved back behind its own
      acknowledgement; predictions differ from the screen only at
      guesses and are confirmed by their echo.
    - Life of a session: a client and a server that accept each other's keys
      reach an open shell in four datagrams; reattachment moves the shell; every session ends; a run
      of the two shells is a run of the input channel (refinement).
    - Bridges: the bytes that come out of a forwarded connection are a prefix of
      those that went in, and a file sent to the server is there as a whole or not
      at all, over any network and through crashes; known hosts and keys survive
      crashes.
    - The server's driver runs the core's own steps; what it holds belongs to
      live sessions; with privilege separation it runs nothing; its loops end.
    - The programs: the options in every spelling; a run of the client saves a pin only
      where it may and works only with a server whose key it knows; the bootstrap
      installs only for a reason; the one-shot server serves its one key and is
      understood by the client; each turn of the interactive session leaves the
      user's terminal showing the client's screen if it can be painted at the
      terminal's size, and keepalives are on time.
    - Behaviour that is not what the code means: a lost end of stream that is never
      resent, a late full screen that wedges a client, a lost handshake message
      that leaves a client alone for ever, a stray datagram that ends it, a table
      of handshakes that fills for ever, a close that overtakes data, and others;
      each is a theorem about the code as it is.

    ** Bounds and fuel

    Loops whose recursion is not structural carry fuel that is shown or seen to be
    enough: ten bytes for a 64-bit varint and eleven for reading one; one round
    per byte for a payload and for a diff; twenty digits for a 64-bit number; three
    turns of the SOCKS parser, one per phase; the sum of both lengths, quadratically,
    for the backtracking glob matcher ([glob_fuel]); two rounds of the driver's
    drain loops ([drain_loops_end]).  Loops that run as long as the outside has answers
    recur on the list of answers.

    ** What is a parameter

    Code that is not in the repository: [snow] (class [Snow]; its documented
    behaviour is [transport_peers] and [xx_run]), the [vte] parser (class [Vte]) and
    the Unicode width table, base64 (classes [Base64], [Base64Laws]), the login
    backend's system calls.  Each law has an instance that satisfies it.

    ** What is not modelled

    System calls themselves (sockets, termios and raw mode, signals, fork and exec,
    daemonize, file modes and ownership): they appear as answers and effects.  Help
    texts, messages to the user, progress and logging.  How long a poll waits, except
    in the interactive loop, where it is computed.  The checks on the directory of an
    agent socket, and its file, are one answer; the disk of [ServerDriver] is that of the
    transfers.  [Delivery] has one upload to a destination at a time.  The parser of socket addresses, host names and ssh's
    own reading of its arguments.  Tests, the resilience harness, scripts and the site. *)

From Stdlib Require Export ZArith Lia.
From stdpp Require Export base numbers option relations list.

#[global] Open Scope Z_scope.

Create HintDb noissh.
Create Rewrite HintDb noissh.

(** ** Results: Rust's [Result<A, E>] *)

Inductive result (E A : Type) : Type :=
| Ok (a : A)
| Err (e : E).
Arguments Ok {E A} a.
Arguments Err {E A} e.

#[export] Instance result_ret {E} : MRet (result E) := λ A a, Ok a.
#[export] Instance result_bind {E} : MBind (result E) := λ A B f m,
  match m with Ok a => f a | Err e => Err e end.
#[export] Instance result_fmap {E} : FMap (result E) := λ A B f m,
  match m with Ok a => Ok (f a) | Err e => Err e end.

(** [Option::ok_or]. *)
Definition ok_or {E A} (o : option A) (e : E) : result E A :=
  match o with Some a => Ok a | None => Err e end.

#[export] Instance Ok_inj {E A} : Inj (=) (=) (@Ok E A).
Proof. by intros ? ? [= ->]. Qed.

(** [Result::map_err], also the [From] conversion that [?] inserts. *)
Definition map_err {E1 E2 A} (f : E1 → E2) (r : result E1 A) : result E2 A :=
  match r with Ok a => Ok a | Err e => Err (f e) end.

Definition is_ok {E A} (r : result E A) : bool :=
  match r with Ok _ => true | Err _ => false end.

#[export] Instance result_eq_dec {E A} `{EqDecision E, EqDecision A} :
  EqDecision (result E A).
Proof. solve_decision. Defined.

(** ** Slices

    [buf[from..upto]] and [buf[pos..pos + data.len()].copy_from_slice(data)], which
    panic out of range. *)

Definition slice {A} (l : list A) (from upto : nat) : list A :=
  take (upto - from) (drop from l).

Definition slice_checked {A} (l : list A) (from upto : nat) : option (list A) :=
  if (from <=? upto)%nat && (upto <=? length l)%nat then Some (slice l from upto) else None.

Definition copy_checked {A} (pos : nat) (data buf : list A) : option (list A) :=
  if (pos + length data <=? length buf)%nat then Some (list_inserts pos data buf) else None.

(** ** Readers: a parse over a buffer and a cursor

    [fn f(buf: &[u8], pos: &mut usize) -> Result<A, E>] is a function of the
    buffer and the cursor that returns the value and the advanced cursor; [None] is
    a panic. *)

Definition reader (E A : Type) : Type := list Z → nat → option (result E (A * nat)).

#[export] Instance reader_ret {E} : MRet (reader E) := λ A a buf pos, Some (Ok (a, pos)).
#[export] Instance reader_bind {E} : MBind (reader E) := λ A B f m buf pos,
  match m buf pos with
  | Some (Ok (a, pos')) => f a buf pos'
  | Some (Err e) => Some (Err e)
  | None => None
  end.

Definition reader_fail {E A} (e : E) : reader E A := λ buf pos, Some (Err e).

Definition reader_map_err {E1 E2 A} (f : E1 → E2) (m : reader E1 A) : reader E2 A :=
  λ buf pos, map_err f <$> m buf pos.

(** ** The operating system

    A loop over a non-blocking descriptor is a function of the answers that its
    calls get, in order; a script that is exhausted blocks.  No data is the end
    of the file. *)

Inductive ReadAnswer :=
| RdData (data : list Z)
| RdInterrupted
| RdWouldBlock
| RdFailed.

Inductive WriteAnswer :=
| WrTook (n : nat)
| WrInterrupted
| WrWouldBlock
| WrFailed.

(** ** Machine integers

    A [w]-bit unsigned integer is a [Z] in [[0, 2^w)]; arithmetic that the
    source leaves unchecked wraps (release profile: the workspace does not set
    [overflow-checks]). *)

Definition as_u8 (v : Z) : Z := v mod 2 ^ 8.
Definition as_u16 (v : Z) : Z := v mod 2 ^ 16.
Definition as_u32 (v : Z) : Z := v mod 2 ^ 32.
Definition as_u64 (v : Z) : Z := v mod 2 ^ 64.
Definition as_i32 (v : Z) : Z := (v + 2 ^ 31) mod 2 ^ 32 - 2 ^ 31.
Definition as_i64 (v : Z) : Z := (v + 2 ^ 63) mod 2 ^ 64 - 2 ^ 63.

Definition u64_max : Z := 2 ^ 64 - 1.
Definition u32_max : Z := 2 ^ 32 - 1.

(** [checked_add] / [saturating_add] / [saturating_sub] / [abs_diff]. *)
Definition checked_add_u64 (a b : Z) : option Z :=
  if a + b <=? u64_max then Some (a + b) else None.
Definition saturating_add_u64 (a b : Z) : Z := Z.min (a + b) u64_max.
Definition saturating_add_u32 (a b : Z) : Z := Z.min (a + b) u32_max.
Definition saturating_mul_u32 (a b : Z) : Z := Z.min (a * b) u32_max.
Definition saturating_sub (a b : Z) : Z := Z.max (a - b) 0.

Definition is_u8 (v : Z) : Prop := 0 ≤ v < 2 ^ 8.
Definition is_u16 (v : Z) : Prop := 0 ≤ v < 2 ^ 16.
Definition is_u32 (v : Z) : Prop := 0 ≤ v < 2 ^ 32.
Definition is_u64 (v : Z) : Prop := 0 ≤ v < 2 ^ 64.
Definition is_i32 (v : Z) : Prop := - 2 ^ 31 ≤ v < 2 ^ 31.
Definition is_i64 (v : Z) : Prop := - 2 ^ 63 ≤ v < 2 ^ 63.

(** Lengths as [u64]/[usize] integers. *)
Abbreviation zlen l := (Z.of_nat (length l)).

(** Every Rust allocation is at most [isize::MAX] bytes long. *)
Definition vec_fits {A} (l : list A) : Prop := zlen l < 2 ^ 63.

(** Unfold the width predicates and casts, leaving linear arithmetic with
    [mod] by constants. *)
Ltac unfold_ints :=
  unfold is_u8, is_u16, is_u32, is_u64, is_i32, is_i64,
    checked_add_u64, saturating_add_u64, saturating_add_u32, saturating_mul_u32,
    saturating_sub, vec_fits, u64_max, u32_max in *;
  change (2 ^ 8) with 256 in *; change (2 ^ 16) with 65536 in *;
  change (2 ^ 31) with 2147483648 in *; change (2 ^ 32) with 4294967296 in *;
  change (2 ^ 63) with 9223372036854775808 in *;
  change (2 ^ 64) with 18446744073709551616 in *.

Ltac lia_ints := unfold_ints; lia.

Lemma as_u8_id v : is_u8 v → as_u8 v = v.
Proof. intros. by apply Z.mod_small. Qed.
Lemma as_u16_id v : is_u16 v → as_u16 v = v.
Proof. intros. by apply Z.mod_small. Qed.
Lemma as_u32_id v : is_u32 v → as_u32 v = v.
Proof. intros. by apply Z.mod_small. Qed.
Lemma as_u64_id v : is_u64 v → as_u64 v = v.
Proof. intros. by apply Z.mod_small. Qed.
Lemma as_i32_id v : is_i32 v → as_i32 v = v.
Proof. intros. unfold as_i32. rewrite Z.mod_small; lia_ints. Qed.
Lemma as_i64_id v : is_i64 v → as_i64 v = v.
Proof. intros. unfold as_i64. rewrite Z.mod_small; lia_ints. Qed.

Lemma as_u8_range v : is_u8 (as_u8 v).
Proof. by apply Z.mod_pos_bound. Qed.
Lemma as_u16_range v : is_u16 (as_u16 v).
Proof. by apply Z.mod_pos_bound. Qed.
Lemma as_u32_range v : is_u32 (as_u32 v).
Proof. by apply Z.mod_pos_bound. Qed.
Lemma as_u64_range v : is_u64 (as_u64 v).
Proof. by apply Z.mod_pos_bound. Qed.
Lemma as_i32_range v : is_i32 (as_i32 v).
Proof.
  unfold as_i32. pose proof (Z.mod_pos_bound (v + 2 ^ 31) (2 ^ 32) ltac:(lia)).
  lia_ints.
Qed.

(** Bytes, checked by evaluation. *)
Lemma is_u8_all l : forallb (λ v, (0 <=? v) && (v <? 256)) l = true → Forall is_u8 l.
Proof.
  induction l as [|v l IH]; cbn; [by constructor|]. intros H.
  apply andb_true_iff in H as [[H1 H2]%andb_true_iff H3].
  constructor; [unfold is_u8; lia|auto].
Qed.

Lemma is_u16_u64 v : is_u16 v → is_u64 v.
Proof. lia_ints. Qed.
Lemma is_u32_u64 v : is_u32 v → is_u64 v.
Proof. lia_ints. Qed.
Lemma is_i32_i64 v : is_i32 v → is_i64 v.
Proof. lia_ints. Qed.

#[export] Hint Resolve as_u8_range as_u16_range as_u32_range as_u64_range
  as_i32_range is_u16_u64 is_u32_u64 is_i32_i64 : noissh.
#[export] Hint Rewrite as_u8_id as_u16_id as_u32_id as_u64_id as_i32_id as_i64_id
  using (first [assumption | lia_ints]) : noissh.

(** ** Bit-level lemmas *)

(** Or-ing bits into a free upper field is addition. *)
Lemma lor_shiftl_add a b s :
  0 ≤ s → 0 ≤ a < 2 ^ s → Z.lor a (Z.shiftl b s) = a + b * 2 ^ s.
Proof.
  intros Hs Ha. rewrite <- Z.shiftl_mul_pow2 by lia.
  symmetry. apply Z.add_nocarry_lor, Z.bits_inj'. intros n Hn.
  rewrite Z.land_spec, Z.bits_0, Z.shiftl_spec by lia.
  destruct (Z.ltb_spec n s).
  - rewrite (Z.testbit_neg_r b (n - s)) by lia. apply andb_false_r.
  - rewrite <- (Z.mod_small a (2 ^ s)) by lia.
    by rewrite Z.mod_pow2_bits_high by lia.
Qed.

Lemma land_127 v : Z.land v 127 = v mod 128.
Proof. apply (Z.land_ones v 7). lia. Qed.

Lemma land_1 v : Z.land v 1 = v mod 2.
Proof. apply (Z.land_ones v 1). lia. Qed.

Lemma shiftr_7 v : Z.shiftr v 7 = v / 128.
Proof. apply Z.shiftr_div_pow2. lia. Qed.

Lemma lor_128 a : 0 ≤ a < 128 → Z.lor a 128 = a + 128.
Proof. intros. apply (lor_shiftl_add a 1 7); lia. Qed.

Lemma land_128_small a : 0 ≤ a < 128 → Z.land a 128 = 0.
Proof.
  intros. apply Z.bits_inj'. intros n Hn. rewrite Z.land_spec, Z.bits_0.
  destruct (Z.eqb_spec n 7) as [->|].
  - rewrite <- (Z.mod_small a (2 ^ 7)) by lia.
    by rewrite Z.mod_pow2_bits_high by lia.
  - change 128 with (2 ^ 7). rewrite Z.pow2_bits_false by lia. apply andb_false_r.
Qed.

Lemma land_128_high a : 0 ≤ a < 128 → Z.land (a + 128) 128 = 128.
Proof.
  intros. rewrite <- lor_128, Z.land_lor_distr_l, land_128_small by lia. done.
Qed.

Lemma lor_bound n a b : 0 ≤ n → 0 ≤ a < 2 ^ n → 0 ≤ b < 2 ^ n → 0 ≤ Z.lor a b < 2 ^ n.
Proof.
  intros Hn Ha Hb. rewrite <- (Z.mod_small a (2 ^ n)), <- (Z.mod_small b (2 ^ n)) by done.
  rewrite <- !Z.land_ones, <- Z.land_lor_distr_l, Z.land_ones by lia.
  apply Z.mod_pos_bound. lia.
Qed.

Lemma land_bound n a b : 0 ≤ n → 0 ≤ a < 2 ^ n → 0 ≤ Z.land a b < 2 ^ n.
Proof.
  intros Hn Ha. rewrite <- (Z.mod_small a (2 ^ n)) by done.
  rewrite <- Z.land_ones, <- Z.land_assoc, (Z.land_comm (Z.ones n)), Z.land_assoc, Z.land_ones
    by lia.
  apply Z.mod_pos_bound. lia.
Qed.

(** ** List lemmas *)

(** The elements of an integer range, in the order of a loop over it. *)
Lemma seq_split s n done a rest :
  seq s n = done ++ a :: rest → a = (s + length done)%nat ∧ (length done < n)%nat.
Proof.
  intros H. assert (seq s n !! length done = Some a) as Hl
    by (rewrite H; by apply list_lookup_middle).
  apply lookup_seq in Hl as [-> ?]. done.
Qed.

Lemma rev_seq_split s n done a rest :
  rev (seq s n) = done ++ a :: rest →
  a = (s + (n - 1 - length done))%nat ∧ (length done < n)%nat.
Proof.
  intros H. assert (seq s n = rev rest ++ a :: rev done) as H'.
  { rewrite <- (rev_involutive (seq s n)), H, rev_app_distr. cbn. by rewrite <- (assoc_L (++)). }
  apply seq_split in H' as Hs. rewrite length_rev in Hs.
  apply (f_equal length) in H'. rewrite length_app, length_cons, !length_rev, length_seq in H'.
  lia.
Qed.

Lemma lookup_snoc_mid {A} (l1 l2 : list A) x :
  (l1 ++ x :: l2) !! length l1 = Some x.
Proof. by apply list_lookup_middle. Qed.

(** What a loop over a range has done lies before (after) what it does next. *)
Lemma seq_before s n done a rest x :
  seq s n = done ++ a :: rest → x ∈ done → (s ≤ x < a)%nat.
Proof.
  intros H (l1 & l2 & ->)%list_elem_of_split. apply seq_split in H as Ha.
  rewrite <- (assoc_L (++)) in H. cbn in H. apply seq_split in H as [-> _].
  rewrite length_app, length_cons in Ha. lia.
Qed.

Lemma rev_seq_before s n done a rest x :
  rev (seq s n) = done ++ a :: rest → x ∈ done → (a < x < s + n)%nat.
Proof.
  intros H (l1 & l2 & ->)%list_elem_of_split. apply rev_seq_split in H as Ha.
  rewrite <- (assoc_L (++)) in H. cbn in H. apply rev_seq_split in H as [-> _].
  rewrite length_app, length_cons in Ha. lia.
Qed.

Lemma elem_of_rev {A} (x : A) l : x ∈ rev l ↔ x ∈ l.
Proof. by rewrite !list_elem_of_In, <- in_rev. Qed.

Lemma NoDup_rev_seq s n : NoDup (rev (seq s n)).
Proof. apply NoDup_ListNoDup, NoDup_rev, NoDup_ListNoDup, NoDup_seq. Qed.

Lemma slice_checked_ok {A} (l : list A) a b :
  (a ≤ b ≤ length l)%nat → slice_checked l a b = Some (slice l a b).
Proof. intros. unfold slice_checked. by rewrite !(proj2 (Nat.leb_le _ _)) by lia. Qed.

Lemma slice_checked_some {A} (l : list A) a b x : slice_checked l a b = Some x → x = slice l a b.
Proof. unfold slice_checked. destruct (_ && _); [by intros [= <-]|done]. Qed.

Lemma slice_tail {A} (l : list A) a b : (length l ≤ b)%nat → slice l a b = drop a l.
Proof. intros. unfold slice. rewrite take_ge; [done|]. rewrite length_drop. lia. Qed.

Lemma copy_checked_ok {A} pos (data buf : list A) :
  (pos + length data ≤ length buf)%nat → copy_checked pos data buf = Some (list_inserts pos data buf).
Proof. intros. unfold copy_checked. by rewrite (proj2 (Nat.leb_le _ _)). Qed.

Lemma copy_checked_some {A} pos (data buf x : list A) :
  copy_checked pos data buf = Some x → x = list_inserts pos data buf.
Proof. unfold copy_checked. case_match; [by intros [= <-]|done]. Qed.

Lemma slice_mid {A} (l1 l2 l3 : list A) :
  slice (l1 ++ l2 ++ l3) (length l1) (length l1 + length l2) = l2.
Proof.
  unfold slice. rewrite drop_app_length.
  replace (length l1 + length l2 - length l1)%nat with (length l2) by lia.
  apply take_app_length.
Qed.

Lemma slice_mid' {A} (l1 l2 l3 : list A) a b :
  length l1 = a → (a + length l2)%nat = b → slice (l1 ++ l2 ++ l3) a b = l2.
Proof. intros <- <-. apply slice_mid. Qed.

Lemma length_slice {A} (l : list A) a b :
  (a ≤ b ≤ length l)%nat → length (slice l a b) = (b - a)%nat.
Proof. intros. unfold slice. rewrite length_take, length_drop. lia. Qed.

Lemma lookup_slice {A} (l : list A) a b i :
  (i < b - a)%nat → slice l a b !! i = l !! (a + i)%nat.
Proof. intros. unfold slice. by rewrite lookup_take_lt, lookup_drop by lia. Qed.

(** ** Loops that may panic

    [for a in l { s = f(a, s) }], where [f] returns [None] for a panic. *)
Fixpoint for_each {S A} (l : list A) (f : A → S → option S) (s : S) : option S :=
  match l with
  | [] => Some s
  | a :: l => s ← f a s; for_each l f s
  end.

(** A loop invariant indexed by the elements done so far. *)
Lemma for_each_inv {S A} (P : list A → S → Prop) (f : A → S → option S) l s :
  P [] s →
  (∀ done a rest s, l = done ++ a :: rest → P done s →
     ∃ s', f a s = Some s' ∧ P (done ++ [a]) s') →
  ∃ s', for_each l f s = Some s' ∧ P l s'.
Proof.
  assert (∀ todo done s, l = done ++ todo → P done s →
    (∀ done a rest s, l = done ++ a :: rest → P done s →
       ∃ s', f a s = Some s' ∧ P (done ++ [a]) s') →
    ∃ s', for_each todo f s = Some s' ∧ P l s') as H.
  { induction todo as [|a todo IH]; intros done s0 Hl HP Hf; cbn.
    - exists s0. rewrite app_nil_r in Hl. by subst.
    - destruct (Hf done a todo s0 Hl HP) as (s1 & -> & HP1). cbn.
      apply (IH (done ++ [a])); [|done|done]. by rewrite <- (assoc_L (++)). }
  intros. by apply (H l []).
Qed.

(** ** Decimal digits

    [n] in decimal, as ASCII; twenty digits hold any 64-bit number. *)
Fixpoint digits_loop (fuel : nat) (n : Z) (acc : list Z) : list Z :=
  match fuel with
  | O => acc
  | S fuel =>
    let acc := (48 + n mod 10) :: acc in
    if n / 10 =? 0 then acc else digits_loop fuel (n / 10) acc
  end.
Definition digits (n : Z) : list Z := digits_loop 20 n [].

(** ** Big-endian integers *)

(** [v.to_be_bytes()] of an [n]-byte integer. *)
Fixpoint to_be_bytes (n : nat) (v : Z) : list Z :=
  match n with
  | O => []
  | S n => to_be_bytes n (v / 256) ++ [v mod 256]
  end.

(** [from_be_bytes]. *)
Definition from_be_bytes (l : list Z) : Z := foldl (λ acc b, acc * 256 + b) 0 l.

Lemma length_to_be_bytes n v : length (to_be_bytes n v) = n.
Proof.
  revert v. induction n as [|n IH]; intros v; [done|]. cbn.
  rewrite length_app, IH. cbn. lia.
Qed.

Lemma from_to_be_bytes n v :
  0 ≤ v < 256 ^ Z.of_nat n → from_be_bytes (to_be_bytes n v) = v.
Proof.
  unfold from_be_bytes. revert v. induction n as [|n IH]; intros v Hv; cbn; [lia|].
  rewrite Nat2Z.inj_succ, Z.pow_succ_r in Hv by lia.
  rewrite foldl_app, IH.
  - cbn. pose proof (Z.div_mod v 256). lia.
  - split; [apply Z.div_pos; lia|apply Z.div_lt_upper_bound; lia].
Qed.

Lemma from_be_bytes_nonneg l : Forall is_u8 l → 0 ≤ from_be_bytes l.
Proof.
  unfold from_be_bytes. assert (0 ≤ 0) as H by lia. revert H. generalize 0 at 2 4.
  induction l as [|b l IH]; intros acc Hacc Hl; cbn; [done|].
  apply Forall_cons_1 in Hl as [Hb Hl]. apply IH; [unfold is_u8 in Hb; lia|done].
Qed.

(** ** Concrete values, by boolean tests *)

Lemma none_by_test {A} (o : option A) : match o with Some _ => false | None => true end = true → o = None.
Proof. by destruct o. Qed.
Lemma default_by_test {A} (d : A) (o : option A) :
  match o with Some _ => true | None => false end = true → o = Some (default d o).
Proof. by destruct o. Qed.
Lemma ok_by_test {E A} (d : A) (r : result E A) :
  is_ok r = true → r = Ok (match r with Ok a => a | Err _ => d end).
Proof. by destruct r. Qed.

(** ** Invariants of transition systems *)

Lemma rtc_invariant {A} (R : relation A) (I : A → Prop) x y :
  I x → (∀ a b, I a → R a b → I b) → rtc R x y → I y.
Proof. intros Hx Hstep. induction 1; eauto. Qed.

(** ** What a reader does: parsing an encoding, and staying in the buffer *)

(** [rd] parses the bytes [bs] to [v], wherever they sit in a buffer. *)
Definition reads {E A} (rd : reader E A) (bs : list Z) (v : A) : Prop :=
  ∀ pre post, vec_fits (pre ++ bs ++ post) →
    rd (pre ++ bs ++ post) (length pre) = Some (Ok (v, (length pre + length bs)%nat)).

Lemma reads_ret {E A} (v : A) : reads (E:=E) (mret v) [] v.
Proof. intros pre post _. unfold mret, reader_ret. do 3 f_equal. simpl. lia. Qed.

Lemma reads_bind {E A B} (m : reader E A) (k : A → reader E B) bs1 bs2 v w :
  reads m bs1 v → reads (k v) bs2 w → reads (m ≫= k) (bs1 ++ bs2) w.
Proof.
  intros H1 H2 pre post Hfit. unfold mbind, reader_bind.
  rewrite <- (assoc_L (++)), H1 by by rewrite (assoc_L (++) bs1).
  rewrite <- length_app, (assoc_L (++) pre), H2 by
    by rewrite <- !(assoc_L (++)), (assoc_L (++) bs1).
  rewrite !length_app. do 3 f_equal. lia.
Qed.

(** A check that consumes nothing. *)
Lemma reads_bind_nil {E A B} (m : reader E A) (k : A → reader E B) bs v w :
  reads m [] v → reads (k v) bs w → reads (m ≫= k) bs w.
Proof. apply (reads_bind m k []). Qed.

(** The last read of a record: the continuation consumes nothing. *)
Lemma reads_fmap {E A B} (m : reader E A) (f : A → B) bs v :
  reads m bs v → reads (m ≫= λ a, mret (f a)) bs (f v).
Proof.
  intros. rewrite <- (app_nil_r bs). eapply reads_bind; [done|apply reads_ret].
Qed.

Lemma reads_map_err {E1 E2 A} (f : E1 → E2) (m : reader E1 A) bs v :
  reads m bs v → reads (reader_map_err f m) bs v.
Proof. intros H pre post Hfit. unfold reader_map_err. by rewrite H. Qed.

(** [rd] only moves the cursor forward, by at least [k], inside the buffer. *)
Definition advances {E A} (k : nat) (rd : reader E A) : Prop :=
  ∀ buf pos v pos', (pos ≤ length buf)%nat → rd buf pos = Some (Ok (v, pos')) →
    (pos + k ≤ pos' ≤ length buf)%nat.

Lemma advances_ret {E A} (v : A) : advances 0 (E:=E) (mret v).
Proof. intros buf pos w pos' ? [= <- <-]. lia. Qed.

Lemma advances_fail {E A} k (e : E) : advances (A:=A) k (reader_fail e).
Proof. intros buf pos w pos' ? [=]. Qed.

Lemma advances_bind {E A B} k l (m : reader E A) (f : A → reader E B) :
  advances k m → (∀ a, advances l (f a)) → advances (k + l) (m ≫= f).
Proof.
  intros Hm Hf buf pos v pos' Hpos. unfold mbind, reader_bind.
  destruct (m buf pos) as [[[a p]|e]|] eqn:Hb; [|done..]. intros Hr.
  apply Hm in Hb; [|done]. apply Hf in Hr; lia.
Qed.

Lemma advances_weaken {E A} k l (m : reader E A) :
  (l ≤ k)%nat → advances k m → advances l m.
Proof. intros ? H buf pos v pos' ? ?%H; lia. Qed.

Lemma advances_bind_0 {E A B} k (m : reader E A) (f : A → reader E B) :
  advances k m → (∀ a, advances 0 (f a)) → advances k (m ≫= f).
Proof. intros. replace k with (k + 0)%nat by lia. by apply advances_bind. Qed.

Lemma advances_map_err {E1 E2 A} k (f : E1 → E2) (m : reader E1 A) :
  advances k m → advances k (reader_map_err f m).
Proof.
  intros H buf pos v pos' Hp. unfold reader_map_err, map_err.
  destruct (m buf pos) as [[a|e]|] eqn:Hm; [|done..]. intros [= ->]. by eapply H.
Qed.

(** [rd] does not panic inside the buffer. *)
Definition calm {E A} (rd : reader E A) : Prop :=
  ∀ buf pos, (pos ≤ length buf)%nat → is_Some (rd buf pos).

Lemma calm_ret {E A} (v : A) : calm (E:=E) (mret v).
Proof. by intros buf pos _. Qed.

Lemma calm_fail {E A} (e : E) : calm (A:=A) (reader_fail e).
Proof. by intros buf pos _. Qed.

Lemma calm_bind {E A B} k (m : reader E A) (f : A → reader E B) :
  advances k m → calm m → (∀ a, calm (f a)) → calm (m ≫= f).
Proof.
  intros Ha Hm Hf buf pos Hp. unfold mbind, reader_bind.
  destruct (Hm buf pos Hp) as [[[a p]|e] Hr]; rewrite Hr; [|done].
  apply Ha in Hr; [|done]. apply Hf. lia.
Qed.

Lemma calm_map_err {E1 E2 A} (f : E1 → E2) (m : reader E1 A) : calm m → calm (reader_map_err f m).
Proof. intros H buf pos Hp. unfold reader_map_err. destruct (H buf pos Hp) as [r ->]. by eexists. Qed.

#[export] Hint Resolve reads_ret reads_map_err : noissh.
#[export] Hint Resolve advances_ret advances_fail advances_map_err : noissh.
#[export] Hint Resolve calm_ret calm_fail calm_map_err : noissh.

(** Parse one field after another with the readers' round-trip lemmas. *)
Ltac reads_fields :=
  repeat first
    [ apply reads_ret
    | solve [eauto with noissh]
    | eapply reads_bind; [solve [eauto with noissh]|]
    | apply reads_fmap; solve [eauto with noissh]
    | eapply reads_bind_nil; [solve [eauto with noissh]|] ].

(** Show that a chain of reads only moves the cursor forward. *)
Ltac advance_fields :=
  repeat first
    [ match goal with |- ∀ _, _ => intros ? end
    | solve [eauto with noissh]
    | solve [eapply advances_weaken; [|eauto with noissh]; lia]
    | lazymatch goal with
      | |- advances _ (_ ≫= _) => apply advances_bind_0
      | |- advances _ (if ?b then _ else _) => destruct b
      | |- advances _ (match ?o with _ => _ end) => destruct o
      end ].

(** Show that a chain of reads does not panic. *)
Ltac calm_fields :=
  repeat first
    [ match goal with |- ∀ _, _ => intros ? end
    | solve [eauto with noissh]
    | lazymatch goal with
      | |- calm (_ ≫= _) => eapply calm_bind; [solve [eauto with noissh]|..]
      | |- calm (if ?b then _ else _) => destruct b
      | |- calm (match ?o with _ => _ end) => destruct o
      end ].

(** ** A codec: an encoder with its decoder, and the round-trip law *)
Class Codec (E A : Type) := {
  codec_wf : A → Prop;
  codec_enc : A → list Z;
  codec_dec : reader E A;
  codec_reads : ∀ a, codec_wf a → reads codec_dec (codec_enc a) a;
  codec_advances : advances 1 codec_dec;
  codec_calm : calm codec_dec;
}.
