(* ===== verification/Wire.v ===== *)
(** * The wire frame codec ([crates/wire/src/lib.rs])

    Varints, zig-zag integers, length-prefixed bytes and the twelve frame
    types.  A [&mut Vec<u8>] argument is modelled by the bytes it gains, the
    [buf]/[pos] pair of a decoder by [Prelude.reader].  [usize] is 64 bits. *)

From S2P Require Import Prelude.

(** @ crates/wire/src/lib.rs:10-22 WireError *)
Inductive WireError :=
| UnexpectedEof
| UnknownFrame (tag : Z)
| VarintOverflow
| BadLength
| BadUtf8.

#[export] Instance WireError_eq_dec : EqDecision WireError.
Proof. solve_decision. Defined.

(** @ crates/wire/src/lib.rs:24-37 StreamKind *)
Inductive StreamKind := Session | Forward | FileTransfer | Agent | Exec.

#[export] Instance StreamKind_eq_dec : EqDecision StreamKind.
Proof. solve_decision. Defined.

(** [*kind as u8]: the declared discriminants.
    @ crates/wire/src/lib.rs:26-37 StreamKind *)
Definition kind_as_u8 (k : StreamKind) : Z :=
  match k with
  | Session => 0 | Forward => 1 | FileTransfer => 2 | Agent => 3 | Exec => 4
  end.

(** @ crates/wire/src/lib.rs:40-49 StreamKind::from_u8 *)
Definition kind_from_u8 (v : Z) : result WireError StreamKind :=
  match v with
  | 0 => Ok Session | 1 => Ok Forward | 2 => Ok FileTransfer
  | 3 => Ok Agent | 4 => Ok Exec
  | other => Err (UnknownFrame other)
  end.

(** @ crates/wire/src/lib.rs:52-115 Frame *)
Inductive Frame :=
| Ack (seq : Z)
| Input (offset : Z) (data : list Z)
| StateDiff (seq base : Z) (data : list Z)
| Resize (cols rows : Z)
| Ping (stamp : Z)
| Pong (stamp : Z)
| StreamOpen (id : Z) (kind : StreamKind) (meta : list Z)
| StreamData (id offset : Z) (data : list Z) (fin : bool)
| StreamAck (id ack window : Z)
| StreamClose (id status : Z)
| StreamReset (id : Z)
| Control (data : list Z).

#[export] Instance Frame_eq_dec : EqDecision Frame.
Proof. solve_decision. Defined.

(** The field types of the enum: widths of the integers. *)
Definition frame_wf (f : Frame) : Prop :=
  match f with
  | Ack seq => is_u64 seq
  | Input offset _ => is_u64 offset
  | StateDiff seq base _ => is_u64 seq ∧ is_u64 base
  | Resize cols rows => is_u16 cols ∧ is_u16 rows
  | Ping stamp | Pong stamp => is_u64 stamp
  | StreamOpen id _ _ => is_u64 id
  | StreamData id offset _ _ => is_u64 id ∧ is_u64 offset
  | StreamAck id ack window => is_u64 id ∧ is_u64 ack ∧ is_u32 window
  | StreamClose id status => is_u64 id ∧ is_i32 status
  | StreamReset id => is_u64 id
  | Control _ => True
  end.

(** Frame type tags. @ crates/wire/src/lib.rs:117-129 T_ACK .. T_CONTROL *)
Definition T_ACK : Z := 0x01.
Definition T_INPUT : Z := 0x02.
Definition T_STATEDIFF : Z := 0x03.
Definition T_RESIZE : Z := 0x04.
Definition T_PING : Z := 0x05.
Definition T_PONG : Z := 0x06.
Definition T_STREAM_OPEN : Z := 0x10.
Definition T_STREAM_DATA : Z := 0x11.
Definition T_STREAM_ACK : Z := 0x12.
Definition T_STREAM_CLOSE : Z := 0x13.
Definition T_STREAM_RESET : Z := 0x14.
Definition T_CONTROL : Z := 0x20.

(** ** Primitive fields *)

(** One round of the [loop] per unit of fuel; a [u64] needs at most ten. *)
Fixpoint put_varint_loop (fuel : nat) (v : Z) : list Z :=
  match fuel with
  | O => []
  | S fuel =>
    let byte := Z.land v 0x7f in
    let v := Z.shiftr v 7 in
    let byte := if v =? 0 then byte else Z.lor byte 0x80 in
    byte :: (if v =? 0 then [] else put_varint_loop fuel v)
  end.

(** @ crates/wire/src/lib.rs:131-144 put_varint *)
Definition put_varint (v : Z) : list Z := put_varint_loop 10 v.

(** One round of the [loop] per unit of fuel: [shift] grows by 7 from 0, so the
    eleventh round ([shift = 70]) always returns. *)
Fixpoint get_varint_loop (fuel : nat) (result shift : Z) : reader WireError Z :=
  λ buf pos,
  match fuel with
  | O => Some (Err VarintOverflow)
  | S fuel =>
    match buf !! pos with
    | None => Some (Err UnexpectedEof)
    | Some byte =>
      let pos := S pos in
      if (64 <=? shift) || ((shift =? 63) && negb (Z.land byte 0x7e =? 0))
      then Some (Err VarintOverflow)
      else
        let result := Z.lor result (as_u64 (Z.shiftl (Z.land byte 0x7f) shift)) in
        if Z.land byte 0x80 =? 0 then Some (Ok (result, pos))
        else get_varint_loop fuel result (shift + 7) buf pos
    end
  end.

(** @ crates/wire/src/lib.rs:146-162 get_varint *)
Definition get_varint : reader WireError Z := get_varint_loop 11 0 0.

(** @ crates/wire/src/lib.rs:164-167 put_bytes *)
Definition put_bytes (data : list Z) : list Z := put_varint (zlen data) ++ data.

(** The bounds checks and the copy [buf[*pos..end].to_vec()].
    @ crates/wire/src/lib.rs:171-177 get_bytes *)
Definition take_bytes (len : Z) : reader WireError (list Z) := λ buf pos,
  match checked_add_u64 (Z.of_nat pos) len with
  | None => Some (Err BadLength)
  | Some endp =>
    if zlen buf <? endp then Some (Err BadLength)
    else
      out ← slice_checked buf pos (Z.to_nat endp);
      Some (Ok (out, Z.to_nat endp))
  end.

(** @ crates/wire/src/lib.rs:169-178 get_bytes *)
Definition get_bytes : reader WireError (list Z) :=
  len ← get_varint; take_bytes len.

(** @ crates/wire/src/lib.rs:180-184 get_u8 *)
Definition get_u8 : reader WireError Z := λ buf pos,
  match buf !! pos with
  | None => Some (Err UnexpectedEof)
  | Some b => Some (Ok (b, S pos))
  end.

(** @ crates/wire/src/lib.rs:320-322 zigzag *)
Definition zigzag (v : Z) : Z :=
  as_u64 (Z.lxor (as_i64 (Z.shiftl v 1)) (Z.shiftr v 63)).

(** @ crates/wire/src/lib.rs:324-326 unzigzag *)
Definition unzigzag (v : Z) : Z :=
  Z.lxor (as_i64 (Z.shiftr v 1)) (- as_i64 (Z.land v 1)).

(** ** Frames *)

(** @ crates/wire/src/lib.rs:186-256 Frame::encode *)
Definition encode (f : Frame) : list Z :=
  match f with
  | Ack seq => [T_ACK] ++ put_varint seq
  | Input offset data => [T_INPUT] ++ put_varint offset ++ put_bytes data
  | StateDiff seq base data =>
    [T_STATEDIFF] ++ put_varint seq ++ put_varint base ++ put_bytes data
  | Resize cols rows => [T_RESIZE] ++ put_varint cols ++ put_varint rows
  | Ping stamp => [T_PING] ++ put_varint stamp
  | Pong stamp => [T_PONG] ++ put_varint stamp
  | StreamOpen id kind meta =>
    [T_STREAM_OPEN] ++ put_varint id ++ [kind_as_u8 kind] ++ put_bytes meta
  | StreamData id offset data fin =>
    [T_STREAM_DATA] ++ put_varint id ++ put_varint offset ++
    [if fin then 1 else 0] ++ put_bytes data
  | StreamAck id ack window =>
    [T_STREAM_ACK] ++ put_varint id ++ put_varint ack ++ put_varint window
  | StreamClose id status =>
    [T_STREAM_CLOSE] ++ put_varint id ++ put_varint (zigzag status)
  | StreamReset id => [T_STREAM_RESET] ++ put_varint id
  | Control data => [T_CONTROL] ++ put_bytes data
  end.

Definition lift_result {E A} (r : result E A) : reader E A :=
  λ buf pos, Some (match r with Ok a => Ok (a, pos) | Err e => Err e end).

(** @ crates/wire/src/lib.rs:258-317 Frame::decode *)
Definition decode : reader WireError Frame :=
  tag ← get_u8;
  if tag =? T_ACK then seq ← get_varint; mret (Ack seq)
  else if tag =? T_INPUT then
    offset ← get_varint; data ← get_bytes; mret (Input offset data)
  else if tag =? T_STATEDIFF then
    seq ← get_varint; base ← get_varint; data ← get_bytes;
    mret (StateDiff seq base data)
  else if tag =? T_RESIZE then
    cols ← get_varint; rows ← get_varint; mret (Resize (as_u16 cols) (as_u16 rows))
  else if tag =? T_PING then stamp ← get_varint; mret (Ping stamp)
  else if tag =? T_PONG then stamp ← get_varint; mret (Pong stamp)
  else if tag =? T_STREAM_OPEN then
    id ← get_varint; k ← get_u8; kind ← lift_result (kind_from_u8 k);
    meta ← get_bytes; mret (StreamOpen id kind meta)
  else if tag =? T_STREAM_DATA then
    id ← get_varint; offset ← get_varint; fin ← get_u8; data ← get_bytes;
    mret (StreamData id offset data (negb (fin =? 0)))
  else if tag =? T_STREAM_ACK then
    id ← get_varint; ack ← get_varint; window ← get_varint;
    mret (StreamAck id ack (as_u32 window))
  else if tag =? T_STREAM_CLOSE then
    id ← get_varint; z ← get_varint; mret (StreamClose id (as_i32 (unzigzag z)))
  else if tag =? T_STREAM_RESET then id ← get_varint; mret (StreamReset id)
  else if tag =? T_CONTROL then data ← get_bytes; mret (Control data)
  else reader_fail (UnknownFrame tag).

(** @ crates/wire/src/lib.rs:328-335 encode_frames *)
Definition encode_frames (frames : list Frame) : list Z :=
  foldl (λ out f, out ++ encode f) [] frames.

(** One round of the [while pos < buf.len()] loop per unit of fuel; [None] is a
    panic, or no fuel left. *)
Fixpoint decode_loop (fuel : nat) (buf : list Z) (pos : nat) (frames : list Frame) :
    option (result WireError (list Frame)) :=
  if (pos <? length buf)%nat then
    match fuel with
    | O => None
    | S fuel =>
      match decode buf pos with
      | None => None
      | Some (Err e) => Some (Err e)
      | Some (Ok (f, pos)) => decode_loop fuel buf pos (frames ++ [f])
      end
    end
  else Some (Ok frames).

(** The loop runs at most once per byte, so [length buf] rounds are enough.
    @ crates/wire/src/lib.rs:337-345 decode_frames *)
Definition decode_frames_checked (buf : list Z) : option (result WireError (list Frame)) :=
  decode_loop (length buf) buf 0 [].

(** It never panics ([decode_frames_terminates]), so the default is never taken. *)
Definition decode_frames (buf : list Z) : result WireError (list Frame) :=
  default (Err UnexpectedEof) (decode_frames_checked buf).

(** ** Varints *)

Lemma put_varint_small n v : 0 ≤ v < 128 → put_varint_loop (S n) v = [v].
Proof.
  intros. cbn. rewrite shiftr_7, Z.div_small, land_127, Z.mod_small by lia. done.
Qed.

Lemma put_varint_step n v :
  128 ≤ v → put_varint_loop (S n) v = (v mod 128 + 128) :: put_varint_loop n (v / 128).
Proof.
  intros. cbn. rewrite shiftr_7, land_127.
  assert (1 ≤ v / 128) by (apply Z.div_le_lower_bound; lia).
  rewrite (proj2 (Z.eqb_neq (v / 128) 0)) by lia.
  rewrite lor_128 by (apply Z.mod_pos_bound; lia). done.
Qed.

(** Enough fuel: ten rounds cover a [u64], more change nothing. *)
Lemma put_varint_loop_fuel n m v :
  0 ≤ v < 2 ^ (7 * Z.of_nat (S n)) → (n ≤ m)%nat →
  put_varint_loop (S m) v = put_varint_loop (S n) v.
Proof.
  revert m v. induction n as [|n IH]; intros m v Hv Hm.
  - rewrite !put_varint_small by lia. done.
  - destruct (Z.ltb_spec v 128); [by rewrite !put_varint_small by lia|].
    destruct m as [|m]; [lia|].
    rewrite (put_varint_step (S m)), (put_varint_step (S n)) by lia. f_equal.
    apply IH; [|lia].
    replace (7 * Z.of_nat (S (S n))) with (7 + 7 * Z.of_nat (S n)) in Hv by lia.
    rewrite Z.pow_add_r in Hv by lia.
    split; [apply Z.div_pos; lia|apply Z.div_lt_upper_bound; lia].
Qed.

Lemma get_varint_loop_last n acc s pre post v :
  0 ≤ v < 128 → 0 ≤ s ≤ 63 → v * 2 ^ s < 2 ^ 64 → 0 ≤ acc < 2 ^ s →
  get_varint_loop (S n) acc s (pre ++ v :: post) (length pre) =
    Some (Ok (acc + v * 2 ^ s, S (length pre))).
Proof.
  intros Hv Hs Hov Hacc. cbn. rewrite lookup_snoc_mid.
  rewrite land_127, (Z.mod_small v) by lia.
  pose proof (Z.pow_pos_nonneg 2 s ltac:(lia) ltac:(lia)).
  rewrite as_u64_id by (rewrite Z.shiftl_mul_pow2 by lia; unfold is_u64; nia).
  rewrite lor_shiftl_add, land_128_small by lia.
  rewrite (proj2 (Z.leb_gt 64 s)) by lia. cbn [orb].
  destruct (Z.eqb_spec s 63) as [->|]; [|done].
  assert (v = 0 ∨ v = 1) as [-> | ->] by lia; done.
Qed.

Lemma get_varint_loop_more n acc s pre post b :
  0 ≤ b < 128 → 0 ≤ s < 57 → 0 ≤ acc < 2 ^ s →
  get_varint_loop (S n) acc s (pre ++ (b + 128) :: post) (length pre) =
    get_varint_loop n (acc + b * 2 ^ s) (s + 7)
      (pre ++ (b + 128) :: post) (S (length pre)).
Proof.
  intros Hb Hs Hacc. cbn. rewrite lookup_snoc_mid, land_127.
  replace ((b + 128) mod 128) with b
    by (rewrite <- Z.add_mod_idemp_r, Z.add_0_r, Z.mod_small; lia).
  assert (b * 2 ^ s < 2 ^ 64).
  { change (2 ^ 64) with (128 * 2 ^ 57).
    pose proof (Z.pow_lt_mono_r 2 s 57 ltac:(lia) ltac:(lia) ltac:(lia)). nia. }
  pose proof (Z.pow_pos_nonneg 2 s ltac:(lia) ltac:(lia)).
  rewrite as_u64_id by (rewrite Z.shiftl_mul_pow2 by lia; unfold is_u64; nia).
  rewrite lor_shiftl_add, land_128_high by lia.
  rewrite (proj2 (Z.leb_gt 64 s)), (proj2 (Z.eqb_neq s 63)) by lia. done.
Qed.

Lemma get_put_varint_loop n m v acc s pre post :
  0 ≤ v < 2 ^ (7 * Z.of_nat (S n)) → (n < m)%nat →
  0 ≤ s ≤ 63 → v * 2 ^ s < 2 ^ 64 → 0 ≤ acc < 2 ^ s →
  get_varint_loop m acc s (pre ++ put_varint_loop (S n) v ++ post) (length pre) =
    Some (Ok (acc + v * 2 ^ s,
        (length pre + length (put_varint_loop (S n) v))%nat)).
Proof.
  revert m v acc s pre. induction n as [|n IH]; intros m v acc s pre Hv Hm Hs Hov Hacc.
  all: destruct m as [|m]; [lia|].
  all: destruct (Z.ltb_spec v 128).
  1,3: rewrite put_varint_small by lia; cbn [app length];
    rewrite get_varint_loop_last by lia; do 3 f_equal; lia.
  { lia. }
  rewrite put_varint_step by lia. cbn [app].
  assert (s < 57).
  { destruct (Z.ltb_spec s 57); [done|].
    pose proof (Z.pow_le_mono_r 2 57 s ltac:(lia) ltac:(lia)).
    assert (128 * 2 ^ 57 ≤ v * 2 ^ s) by nia. change (2 ^ 64) with (128 * 2 ^ 57) in *. lia. }
  pose proof (Z.mod_pos_bound v 128 ltac:(lia)).
  pose proof (Z.div_mod v 128 ltac:(lia)).
  assert (2 ^ (s + 7) = 128 * 2 ^ s) as Hp by (rewrite Z.pow_add_r; lia).
  rewrite get_varint_loop_more by lia.
  rewrite (cons_middle _ pre), (assoc_L (++) pre).
  replace (S (length pre)) with (length (pre ++ [v mod 128 + 128]))
    by (rewrite length_app; simpl; lia).
  rewrite IH; rewrite ?Hp; try nia.
  - cbn [length]. rewrite length_app. cbn [length]. do 3 f_equal; [nia|lia].
  - replace (7 * Z.of_nat (S (S n))) with (7 + 7 * Z.of_nat (S n)) in Hv by lia.
    rewrite Z.pow_add_r in Hv by lia.
    split; [apply Z.div_pos; lia|apply Z.div_lt_upper_bound; lia].
Qed.

Lemma get_put_varint v : is_u64 v → reads get_varint (put_varint v) v.
Proof.
  intros Hv pre post _. unfold get_varint, put_varint.
  rewrite (get_put_varint_loop 9); [by rewrite Z.pow_0_r, Z.mul_1_r|lia_ints..].
Qed.

(** A decoded varint is a [u64] whatever the bytes are. *)
Lemma get_varint_loop_range n acc s buf pos v pos' :
  is_u64 acc → 0 ≤ s → get_varint_loop n acc s buf pos = Some (Ok (v, pos')) → is_u64 v.
Proof.
  revert acc s pos. induction n as [|n IH]; intros acc s pos Ha Hs; cbn; [done|].
  destruct (buf !! pos) as [b|]; [|done].
  destruct (_ || _); [done|].
  assert (is_u64 (Z.lor acc (as_u64 (Z.shiftl (Z.land b 127) s)))).
  { set (x := as_u64 _). assert (is_u64 x) as Hx by apply as_u64_range.
    rewrite <- (as_u64_id acc), <- (as_u64_id x) by done. unfold as_u64.
    rewrite <- !Z.land_ones by lia. rewrite <- Z.land_lor_distr_l, Z.land_ones by lia.
    apply Z.mod_pos_bound. lia. }
  destruct (_ =? 0); [by intros [= <- _]|]. apply IH; [done|lia].
Qed.

Lemma get_varint_range buf pos v pos' :
  get_varint buf pos = Some (Ok (v, pos')) → is_u64 v.
Proof. apply get_varint_loop_range; lia_ints. Qed.

(** The varint loop never needs a twelfth round. *)
Lemma get_varint_loop_fuel n m acc s buf pos :
  (11 - Z.to_nat (s / 7) ≤ n)%nat → (11 - Z.to_nat (s / 7) ≤ m)%nat →
  0 ≤ s ≤ 70 → s mod 7 = 0 →
  get_varint_loop n acc s buf pos = get_varint_loop m acc s buf pos.
Proof.
  revert m acc s pos. induction n as [|n IH]; intros m acc s pos Hn Hm Hs H7;
    pose proof (Z.div_mod s 7 ltac:(lia)); [lia|].
  destruct m as [|m]; [lia|]. cbn. destruct (buf !! pos); [|done].
  destruct (Z.leb_spec 64 s); [done|]. cbn [orb].
  destruct (_ && _); [done|]. destruct (_ =? 0); [done|].
  assert ((s + 7) / 7 = s / 7 + 1) as Hd by (apply (Z.div_add s 1 7); lia).
  apply IH; [rewrite Hd; lia..|lia|].
  rewrite (Z.mod_eq (s + 7)), Hd by lia. lia.
Qed.

Lemma get_varint_loop_advances n acc s : advances 1 (get_varint_loop n acc s).
Proof.
  revert acc s. induction n as [|n IH]; intros acc s buf pos v pos' Hp; cbn; [done|].
  destruct (buf !! pos) as [b|] eqn:Hb; [|done].
  apply lookup_lt_Some in Hb.
  destruct (_ || _); [done|]. destruct (_ =? 0); [intros [= _ <-]; lia|].
  intros Hr. apply IH in Hr; lia.
Qed.

Lemma get_varint_advances : advances 1 get_varint.
Proof. apply get_varint_loop_advances. Qed.

Lemma get_varint_calm : calm get_varint.
Proof.
  intros buf pos _. unfold get_varint. generalize 0 at 2. generalize 0. generalize 11%nat.
  intros n. revert pos. induction n as [|n IH]; intros pos acc s; cbn; [done|].
  destruct (buf !! pos); [|done]. destruct (_ || _); [done|]. destruct (_ =? 0); [done|]. apply IH.
Qed.

(** ** Bytes and length-prefixed bytes *)

Lemma get_u8_reads b : reads get_u8 [b] b.
Proof.
  intros pre post _. unfold get_u8. cbn [app]. rewrite lookup_snoc_mid.
  do 3 f_equal. cbn. lia.
Qed.

Lemma get_u8_calm : calm get_u8.
Proof. intros buf pos _. unfold get_u8. by destruct (buf !! pos). Qed.

Lemma get_u8_advances : advances 1 get_u8.
Proof.
  intros buf pos v pos' Hp. unfold get_u8.
  destruct (buf !! pos) eqn:Hb; [|done]. apply lookup_lt_Some in Hb.
  intros [= _ <-]. lia.
Qed.

Lemma take_bytes_reads data : reads (take_bytes (zlen data)) data data.
Proof.
  intros pre post Hfit. unfold take_bytes, checked_add_u64, vec_fits in *.
  rewrite !length_app in *.
  rewrite (proj2 (Z.leb_le _ _)) by lia_ints.
  rewrite (proj2 (Z.ltb_ge _ _)) by lia_ints.
  rewrite <- Nat2Z.inj_add, Nat2Z.id, slice_checked_ok, slice_mid; [done|].
  rewrite !length_app. lia.
Qed.

Lemma get_bytes_reads data : reads get_bytes (put_bytes data) data.
Proof.
  intros pre post Hfit. unfold get_bytes, put_bytes.
  eapply reads_bind; [apply get_put_varint|apply take_bytes_reads|done].
  unfold put_bytes, vec_fits in Hfit. rewrite !length_app in Hfit. lia_ints.
Qed.

Lemma take_bytes_advances len : 0 ≤ len → advances 0 (take_bytes len).
Proof.
  intros Hl buf pos v pos' Hp. unfold take_bytes, checked_add_u64.
  destruct (Z.leb_spec (Z.of_nat pos + len) u64_max); [|done].
  destruct (Z.ltb_spec (zlen buf) (Z.of_nat pos + len)); [done|].
  destruct (slice_checked _ _ _); [|done]. intros [= _ <-]. lia.
Qed.

(** The two checks in front of the slice are what keeps it in range. *)
Lemma take_bytes_calm len : 0 ≤ len → calm (take_bytes len).
Proof.
  intros Hl buf pos Hp. unfold take_bytes, checked_add_u64. destruct (_ <=? _); [|done].
  destruct (Z.ltb_spec (zlen buf) (Z.of_nat pos + len)); [done|].
  rewrite slice_checked_ok by lia. by eexists.
Qed.

Lemma get_bytes_calm : calm get_bytes.
Proof.
  intros buf pos Hp. unfold get_bytes, mbind, reader_bind.
  destruct (get_varint_calm buf pos Hp) as [[[len p]|e] Hv]; rewrite Hv; [|done].
  pose proof (get_varint_range _ _ _ _ Hv). apply get_varint_advances in Hv; [|done].
  apply take_bytes_calm; lia_ints.
Qed.

Lemma get_bytes_advances : advances 1 get_bytes.
Proof.
  intros buf pos v pos' Hp. unfold get_bytes, mbind, reader_bind.
  destruct (get_varint buf pos) as [[[len p]|e]|] eqn:Hv; [|done..].
  pose proof (get_varint_range _ _ _ _ Hv).
  apply get_varint_advances in Hv; [|done].
  intros Ht. apply take_bytes_advances in Ht; lia_ints.
Qed.

Lemma lift_result_advances {E A} (r : result E A) : advances 0 (lift_result r).
Proof. intros buf pos v pos' Hp. destruct r; [intros [= _ <-]; lia|done]. Qed.

Lemma lift_result_calm {E A} (r : result E A) : calm (lift_result r).
Proof. by intros buf pos _. Qed.

Lemma kind_reads k : reads (lift_result (kind_from_u8 (kind_as_u8 k))) [] k.
Proof. intros pre post _. unfold lift_result. destruct k; cbn; do 3 f_equal; lia. Qed.

#[export] Hint Resolve get_put_varint get_u8_reads get_bytes_reads kind_reads : noissh.
#[export] Hint Resolve get_varint_advances get_u8_advances get_bytes_advances
  lift_result_advances : noissh.
#[export] Hint Resolve get_varint_calm get_u8_calm get_bytes_calm lift_result_calm : noissh.

(** ** Zig-zag integers *)

Lemma zigzag_eq v :
  is_i64 v → zigzag v = if v <? 0 then - (2 * v) - 1 else 2 * v.
Proof.
  intros Hv. unfold zigzag. rewrite Z.shiftl_mul_pow2, Z.shiftr_div_pow2 by lia.
  change (2 ^ 1) with 2.
  destruct (Z.ltb_spec v 0).
  - replace (v / 2 ^ 63) with (-1)
      by (apply Z.div_unique with (v + 2 ^ 63); lia_ints).
    rewrite Z.lxor_m1_r. unfold Z.lnot, Z.pred, as_i64, as_u64.
    destruct (Z.leb_spec (- 2 ^ 62) v).
    + rewrite (Z.mod_small (v * 2 + 2 ^ 63)) by lia_ints.
      rewrite Z.mod_small; lia_ints.
    + replace (v * 2 + 2 ^ 63) with ((v * 2 + 2 ^ 63 + 2 ^ 64) + (-1) * 2 ^ 64) by lia.
      rewrite Z.mod_add, (Z.mod_small (v * 2 + 2 ^ 63 + 2 ^ 64)) by lia_ints.
      replace (- (v * 2 + 2 ^ 63 + 2 ^ 64 - 2 ^ 63) + -1)
        with ((- (2 * v) - 1) + (-1) * 2 ^ 64) by lia.
      rewrite Z.mod_add, Z.mod_small by lia_ints. lia.
  - rewrite (Z.div_small v) by lia_ints. rewrite Z.lxor_0_r. unfold as_i64, as_u64.
    rewrite Zminus_mod_idemp_l.
    replace (v * 2 + 2 ^ 63 - 2 ^ 63) with (2 * v) by lia.
    apply Z.mod_small. lia_ints.
Qed.

Lemma zigzag_range v : is_i64 v → is_u64 (zigzag v).
Proof. intros. rewrite zigzag_eq by done. destruct (Z.ltb_spec v 0); lia_ints. Qed.

Lemma unzigzag_zigzag_id v : is_i64 v → unzigzag (zigzag v) = v.
Proof.
  intros Hv. rewrite zigzag_eq by done. unfold unzigzag.
  rewrite land_1, Z.shiftr_div_pow2 by lia. change (2 ^ 1) with 2. destruct (Z.ltb_spec v 0).
  - replace (- (2 * v) - 1) with (1 + (- v - 1) * 2) by lia.
    rewrite Z.div_add, Z.mod_add by lia. change (1 / 2) with 0. change (1 mod 2) with 1.
    rewrite Z.add_0_l, !as_i64_id by lia_ints. change (- (1)) with (-1).
    rewrite Z.lxor_m1_r. unfold Z.lnot. lia.
  - rewrite (Z.mul_comm 2 v), Z.div_mul, Z.mod_mul by lia.
    rewrite !as_i64_id by lia_ints. apply Z.lxor_0_r.
Qed.

#[export] Hint Resolve zigzag_range : noissh.
#[export] Hint Rewrite unzigzag_zigzag_id using (eauto with noissh) : noissh.

(** ** Frames *)

Lemma reads_eq {E A} (rd : reader E A) bs v w : reads rd bs v → v = w → reads rd bs w.
Proof. by intros ? <-. Qed.

Lemma decode_encode f : frame_wf f → reads decode (encode f) f.
Proof.
  intros Hwf. unfold decode. destruct f; cbn [frame_wf] in Hwf; destruct_and?.
  all: unfold encode; eapply reads_bind; [apply get_u8_reads|].
  all: cbv beta; repeat match goal with
       |- context [if ?a =? ?b then _ else _] =>
         let v := eval vm_compute in (a =? b) in change (a =? b) with v; cbv iota
       end.
  all: eapply reads_eq; [reads_fields|].
  all: try (autorewrite with noissh; done).
  by destruct fin.
Qed.

Lemma decode_advances : advances 1 decode.
Proof. unfold decode. advance_fields. Qed.

Lemma decode_calm : calm decode.
Proof. unfold decode. calm_fields. Qed.

#[export] Instance frame_codec : Codec WireError Frame := {|
  codec_wf := frame_wf;
  codec_enc := encode;
  codec_dec := decode;
  codec_reads := decode_encode;
  codec_advances := decode_advances;
  codec_calm := decode_calm;
|}.

(** [encode_frames] is the concatenation of the encodings. *)
Lemma encode_frames_app out frames :
  foldl (λ out f, out ++ encode f) out frames = out ++ concat (encode <$> frames).
Proof.
  revert out. induction frames as [|f fs IH]; intros out; cbn.
  - by rewrite app_nil_r.
  - by rewrite IH, (assoc_L (++)).
Qed.

Lemma encode_frames_concat frames : encode_frames frames = concat (encode <$> frames).
Proof. apply encode_frames_app. Qed.

Lemma encode_frames_cons f fs : encode_frames (f :: fs) = encode f ++ encode_frames fs.
Proof. by rewrite !encode_frames_concat. Qed.

Lemma encode_nonempty f : (0 < length (encode f))%nat.
Proof. destruct f; cbn; lia. Qed.

Lemma decode_loop_encode fs : ∀ fuel pre acc,
  Forall frame_wf fs → vec_fits (pre ++ encode_frames fs) →
  (length (encode_frames fs) ≤ fuel)%nat →
  decode_loop fuel (pre ++ encode_frames fs) (length pre) acc = Some (Ok (acc ++ fs)).
Proof.
  induction fs as [|f fs IH]; intros fuel pre acc Hwf Hfit Hfuel.
  - change (encode_frames []) with (@nil Z) in *. rewrite !app_nil_r.
    destruct fuel; cbn [decode_loop]; by rewrite Nat.ltb_irrefl.
  - apply Forall_cons_1 in Hwf as [Hf Hwf].
    rewrite (encode_frames_cons f fs) in *. pose proof (encode_nonempty f).
    rewrite length_app in Hfuel. destruct fuel as [|fuel]; [lia|]. cbn [decode_loop].
    rewrite (proj2 (Nat.ltb_lt _ _)) by (rewrite !length_app; lia).
    rewrite decode_encode by done.
    rewrite <- length_app, (assoc_L (++)), IH; [|done| |lia].
    + by rewrite <- (assoc_L (++)).
    + by rewrite <- (assoc_L (++)).
Qed.

Lemma decode_encode_frames fs :
  Forall frame_wf fs → vec_fits (encode_frames fs) →
  decode_frames (encode_frames fs) = Ok fs.
Proof.
  intros Hwf Hfit. unfold decode_frames, decode_frames_checked.
  by rewrite (decode_loop_encode fs _ []).
Qed.

(** The decode loop is total: one round per remaining byte is enough. *)
Lemma decode_loop_total n buf pos acc :
  (length buf - pos ≤ n)%nat → (pos ≤ length buf)%nat →
  ∃ r, ∀ fuel, (length buf - pos ≤ fuel)%nat → decode_loop fuel buf pos acc = Some r.
Proof.
  revert pos acc. induction n as [|n IH]; intros pos acc Hn Hpos.
  - exists (Ok acc). intros fuel _.
    destruct fuel; cbn [decode_loop]; rewrite (proj2 (Nat.ltb_ge _ _)) by lia; done.
  - destruct (Nat.ltb_spec pos (length buf)) as [Hlt|Hge].
    2:{ exists (Ok acc). intros fuel _.
        destruct fuel; cbn [decode_loop]; rewrite (proj2 (Nat.ltb_ge _ _)) by lia; done. }
    destruct (decode_calm buf pos Hpos) as [[[f p]|e] Hd].
    + pose proof (decode_advances _ _ _ _ Hpos Hd).
      destruct (IH p (acc ++ [f])) as [r Hr]; [lia..|]. exists r.
      intros [|fuel] Hf; [lia|]. cbn [decode_loop]. rewrite (proj2 (Nat.ltb_lt _ _)), Hd by lia.
      apply Hr. lia.
    + exists (Err e). intros [|fuel] Hf; [lia|]. cbn [decode_loop].
      by rewrite (proj2 (Nat.ltb_lt _ _)), Hd by lia.
Qed.

(** Whatever the bytes, a decoded frame has fields of the declared widths. *)
Lemma decode_range buf pos f pos' : decode buf pos = Some (Ok (f, pos')) → frame_wf f.
Proof.
  unfold decode, mbind, reader_bind.
  repeat match goal with
  | |- context [get_varint ?b ?p] =>
    let H := fresh "Hv" in
    destruct (get_varint b p) as [[[? ?]|]|] eqn:H; [apply get_varint_range in H|done..]
  | |- context [match ?m with Some _ => _ | None => _ end] =>
    lazymatch m with
    | get_u8 _ _ => destruct m as [[[? ?]|]|]; [|done..]
    | get_bytes _ _ => destruct m as [[[? ?]|]|]; [|done..]
    | lift_result _ _ _ => destruct m as [[[? ?]|]|]; [|done..]
    end
  | |- (if ?b then _ else _) _ _ = _ → _ => destruct b
  | |- mret _ _ _ = _ → _ => intros [= <- _]
  | |- reader_fail _ _ _ = _ → _ => done
  end; cbn; auto with noissh.
Qed.

Lemma decode_loop_range fuel buf pos acc fs :
  Forall frame_wf acc → decode_loop fuel buf pos acc = Some (Ok fs) → Forall frame_wf fs.
Proof.
  revert pos acc. induction fuel as [|fuel IH]; intros pos acc Hacc;
    cbn [decode_loop]; destruct (pos <? length buf)%nat; try by intros [= <-].
  destruct (decode buf pos) as [[[f p]|e]|] eqn:Hd; [|done..].
  apply IH, Forall_app_2; [done|]. apply Forall_singleton. by eapply decode_range.
Qed.

Lemma decode_frames_calm buf : decode_frames_checked buf = Some (decode_frames buf).
Proof.
  unfold decode_frames, decode_frames_checked.
  destruct (decode_loop_total (length buf) buf 0 []) as [r Hr]; [lia..|]. by rewrite Hr by lia.
Qed.

Lemma decode_frames_range buf fs : decode_frames buf = Ok fs → Forall frame_wf fs.
Proof.
  unfold decode_frames, decode_frames_checked.
  destruct (decode_loop_total (length buf) buf 0 []) as [r Hr]; [lia..|].
  pose proof (Hr (length buf) ltac:(lia)) as Hl. rewrite Hl. unfold default, id. intros ->.
  eapply decode_loop_range; [|exact Hl]. constructor.
Qed.

(** ** Properties *)

(** C10 Round trip: the payload built from any frames whose fields have their
    declared widths decodes to exactly those frames, in order, with nothing
    left over. *)
Theorem decode_frames_roundtrip fs :
  Forall frame_wf fs → vec_fits (encode_frames fs) →
  decode_frames (encode_frames fs) = Ok fs.
Proof. apply decode_encode_frames. Qed.

Lemma decode_frames_roundtrip_witness :
  decode_frames (encode_frames
    [Ack 42; Input 1000 [108; 115; 10]; StreamClose 3 (-1);
     StreamData 3 4096 [7; 7] true; StreamOpen 3 Forward [49]]) =
  Ok [Ack 42; Input 1000 [108; 115; 10]; StreamClose 3 (-1);
      StreamData 3 4096 [7; 7] true; StreamOpen 3 Forward [49]].
Proof.
  apply decode_frames_roundtrip; [|vm_compute; reflexivity].
  repeat constructor; cbn; lia_ints.
Defined.

(** C38 The payload decoder is total on arbitrary input: it does not panic, the loop
    ends within one round per byte (more fuel never changes the outcome), the
    result is the frames or one wire error, and every decoded frame has fields
    of the declared widths. *)
Theorem decode_frames_terminates buf :
  ∃ r, decode_frames_checked buf = Some r ∧ decode_frames buf = r ∧
    (∀ fuel, (length buf ≤ fuel)%nat → decode_loop fuel buf 0 [] = Some r) ∧
    match r with Ok fs => Forall frame_wf fs | Err _ => True end.
Proof.
  destruct (decode_loop_total (length buf) buf 0 []) as [r Hr]; [lia..|].
  assert (decode_frames_checked buf = Some r) as Hd by (apply Hr; lia).
  assert (decode_frames buf = r) as Hf by (unfold decode_frames; by rewrite Hd).
  exists r. split_and!; [done|done|intros; apply Hr; lia|].
  destruct r as [fs|]; [|done]. by apply (decode_frames_range buf).
Qed.
