(* ===== verification/Replay.v ===== *)
(** * The anti-replay window ([crates/transport/src/replay.rs])

    The sliding 64-packet filter, and the abstract set of accepted nonces it
    represents. *)

From stdpp Require Import gmap.
From S2P Require Import Prelude.

(** @ crates/transport/src/replay.rs:7-8 WINDOW *)
Definition WINDOW : Z := 64.

(** @ crates/transport/src/replay.rs:10-16 WindowFilter *)
Record WindowFilter := mkWindowFilter {
  max : option Z;
  bitmap : Z;
}.

(** @ crates/transport/src/replay.rs:18-21 WindowFilter::new *)
Definition filter_new : WindowFilter := {| max := None; bitmap := 0 |}.

(** @ crates/transport/src/replay.rs:23-55 WindowFilter::check_and_set *)
Definition check_and_set (w : WindowFilter) (nonce : Z) : bool * WindowFilter :=
  match max w with
  | None => (true, {| max := Some nonce; bitmap := 1 |})
  | Some max =>
    if max <? nonce then
      let diff := nonce - max in
      let bitmap :=
        if WINDOW <=? diff then 1
        else Z.lor (as_u64 (Z.shiftl (bitmap w) diff)) 1 in
      (true, {| max := Some nonce; bitmap := bitmap |})
    else
      let diff := max - nonce in
      if WINDOW <=? diff then (false, w)
      else
        let bit := as_u64 (Z.shiftl 1 diff) in
        if negb (Z.land (bitmap w) bit =? 0) then (false, w)
        else (true, {| max := Some max; bitmap := Z.lor (bitmap w) bit |})
  end.

(** Feed a sequence of nonces, in arrival order: the nonces accepted, and the
    final state. *)
Fixpoint accept_all (w : WindowFilter) (nonces : list Z) : list Z * WindowFilter :=
  match nonces with
  | [] => ([], w)
  | n :: rest =>
    let '(ok, w) := check_and_set w n in
    let '(acc, w) := accept_all w rest in
    (if ok then n :: acc else acc, w)
  end.

(** ** The abstract filter: the set of nonces accepted so far *)

(** The specification: fresh, and less than [WINDOW] behind the highest. *)
Definition spec_accepts (seen : gset Z) (top : option Z) (n : Z) : bool :=
  bool_decide (n ∉ seen) &&
  match top with None => true | Some m => m - n <? WINDOW end.

(** [w] represents the accepted set [seen]: [max] is its maximum and bit [i]
    says whether [max - i] was accepted. *)
Record represents (w : WindowFilter) (seen : gset Z) : Prop := {
  rep_none : max w = None → seen = ∅;
  rep_max m : max w = Some m → m ∈ seen ∧ ∀ n, n ∈ seen → 0 ≤ n ≤ m;
  rep_bit m i : max w = Some m → 0 ≤ i < WINDOW →
    Z.testbit (bitmap w) i = bool_decide (m - i ∈ seen);
  rep_range : is_u64 (bitmap w);
}.

Lemma represents_new : represents filter_new ∅.
Proof. split; [done..|cbn; lia_ints]. Qed.

Lemma testbit_1 i : Z.testbit 1 i = (i =? 0).
Proof.
  destruct (Z.eqb_spec i 0) as [->|]; [done|].
  destruct (Z.ltb_spec i 0); [by apply Z.testbit_neg_r|].
  change 1 with (2 ^ 0). apply Z.pow2_bits_false. lia.
Qed.

Lemma as_u64_testbit v i : 0 ≤ i < 64 → Z.testbit (as_u64 v) i = Z.testbit v i.
Proof. intros. apply Z.mod_pow2_bits_low. lia. Qed.

Lemma lor_u64 a b : is_u64 a → is_u64 b → is_u64 (Z.lor a b).
Proof.
  intros Ha Hb. rewrite <- (as_u64_id a), <- (as_u64_id b) by done. unfold as_u64.
  rewrite <- !Z.land_ones, <- Z.land_lor_distr_l, Z.land_ones by lia.
  apply Z.mod_pos_bound. lia.
Qed.

(** The mask test reads one bit. *)
Lemma land_bit_eqb v d :
  0 ≤ d < 64 → (Z.land v (as_u64 (Z.shiftl 1 d)) =? 0) = negb (Z.testbit v d).
Proof.
  intros. rewrite as_u64_id
    by (rewrite Z.shiftl_1_l; pose proof (Z.pow_lt_mono_r 2 d 64); unfold is_u64; lia).
  rewrite Z.shiftl_1_l. destruct (Z.testbit v d) eqn:Hb; cbn.
  - apply Z.eqb_neq. intros H0. apply (f_equal (λ x, Z.testbit x d)) in H0.
    rewrite Z.land_spec, Hb, Z.pow2_bits_true, Z.bits_0 in H0 by lia. done.
  - apply Z.eqb_eq, Z.bits_inj'. intros n Hn. rewrite Z.land_spec, Z.bits_0.
    destruct (Z.eqb_spec n d) as [->|]; [by rewrite Hb|].
    rewrite Z.pow2_bits_false by lia. apply andb_false_r.
Qed.

(** Prove a disjunction of arithmetic facts and hypotheses from one. *)
Ltac by_cases :=
  let H := fresh in intros [H|H]; first [by left; lia|by right; lia|by left|by right].

(** The three updates of the bitmap keep the representation. *)
Lemma represents_first n : 0 ≤ n → represents (mkWindowFilter (Some n) 1) {[n]}.
Proof.
  intros. split; cbn; [done|..|lia_ints].
  - intros m [= <-]. split; [set_solver|]. intros k ->%elem_of_singleton. lia.
  - intros m i [= <-] Hi. rewrite testbit_1. symmetry.
    destruct (Z.eqb_spec i 0) as [->|];
      [apply bool_decide_eq_true_2|apply bool_decide_eq_false_2];
      rewrite elem_of_singleton; lia.
Qed.

Lemma represents_advance m b seen n :
  represents (mkWindowFilter (Some m) b) seen → m < n →
  represents (mkWindowFilter (Some n)
    (if WINDOW <=? n - m then 1 else Z.lor (as_u64 (Z.shiftl b (n - m))) 1))
    ({[n]} ∪ seen).
Proof.
  intros [_ Hmax Hbit Hr] Hlt. cbn in *.
  destruct (Hmax m eq_refl) as [Hin Hle]. pose proof (Hle m Hin).
  split; cbn; [done|..].
  - intros k [= <-]. split; [by apply elem_of_union_l, elem_of_singleton_2|].
    intros j [->%elem_of_singleton|Hj]%elem_of_union; [lia|]. apply Hle in Hj. lia.
  - intros k i [= <-] Hi. unfold WINDOW in *.
    rewrite (bool_decide_ext _ (i = 0 ∨ n - i ∈ seen)) by
      (rewrite elem_of_union, elem_of_singleton; split; by_cases).
    destruct (Z.leb_spec 64 (n - m)).
    + rewrite testbit_1. symmetry. destruct (Z.eqb_spec i 0) as [->|].
      * apply bool_decide_eq_true_2. by left.
      * apply bool_decide_eq_false_2. intros [?|Hs]; [done|]. apply Hle in Hs. lia.
    + rewrite Z.lor_spec, testbit_1, as_u64_testbit, Z.shiftl_spec by lia.
      destruct (Z.eqb_spec i 0) as [->|].
      * rewrite orb_true_r. symmetry. apply bool_decide_eq_true_2. by left.
      * rewrite orb_false_r. destruct (Z.ltb_spec (i - (n - m)) 0).
        -- rewrite Z.testbit_neg_r by done. symmetry. apply bool_decide_eq_false_2.
           intros [?|Hs]; [done|]. apply Hle in Hs. lia.
        -- rewrite (Hbit m _ eq_refl) by lia. apply bool_decide_ext.
           replace (m - (i - (n - m))) with (n - i) by lia.
           split; [by right|intros [?|?]; [lia|done]].
  - destruct (WINDOW <=? n - m); [lia_ints|].
    apply lor_u64; [apply as_u64_range|lia_ints].
Qed.

Lemma represents_mark m b seen n :
  represents (mkWindowFilter (Some m) b) seen → 0 ≤ n ≤ m → m - n < WINDOW →
  represents (mkWindowFilter (Some m) (Z.lor b (as_u64 (Z.shiftl 1 (m - n)))))
    ({[n]} ∪ seen).
Proof.
  intros [_ Hmax Hbit Hr] Hn Hw. cbn in *. unfold WINDOW in *.
  destruct (Hmax m eq_refl) as [Hin Hle].
  split; cbn; [done|..].
  - intros k [= <-]. split; [by apply elem_of_union_r|].
    intros j [->%elem_of_singleton|Hj]%elem_of_union; [lia|]. by apply Hle.
  - intros k i [= <-] Hi. unfold WINDOW in Hi.
    rewrite Z.lor_spec, as_u64_testbit, Z.shiftl_1_l, (Hbit m _ eq_refl) by lia.
    rewrite (bool_decide_ext (m - i ∈ {[n]} ∪ seen) (m - i ∈ seen ∨ i = m - n)) by
      (rewrite elem_of_union, elem_of_singleton; split; by_cases).
    rewrite bool_decide_or. f_equal. destruct (decide (i = m - n)) as [->|].
    + rewrite Z.pow2_bits_true by lia. symmetry. by apply bool_decide_eq_true_2.
    + rewrite Z.pow2_bits_false by lia. symmetry. by apply bool_decide_eq_false_2.
  - apply lor_u64; [done|apply as_u64_range].
Qed.

Lemma check_and_set_spec w seen n :
  represents w seen → 0 ≤ n →
  fst (check_and_set w n) = spec_accepts seen (max w) n ∧
  represents (snd (check_and_set w n))
    (if fst (check_and_set w n) then {[n]} ∪ seen else seen).
Proof.
  intros Hrep Hn. destruct w as [[m|] b]; unfold check_and_set, spec_accepts; cbn.
  2:{ rewrite (rep_none _ _ Hrep eq_refl). split; [done|].
      rewrite (right_id_L ∅ (∪)). by apply represents_first. }
  pose proof (rep_max _ _ Hrep m eq_refl) as [Hin Hle].
  destruct (Z.ltb_spec m n).
  - cbn. split.
    + rewrite bool_decide_eq_true_2 by (intros Hs; apply Hle in Hs; lia).
      symmetry. apply Z.ltb_lt. unfold WINDOW. lia.
    + by apply represents_advance.
  - destruct (Z.leb_spec WINDOW (m - n)) as [Hw|Hw].
    + cbn. split; [|done]. rewrite (proj2 (Z.ltb_ge _ _)) by done. by rewrite andb_false_r.
    + unfold WINDOW in Hw. rewrite land_bit_eqb, negb_involutive by lia.
      pose proof (rep_bit _ _ Hrep m (m - n) eq_refl ltac:(unfold WINDOW; lia)) as Hb.
      cbn in Hb. replace (m - (m - n)) with n in Hb by lia.
      rewrite Hb, bool_decide_not, (proj2 (Z.ltb_lt _ _)), andb_true_r by (unfold WINDOW; lia).
      case_bool_decide; cbn; (split; [done|]); [done|].
      apply represents_mark; [done|lia|unfold WINDOW; lia].
Qed.

Lemma accept_all_spec ns : ∀ w seen,
  represents w seen → Forall (λ n, 0 ≤ n) ns →
  let '(acc, w') := accept_all w ns in
  NoDup acc ∧ (∀ n, n ∈ acc → n ∉ seen) ∧ represents w' (list_to_set acc ∪ seen).
Proof.
  induction ns as [|n ns IH]; intros w seen Hrep Hns; cbn.
  - split_and!; [constructor|set_solver|]. by rewrite (left_id_L ∅ (∪)).
  - apply Forall_cons_1 in Hns as [Hn Hns].
    destruct (check_and_set_spec w seen n Hrep Hn) as [Hacc Hrep'].
    destruct (check_and_set w n) as [ok w1]. cbn in *.
    specialize (IH w1 _ Hrep' Hns). destruct (accept_all w1 ns) as [acc w2].
    destruct IH as (Hnd & Hfresh & Hrep2). destruct ok; cbn.
    + assert (n ∉ seen).
      { unfold spec_accepts in Hacc. symmetry in Hacc.
        apply andb_true_iff in Hacc as [?%bool_decide_eq_true _]. done. }
      split_and!.
      * constructor; [|done]. intros Hi%Hfresh. set_solver.
      * set_solver.
      * by replace ({[n]} ∪ list_to_set acc ∪ seen)
          with (list_to_set acc ∪ ({[n]} ∪ seen)) by set_solver.
    + by split_and!.
Qed.

(** In terms of the accepted nonces, without the [max] field. *)
Lemma spec_accepts_iff w seen n :
  represents w seen →
  spec_accepts seen (max w) n = true ↔ ((∀ m, m ∈ seen → m - n < WINDOW) ∧ n ∉ seen).
Proof.
  intros Hrep. unfold spec_accepts. rewrite andb_true_iff, bool_decide_eq_true.
  rewrite (and_comm (∀ m, m ∈ seen → _)). apply and_iff_compat_l. destruct (max w) as [top|] eqn:Hmax.
  - destruct (rep_max _ _ Hrep top Hmax) as [Hin Hle]. rewrite Z.ltb_lt. split.
    + intros ? m Hm%Hle. lia.
    + intros H. by apply H.
  - rewrite (rep_none _ _ Hrep Hmax). set_solver.
Qed.

(** ** Properties *)

(** C6 The bitmap filter implements its specification exactly: after any
    sequence of received nonces, a further nonce is accepted if and only if it
    was not accepted before and lies less than [WINDOW] behind every accepted
    one (so a fresh in-window packet is never dropped). *)
Theorem filter_accepts_iff_fresh ns n acc w :
  Forall (λ n, 0 ≤ n) ns → 0 ≤ n → accept_all filter_new ns = (acc, w) →
  fst (check_and_set w n) = true ↔ ((∀ m, m ∈ acc → m - n < WINDOW) ∧ n ∉ acc).
Proof.
  intros Hns Hn Hrun. pose proof (accept_all_spec ns _ _ represents_new Hns) as H.
  rewrite Hrun in H. destruct H as (_ & _ & Hrep). rewrite (right_id_L ∅ (∪)) in Hrep.
  destruct (check_and_set_spec _ _ n Hrep Hn) as [-> _].
  rewrite (spec_accepts_iff _ _ _ Hrep). set_solver.
Qed.

Lemma filter_accepts_iff_fresh_witness :
  fst (check_and_set (snd (accept_all filter_new [10; 7; 100; 7])) 37) = true ↔
    ((∀ m, m ∈ [10; 7; 100] → m - 37 < WINDOW) ∧ 37 ∉ [10; 7; 100]).
Proof.
  apply (filter_accepts_iff_fresh [10; 7; 100; 7] 37).
  - repeat constructor; lia.
  - lia.
  - vm_compute. reflexivity.
Defined.

(** Anti-replay: no sequence of packets, however reordered or duplicated,
    gets the same nonce accepted twice. *)
Theorem filter_accepts_at_most_once ns :
  Forall (λ n, 0 ≤ n) ns → NoDup (fst (accept_all filter_new ns)).
Proof.
  intros Hns. pose proof (accept_all_spec ns _ _ represents_new Hns) as H.
  destruct (accept_all filter_new ns). by destruct H.
Qed.

Lemma filter_accepts_at_most_once_witness :
  NoDup (fst (accept_all filter_new [5; 3; 5; 80; 3; 79; 80])).
Proof. apply filter_accepts_at_most_once. repeat constructor; lia. Defined.
