(* ===== verification/Input.v ===== *)
(** * The reliable input channel ([crates/transport/src/input.rs])

    The client's sender, the server's receiver, and the channel they make over
    a network that loses, duplicates and reorders datagrams. *)

From stdpp Require Import relations.
From S2P Require Import Prelude Wire.

(** @ crates/transport/src/input.rs:10-19 InputSender *)
Record InputSender := mkInputSender {
  buffer : list Z;
  base : Z;
}.

(** @ crates/transport/src/input.rs:21-24 InputSender::new *)
Definition sender_new : InputSender := {| buffer := []; base := 0 |}.

(** @ crates/transport/src/input.rs:26-29 InputSender::push *)
Definition push (s : InputSender) (data : list Z) : InputSender :=
  {| buffer := buffer s ++ data; base := base s |}.

(** @ crates/transport/src/input.rs:31-41 InputSender::pending *)
Definition pending (s : InputSender) : option Frame :=
  match buffer s with
  | [] => None
  | _ => Some (Input (base s) (buffer s))
  end.

(** @ crates/transport/src/input.rs:43-46 InputSender::total *)
Definition total (s : InputSender) : Z := as_u64 (base s + zlen (buffer s)).

(** @ crates/transport/src/input.rs:49-57 InputSender::on_ack *)
Definition on_ack (s : InputSender) (seq : Z) : InputSender :=
  let total := total s in
  let new_base := Z.min seq total in
  if base s <? new_base then
    {| buffer := drop (Z.to_nat (new_base - base s)) (buffer s); base := new_base |}
  else s.

(** @ crates/transport/src/input.rs:60-64 InputReceiver *)
Record InputReceiver := mkInputReceiver { received : Z }.

(** @ crates/transport/src/input.rs:66-69 InputReceiver::new *)
Definition receiver_new : InputReceiver := {| received := 0 |}.

(** The end offset and the number of bytes to skip wrap, as they do in a release
    build. @ crates/transport/src/input.rs:71-87 InputReceiver::ingest *)
Definition ingest_checked (r : InputReceiver) (offset : Z) (data : list Z) :
    option (list Z * InputReceiver) :=
  let endp := as_u64 (offset + zlen data) in
  if endp <=? received r then Some ([], r)
  else if received r <? offset then Some ([], r)
  else
    let skip := Z.to_nat (as_u64 (received r - offset)) in
    fresh ← slice_checked data skip (length data);
    Some (fresh, {| received := endp |}).

(** It does not panic ([ingest_calm]), so the default is never taken. *)
Definition ingest (r : InputReceiver) (offset : Z) (data : list Z) : list Z * InputReceiver :=
  default ([], r) (ingest_checked r offset data).

(** @ crates/transport/src/input.rs:89-92 InputReceiver::ack *)
Definition ack (r : InputReceiver) : Z := received r.

(** ** The channel

    Any frame ever sent may be delivered any number of times, in any order, or
    never; the same for acks. *)
Record channel := mkChannel {
  tx : InputSender;
  rx : InputReceiver;
  typed : list Z;          (** everything pushed *)
  delivered : list Z;      (** everything ingest returned, in order *)
  inflight : list Frame;   (** every frame ever sent *)
  acks : list Z;           (** every ack ever sent *)
}.

Definition channel_new : channel :=
  {| tx := sender_new; rx := receiver_new; typed := []; delivered := [];
     inflight := []; acks := [] |}.

Inductive chan_step (c : channel) : channel → Prop :=
| chan_type data :
    zlen (typed c ++ data) < 2 ^ 64 →
    chan_step c {| tx := push (tx c) data; rx := rx c; typed := typed c ++ data;
      delivered := delivered c; inflight := inflight c; acks := acks c |}
| chan_send f :
    pending (tx c) = Some f →
    chan_step c {| tx := tx c; rx := rx c; typed := typed c;
      delivered := delivered c; inflight := f :: inflight c; acks := acks c |}
| chan_receive offset data :
    Input offset data ∈ inflight c →
    chan_step c
      (let '(fresh, rx') := ingest (rx c) offset data in
       {| tx := tx c; rx := rx'; typed := typed c; delivered := delivered c ++ fresh;
          inflight := inflight c; acks := ack rx' :: acks c |})
| chan_ack seq :
    seq ∈ acks c →
    chan_step c {| tx := on_ack (tx c) seq; rx := rx c; typed := typed c;
      delivered := delivered c; inflight := inflight c; acks := acks c |}.

Definition reachable (c : channel) : Prop := rtc chan_step channel_new c.

(** A frame carries a piece of the typed stream. *)
Definition carries (stream : list Z) (f : Frame) : Prop :=
  match f with
  | Input offset data =>
    0 ≤ offset ∧ ∃ rest, drop (Z.to_nat offset) stream = data ++ rest
  | _ => True
  end.

Record chan_inv (c : channel) : Prop := {
  inv_len : zlen (typed c) < 2 ^ 64;
  inv_base : 0 ≤ base (tx c) ≤ received (rx c);
  inv_received : received (rx c) ≤ zlen (typed c);
  inv_buffer : buffer (tx c) = drop (Z.to_nat (base (tx c))) (typed c);
  inv_delivered : delivered c = take (Z.to_nat (received (rx c))) (typed c);
  inv_inflight : Forall (carries (typed c)) (inflight c);
  inv_acks : Forall (λ a, 0 ≤ a ≤ received (rx c)) (acks c);
}.

Lemma carries_app stream more f : carries stream f → carries (stream ++ more) f.
Proof.
  destruct f; cbn; try done. intros [? [rest Hr]]. split; [done|].
  destruct (decide (Z.to_nat offset ≤ length stream)%nat).
  - exists (rest ++ more). by rewrite drop_app_le, Hr, (assoc_L (++)).
  - rewrite drop_ge in Hr by lia. apply eq_sym, app_eq_nil in Hr as [-> ->].
    by eexists.
Qed.

Lemma on_ack_spec s seq (stream : list Z) :
  0 ≤ base s ≤ zlen stream → buffer s = drop (Z.to_nat (base s)) stream →
  zlen stream < 2 ^ 64 →
  base (on_ack s seq) = Z.max (base s) (Z.min seq (zlen stream)) ∧
  buffer (on_ack s seq) = drop (Z.to_nat (base (on_ack s seq))) stream.
Proof.
  intros Hb Hbuf Hlen. unfold on_ack.
  assert (total s = zlen stream) as ->.
  { unfold total. rewrite Hbuf, length_drop, as_u64_id by (unfold is_u64; lia). lia. }
  destruct (Z.ltb_spec (base s) (Z.min seq (zlen stream))); cbn; split; [lia| |lia|done].
  rewrite Hbuf, drop_drop. f_equal. lia.
Qed.

(** The two guards keep the slice in range, whatever the offset a client sends. *)
Lemma ingest_unfold r offset data :
  0 ≤ offset →
  ingest_checked r offset data = Some
    (let endp := as_u64 (offset + zlen data) in
     if endp <=? received r then ([], r)
     else if received r <? offset then ([], r)
     else (drop (Z.to_nat (received r - offset)) data, {| received := endp |})).
Proof.
  intros Ho. unfold ingest_checked. pose proof (as_u64_range (offset + zlen data)) as Hr.
  assert (as_u64 (offset + zlen data) ≤ offset + zlen data) as Hle
    by (apply Z.mod_le; [lia|by cbv]).
  destruct (Z.leb_spec (as_u64 (offset + zlen data)) (received r)); [done|].
  destruct (Z.ltb_spec (received r) offset); [done|].
  rewrite (as_u64_id (received r - offset)) by (unfold is_u64 in *; lia).
  rewrite slice_checked_ok by lia. cbn [mbind option_bind]. by rewrite slice_tail.
Qed.

Lemma ingest_calm r offset data :
  0 ≤ offset → ingest_checked r offset data = Some (ingest r offset data).
Proof. intros Ho. unfold ingest. by rewrite ingest_unfold. Qed.

(** [ingest] appends exactly the unseen part of the frame. *)
Lemma ingest_spec r offset data (stream : list Z) :
  0 ≤ received r ≤ zlen stream → zlen stream < 2 ^ 64 →
  carries stream (Input offset data) →
  received r ≤ received (snd (ingest r offset data)) ≤ zlen stream ∧
  take (Z.to_nat (received r)) stream ++ fst (ingest r offset data) =
    take (Z.to_nat (received (snd (ingest r offset data)))) stream.
Proof.
  intros Hr Hlen [Ho [rest Hd]]. unfold ingest. rewrite ingest_unfold by done. cbn [default].
  assert (zlen data ≤ zlen stream - offset ∨ data = []) as Hdata.
  { apply (f_equal length) in Hd. rewrite length_drop, length_app in Hd.
    destruct data; [by right|left]. cbn in *. lia. }
  destruct (Z.leb_spec (as_u64 (offset + zlen data)) (received r));
    [cbn; split; [lia|by rewrite app_nil_r]|].
  destruct (Z.ltb_spec (received r) offset);
    [cbn; split; [lia|by rewrite app_nil_r]|].
  assert (offset + zlen data ≤ zlen stream) by (destruct Hdata as [?| ->]; cbn; lia).
  rewrite as_u64_id in * by (unfold is_u64; lia). cbn. split; [lia|].
  set (n := Z.to_nat (received r)).
  replace (Z.to_nat (offset + zlen data)) with (n + (length data - (n - Z.to_nat offset)))%nat by lia.
  rewrite <- take_take_drop. f_equal.
  assert (drop n stream = drop (n - Z.to_nat offset) data ++ rest) as ->.
  { rewrite <- drop_app_le, <- Hd, drop_drop by lia. f_equal. lia. }
  replace (Z.to_nat (received r - offset)) with (n - Z.to_nat offset)%nat by lia.
  rewrite take_app_length'; [done|]. rewrite length_drop. lia.
Qed.

(** A frame that runs to the end of the stream completes it. *)
Lemma ingest_suffix r offset (stream : list Z) :
  0 ≤ offset ≤ received r → received r ≤ zlen stream → zlen stream < 2 ^ 64 →
  received (snd (ingest r offset (drop (Z.to_nat offset) stream))) = zlen stream.
Proof.
  intros Ho Hr Hlen. unfold ingest. rewrite ingest_unfold by lia. cbn [default].
  rewrite length_drop, as_u64_id by (unfold is_u64; lia).
  destruct (Z.leb_spec (offset + Z.of_nat (length stream - Z.to_nat offset)) (received r));
    [cbn; lia|].
  destruct (Z.ltb_spec (received r) offset); cbn; lia.
Qed.

Lemma chan_inv_new : chan_inv channel_new.
Proof. split; cbn; try done; try lia; constructor. Qed.

Lemma pending_spec s f : pending s = Some f → f = Input (base s) (buffer s).
Proof. unfold pending. destruct (buffer s); [done|]. by intros [= <-]. Qed.

Lemma chan_inv_step c c' : chan_inv c → chan_step c c' → chan_inv c'.
Proof.
  intros [Hlen Hbase Hrec Hbuf Hdel Hin Hack] Hstep.
  destruct Hstep as [data Hd|f Hf|offset data Hf|seq Hs].
  - split; cbn; rewrite ?length_app in *; try done; try lia.
    + by rewrite Hbuf, drop_app_le by lia.
    + by rewrite Hdel, take_app_le by lia.
    + eapply Forall_impl; [done|]. intros. by apply carries_app.
  - apply pending_spec in Hf as ->. split; cbn; try done.
    constructor; [|done]. cbn. split; [lia|]. exists []. by rewrite app_nil_r, Hbuf.
  - pose proof (proj1 (Forall_forall _ _) Hin _ Hf) as Hc.
    destruct (ingest_spec (rx c) offset data (typed c)) as [Hb Ht]; [lia|done..|].
    destruct (ingest (rx c) offset data) as [fresh rx']. cbn [fst snd] in *.
    split; cbn; try done; try lia.
    + by rewrite Hdel.
    + constructor; [unfold ack; lia|]. eapply Forall_impl; [done|]. cbn. lia.
  - destruct (on_ack_spec (tx c) seq (typed c)) as [Hb Hbf]; [lia|done..|].
    pose proof (proj1 (Forall_forall _ _) Hack _ Hs). cbn in *.
    split; cbn; try done; lia.
Qed.

Lemma reachable_inv c : reachable c → chan_inv c.
Proof. apply rtc_invariant; [apply chan_inv_new|intros ??; apply chan_inv_step]. Qed.

(** ** Properties *)

(** C9 Input safety: however datagrams and acks are lost, duplicated or
    reordered, the bytes written to the server's pty are exactly the first
    [received] bytes the user typed — nothing is lost, repeated or reordered —
    and the sender still buffers every byte the server has not received. *)
Theorem input_delivers_prefix c :
  reachable c →
  delivered c = take (Z.to_nat (received (rx c))) (typed c) ∧
  received (rx c) = zlen (delivered c) ∧
  typed c = take (Z.to_nat (base (tx c))) (typed c) ++ buffer (tx c) ∧
  base (tx c) ≤ received (rx c).
Proof.
  intros [Hlen Hbase Hrec Hbuf Hdel _ _]%reachable_inv. split_and!; [done|..|lia].
  - rewrite Hdel, length_take. lia.
  - rewrite Hbuf. by rewrite take_drop.
Qed.

(** One lossless exchange: send what is pending, receive it, ack it. *)
Definition exchange (c : channel) : channel :=
  match pending (tx c) with
  | Some (Input offset data) =>
    let '(fresh, rx') := ingest (rx c) offset data in
    {| tx := on_ack (tx c) (ack rx'); rx := rx'; typed := typed c;
       delivered := delivered c ++ fresh;
       inflight := Input offset data :: inflight c; acks := ack rx' :: acks c |}
  | _ => c
  end.

(** Input liveness: from any reachable state, however much was lost so far, a
    single lossless exchange delivers everything typed and leaves nothing to
    retransmit. *)
Theorem input_exchange_completes c :
  reachable c →
  delivered (exchange c) = typed c ∧ pending (tx (exchange c)) = None.
Proof.
  intros [Hlen Hbase Hrec Hbuf Hdel _ _]%reachable_inv. unfold exchange.
  destruct (pending (tx c)) as [f|] eqn:Hp.
  - apply pending_spec in Hp as ->.
    destruct (ingest_spec (rx c) (base (tx c)) (buffer (tx c)) (typed c))
      as [Hb Ht]; [lia|done|by cbn; split; [lia|]; exists []; rewrite app_nil_r|].
    assert (received (snd (ingest (rx c) (base (tx c)) (buffer (tx c)))) = zlen (typed c)).
    { rewrite Hbuf. apply ingest_suffix; [lia..|done]. }
    destruct (ingest _ _ _) as [fresh rx']. cbn in *.
    rewrite Hdel, Ht, H, Nat2Z.id, firstn_all. split; [done|].
    destruct (on_ack_spec (tx c) (ack rx') (typed c)) as [Hnb Hnbuf]; [lia|done..|].
    unfold pending. rewrite Hnbuf, Hnb. unfold ack. rewrite H, drop_ge by lia. done.
  - split; [|done]. unfold pending in Hp. destruct (buffer (tx c)) eqn:Hb; [|done].
    apply (f_equal length) in Hbuf. rewrite length_drop in Hbuf. cbn in Hbuf.
    rewrite Hdel. apply take_ge. lia.
Qed.

(** A reachable state with a lost datagram, a retransmission and a duplicate:
    type [1;2], send; type [3], send; receive the second, then the first. *)
Definition sample_channel : channel :=
  {| tx := mkInputSender [3] 2; rx := mkInputReceiver 3; typed := [1; 2; 3];
     delivered := [1; 2; 3]; inflight := [Input 0 [1; 2; 3]; Input 0 [1; 2]];
     acks := [3; 3; 2] |}.

Lemma sample_reachable : reachable sample_channel.
Proof.
  unfold reachable.
  eapply rtc_l; [apply (chan_type _ [1; 2]); reflexivity|].
  eapply rtc_l; [eapply chan_send; reflexivity|].
  eapply rtc_l; [apply (chan_receive _ 0 [1; 2]); repeat constructor|].
  eapply rtc_l; [apply (chan_type _ [3]); reflexivity|].
  eapply rtc_l; [eapply chan_send; reflexivity|].
  eapply rtc_l; [apply (chan_receive _ 0 [1; 2; 3]); repeat constructor|].
  eapply rtc_l; [apply (chan_receive _ 0 [1; 2]); repeat constructor|].
  eapply rtc_l; [apply (chan_ack _ 2); repeat constructor|].
  apply rtc_refl.
Defined.

Lemma input_delivers_prefix_witness :
  delivered sample_channel = [1; 2; 3] ∧ base (tx sample_channel) ≤ 3.
Proof.
  destruct (input_delivers_prefix sample_channel sample_reachable) as (H & _ & _ & Hb).
  split; [exact H|exact Hb].
Defined.

Lemma input_exchange_completes_witness :
  delivered (exchange sample_channel) = [1; 2; 3] ∧
  pending (tx (exchange sample_channel)) = None.
Proof. exact (input_exchange_completes sample_channel sample_reachable). Defined.
