(* ===== verification/NoiseCore.v ===== *)
(** * The Noise session core ([crates/noise-core/src/lib.rs])

    The crate wraps [snow], which is third-party code: its handshake and
    stateless transport objects are the operations of the class [Snow], and what
    the code relies on are the laws of [SnowTransportLaws]. *)

From S2P Require Import Prelude.

(** A static key pair. @ crates/noise-core/src/lib.rs:34-38 Keypair *)
Record Keypair := mkKeypair { private : list Z; public : list Z }.

(** @ crates/noise-core/src/lib.rs:63-67 Role *)
Inductive Role := Initiator | Responder.

(** [snow]: builder, [HandshakeState], [StatelessTransportState].  A write or
    read gets the length of the buffer it may fill and returns the bytes it put
    there; a handshake operation also returns the new state. *)
Class Snow := {
  SnowError : Type;
  HandshakeState : Type;
  TransportState : Type;
  snow_build : Role → list Z → result SnowError HandshakeState;
  hs_write_message : HandshakeState → list Z → nat → result SnowError (list Z) * HandshakeState;
  hs_read_message : HandshakeState → list Z → nat → result SnowError (list Z) * HandshakeState;
  is_handshake_finished : HandshakeState → bool;
  get_remote_static : HandshakeState → option (list Z);
  into_stateless_transport_mode : HandshakeState → result SnowError TransportState;
  write_message : TransportState → Z → list Z → nat → result SnowError (list Z);
  read_message : TransportState → Z → list Z → nat → result SnowError (list Z);
}.

Section noise.
Context `{!Snow}.

(** @ crates/noise-core/src/lib.rs:17-25 NoiseError *)
Inductive NoiseError :=
| SnowErr (e : SnowError)
| HandshakeNotFinished
| NoRemoteStatic.

(** The wrapper holds the snow state.
    @ crates/noise-core/src/lib.rs:71-73 Handshake *)
Record Handshake := mkHandshake { state : HandshakeState }.

(** @ crates/noise-core/src/lib.rs:77-85 Handshake::new *)
Definition handshake_new (role : Role) (local_private : list Z) :
    result NoiseError Handshake :=
  map_err SnowErr (mkHandshake <$> snow_build role local_private).

(** @ crates/noise-core/src/lib.rs:88-93 Handshake::write_message *)
Definition hs_write (h : Handshake) (payload : list Z) :
    result NoiseError (list Z) * Handshake :=
  let '(r, st) := hs_write_message (state h) payload (length payload + 256)%nat in
  (map_err SnowErr r, mkHandshake st).

(** @ crates/noise-core/src/lib.rs:96-101 Handshake::read_message *)
Definition hs_read (h : Handshake) (message : list Z) :
    result NoiseError (list Z) * Handshake :=
  let '(r, st) := hs_read_message (state h) message (length message + 256)%nat in
  (map_err SnowErr r, mkHandshake st).

(** @ crates/noise-core/src/lib.rs:103-105 Handshake::is_finished *)
Definition is_finished (h : Handshake) : bool := is_handshake_finished (state h).

(** @ crates/noise-core/src/lib.rs:108-110 Handshake::remote_static *)
Definition remote_static (h : Handshake) : option (list Z) :=
  get_remote_static (state h).

(** @ crates/noise-core/src/lib.rs:132-135 Session *)
Record NoiseSession := mkNoiseSession {
  transport : TransportState;
  session_remote_static : list Z;
}.

(** @ crates/noise-core/src/lib.rs:113-127 Handshake::into_transport *)
Definition into_transport (h : Handshake) : result NoiseError NoiseSession :=
  if negb (is_handshake_finished (state h)) then Err HandshakeNotFinished
  else
    remote ← ok_or (get_remote_static (state h)) NoRemoteStatic;
    transport ← map_err SnowErr (into_stateless_transport_mode (state h));
    Ok {| transport := transport; session_remote_static := remote |}.

(** @ crates/noise-core/src/lib.rs:144-149 Session::encrypt *)
Definition encrypt (s : NoiseSession) (nonce : Z) (plaintext : list Z) :
    result NoiseError (list Z) :=
  map_err SnowErr (write_message (transport s) nonce plaintext (length plaintext + 16)%nat).

(** @ crates/noise-core/src/lib.rs:152-157 Session::decrypt *)
Definition decrypt (s : NoiseSession) (nonce : Z) (ciphertext : list Z) :
    result NoiseError (list Z) :=
  map_err SnowErr (read_message (transport s) nonce ciphertext (length ciphertext)).

(** A nonce and a payload the Noise framework can carry: [2^64 - 1] is
    reserved and a message has at most 65535 bytes, tag included. *)
Definition noise_ok (nonce : Z) (payload : list Z) : Prop :=
  0 ≤ nonce < 2 ^ 64 - 1 ∧ zlen payload + 16 ≤ 65535.

(** Two ends of one session: what [snow] documents for transport mode. Each
    end reads what the other wrote under the same nonce, given a buffer with
    room for the 16-byte tag on the writing side. *)
Record transport_peers (a b : TransportState) : Prop := {
  peers_write nonce payload n :
    noise_ok nonce payload → (length payload + 16 ≤ n)%nat →
    ∃ ct, write_message a nonce payload n = Ok ct ∧
          length ct = (length payload + 16)%nat;
  peers_read nonce payload n ct m :
    write_message a nonce payload n = Ok ct →
    (length ct ≤ m)%nat → read_message b nonce ct m = Ok payload;
}.

Lemma decrypt_encrypt a b nonce payload :
  transport_peers (transport a) (transport b) → noise_ok nonce payload →
  ∃ ct, encrypt a nonce payload = Ok ct ∧ decrypt b nonce ct = Ok payload.
Proof.
  intros Hp Hok. unfold encrypt, decrypt.
  destruct (peers_write _ _ Hp nonce payload (length payload + 16)) as (ct & Hw & _);
    [done|lia|].
  exists ct. rewrite Hw. split; [done|]. by erewrite (peers_read _ _ Hp) by done.
Qed.
End noise.

(** ** A concrete instance

    A stand-in for [snow] on which witnesses compute: the key is a number and
    the 16-byte tag holds the nonce and the key. A handshake is finished after
    one message each way. *)
Section sample.
Record SampleHandshake := mkSampleHandshake {
  sh_sent : bool; sh_received : bool; sh_remote : option (list Z) }.

Definition sample_tag (key nonce : Z) : list Z :=
  to_be_bytes 8 nonce ++ to_be_bytes 8 key.

Definition sample_write (key nonce : Z) (payload : list Z) (n : nat) : result unit (list Z) :=
  if (length payload + 16 <=? n)%nat && bool_decide (0 ≤ nonce < 2 ^ 64 - 1)
  then Ok (payload ++ sample_tag key nonce) else Err tt.

Definition sample_read (key nonce : Z) (message : list Z) (n : nat) : result unit (list Z) :=
  let k := (length message - 16)%nat in
  if bool_decide (drop k message = sample_tag key nonce) then Ok (take k message)
  else Err tt.

Definition sample_snow : Snow := {|
  SnowError := unit;
  HandshakeState := SampleHandshake;
  TransportState := Z;
  snow_build := λ _ _, Ok (mkSampleHandshake false false None);
  hs_write_message := λ h payload _,
    (Ok payload, mkSampleHandshake true (sh_received h) (sh_remote h));
  hs_read_message := λ h message _,
    (Ok message, mkSampleHandshake (sh_sent h) true (Some (take 32 message)));
  is_handshake_finished := λ h, sh_sent h && sh_received h;
  get_remote_static := sh_remote;
  into_stateless_transport_mode := λ h,
    if sh_sent h && sh_received h then Ok 7 else Err tt;
  write_message := sample_write;
  read_message := sample_read;
|}.

Lemma sample_peers key : @transport_peers sample_snow key key.
Proof.
  split; cbn; unfold sample_write, sample_read.
  - intros nonce payload n [Hn _] Hl. rewrite bool_decide_eq_true_2 by done.
    rewrite (proj2 (Nat.leb_le _ _)) by done. cbn [andb]. eexists. split; [done|].
    rewrite length_app. unfold sample_tag. by rewrite length_app, !length_to_be_bytes.
  - intros nonce payload n ct m. destruct (_ && _); [|done]. intros [= <-] _.
    assert (length (sample_tag key nonce) = 16%nat) as Ht by
      (unfold sample_tag; by rewrite length_app, !length_to_be_bytes).
    rewrite length_app, Ht, Nat.add_sub, drop_app_length, take_app_length.
    by rewrite bool_decide_eq_true_2.
Qed.
End sample.
