(* ===== verification/Session.v ===== *)
(** * Transport sessions ([crates/transport/src/lib.rs])

    The outer packet format, sealing and opening datagrams over a Noise session
    ([NoiseCore]), anti-replay ([Replay]) and roaming. *)

From S2P Require Import Prelude Wire Replay NoiseCore.

Definition PKT_HANDSHAKE : Z := 0.
Definition PKT_TRANSPORT : Z := 1.

(** @ crates/transport/src/lib.rs:34-34 MAX_DATAGRAM_PLAINTEXT *)
Definition MAX_DATAGRAM_PLAINTEXT : nat := 1200.

(** @ crates/transport/src/lib.rs:41-41 MIN_HANDSHAKE_INIT *)
Definition MIN_HANDSHAKE_INIT : nat := 1200.

(** A session id is an 8-byte array. @ crates/transport/src/lib.rs:27-27 SessionId *)
Definition SessionId : Type := list Z.
Definition session_id_wf (sid : SessionId) : Prop := length sid = 8%nat.

(** @ crates/transport/src/lib.rs:67-77 Packet *)
Inductive Packet :=
| PktHandshake (session_id : SessionId) (body : list Z)
| PktTransport (session_id : SessionId) (nonce : Z) (body : list Z).

Section session.
Context `{!Snow}.

(** @ crates/transport/src/lib.rs:43-57 TransportError *)
Inductive TransportError :=
| Short
| UnknownType (ty : Z)
| SessionMismatch
| ReplayErr
| Noise (e : NoiseError)
| WireErr (e : WireError).

(** @ crates/transport/src/lib.rs:80-108 parse_packet *)
Definition parse_packet_checked (buf : list Z) : option (result TransportError Packet) :=
  match buf with
  | [] => Some (Err Short)
  | ty :: _ =>
    if (length buf <? 9)%nat then Some (Err Short)
    else
      session_id ← slice_checked buf 1 9;
      if ty =? PKT_HANDSHAKE then
        body ← slice_checked buf 9 (length buf); Some (Ok (PktHandshake session_id body))
      else if ty =? PKT_TRANSPORT then
        if (length buf <? 17)%nat then Some (Err Short)
        else
          nonce ← slice_checked buf 9 17;
          body ← slice_checked buf 17 (length buf);
          Some (Ok (PktTransport session_id (from_be_bytes nonce) body))
      else Some (Err (UnknownType ty))
  end.

(** It never panics ([parse_packet_calm]), so the default is never taken. *)
Definition parse_packet (buf : list Z) : result TransportError Packet :=
  default (Err Short) (parse_packet_checked buf).

(** @ crates/transport/src/lib.rs:111-117 build_handshake_packet *)
Definition build_handshake_packet (session_id : SessionId) (noise_msg : list Z) : list Z :=
  [PKT_HANDSHAKE] ++ session_id ++ noise_msg.

Context {SocketAddr : Type}.

(** @ crates/transport/src/lib.rs:124-130 Session *)
Record Session := mkSession {
  session_id : SessionId;
  noise : NoiseSession;
  send_nonce : Z;
  replay : WindowFilter;
  peer_addr : option SocketAddr;
}.

(** @ crates/transport/src/lib.rs:133-141 Session::new *)
Definition session_new (sid : SessionId) (noise : NoiseSession)
    (peer_addr : option SocketAddr) : Session :=
  {| session_id := sid; noise := noise; send_nonce := 0; replay := filter_new;
     peer_addr := peer_addr |}.

(** The nonce is consumed even when encryption fails.
    @ crates/transport/src/lib.rs:154-165 Session::seal *)
Definition seal (s : Session) (frames : list Frame) :
    result TransportError (list Z) * Session :=
  let plaintext := encode_frames frames in
  let nonce := send_nonce s in
  let s := {| session_id := session_id s; noise := noise s;
              send_nonce := as_u64 (nonce + 1); replay := replay s;
              peer_addr := peer_addr s |} in
  match encrypt (noise s) nonce plaintext with
  | Err e => (Err (Noise e), s)
  | Ok ct => (Ok ([PKT_TRANSPORT] ++ session_id s ++ to_be_bytes 8 nonce ++ ct), s)
  end.

(** The body of the [for f in frames] loop, then the final flush.
    @ crates/transport/src/lib.rs:170-192 Session::seal_many *)
Fixpoint seal_loop (s : Session) (frames : list Frame) (max_plaintext : nat)
    (packets : list (list Z)) (group : list Frame) (group_len : nat) :
    result TransportError (list (list Z)) * Session :=
  match frames with
  | [] =>
    match group with
    | [] => (Ok packets, s)
    | _ =>
      match seal s group with
      | (Err e, s) => (Err e, s)
      | (Ok p, s) => (Ok (packets ++ [p]), s)
      end
    end
  | f :: frames =>
    let flen := length (encode_frames [f]) in
    if negb (bool_decide (group = [])) && (max_plaintext <? group_len + flen)%nat then
      match seal s group with
      | (Err e, s) => (Err e, s)
      | (Ok p, s) => seal_loop s frames max_plaintext (packets ++ [p]) [f] flen
      end
    else seal_loop s frames max_plaintext packets (group ++ [f]) (group_len + flen)
  end.

(** @ crates/transport/src/lib.rs:170-192 Session::seal_many *)
Definition seal_many (s : Session) (frames : list Frame) (max_plaintext : nat) :
    result TransportError (list (list Z)) * Session :=
  seal_loop s frames max_plaintext [] [] 0.

(** @ crates/transport/src/lib.rs:196-216 Session::open *)
Definition open_checked (s : Session) (src : SocketAddr) (packet : list Z) :
    option (result TransportError (list Frame) * Session) :=
  parsed ← parse_packet_checked packet;
  match parsed with
  | Err e => Some (Err e, s)
  | Ok (PktHandshake _ _) => Some (Err (UnknownType PKT_HANDSHAKE), s)
  | Ok (PktTransport sid nonce body) =>
    if bool_decide (sid ≠ session_id s) then Some (Err SessionMismatch, s)
    else
      match decrypt (noise s) nonce body with
      | Err e => Some (Err (Noise e), s)
      | Ok plaintext =>
        let '(fresh, replay) := check_and_set (replay s) nonce in
        if fresh then
          frames ← decode_frames_checked plaintext;
          Some (map_err WireErr frames,
           {| session_id := session_id s; noise := noise s;
              send_nonce := send_nonce s; replay := replay;
              peer_addr := Some src |})
        else
          Some (Err ReplayErr,
           {| session_id := session_id s; noise := noise s;
              send_nonce := send_nonce s; replay := replay;
              peer_addr := peer_addr s |})
      end
  end.

(** The same, since nothing in it panics ([open_calm]). *)
Definition open (s : Session) (src : SocketAddr) (packet : list Z) :
    result TransportError (list Frame) * Session :=
  match parse_packet packet with
  | Err e => (Err e, s)
  | Ok (PktHandshake _ _) => (Err (UnknownType PKT_HANDSHAKE), s)
  | Ok (PktTransport sid nonce body) =>
    if bool_decide (sid ≠ session_id s) then (Err SessionMismatch, s)
    else
      match decrypt (noise s) nonce body with
      | Err e => (Err (Noise e), s)
      | Ok plaintext =>
        let '(fresh, replay) := check_and_set (replay s) nonce in
        if fresh then
          (map_err WireErr (decode_frames plaintext),
           {| session_id := session_id s; noise := noise s;
              send_nonce := send_nonce s; replay := replay;
              peer_addr := Some src |})
        else
          (Err ReplayErr,
           {| session_id := session_id s; noise := noise s;
              send_nonce := send_nonce s; replay := replay;
              peer_addr := peer_addr s |})
      end
  end.

(** What an accepted packet has passed, in the order the code checks it. *)
Definition authentic (s : Session) (packet : list Z) (nonce : Z) (plaintext : list Z) : Prop :=
  ∃ body, parse_packet packet = Ok (PktTransport (session_id s) nonce body) ∧
          decrypt (noise s) nonce body = Ok plaintext.

(** Open a sequence of datagrams in arrival order: the nonces of those that
    were not refused (their payload was decoded), and the final session. *)
Fixpoint open_all (s : Session) (packets : list (SocketAddr * list Z)) :
    list Z * Session :=
  match packets with
  | [] => ([], s)
  | (src, packet) :: rest =>
    let '(r, s') := open s src packet in
    let '(acc, s'') := open_all s' rest in
    match r, parse_packet packet with
    | Ok _, Ok (PktTransport _ nonce _) => (nonce :: acc, s'')
    | Err (WireErr _), Ok (PktTransport _ nonce _) => (nonce :: acc, s'')
    | _, _ => (acc, s'')
    end
  end.

(** Seal the groups one after another, stopping at the first error. *)
Fixpoint seal_groups (s : Session) (groups : list (list Frame)) :
    result TransportError (list (list Z)) * Session :=
  match groups with
  | [] => (Ok [], s)
  | g :: groups =>
    match seal s g with
    | (Err e, s) => (Err e, s)
    | (Ok p, s) =>
      match seal_groups s groups with
      | (Err e, s) => (Err e, s)
      | (Ok ps, s) => (Ok (p :: ps), s)
      end
    end
  end.

(** ** Freedom from panics *)

(** The length checks keep every slice of a header in range. *)
Lemma parse_packet_eq buf :
  parse_packet_checked buf = Some (
    match buf with
    | [] => Err Short
    | ty :: _ =>
      if (length buf <? 9)%nat then Err Short
      else if ty =? PKT_HANDSHAKE then Ok (PktHandshake (slice buf 1 9) (drop 9 buf))
      else if ty =? PKT_TRANSPORT then
        if (length buf <? 17)%nat then Err Short
        else Ok (PktTransport (slice buf 1 9) (from_be_bytes (slice buf 9 17)) (drop 17 buf))
      else Err (UnknownType ty)
    end).
Proof.
  unfold parse_packet_checked. destruct buf as [|ty rest]; [done|].
  set (buf := ty :: rest). clearbody buf. destruct (Nat.ltb_spec (length buf) 9); [done|].
  rewrite (slice_checked_ok buf 1 9) by lia. cbn [mbind option_bind].
  destruct (ty =? PKT_HANDSHAKE).
  { rewrite (slice_checked_ok buf 9) by lia. cbn. by rewrite slice_tail by lia. }
  destruct (ty =? PKT_TRANSPORT); [|done]. destruct (Nat.ltb_spec (length buf) 17); [done|].
  rewrite (slice_checked_ok buf 9), (slice_checked_ok buf 17) by lia. cbn [mbind option_bind].
  by rewrite (slice_tail buf 17) by lia.
Qed.

Lemma parse_packet_calm buf : parse_packet_checked buf = Some (parse_packet buf).
Proof. unfold parse_packet. by rewrite parse_packet_eq. Qed.

Lemma parse_packet_unfold buf :
  parse_packet buf =
    match buf with
    | [] => Err Short
    | ty :: _ =>
      if (length buf <? 9)%nat then Err Short
      else if ty =? PKT_HANDSHAKE then Ok (PktHandshake (slice buf 1 9) (drop 9 buf))
      else if ty =? PKT_TRANSPORT then
        if (length buf <? 17)%nat then Err Short
        else Ok (PktTransport (slice buf 1 9) (from_be_bytes (slice buf 9 17)) (drop 17 buf))
      else Err (UnknownType ty)
    end.
Proof. unfold parse_packet. by rewrite parse_packet_eq. Qed.

Lemma open_calm s src packet : open_checked s src packet = Some (open s src packet).
Proof.
  unfold open_checked, open. rewrite parse_packet_calm. cbn [mbind option_bind].
  destruct (parse_packet packet) as [[|sid nonce body]|]; [done| |done].
  case_bool_decide; [done|]. destruct (decrypt _ _ _); [|done].
  destruct (check_and_set _ _) as [[] w]; [|done]. by rewrite decode_frames_calm.
Qed.

(** ** Packet layout *)

Lemma parse_transport_bytes (sid nb body : list Z) :
  session_id_wf sid → length nb = 8%nat →
  parse_packet ([PKT_TRANSPORT] ++ sid ++ nb ++ body) = Ok (PktTransport sid (from_be_bytes nb) body).
Proof.
  intros Hsid Hl. unfold session_id_wf in Hsid. rewrite parse_packet_unfold. cbn [app].
  rewrite !(proj2 (Nat.ltb_ge _ _)) by (cbn [length]; rewrite !length_app; lia).
  cbn [Z.eqb PKT_TRANSPORT PKT_HANDSHAKE Pos.eqb].
  assert (slice (PKT_TRANSPORT :: sid ++ nb ++ body) 1 9 = sid) as ->.
  { apply (slice_mid' [_]); cbn; lia. }
  assert (slice (PKT_TRANSPORT :: sid ++ nb ++ body) 9 17 = nb) as ->.
  { apply (slice_mid' (_ :: sid)); cbn [length]; lia. }
  do 2 f_equal. change 17%nat with (1 + (8 + 8))%nat. cbn [drop Nat.add].
  rewrite (assoc_L (++)), drop_app_length' by (rewrite length_app; lia). done.
Qed.

Lemma parse_transport_packet sid nonce body :
  session_id_wf sid → is_u64 nonce →
  parse_packet ([PKT_TRANSPORT] ++ sid ++ to_be_bytes 8 nonce ++ body) =
    Ok (PktTransport sid nonce body).
Proof.
  intros Hsid Hn. rewrite parse_transport_bytes by (done || apply length_to_be_bytes).
  by rewrite from_to_be_bytes by (unfold is_u64 in Hn; lia).
Qed.

Lemma parse_handshake_packet sid msg :
  session_id_wf sid →
  parse_packet (build_handshake_packet sid msg) = Ok (PktHandshake sid msg).
Proof.
  intros Hsid. unfold session_id_wf in Hsid.
  rewrite parse_packet_unfold. unfold build_handshake_packet. cbn [app].
  rewrite (proj2 (Nat.ltb_ge _ _)) by (cbn [length]; rewrite length_app; lia).
  cbn [Z.eqb PKT_HANDSHAKE].
  assert (slice (PKT_HANDSHAKE :: sid ++ msg) 1 9 = sid) as ->.
  { rewrite <- (app_nil_r msg). apply (slice_mid' [_]); cbn; lia. }
  cbn [drop]. by rewrite drop_app_length' by done.
Qed.

(** ** Opening *)

Lemma parse_no_wire packet w : parse_packet packet ≠ Err (WireErr w).
Proof.
  rewrite parse_packet_unfold. destruct packet as [|ty rest]; [done|].
  repeat match goal with |- context [if ?b then _ else _] => destruct b end; done.
Qed.

(** Every branch of [open] at once: only an authentic packet with a fresh
    nonce moves the peer address, and nothing else of the session but the
    filter ever changes. *)
Lemma open_spec s src packet r s' :
  open s src packet = (r, s') →
  (s' = s ∧ ∃ e, r = Err e ∧ (∀ w, e ≠ WireErr w)) ∨
  ∃ nonce plaintext,
    authentic s packet nonce plaintext ∧
    replay s' = snd (check_and_set (replay s) nonce) ∧
    session_id s' = session_id s ∧ noise s' = noise s ∧ send_nonce s' = send_nonce s ∧
    if fst (check_and_set (replay s) nonce)
    then r = map_err WireErr (decode_frames plaintext) ∧ peer_addr s' = Some src
    else r = Err ReplayErr ∧ peer_addr s' = peer_addr s.
Proof.
  assert (∀ e, (∀ w, e ≠ WireErr w) → (Err e, s) = (r, s') →
    s' = s ∧ ∃ e, r = Err e ∧ (∀ w, e ≠ WireErr w)) as Hno
    by (intros e ? [= <- <-]; split; [done|by exists e]).
  unfold open. destruct (parse_packet packet) as [[sid body|sid nonce body]|e] eqn:Hp.
  1: intros Ho; left; by apply (λ He, Hno _ He Ho).
  2:{ intros Ho; left; apply (λ He, Hno _ He Ho). intros w ->. by apply parse_no_wire in Hp. }
  case_bool_decide as Hsid; [intros Ho; left; by apply (λ He, Hno _ He Ho)|].
  subst sid.
  destruct (decrypt (noise s) nonce body) as [plaintext|e] eqn:Hd;
    [|intros Ho; left; by apply (λ He, Hno _ He Ho)].
  intros Ho. right. exists nonce, plaintext. split; [by exists body|].
  destruct (check_and_set (replay s) nonce) as [[] w]; injection Ho as <- <-; by split_and!.
Qed.

(** What a session accepts are frames in range. *)
Lemma open_frames_wf s src packet frames s' :
  open s src packet = (Ok frames, s') → Forall frame_wf frames.
Proof.
  intros [[_ (e & He & _)]|(nonce & pt & _ & _ & _ & _ & _ & Hr)]%open_spec; [done|].
  destruct (fst _); destruct Hr as [Hr _]; [|done].
  destruct (decode_frames pt) as [fs|] eqn:Hd; [|done]. injection Hr as ->. by eapply decode_frames_range.
Qed.

Lemma parse_nonce_nonneg packet sid nonce body :
  Forall is_u8 packet → parse_packet packet = Ok (PktTransport sid nonce body) → 0 ≤ nonce.
Proof.
  intros Hb. rewrite parse_packet_unfold. destruct packet as [|ty rest]; [done|].
  set (p := ty :: rest) in *. clearbody p.
  destruct (length p <? 9)%nat; [done|]. destruct (ty =? _); [done|].
  destruct (ty =? _); [|done]. destruct (length p <? 17)%nat; [done|].
  intros [= _ <- _]. apply from_be_bytes_nonneg. unfold slice. by apply Forall_take, Forall_drop.
Qed.

(** Opening is the replay filter run on the nonces that authenticate. *)
Lemma open_all_filter packets : ∀ s,
  Forall (λ '(_, p), Forall is_u8 p) packets →
  ∃ ns, Forall (λ n, 0 ≤ n) ns ∧
    fst (open_all s packets) = fst (accept_all (replay s) ns).
Proof.
  induction packets as [|[src p] packets IH]; intros s Hb; [by exists []|].
  apply Forall_cons_1 in Hb as [Hp Hb]. cbn [open_all].
  destruct (open s src p) as [r s1] eqn:Ho. apply open_spec in Ho.
  destruct (IH s1 Hb) as (ns & Hns & Heq). destruct (open_all s1 packets) as [acc s2].
  cbn in Heq. destruct Ho as [(-> & e & -> & He)|(n & pt & (body & Hparse & Hd) & Hr & _ & _ & _ & Hf)].
  - exists ns. split; [done|]. destruct e; cbn; try done. by edestruct He.
  - exists (n :: ns). apply parse_nonce_nonneg in Hparse as Hn; [|done].
    split; [by constructor|]. rewrite Hparse. cbn.
    destruct (check_and_set (replay s) n) as [fresh w]. cbn in *. subst w.
    destruct (accept_all (replay s1) ns) as [acc' w']. cbn in *. subst acc'.
    destruct fresh; destruct Hf as [-> _]; [by destruct (decode_frames pt)|done].
Qed.

(** ** Sealing *)

Lemma seal_nonce s frames : send_nonce (snd (seal s frames)) = as_u64 (send_nonce s + 1).
Proof. unfold seal. by destruct encrypt. Qed.

Lemma seal_same s frames :
  session_id (snd (seal s frames)) = session_id s ∧ noise (snd (seal s frames)) = noise s ∧
  replay (snd (seal s frames)) = replay s ∧ peer_addr (snd (seal s frames)) = peer_addr s.
Proof. unfold seal. by destruct encrypt. Qed.

(** A sealed packet carries the nonce it was encrypted under. *)
Lemma seal_packet s frames p :
  session_id_wf (session_id s) → is_u64 (send_nonce s) → fst (seal s frames) = Ok p →
  ∃ ct, parse_packet p = Ok (PktTransport (session_id s) (send_nonce s) ct) ∧
        encrypt (noise s) (send_nonce s) (encode_frames frames) = Ok ct.
Proof.
  intros Hsid Hn. unfold seal. destruct encrypt as [ct|e] eqn:He; [|done].
  intros [= <-]. exists ct. split; [|done]. by apply parse_transport_packet.
Qed.

(** So do several: only the nonce moves, and every packet is one of the session. *)
Lemma seal_loop_same frames max : ∀ (s : Session) packets g n r sn,
  seal_loop s frames max packets g n = (r, sn) →
  session_id sn = session_id s ∧ noise sn = noise s ∧ replay sn = replay s ∧
  peer_addr sn = peer_addr s.
Proof.
  induction frames as [|f frames IH]; intros s packets g n r sn; cbn [seal_loop].
  - destruct g as [|f g]; [by intros [= _ <-]|].
    pose proof (seal_same s (f :: g)) as (Hi & Hn & Hr & Hp).
    destruct (seal s (f :: g)) as [[]]; intros [= _ <-]; done.
  - destruct (_ && _); [|apply IH].
    pose proof (seal_same s g) as (Hi & Hn & Hr & Hp).
    destruct (seal s g) as [[]]; cbn in Hi, Hn, Hr, Hp; [|intros [= _ <-]; done].
    intros Hl. apply IH in Hl. by destruct Hl as (-> & -> & -> & ->).
Qed.

Definition transport_of (sid : SessionId) (p : list Z) : Prop :=
  ∃ nonce ct, parse_packet p = Ok (PktTransport sid nonce ct).

Lemma seal_transport (s : Session) frames p sn :
  session_id_wf (session_id s) → seal s frames = (Ok p, sn) → transport_of (session_id s) p.
Proof.
  intros Hsid. unfold seal. destruct encrypt as [ct|]; [|done]. intros Hp%(f_equal fst).
  apply (inj Ok) in Hp as <-.
  eexists _, ct. apply parse_transport_bytes; [done|]. apply length_to_be_bytes.
Qed.

Lemma seal_loop_transport frames max : ∀ (s : Session) packets g n ps sn,
  session_id_wf (session_id s) → Forall (transport_of (session_id s)) packets →
  seal_loop s frames max packets g n = (Ok ps, sn) → Forall (transport_of (session_id s)) ps.
Proof.
  induction frames as [|f frames IH]; intros s packets g n ps sn Hsid Hps; cbn [seal_loop].
  - destruct g as [|f g]; [by intros [= <- _]|].
    destruct (seal s (f :: g)) as [[p|]] eqn:Hseal; [|done]. intros [= <- _].
    apply Forall_app_2; [done|]. apply seal_transport in Hseal; by repeat constructor.
  - destruct (_ && _); [|by apply IH].
    destruct (seal s g) as [[p|] s1] eqn:Hseal; [|done]. intros Hl.
    pose proof (seal_same s g) as (Hi & _). rewrite Hseal in Hi. cbn [snd] in Hi.
    apply seal_transport in Hseal; [|done]. rewrite <- Hi in *.
    eapply IH; [done| |done]. apply Forall_app_2; [done|]. by constructor.
Qed.

(** What [seal_many] promises of its groups: none is empty, none exceeds the
    limit unless it is a single frame, and none could have taken the next
    frame. *)
Definition group_ok (max : nat) (g : list Frame) : Prop :=
  g ≠ [] ∧ (length g = 1%nat ∨ (length (encode_frames g) ≤ max)%nat).

Fixpoint packed (max : nat) (groups : list (list Frame)) : Prop :=
  match groups with
  | [] => True
  | g :: rest =>
    match rest with
    | (f :: _) :: _ => (max < length (encode_frames (g ++ [f])))%nat
    | _ => True
    end ∧ packed max rest
  end.

Lemma encode_frames_snoc g f :
  length (encode_frames (g ++ [f])) =
    (length (encode_frames g) + length (encode_frames [f]))%nat.
Proof.
  rewrite !encode_frames_concat, fmap_app, concat_app, length_app. done.
Qed.

Lemma seal_groups_cons s g groups :
  seal_groups s (g :: groups) =
    match seal s g with
    | (Err e, s) => (Err e, s)
    | (Ok p, s) =>
      match seal_groups s groups with
      | (Err e, s) => (Err e, s)
      | (Ok ps, s) => (Ok (p :: ps), s)
      end
    end.
Proof. done. Qed.

Lemma seal_loop_groups max frames : ∀ s packets group,
  group_ok max group ∨ group = [] →
  ∃ groups,
    concat groups = group ++ frames ∧ Forall (group_ok max) groups ∧
    packed max groups ∧ (group ≠ [] → ∃ more, head groups = Some (group ++ more)) ∧
    seal_loop s frames max packets group (length (encode_frames group)) =
      match seal_groups s groups with
      | (Err e, s) => (Err e, s)
      | (Ok ps, s) => (Ok (packets ++ ps), s)
      end.
Proof.
  induction frames as [|f frames IH]; intros s packets group Hg.
  - destruct group as [|f g].
    + exists []. cbn. split_and!; try done. by rewrite app_nil_r.
    + exists [f :: g]. destruct Hg as [Hg|]; [|done]. cbn [seal_loop seal_groups concat].
      split_and!; [done|by constructor|done|by exists []; rewrite app_nil_r|].
      by destruct seal as [[p|e] s'].
  - cbn [seal_loop].
    destruct (decide (group ≠ [] ∧ (max < length (encode_frames (group ++ [f])))%nat))
      as [[Hne Hlt]|Hfit].
    + rewrite bool_decide_eq_false_2, (proj2 (Nat.ltb_lt _ _)) by
        (done || by rewrite <- encode_frames_snoc). cbn [negb andb].
      destruct Hg as [Hg|]; [|done].
      destruct (seal s group) as [r s1] eqn:Hs.
      destruct (IH s1 (packets ++ [match r with Ok p => p | Err _ => [] end]) [f])
        as (groups & Hc & Hf & Hp & (more & Hh) & Hl); [by left; split; [|left]|done|].
      exists (group :: groups). destruct groups as [|g1 groups]; [done|].
      injection Hh as ->. split_and!.
      * by rewrite concat_cons, Hc.
      * by constructor.
      * by split.
      * by exists []; rewrite app_nil_r.
      * rewrite seal_groups_cons, Hs. destruct r as [p|e]; [|done]. rewrite Hl.
        destruct seal_groups as [[ps|e] s2]; [|done]. by rewrite <- (assoc_L (++)).
    + assert (negb (bool_decide (group = [])) && (max <? length (encode_frames group)
        + length (encode_frames [f]))%nat = false) as ->.
      { case_bool_decide; [done|]. cbn [negb andb].
        apply Nat.ltb_ge. rewrite <- encode_frames_snoc.
        destruct (decide (max < length (encode_frames (group ++ [f])))%nat); [|lia].
        by destruct Hfit. }
      rewrite <- encode_frames_snoc.
      destruct (IH s packets (group ++ [f])) as (groups & Hc & Hf & Hp & Hh & Hl).
      { left. split; [by destruct group|]. destruct group as [|g0 group]; [by left|right].
        destruct (decide (max < length (encode_frames ((g0 :: group) ++ [f])))%nat); [|lia].
        by destruct Hfit. }
      exists groups. rewrite Hc, <- (assoc_L (++)). split_and!; try done.
      intros _. destruct Hh as [more ->]; [by destruct group|].
      exists (f :: more). by rewrite <- (assoc_L (++)).
Qed.

(** Consecutive packets carry consecutive nonces. *)
Lemma seal_groups_nonces groups : ∀ s ps,
  session_id_wf (session_id s) → 0 ≤ send_nonce s → send_nonce s + zlen groups < 2 ^ 64 →
  fst (seal_groups s groups) = Ok ps →
  length ps = length groups ∧
  send_nonce (snd (seal_groups s groups)) = send_nonce s + zlen groups ∧
  ∀ i g, groups !! i = Some g → ∃ p ct, ps !! i = Some p ∧
    parse_packet p = Ok (PktTransport (session_id s) (send_nonce s + Z.of_nat i) ct) ∧
    encrypt (noise s) (send_nonce s + Z.of_nat i) (encode_frames g) = Ok ct.
Proof.
  induction groups as [|g groups IH]; intros s ps Hsid Hn Hlt.
  { intros [= <-]. cbn. split_and!; [done|lia|]. done. }
  cbn [seal_groups length] in *.
  pose proof (seal_nonce s g) as Hsn. pose proof (seal_same s g) as (Hs1 & Hs2 & _).
  pose proof (seal_packet s g) as Hpk. destruct (seal s g) as [[p|e] s1]; [|done].
  cbn in Hsn, Hs1, Hs2, Hpk. rewrite as_u64_id in Hsn by (unfold is_u64; lia).
  specialize (IH s1). rewrite Hs1, Hs2, Hsn in IH.
  destruct (seal_groups s1 groups) as [[ps'|e] s2]; [|done]. intros [= <-].
  destruct (IH ps') as (IHl & IHn & IHi); [done|lia|lia|done|]. cbn in *.
  split_and!; [lia|lia|]. intros [|i] g'; cbn.
  - intros [= <-]. destruct (Hpk p) as (ct & ? & ?); [done|unfold is_u64; lia|done|].
    exists p, ct. by rewrite Z.add_0_r.
  - intros Hi. destruct (IHi i g' Hi) as (p' & ct & ? & ? & ?). exists p', ct.
    by replace (send_nonce s + Z.of_nat (S i)) with (send_nonce s + 1 + Z.of_nat i) by lia.
Qed.

(** Frames that fit together travel in one packet. *)
Lemma seal_loop_fits frames max : ∀ (s : Session) g,
  g ≠ [] → (length (encode_frames (g ++ frames)) ≤ max)%nat →
  seal_loop s frames max [] g (length (encode_frames g)) =
    match seal s (g ++ frames) with
    | (Err e, s) => (Err e, s)
    | (Ok p, s) => (Ok [p], s)
    end.
Proof.
  induction frames as [|f frames IH]; intros s g Hg Hfit; cbn [seal_loop].
  - rewrite app_nil_r in *. destruct g; [done|]. done.
  - rewrite (cons_middle f g frames), (assoc_L (++)) in *.
    assert (length (encode_frames (g ++ [f])) ≤ max)%nat as Hle.
    { rewrite encode_frames_concat, fmap_app, concat_app, length_app, <- !encode_frames_concat in Hfit. lia. }
    rewrite encode_frames_snoc in Hle.
    rewrite (proj2 (Nat.ltb_ge _ _)) by done. rewrite andb_false_r, <- encode_frames_snoc.
    apply IH; [by destruct g|done].
Qed.

Lemma seal_many_fits (s : Session) frames max :
  frames ≠ [] → (length (encode_frames frames) ≤ max)%nat →
  seal_many s frames max =
    match seal s frames with
    | (Err e, s) => (Err e, s)
    | (Ok p, s) => (Ok [p], s)
    end.
Proof.
  intros Hne Hfit. unfold seal_many. destruct frames as [|f frames]; [done|]. cbn [seal_loop].
  rewrite bool_decide_eq_true_2 by done. cbn [negb andb app Nat.add].
  by apply (seal_loop_fits frames max s [f]).
Qed.

(** Confidential round trip: whatever well-typed frames one end seals, the
    other end opens to exactly those frames, advances its replay window and
    roams to the source address — provided the payload fits one Noise message
    and the nonce is one its window still takes. *)
Lemma seal_open_roundtrip a b src frames :
  transport_peers (transport (noise a)) (transport (noise b)) →
  session_id a = session_id b → session_id_wf (session_id a) →
  Forall frame_wf frames → noise_ok (send_nonce a) (encode_frames frames) →
  fst (check_and_set (replay b) (send_nonce a)) = true →
  ∃ packet,
    fst (seal a frames) = Ok packet ∧
    open b src packet =
      (Ok frames,
       {| session_id := session_id b; noise := noise b; send_nonce := send_nonce b;
          replay := snd (check_and_set (replay b) (send_nonce a));
          peer_addr := Some src |}).
Proof.
  intros Hp Hsid Hwf Hf Hok Hfresh.
  destruct (decrypt_encrypt (noise a) (noise b) _ _ Hp Hok) as (ct & He & Hd).
  destruct (seal a frames) as [r a'] eqn:Hs. pose proof Hs as Hs'.
  unfold seal in Hs'. cbn [noise] in Hs'. rewrite He in Hs'. injection Hs' as <- _.
  eexists. split; [done|]. cbn [fst].
  pose proof (seal_packet a frames _ Hwf
    ltac:(unfold noise_ok in Hok; unfold is_u64; lia) (f_equal fst Hs)) as (ct' & Hparse & He').
  rewrite He in He'. injection He' as <-.
  unfold open. rewrite Hparse, Hsid, bool_decide_eq_false_2 by naive_solver. rewrite Hd.
  destruct (check_and_set (replay b) (send_nonce a)) as [fresh w]. cbn in Hfresh |- *.
  subst fresh. rewrite decode_encode_frames; [done..|].
  unfold noise_ok in Hok. lia_ints.
Qed.


(** ** Properties *)

(** Authenticated roaming: after any datagram, from any source, the session
    differs from before only if the datagram carries this session's id and
    decrypts under its Noise session; the peer address moves only if its nonce
    was also fresh, and only to the datagram's source; the id, the keys and
    the sending nonce never change. *)
Theorem open_roams_only_when_authentic s src packet :
  let s' := snd (open s src packet) in
  (s' ≠ s → ∃ nonce plaintext, authentic s packet nonce plaintext ∧
    replay s' = snd (check_and_set (replay s) nonce) ∧
    (peer_addr s' ≠ peer_addr s →
      fst (check_and_set (replay s) nonce) = true ∧ peer_addr s' = Some src)) ∧
  session_id s' = session_id s ∧ noise s' = noise s ∧ send_nonce s' = send_nonce s.
Proof.
  cbn. destruct (open s src packet) as [r s'] eqn:Ho.
  apply open_spec in Ho as [[-> _]|(n & pt & Ha & Hr & Hs & Hn & Hsn & Hf)]; [by split_and!|].
  cbn. split; [|done]. intros _. exists n, pt. split_and!; [done|done|].
  destruct (fst (check_and_set _ _)); destruct Hf as [_ ->]; [done|]. intros []. done.
Qed.

(** Replay protection end to end: over any sequence of datagrams a fresh
    session receives, no two whose payload it decodes carry the same nonce. *)
Theorem session_accepts_each_nonce_once sid ns addr packets :
  Forall (λ '(_, p), Forall is_u8 p) packets →
  NoDup (fst (open_all (session_new sid ns addr) packets)).
Proof.
  intros Hb. destruct (open_all_filter packets (session_new sid ns addr) Hb) as (nn & Hn & ->).
  pose proof (accept_all_spec nn _ _ represents_new Hn) as H1.
  cbn [session_new replay]. by destruct (accept_all filter_new nn), H1.
Qed.

(** Datagram packing: [seal_many] partitions the frames, in order, into
    non-empty groups, each at most [max] plaintext bytes unless it is a single
    frame, none of which could have taken the next frame; and packet [i] is
    group [i] encrypted under nonce [send_nonce + i], so no nonce is reused. *)
Theorem seal_many_packs s frames max packets :
  session_id_wf (session_id s) → 0 ≤ send_nonce s →
  send_nonce s + zlen frames < 2 ^ 64 →
  fst (seal_many s frames max) = Ok packets →
  ∃ groups,
    concat groups = frames ∧ Forall (group_ok max) groups ∧ packed max groups ∧
    length packets = length groups ∧
    send_nonce (snd (seal_many s frames max)) = send_nonce s + zlen groups ∧
    ∀ i g, groups !! i = Some g → ∃ p ct, packets !! i = Some p ∧
      parse_packet p = Ok (PktTransport (session_id s) (send_nonce s + Z.of_nat i) ct) ∧
      encrypt (noise s) (send_nonce s + Z.of_nat i) (encode_frames g) = Ok ct.
Proof.
  intros Hsid Hn Hlt. unfold seal_many.
  destruct (seal_loop_groups max frames s [] [] (or_intror eq_refl))
    as (groups & Hc & Hf & Hp & _ & Hl).
  change (length (encode_frames [])) with 0%nat in Hl. rewrite Hl.
  assert (length groups ≤ length frames)%nat.
  { cbn in Hc. rewrite <- Hc. clear -Hf. induction Hf as [|g gs [Hg _] _ IH]; [done|].
    rewrite concat_cons, length_app. destruct g; [done|]. cbn. lia. }
  pose proof (seal_groups_nonces groups s) as Hseal.
  destruct (seal_groups s groups) as [[ps|e] s1]; [|done]. intros [= <-].
  destruct (Hseal ps) as (? & ? & ?); [done|lia|lia|done|].
  exists groups. by split_and!.
Qed.
End session.

(** ** Witnesses: two ends of a session over [sample_snow] *)

#[local] Existing Instance sample_snow.

Definition sample_session (nonce : Z) : @Session sample_snow nat :=
  {| session_id := [1; 2; 3; 4; 5; 6; 7; 8];
     noise := @mkNoiseSession sample_snow 7 []; send_nonce := nonce;
     replay := filter_new; peer_addr := Some 1%nat |}.

Lemma seal_open_roundtrip_witness :
  ∃ packet,
    fst (seal (sample_session 5) [Ack 42; Ping 9]) = Ok packet ∧
    fst (open (sample_session 0) 2%nat packet) = Ok [Ack 42; Ping 9] ∧
    peer_addr (snd (open (sample_session 0) 2%nat packet)) = Some 2%nat.
Proof.
  destruct (seal_open_roundtrip (sample_session 5) (sample_session 0) 2%nat [Ack 42; Ping 9])
    as (packet & Hs & Ho).
  - exact (sample_peers 7).
  - reflexivity.
  - reflexivity.
  - repeat constructor; cbn; lia_ints.
  - split; vm_compute; (split; congruence) || congruence.
  - reflexivity.
  - exists packet. split; [exact Hs|]. split; rewrite Ho; reflexivity.
Defined.

Lemma session_accepts_each_nonce_once_witness :
  NoDup (fst (open_all (@session_new sample_snow nat [1; 2; 3; 4; 5; 6; 7; 8]
    (@mkNoiseSession sample_snow 7 []) None)
    (let p := [PKT_TRANSPORT; 1; 2; 3; 4; 5; 6; 7; 8] ++ to_be_bytes 8 3
              ++ [1; 42] ++ sample_tag 7 3 in
     [(1%nat, p); (2%nat, p); (3%nat, [PKT_TRANSPORT; 9])]))).
Proof.
  apply session_accepts_each_nonce_once.
  apply Forall_cons_2; [|apply Forall_cons_2; [|apply Forall_singleton]];
    apply is_u8_all; vm_compute; reflexivity.
Defined.

Lemma seal_many_packs_witness :
  ∃ groups, concat groups = [Ack 1; Input 0 [1; 2; 3]; Ack 2; Ack 3] ∧
    length groups = 2%nat ∧ Forall (group_ok 8) groups.
Proof.
  assert (match fst (seal_many (sample_session 0) [Ack 1; Input 0 [1; 2; 3]; Ack 2; Ack 3] 8) with
          | Ok ps => length ps | Err _ => 0%nat end = 2%nat) as H2
    by (vm_compute; reflexivity).
  destruct (fst (seal_many (sample_session 0) [Ack 1; Input 0 [1; 2; 3]; Ack 2; Ack 3] 8))
    as [ps|e] eqn:Hps; [|discriminate].
  destruct (seal_many_packs (sample_session 0) [Ack 1; Input 0 [1; 2; 3]; Ack 2; Ack 3] 8 ps)
    as (groups & Hc & Hf & _ & Hl & _).
  - reflexivity.
  - cbn. lia.
  - cbn. lia.
  - exact Hps.
  - exists groups. split; [exact Hc|]. split; [|exact Hf]. rewrite <- Hl. exact H2.
Defined.
