(* ===== verification/Handshake.v ===== *)
(** * The handshake driver ([crates/proto/src/handshake.rs])

    One side of the three-message exchange, as a state over the Noise wrapper
    ([NoiseCore]), producing and consuming packets and ending in a transport
    session ([Session]). *)

From S2P Require Import Prelude Wire Replay NoiseCore Session.

Section handshake.
Context {N : Snow} {SocketAddr : Type}.

(** @ crates/proto/src/handshake.rs:15-23 HandshakeError *)
Inductive HandshakeError :=
| HsNoise (e : NoiseError)
| AlreadyFinished
| NotFinished.

(** @ crates/proto/src/handshake.rs:26-37 Handshaker *)
Record Handshaker := mkHandshaker {
  hs : option Handshake;
  hs_session_id : SessionId;
  finished : bool;
  send_payload : list Z;
  peer_payload : option (list Z);
}.

(** @ crates/proto/src/handshake.rs:40-45 HsOutcome *)
Record HsOutcome := mkHsOutcome { reply : option (list Z); hs_finished : bool }.

(** @ crates/proto/src/handshake.rs:49-71 Handshaker::client *)
Definition handshaker_client (local_private : list Z) (sid : SessionId) :
    result HandshakeError (Handshaker * list Z) :=
  h ← map_err HsNoise (handshake_new Initiator local_private);
  let '(r, h) := hs_write h (replicate MIN_HANDSHAKE_INIT 0) in
  msg1 ← map_err HsNoise r;
  Ok ({| hs := Some h; hs_session_id := sid; finished := false; send_payload := [];
         peer_payload := None |}, build_handshake_packet sid msg1).

(** @ crates/proto/src/handshake.rs:76-89 Handshaker::server *)
Definition handshaker_server (local_private : list Z) (sid : SessionId) (payload : list Z) :
    result HandshakeError Handshaker :=
  h ← map_err HsNoise (handshake_new Responder local_private);
  Ok {| hs := Some h; hs_session_id := sid; finished := false; send_payload := payload;
        peer_payload := None |}.

(** The payload is kept unless it is all zeros.
    @ crates/proto/src/handshake.rs:109-111 Handshaker::read *)
Definition keep_payload (payload : list Z) (old : option (list Z)) : option (list Z) :=
  if existsb (λ b, negb (b =? 0)) payload then Some payload else old.

(** The reply that is owed, with the payload drained.
    @ crates/proto/src/handshake.rs:125-133 Handshaker::read *)
Definition write_reply (h : Handshake) (k : Handshaker) :
    result HandshakeError HsOutcome * Handshaker :=
  let '(r, h) := hs_write h (send_payload k) in
  match r with
  | Err e =>
    (Err (HsNoise e), mkHandshaker (Some h) (hs_session_id k) (finished k) [] (peer_payload k))
  | Ok out =>
    let f := is_finished h in
    (Ok {| reply := Some (build_handshake_packet (hs_session_id k) out); hs_finished := f |},
     mkHandshaker (Some h) (hs_session_id k) f [] (peer_payload k))
  end.

(** @ crates/proto/src/handshake.rs:101-134 Handshaker::read *)
Definition hs_step (k : Handshaker) (body : list Z) :
    result HandshakeError HsOutcome * Handshaker :=
  match hs k with
  | None => (Err AlreadyFinished, k)
  | Some h =>
    let '(r, h) := hs_read h body in
    match r with
    | Err e =>
      (Err (HsNoise e),
       mkHandshaker (Some h) (hs_session_id k) (finished k) (send_payload k) (peer_payload k))
    | Ok payload =>
      let pp := keep_payload payload (peer_payload k) in
      if is_finished h then
        (Ok {| reply := None; hs_finished := true |},
         mkHandshaker (Some h) (hs_session_id k) true (send_payload k) pp)
      else write_reply h (mkHandshaker (Some h) (hs_session_id k) (finished k) (send_payload k) pp)
    end
  end.

(** @ crates/proto/src/handshake.rs:137-139 Handshaker::remote_static *)
Definition hs_remote_static (k : Handshaker) : option (list Z) :=
  hs k ≫= remote_static.

(** @ crates/proto/src/handshake.rs:152-159 Handshaker::into_session *)
Definition into_session (k : Handshaker) (addr : option SocketAddr) :
    result HandshakeError (@Session _ SocketAddr) :=
  if negb (finished k) then Err NotFinished
  else
    h ← ok_or (hs k) AlreadyFinished;
    noise ← map_err HsNoise (into_transport h);
    Ok (session_new (hs_session_id k) noise addr).

(** ** What the protocol promises

    A run of the three-message pattern between two key pairs, as [snow] documents
    it: each message is read by the other side, which gets the payload; only the
    third completes it, and then each side knows the other's static key and the
    two transports are each other's peers.  A message is no shorter than its
    payload, and is written only if it fits the 65535 bytes that a message may
    have: the 256 bytes of room that the buffers leave cover keys and tags. *)
Definition SNOW_MAXMSGLEN : Z := 65535.
Definition snow_fits (payload : list Z) : Prop := zlen payload + 256 ≤ SNOW_MAXMSGLEN.

Record xx_run (priv_i priv_r pub_i pub_r m2_payload : list Z) : Prop := {
  xx_exists pad : snow_fits pad → snow_fits m2_payload → ∃ i0 r0 i1 r1 r2 i2 i3 r3 m1 m2 m3 ti tr,
    snow_build Initiator priv_i = Ok i0 ∧ snow_build Responder priv_r = Ok r0 ∧
    hs_write_message i0 pad (length pad + 256)%nat = (Ok m1, i1) ∧
    (length pad ≤ length m1)%nat ∧
    hs_read_message r0 m1 (length m1 + 256)%nat = (Ok pad, r1) ∧
    is_handshake_finished r1 = false ∧
    hs_write_message r1 m2_payload (length m2_payload + 256)%nat = (Ok m2, r2) ∧
    is_handshake_finished r2 = false ∧
    hs_read_message i1 m2 (length m2 + 256)%nat = (Ok m2_payload, i2) ∧
    is_handshake_finished i2 = false ∧
    hs_write_message i2 [] 256%nat = (Ok m3, i3) ∧
    is_handshake_finished i3 = true ∧ get_remote_static i3 = Some pub_r ∧
    hs_read_message r2 m3 (length m3 + 256)%nat = (Ok [], r3) ∧
    is_handshake_finished r3 = true ∧ get_remote_static r3 = Some pub_i ∧
    into_stateless_transport_mode i3 = Ok ti ∧ into_stateless_transport_mode r3 = Ok tr ∧
    transport_peers ti tr ∧ transport_peers tr ti;
}.

(** The body of a handshake packet. *)
Definition packet_body (p : list Z) : list Z := drop 9 p.

Lemma packet_body_build sid msg :
  session_id_wf sid → packet_body (build_handshake_packet sid msg) = msg.
Proof.
  intros Hs. unfold packet_body, build_handshake_packet. rewrite (assoc_L (++)).
  replace 9%nat with (length ([PKT_HANDSHAKE] ++ sid)); [apply drop_app_length|].
  rewrite length_app, Hs. done.
Qed.

Lemma keep_zeros n : keep_payload (replicate n 0) None = None.
Proof.
  unfold keep_payload. assert (existsb (λ b, negb (b =? 0)) (replicate n 0) = false) as ->; [|done].
  by induction n.
Qed.

(** The two ways a message is read. *)
Lemma hs_step_reply k h body payload h1 out h2 :
  hs k = Some h → hs_read h body = (Ok payload, h1) → is_finished h1 = false →
  hs_write h1 (send_payload k) = (Ok out, h2) →
  hs_step k body =
    (Ok (mkHsOutcome (Some (build_handshake_packet (hs_session_id k) out)) (is_finished h2)),
     mkHandshaker (Some h2) (hs_session_id k) (is_finished h2) []
       (keep_payload payload (peer_payload k))).
Proof.
  intros Hk Hr Hf Hw. unfold hs_step. rewrite Hk, Hr, Hf. unfold write_reply. cbn [send_payload].
  by rewrite Hw.
Qed.

Lemma hs_step_last k h body payload h1 :
  hs k = Some h → hs_read h body = (Ok payload, h1) → is_finished h1 = true →
  hs_step k body =
    (Ok (mkHsOutcome None true),
     mkHandshaker (Some h1) (hs_session_id k) true (send_payload k)
       (keep_payload payload (peer_payload k))).
Proof. intros Hk Hr Hf. unfold hs_step. by rewrite Hk, Hr, Hf. Qed.

Lemma hs_read_ok st body payload st' :
  hs_read_message st body (length body + 256)%nat = (Ok payload, st') →
  hs_read (mkHandshake st) body = (Ok payload, mkHandshake st').
Proof. intros H. unfold hs_read. cbn [state]. by rewrite H. Qed.

Lemma hs_write_ok st payload out st' :
  hs_write_message st payload (length payload + 256)%nat = (Ok out, st') →
  hs_write (mkHandshake st) payload = (Ok out, mkHandshake st').
Proof. intros H. unfold hs_write. cbn [state]. by rewrite H. Qed.

(** The two drivers through the three messages, and the sessions they end in. *)
Lemma exchange priv_c priv_s pub_c pub_s version sid :
  xx_run priv_c priv_s pub_c pub_s version →
  snow_fits version → existsb (λ b, negb (b =? 0)) version = true →
  ∃ c m1 s m2 s1 m3 c1 s2 tc ts,
    (MIN_HANDSHAKE_INIT ≤ length m1)%nat ∧
    handshaker_client priv_c sid = Ok (c, build_handshake_packet sid m1) ∧
    handshaker_server priv_s sid version = Ok s ∧
    hs_step s m1 = (Ok (mkHsOutcome (Some (build_handshake_packet sid m2)) false), s1) ∧
    hs_step c m2 = (Ok (mkHsOutcome (Some (build_handshake_packet sid m3)) true), c1) ∧
    hs_step s1 m3 = (Ok (mkHsOutcome None true), s2) ∧
    peer_payload c1 = Some version ∧ peer_payload s2 = None ∧
    hs_remote_static c1 = Some pub_s ∧ hs_remote_static s2 = Some pub_c ∧
    (∀ addr, into_session c1 addr = Ok (session_new sid (mkNoiseSession tc pub_s) addr)) ∧
    (∀ addr, into_session s2 addr = Ok (session_new sid (mkNoiseSession ts pub_c) addr)) ∧
    transport_peers tc ts ∧ transport_peers ts tc.
Proof.
  intros [Hrun] Hfits Hver.
  destruct (Hrun (replicate MIN_HANDSHAKE_INIT 0) ltac:(by vm_compute) Hfits) as
    (i0 & r0 & i1 & r1 & r2 & i2 & i3 & r3 & m1 & m2 & m3 & ti & tr & Hbi & Hbr & Hw1 & Hl1 & Hr1 & Hf1 &
     Hw2 & Hf2 & Hr2 & Hf3 & Hw3 & Hf4 & Hki & Hr3 & Hf5 & Hkr & Hti & Htr & Hp1 & Hp2).
  pose proof (hs_write_ok _ _ _ _ Hw1) as Hw1'. rewrite length_replicate in Hl1.
  pose (c := mkHandshaker (Some (mkHandshake i1)) sid false [] None).
  pose (s := mkHandshaker (Some (mkHandshake r0)) sid false version None).
  pose (s1 := mkHandshaker (Some (mkHandshake r2)) sid false [] None).
  pose (c1 := mkHandshaker (Some (mkHandshake i3)) sid true [] (Some version)).
  pose (s2 := mkHandshaker (Some (mkHandshake r3)) sid true [] None).
  exists c, m1, s, m2, s1, m3, c1, s2, ti, tr. split_and!; try done.
  - unfold handshaker_client, handshake_new. rewrite Hbi.
    cbn [map_err fmap result_fmap mbind result_bind]. by rewrite Hw1'.
  - unfold handshaker_server, handshake_new. by rewrite Hbr.
  - rewrite (hs_step_reply s _ _ _ _ _ _ eq_refl (hs_read_ok _ _ _ _ Hr1) Hf1 (hs_write_ok _ _ _ _ Hw2)).
    unfold s1. cbn [peer_payload s]. rewrite keep_zeros. unfold is_finished. cbn [state].
    by rewrite Hf2.
  - rewrite (hs_step_reply c _ _ _ _ _ _ eq_refl (hs_read_ok _ _ _ _ Hr2) Hf3 (hs_write_ok _ _ _ _ Hw3)).
    unfold c1, keep_payload. rewrite Hver. unfold is_finished. cbn [state]. by rewrite Hf4.
  - rewrite (hs_step_last s1 _ _ _ _ eq_refl (hs_read_ok _ _ _ _ Hr3) Hf5). done.
  - intros addr. unfold into_session, into_transport, c1. cbn. by rewrite Hf4, Hki, Hti.
  - intros addr. unfold into_session, into_transport, s2. cbn. by rewrite Hf5, Hkr, Htr.
Qed.

(** The exchange completes: two drivers that hand each other their packets
    finish after three messages; the client has the server's payload, the server
    kept none of the padding; each knows the other's static key and makes a
    transport session of the same id. *)
Theorem handshake_completes priv_c priv_s pub_c pub_s version sid addr :
  xx_run priv_c priv_s pub_c pub_s version → session_id_wf sid →
  snow_fits version → existsb (λ b, negb (b =? 0)) version = true →
  ∃ c p1 s p2 s1 p3 c1 s2 sc ss,
    handshaker_client priv_c sid = Ok (c, p1) ∧
    handshaker_server priv_s sid version = Ok s ∧
    hs_step s (packet_body p1) = (Ok (mkHsOutcome (Some p2) false), s1) ∧
    hs_step c (packet_body p2) = (Ok (mkHsOutcome (Some p3) true), c1) ∧
    hs_step s1 (packet_body p3) = (Ok (mkHsOutcome None true), s2) ∧
    peer_payload c1 = Some version ∧ peer_payload s2 = None ∧
    hs_remote_static c1 = Some pub_s ∧ hs_remote_static s2 = Some pub_c ∧
    into_session c1 None = Ok sc ∧ into_session s2 (Some addr) = Ok ss ∧
    session_id sc = sid ∧ session_id ss = sid.
Proof.
  intros Hrun Hsid Hfits Hver.
  destruct (exchange _ _ _ _ _ sid Hrun Hfits Hver) as (c & m1 & s & m2 & s1 & m3 & c1 & s2 & tc & ts &
    _ & Hc & Hs & H1 & H2 & H3 & Hpc & Hps & Hkc & Hks & Hic & His & _).
  exists c, (build_handshake_packet sid m1), s, (build_handshake_packet sid m2), s1,
    (build_handshake_packet sid m3), c1, s2, (session_new sid (mkNoiseSession tc pub_s) None),
    (session_new sid (mkNoiseSession ts pub_c) (Some addr)).
  rewrite !packet_body_build by done. by split_and!.
Qed.

(** A driver keeps its session id. *)
Lemma hs_step_sid k body r k' : hs_step k body = (r, k') → hs_session_id k' = hs_session_id k.
Proof.
  unfold hs_step. destruct (hs k) as [h|]; [|by intros [= _ <-]].
  destruct (hs_read h body) as [[payload|e] h1]; [|by intros [= _ <-]].
  destruct (is_finished h1); [by intros [= _ <-]|]. unfold write_reply.
  destruct (hs_write _ _) as [[out|e] h2]; by intros [= _ <-].
Qed.

(** A handshake that fails to read leaves the driver unfinished, with its payload
    still to send. *)
Lemma hs_step_error k body e k' :
  hs_step k body = (Err e, k') →
  finished k' = finished k ∧ hs_session_id k' = hs_session_id k.
Proof.
  unfold hs_step. destruct (hs k) as [h|]; [|by intros [= _ <-]].
  destruct (hs_read h body) as [[payload|e'] h']; [|by intros [= _ <-]].
  destruct (is_finished h'); [done|]. unfold write_reply.
  destruct (hs_write h' _) as [[out|e'] h'']; [done|]. by intros [= _ <-].
Qed.
End handshake.

(** ** Witnesses

    A stand-in for [snow] with three messages: a private key is its own public
    key, and every message carries it in front of the payload; a message that would
    be too long is refused. *)
Record SampleXX := mkSampleXX { xx_key : list Z; xx_count : nat; xx_remote : option (list Z) }.

Definition sample_xx : Snow := {|
  SnowError := unit;
  HandshakeState := SampleXX;
  TransportState := Z;
  snow_build := λ _ key, if (length key =? 32)%nat then Ok (mkSampleXX key 0 None) else Err tt;
  hs_write_message := λ h payload _,
    if SNOW_MAXMSGLEN <? zlen payload + 256 then (Err tt, h)
    else (Ok (xx_key h ++ payload), mkSampleXX (xx_key h) (S (xx_count h)) (xx_remote h));
  hs_read_message := λ h message _,
    if (length message <? 32)%nat then (Err tt, h)
    else (Ok (drop 32 message), mkSampleXX (xx_key h) (S (xx_count h)) (Some (take 32 message)));
  is_handshake_finished := λ h, (xx_count h =? 3)%nat;
  get_remote_static := xx_remote;
  into_stateless_transport_mode := λ h, Ok 7;
  write_message := sample_write;
  read_message := sample_read;
|}.

Lemma sample_xx_read h (key payload : list Z) n :
  length key = 32%nat →
  @hs_read_message sample_xx h (key ++ payload) n =
    (Ok payload, mkSampleXX (xx_key h) (S (xx_count h)) (Some key)).
Proof.
  intros Hk. cbn [hs_read_message sample_xx].
  rewrite (proj2 (Nat.ltb_ge _ _)) by (rewrite length_app; lia).
  by rewrite drop_app_length', take_app_length'.
Qed.

Lemma sample_xx_write h (payload : list Z) n :
  snow_fits payload →
  @hs_write_message sample_xx h payload n =
    (Ok (xx_key h ++ payload), mkSampleXX (xx_key h) (S (xx_count h)) (xx_remote h)).
Proof. intros Hf. cbn [hs_write_message sample_xx]. by rewrite (proj2 (Z.ltb_ge _ _)). Qed.

Lemma sample_xx_peers key : @transport_peers sample_xx key key.
Proof. destruct (sample_peers key) as [Hw Hr]. split; [exact Hw|exact Hr]. Qed.

Lemma sample_xx_run (a b : list Z) version :
  length a = 32%nat → length b = 32%nat → @xx_run sample_xx a b a b version.
Proof.
  intros Ha Hb. split. intros pad Hpad Hver.
  exists (mkSampleXX a 0 None), (mkSampleXX b 0 None), (mkSampleXX a 1 None),
    (mkSampleXX b 1 (Some a)), (mkSampleXX b 2 (Some a)), (mkSampleXX a 2 (Some b)),
    (mkSampleXX a 3 (Some b)), (mkSampleXX b 3 (Some a)), (a ++ pad), (b ++ version), (a ++ []), 7, 7.
  split_and!; try reflexivity; try (cbn [snow_build sample_xx]; by rewrite ?Ha, ?Hb);
    try apply sample_xx_peers; try (rewrite length_app; lia); try (by rewrite sample_xx_read);
    by rewrite sample_xx_write.
Qed.

Definition sample_sid : SessionId := [1; 2; 3; 4; 5; 6; 7; 8].

Lemma handshake_completes_witness :
  ∃ c1 : @Handshaker sample_xx,
    peer_payload c1 = Some [48; 46; 53] ∧ hs_remote_static c1 = Some (replicate 32 9).
Proof.
  destruct (@handshake_completes sample_xx nat (replicate 32 5) (replicate 32 9) (replicate 32 5)
    (replicate 32 9) [48; 46; 53] sample_sid 4%nat (sample_xx_run (replicate 32 5) (replicate 32 9) [48; 46; 53] eq_refl eq_refl) eq_refl ltac:(by vm_compute) eq_refl)
    as (c & p1 & s & p2 & s1 & p3 & c1 & s2 & sc & ss & _ & _ & _ & _ & _ & Hp & _ & Hr & _).
  exists c1. split; [exact Hp|exact Hr].
Defined.
