(* ===== verification/Reassembler.v ===== *)
(** * In-order reassembly ([crates/transport/src/stream.rs], [Reassembler])

    A receiver keeps the bytes it has in coalesced segments keyed by their
    absolute offset. The functional specification of [insert], [read] and
    [ack_point] is in terms of the byte held at each offset ([has_byte]). *)

From stdpp Require Import gmap sorting.
From S2P Require Import Prelude.

(** @ crates/transport/src/stream.rs:65-72 Reassembler *)
Record Reassembler := mkReassembler {
  r_delivered : Z;
  segs : gmap Z (list Z);
}.

(** [Reassembler::default()]. *)
Definition reassembler_new : Reassembler := {| r_delivered := 0; segs := ∅ |}.

(** The already-delivered prefix is dropped; where nothing is left there is
    nothing to insert.
    @ crates/transport/src/stream.rs:75-87 Reassembler::insert, the trimming *)
Definition trim (delivered offset : Z) (data : list Z) : option (option (Z * list Z)) :=
  match data with
  | [] => Some None
  | _ =>
    if offset <? delivered then
      let cut := Z.to_nat (as_u64 (delivered - offset)) in
      if (length data <=? cut)%nat then Some None
      else
        data ← slice_checked data cut (length data);
        Some (Some (delivered, data))
    else Some (Some (offset, data))
  end.

(** The keys, ascending, of the segments that overlap or touch [offset, endp]. *)
Definition touching (m : gmap Z (list Z)) (offset endp : Z) : list Z :=
  merge_sort Z.le
    (filter (λ kv, kv.1 ≤ endp ∧ offset ≤ as_u64 (kv.1 + zlen kv.2)) (map_to_list m)).*1.

(** The range the merged segment will span. *)
Definition merged_range (m : gmap Z (list Z)) (offset endp : Z) (keys : list Z) : Z * Z :=
  foldl (λ '(s, e) k, (Z.min s k, Z.max e (as_u64 (k + zlen (m !!! k))))) (offset, endp) keys.

(** Move the segments [keys] into the buffer that starts at [start]. *)
Fixpoint absorb (start : Z) (keys : list Z) (buf : list Z) (m : gmap Z (list Z)) :
    option (list Z * gmap Z (list Z)) :=
  match keys with
  | [] => Some (buf, m)
  | k :: keys =>
    seg ← m !! k;
    buf ← copy_checked (Z.to_nat (as_u64 (k - start))) seg buf;
    absorb start keys buf (delete k m)
  end.

(** @ crates/transport/src/stream.rs:74-112 Reassembler::insert *)
Definition insert_checked (r : Reassembler) (offset : Z) (data : list Z) : option Reassembler :=
  trimmed ← trim (r_delivered r) offset data;
  match trimmed with
  | None => Some r
  | Some (offset, data) =>
    let endp := as_u64 (offset + zlen data) in
    let keys := touching (segs r) offset endp in
    let '(start, merged_end) := merged_range (segs r) offset endp keys in
    let buf := replicate (Z.to_nat (as_u64 (merged_end - start))) 0 in
    '(buf, m) ← absorb start keys buf (segs r);
    buf ← copy_checked (Z.to_nat (as_u64 (offset - start))) data buf;
    Some {| r_delivered := r_delivered r; segs := <[start := buf]> m |}
  end.

(** No copy is out of range ([insert_calm]), so the default is never taken. *)
Definition insert (r : Reassembler) (offset : Z) (data : list Z) : Reassembler :=
  default r (insert_checked r offset data).

(** @ crates/transport/src/stream.rs:114-122 Reassembler::read *)
Definition read (r : Reassembler) : list Z * Reassembler :=
  match segs r !! r_delivered r with
  | Some seg =>
    (seg, {| r_delivered := as_u64 (r_delivered r + zlen seg);
             segs := delete (r_delivered r) (segs r) |})
  | None => ([], r)
  end.

(** @ crates/transport/src/stream.rs:124-130 Reassembler::ack_point *)
Definition ack_point (r : Reassembler) : Z :=
  match segs r !! r_delivered r with
  | Some seg => as_u64 (r_delivered r + zlen seg)
  | None => r_delivered r
  end.

(** @ crates/transport/src/stream.rs:132-135 Reassembler::unread *)
Definition unread (r : Reassembler) : Z := ack_point r - r_delivered r.

(** ** Invariant: non-empty, undelivered, pairwise separated segments *)
Record reassembler_wf (r : Reassembler) : Prop := {
  wf_delivered : is_u64 (r_delivered r);
  wf_seg k v : segs r !! k = Some v →
    r_delivered r ≤ k ∧ v ≠ [] ∧ k + zlen v < 2 ^ 64;
  wf_apart k1 v1 k2 v2 :
    segs r !! k1 = Some v1 → segs r !! k2 = Some v2 → k1 < k2 → k1 + zlen v1 < k2;
}.

(** The byte held at absolute offset [o]. *)
Definition has_byte (r : Reassembler) (o b : Z) : Prop :=
  ∃ k v, segs r !! k = Some v ∧ k ≤ o ∧ v !! Z.to_nat (o - k) = Some b.

(** [data] placed at [offset] puts [b] at [o]. *)
Definition puts (offset : Z) (data : list Z) (o b : Z) : Prop :=
  offset ≤ o ∧ data !! Z.to_nat (o - offset) = Some b.

Lemma puts_range offset data o b : puts offset data o b → offset ≤ o < offset + zlen data.
Proof. intros [? Hl%lookup_lt_Some]. lia. Qed.

Lemma puts_covered offset data o : offset ≤ o < offset + zlen data → ∃ b, puts offset data o b.
Proof.
  intros. destruct (lookup_lt_is_Some_2 data (Z.to_nat (o - offset))) as [b ?]; [lia|].
  exists b. by split; [lia|].
Qed.

Lemma reassembler_new_wf : reassembler_wf reassembler_new.
Proof. split; cbn; [lia_ints|done..]. Qed.

(** ** Trimming *)

Lemma trim_spec d offset data :
  0 ≤ offset → is_u64 d →
  ∃ trimmed, trim d offset data = Some trimmed ∧
  match trimmed with
  | None => ∀ o b, puts offset data o b → o < d
  | Some (offset', data') =>
    data' ≠ [] ∧ d ≤ offset' ∧ offset ≤ offset' ∧
    offset' + zlen data' = offset + zlen data ∧
    ∀ o b, puts offset' data' o b ↔ (d ≤ o ∧ puts offset data o b)
  end.
Proof.
  intros Ho Hd. unfold trim. destruct data as [|x data']; [eexists; split; [done|by intros o b [??]]|].
  set (data := x :: data'). destruct (Z.ltb_spec offset d).
  - rewrite as_u64_id by (unfold is_u64 in *; lia).
    destruct (Nat.leb_spec (length data) (Z.to_nat (d - offset))).
    + eexists; split; [done|]. intros o b ?%puts_range. lia.
    + rewrite slice_checked_ok by lia. eexists; split; [done|]. rewrite slice_tail by done.
      assert (length (drop (Z.to_nat (d - offset)) data) ≠ 0%nat) by (rewrite length_drop; lia).
      split_and!; [by intros He; rewrite He in *|lia|lia|rewrite length_drop; lia|].
      intros o b. unfold puts. split.
      * intros [? Hl]. rewrite lookup_drop in Hl. split_and!; [lia|lia|].
        by replace (Z.to_nat (o - offset)) with (Z.to_nat (d - offset) + Z.to_nat (o - d))%nat by lia.
      * intros (? & ? & Hl). split; [lia|]. rewrite lookup_drop.
        by replace (Z.to_nat (d - offset) + Z.to_nat (o - d))%nat with (Z.to_nat (o - offset)) by lia.
  - eexists; split; [done|]. split_and!; [done|lia|lia|lia|]. intros o b. split; [|by intros []].
    intros Hp. pose proof (puts_range _ _ _ _ Hp). split; [lia|done].
Qed.

(** ** The segments a new one merges with *)

Lemma elem_of_touching m offset endp k :
  (∀ k v, m !! k = Some v → 0 ≤ k ∧ k + zlen v < 2 ^ 64) →
  k ∈ touching m offset endp ↔
    ∃ v, m !! k = Some v ∧ k ≤ endp ∧ offset ≤ k + zlen v.
Proof.
  intros Hr. unfold touching. rewrite merge_sort_Permutation, list_elem_of_fmap.
  split.
  - intros ([k' v] & -> & [[? Ho] Hm%elem_of_map_to_list]%list_elem_of_filter).
    cbn in *. exists v. destruct (Hr _ _ Hm). rewrite as_u64_id in Ho by (unfold is_u64; lia).
    by split_and!.
  - intros (v & Hm & ? & ?). exists (k, v). split; [done|].
    apply list_elem_of_filter. cbn. destruct (Hr _ _ Hm).
    rewrite as_u64_id by (unfold is_u64; lia). split; [lia|]. by apply elem_of_map_to_list.
Qed.

Lemma NoDup_touching m offset endp : NoDup (touching m offset endp).
Proof.
  unfold touching. rewrite merge_sort_Permutation.
  apply (sublist_NoDup _ (map_to_list m).*1); [apply NoDup_fst_map_to_list|].
  apply fmap_sublist, sublist_filter.
Qed.

Lemma merged_range_spec m keys : ∀ s0 e0 s e,
  (∀ k, k ∈ keys → 0 ≤ k + zlen (m !!! k) < 2 ^ 64) →
  merged_range m s0 e0 keys = (s, e) →
  s ≤ s0 ∧ e0 ≤ e ∧
  (∀ k, k ∈ keys → s ≤ k ∧ k + zlen (m !!! k) ≤ e) ∧
  (s = s0 ∨ s ∈ keys) ∧ (e = e0 ∨ ∃ k, k ∈ keys ∧ e = k + zlen (m !!! k)).
Proof.
  induction keys as [|k keys IH]; intros s0 e0 s e Hr.
  - intros [= <- <-]. split_and!; [lia|lia|by intros ? ?%not_elem_of_nil|by left|by left].
  - unfold merged_range. cbn [foldl]. intros Hm.
    apply IH in Hm; [|intros; apply Hr; by right].
    pose proof (Hr k ltac:(by left)). rewrite as_u64_id in Hm by done.
    destruct Hm as (Hs & He & Hk & Hs' & He'). split_and!; [lia|lia|..].
    + intros j [->|Hj]%elem_of_cons; [lia|by apply Hk].
    + destruct Hs' as [->|]; [|right; by right].
      destruct (Z.min_spec s0 k) as [[_ ->]|[_ ->]]; [by left|right; by left].
    + destruct He' as [->|(j & ? & ?)]; [|right; exists j; split; [by right|done]].
      destruct (Z.max_spec e0 (k + zlen (m !!! k))) as [[_ ->]|[_ ->]];
        [right; exists k; split; [by left|done]|by left].
Qed.

(** Where segments are disjoint, absorbing them in any order writes each at its
    place, keeps the rest of the buffer, and removes them from the map. *)
Lemma absorb_spec start keys : ∀ buf m,
  NoDup keys → (∀ k, k ∈ keys → is_Some (m !! k)) → 0 ≤ start → start + zlen buf < 2 ^ 64 →
  (∀ k, k ∈ keys → start ≤ k ∧ k + zlen (m !!! k) ≤ start + zlen buf) →
  (∀ k1 k2, k1 ∈ keys → k2 ∈ keys → k1 < k2 → k1 + zlen (m !!! k1) ≤ k2) →
  ∃ buf' m', absorb start keys buf m = Some (buf', m') ∧
  length buf' = length buf ∧
  (∀ k, m' !! k = if bool_decide (k ∈ keys) then None else m !! k) ∧
  (∀ k o b, k ∈ keys → puts k (m !!! k) o b → buf' !! Z.to_nat (o - start) = Some b) ∧
  (∀ o, start ≤ o → (∀ k, k ∈ keys → ¬ (k ≤ o < k + zlen (m !!! k))) →
     buf' !! Z.to_nat (o - start) = buf !! Z.to_nat (o - start)).
Proof.
  induction keys as [|k keys IH]; intros buf m Hnd Hsome Hst Hend Hin Hdis.
  { exists buf, m. split_and!; [done|done|done|by intros ??? ?%not_elem_of_nil|done]. }
  apply NoDup_cons in Hnd as [Hk Hnd].
  assert (∀ j, j ∈ keys → delete k m !!! j = m !!! j) as Hdel.
  { intros j Hj. apply lookup_total_delete_ne. by intros ->. }
  pose proof (Hin k ltac:(by left)) as [Hks Hke].
  specialize (IH (list_inserts (Z.to_nat (k - start)) (m !!! k) buf) (delete k m) Hnd).
  cbn [absorb]. rewrite (lookup_lookup_total m k (Hsome k ltac:(by left))). cbn [mbind option_bind].
  rewrite as_u64_id by (unfold is_u64; lia). rewrite copy_checked_ok by lia. cbn [mbind option_bind].
  destruct IH as (buf' & m' & -> & Hl & Hm & Hput & Hrest).
  { intros j Hj. rewrite lookup_delete_ne by (by intros ->). apply Hsome. by right. }
  { done. }
  { by rewrite length_inserts. }
  { intros j Hj. rewrite length_inserts, Hdel by done. apply Hin. by right. }
  { intros j1 j2 ???. rewrite Hdel by done. apply Hdis; [by right|by right|done]. }
  exists buf', m'. split_and!; [done|..].
  - by rewrite Hl, length_inserts.
  - intros j. rewrite Hm. destruct (decide (j = k)) as [->|].
    + rewrite (bool_decide_eq_true_2 (k ∈ k :: keys)) by by left.
      case_bool_decide; [done|]. apply lookup_delete_eq.
    + rewrite lookup_delete_ne by done. erewrite (bool_decide_ext (j ∈ k :: keys)); [done|].
      rewrite elem_of_cons. naive_solver.
  - intros j o b [->|Hj]%elem_of_cons Hp.
    + pose proof (puts_range _ _ _ _ Hp). rewrite Hrest; [|lia|].
      * destruct Hp as [? Hp]. rewrite list_lookup_inserts by lia.
        by replace (Z.to_nat (o - start) - Z.to_nat (k - start))%nat with (Z.to_nat (o - k)) by lia.
      * intros j Hj. rewrite Hdel by done. intros ?.
        destruct (Z.lt_total j k) as [?|[->|?]]; [|done|].
        -- pose proof (Hdis j k ltac:(by right) ltac:(by left) ltac:(done)). lia.
        -- pose proof (Hdis k j ltac:(by left) ltac:(by right) ltac:(done)). lia.
    + apply (Hput j); [done|]. by rewrite Hdel.
  - intros o Ho Hno. rewrite Hrest; [|done|].
    + pose proof (Hno k ltac:(by left)).
      destruct (Z.lt_ge_cases o k).
      * apply list_lookup_inserts_lt. lia.
      * apply list_lookup_inserts_ge. lia.
    + intros j Hj. rewrite Hdel by done. apply Hno. by right.
Qed.

(** ** What one merge does *)

Section merge.
Variable r : Reassembler.
Variables (offset : Z) (data : list Z).
Hypothesis Hwf : reassembler_wf r.
Hypothesis Hoff : r_delivered r ≤ offset.
Hypothesis Hend : offset + zlen data < 2 ^ 64.

Let endp := offset + zlen data.
Let keys := touching (segs r) offset endp.

Lemma merge_key k :
  k ∈ keys ↔ ∃ v, segs r !! k = Some v ∧ k ≤ endp ∧ offset ≤ k + zlen v.
Proof.
  apply elem_of_touching. intros j v Hj. pose proof (wf_delivered _ Hwf) as [? _].
  destruct (wf_seg _ Hwf _ _ Hj). lia.
Qed.

Lemma merge_key_total k v :
  segs r !! k = Some v → (k ∈ keys ↔ k ≤ endp ∧ offset ≤ k + zlen v) ∧ segs r !!! k = v.
Proof.
  intros Hk. split; [|by apply lookup_total_correct].
  rewrite merge_key, Hk. naive_solver.
Qed.

Lemma merge_range start me :
  merged_range (segs r) offset endp keys = (start, me) →
  r_delivered r ≤ start ≤ offset ∧ endp ≤ me < 2 ^ 64 ∧
  (∀ k, k ∈ keys → start ≤ k ∧ k + zlen (segs r !!! k) ≤ me) ∧
  (∀ k v, segs r !! k = Some v → k ∉ keys → k + zlen v < start ∨ me < k) ∧
  (∀ o, start ≤ o < me → ¬ offset ≤ o < endp → ∃ b, has_byte r o b).
Proof.
  intros Hm. pose proof (wf_delivered _ Hwf) as [Hd0 _].
  apply merged_range_spec in Hm.
  2:{ intros k (v & Hk & _)%merge_key. rewrite (lookup_total_correct _ _ _ Hk).
      destruct (wf_seg _ Hwf _ _ Hk) as (? & ? & ?). lia. }
  destruct Hm as (Hs & He & Hin & Hs' & He').
  assert (∀ k, k ∈ keys → r_delivered r ≤ k ∧ k + zlen (segs r !!! k) < 2 ^ 64 ∧
    k ≤ endp ∧ offset ≤ k + zlen (segs r !!! k) ∧ segs r !! k = Some (segs r !!! k)) as Hkey.
  { intros k (v & Hk & ? & ?)%merge_key. rewrite (lookup_total_correct _ _ _ Hk).
    by destruct (wf_seg _ Hwf _ _ Hk) as (? & ? & ?). }
  split_and!; [|lia|lia| | | |].
  - destruct Hs' as [->|Hk]; [done|]. by apply Hkey in Hk as [? _].
  - unfold endp in *. destruct He' as [->|(k & Hk & ->)]; [lia|]. apply Hkey in Hk. lia.
  - apply Hin.
  - intros k v Hk Hno. rewrite (proj1 (merge_key_total k v Hk)) in Hno.
    destruct (Z.lt_ge_cases endp k); [right|left].
    + destruct He' as [->|(j & Hj & ->)]; [done|].
      apply Hkey in Hj as (_ & _ & ? & _ & Hj).
      apply (wf_apart _ Hwf _ _ _ _ Hj Hk). lia.
    + destruct Hs' as [->|Hj]; [lia|]. apply Hkey in Hj as (_ & _ & _ & ? & Hj).
      destruct (Z.lt_ge_cases k start) as [|Hge]; [by apply (wf_apart _ Hwf _ _ _ _ Hk Hj)|].
      destruct (decide (k = start)) as [->|]; [rewrite Hj in Hk; injection Hk as <-; lia|].
      pose proof (wf_apart _ Hwf _ _ _ _ Hj Hk). lia.
  - intros o Ho Hout.
    assert (∃ k, k ∈ keys ∧ k ≤ o < k + zlen (segs r !!! k)) as (k & Hk & Hko).
    { destruct (Z.lt_ge_cases o offset).
      - destruct Hs' as [->|Hk]; [lia|]. exists start. split; [done|].
        apply Hkey in Hk. lia.
      - destruct He' as [->|(k & Hk & ->)]; [lia|]. exists k. split; [done|].
        apply Hkey in Hk. lia. }
    apply Hkey in Hk as (_ & _ & _ & _ & Hk).
    destruct (puts_covered k (segs r !!! k) o) as [b [? Hb]]; [lia|].
    by exists b, k, (segs r !!! k).
Qed.

Lemma keys_apart k1 k2 :
  k1 ∈ keys → k2 ∈ keys → k1 < k2 → k1 + zlen (segs r !!! k1) ≤ k2.
Proof.
  intros (v1 & H1 & _)%merge_key (v2 & H2 & _)%merge_key Hlt.
  rewrite (lookup_total_correct _ _ _ H1). pose proof (wf_apart _ Hwf _ _ _ _ H1 H2 Hlt). lia.
Qed.
End merge.

(** The merged buffer, and the segments left alone. *)
Lemma insert_merge r offset (data : list Z) :
  reassembler_wf r → data ≠ [] → r_delivered r ≤ offset → offset + zlen data < 2 ^ 64 →
  let endp := offset + zlen data in
  let keys := touching (segs r) offset endp in
  let '(start, me) := merged_range (segs r) offset endp keys in
  ∃ buf m, absorb start keys (replicate (Z.to_nat (me - start)) 0) (segs r) = Some (buf, m) ∧
  r_delivered r ≤ start ≤ offset ∧ endp ≤ me < 2 ^ 64 ∧ zlen buf = me - start ∧
  (∀ k v, m !! k = Some v → segs r !! k = Some v ∧ (k + zlen v < start ∨ me < k)) ∧
  (∀ k v, segs r !! k = Some v → m !! k = Some v ∨ (start ≤ k ∧ k + zlen v ≤ me)) ∧
  (∀ o b, start ≤ o < me → ¬ offset ≤ o < endp →
     buf !! Z.to_nat (o - start) = Some b ↔ has_byte r o b).
Proof.
  intros Hwf Hd Hoff Hend endp keys.
  pose proof (merge_range r offset data Hwf Hoff Hend) as Hr.
  pose proof (merge_key_total r offset data Hwf) as Hk.
  pose proof (merge_key r offset data Hwf) as Hkeys.
  pose proof (keys_apart r offset data Hwf) as Hap.
  fold endp in Hr, Hk, Hkeys, Hap. fold keys in Hr, Hk, Hkeys, Hap.
  destruct (merged_range _ _ _ _) as [start me] eqn:Hm.
  destruct (Hr _ _ eq_refl) as (Hs & He & Hin & Hout & Hcov). clear Hr.
  pose proof (absorb_spec start keys (replicate (Z.to_nat (me - start)) 0) (segs r)
    (NoDup_touching _ _ _)) as Ha.
  rewrite length_replicate in Ha. pose proof (wf_delivered _ Hwf) as [Hd0 _].
  assert (0 ≤ zlen data) by lia.
  destruct Ha as (buf & m & -> & Hl & Hlook & Hput & _).
  { intros k (v & Hv & _)%Hkeys. by exists v. }
  { lia. }
  { lia. }
  { intros k ?%Hin; lia. }
  { done. }
  exists buf, m. split_and!; [done|lia|lia|lia|lia|lia|..].
  - intros k v. rewrite Hlook. case_bool_decide; [done|]. eauto.
  - intros k v Hkv. rewrite Hlook. case_bool_decide as Hb; [right|by left].
    apply Hin in Hb. by rewrite (lookup_total_correct _ _ _ Hkv) in Hb.
  - assert (∀ o b, start ≤ o < me → has_byte r o b →
      buf !! Z.to_nat (o - start) = Some b) as Hfill.
    { intros o b Ho (k & v & Hkv & Hko & Hb). destruct (Hk k v Hkv) as [Hiff Htot].
      pose proof (lookup_lt_Some _ _ _ Hb).
      apply (Hput k); [|by rewrite Htot].
      destruct (decide (k ∈ keys)) as [|Hno]; [done|]. destruct (Hout k v Hkv Hno); lia. }
    intros o b Ho Hno. split; [|by apply Hfill].
    destruct (Hcov o Ho Hno) as [b' Hb']. rewrite (Hfill o b' Ho Hb'). by intros [= <-].
Qed.

(** ** Insertion *)

(** Insertion does not panic: every copy into the merged buffer is in range.  It
    keeps the invariant and adds exactly the undelivered bytes of the
    segment; bytes already held outside it are unchanged. *)
Lemma insert_full r offset (data : list Z) :
  reassembler_wf r → 0 ≤ offset → offset + zlen data < 2 ^ 64 →
  insert_checked r offset data = Some (insert r offset data) ∧
  reassembler_wf (insert r offset data) ∧
  r_delivered (insert r offset data) = r_delivered r ∧
  ∀ o b, has_byte (insert r offset data) o b ↔
    (r_delivered r ≤ o ∧ puts offset data o b) ∨
    (¬ (r_delivered r ≤ o ∧ offset ≤ o < offset + zlen data) ∧ has_byte r o b).
Proof.
  intros Hwf Ho Hlt. unfold insert, insert_checked.
  destruct (trim_spec (r_delivered r) offset data Ho (wf_delivered _ Hwf)) as (trimmed & -> & Ht).
  cbn [mbind option_bind].
  assert (∀ o b, has_byte r o b → r_delivered r ≤ o) as Hge.
  { intros o b (k & v & Hk & ? & _). destruct (wf_seg _ Hwf _ _ Hk). lia. }
  destruct trimmed as [[off d]|].
  2:{ cbn [default]. split_and!; [done|done|done|]. intros o b. split.
      - intros Hb. right. split; [|done]. intros [? Hr]. apply puts_covered in Hr as [b' Hr%Ht]. lia.
      - intros [[? Hp%Ht]|[_ ?]]; [lia|done]. }
  destruct Ht as (Hne & Hd1 & Hd2 & Hsum & Hputs).
  pose proof (wf_delivered _ Hwf) as [Hd0 _].
  rewrite (as_u64_id (off + zlen d)) by (unfold is_u64; lia).
  pose proof (insert_merge r off d Hwf Hne Hd1 ltac:(lia)) as Him. cbn zeta in Him.
  destruct (merged_range _ _ _ _) as [start me].
  destruct Him as (buf & m & Ha & Hs & He & Hlen & Hm1 & Hm2 & Hbuf).
  rewrite (as_u64_id (me - start)), Ha by (unfold is_u64; lia). cbn [mbind option_bind].
  rewrite as_u64_id, copy_checked_ok by (unfold is_u64; lia). cbn [mbind option_bind default].
  set (buf' := list_inserts (Z.to_nat (off - start)) d buf).
  assert (zlen buf' = me - start) as Hlen' by (unfold buf'; by rewrite length_inserts).
  assert (0 < zlen d) by (destruct d; [done|cbn; lia]).
  assert (∀ o b, start ≤ o → buf' !! Z.to_nat (o - start) = Some b ↔
    puts off d o b ∨ (¬ off ≤ o < off + zlen d) ∧ o < me ∧ has_byte r o b) as Hb.
  { intros o b Hso. unfold buf'. destruct (decide (off ≤ o < off + zlen d)).
    - rewrite list_lookup_inserts by lia.
      replace (Z.to_nat (o - start) - Z.to_nat (off - start))%nat with (Z.to_nat (o - off)) by lia.
      unfold puts. naive_solver lia.
    - assert (¬ puts off d o b) as Hnp by (intros ?%puts_range; lia).
      assert (list_inserts (Z.to_nat (off - start)) d buf !! Z.to_nat (o - start)
        = buf !! Z.to_nat (o - start)) as ->.
      { destruct (Z.lt_ge_cases o off);
          [apply list_lookup_inserts_lt|apply list_lookup_inserts_ge]; lia. }
      destruct (Z.lt_ge_cases o me).
      + rewrite Hbuf by lia. split; [intros; right; by split_and!|].
        intros [Hp|(_ & _ & ?)]; [by apply Hnp in Hp|done].
      + rewrite lookup_ge_None_2 by lia. split; [done|].
        intros [Hp|(_ & ? & _)]; [by apply Hnp in Hp|lia]. }
  split_and!; [done| |done|].
  - split; cbn; [apply Hwf|..].
    + intros k v. destruct (decide (k = start)) as [->|].
      * rewrite lookup_insert_eq. intros [= <-]. split_and!; [lia| |lia].
        intros E. rewrite E in Hlen'. cbn in Hlen'. lia.
      * rewrite lookup_insert_ne by done. intros [Hk _]%Hm1. by eapply wf_seg.
    + intros k1 v1 k2 v2. rewrite !lookup_insert_Some.
      intros [[<- <-]|[? Hk1]] [[<- <-]|[? Hk2]] Hlt'; [lia|..].
      * apply Hm1 in Hk2 as [_ [|]]; lia.
      * apply Hm1 in Hk1 as [_ [|]]; lia.
      * apply Hm1 in Hk1 as [Hk1 _], Hk2 as [Hk2 _]. by eapply wf_apart.
  - intros o b. rewrite <- Hputs.
    assert (¬ (r_delivered r ≤ o ∧ offset ≤ o < offset + zlen data) ∧ has_byte r o b ↔
      ¬ off ≤ o < off + zlen d ∧ has_byte r o b) as ->.
    { split; intros [Hno Hh]; (split; [|done]); pose proof (Hge _ _ Hh); [lia|].
      intros [? Hr]. apply Hno. apply puts_covered in Hr as [b' Hb'].
      assert (puts off d o b') as ?%puts_range by (apply Hputs; split; [lia|done]). lia. }
    split.
    + intros (k & v & Hk & Hko & Hv). cbn in Hk.
      apply lookup_insert_Some in Hk as [[<- <-]|[? Hk]].
      * apply Hb in Hv as [?|(? & _ & ?)]; [by left|by right|lia].
      * right. apply Hm1 in Hk as [Hk Hsep]. pose proof (lookup_lt_Some _ _ _ Hv).
        split; [lia|]. by exists k, v.
    + intros Hcase. destruct (decide (start ≤ o < me)) as [[Hso Hom]|Hout].
      * exists start, buf'. cbn. rewrite lookup_insert_eq. split_and!; [done|done|].
        apply Hb; [done|]. destruct Hcase as [?|[? ?]]; [by left|right]. by split_and!.
      * destruct Hcase as [?%puts_range|[Hno (k & v & Hk & Hko & Hv)]]; [lia|].
        pose proof (lookup_lt_Some _ _ _ Hv).
        destruct (Hm2 k v Hk) as [Hmk|]; [|lia].
        exists k, v. cbn. split_and!; [|done|done].
        rewrite lookup_insert_ne; [done|]. intros <-. apply Hm1 in Hmk as [_ [|]]; lia.
Qed.

Lemma insert_calm r offset (data : list Z) :
  reassembler_wf r → 0 ≤ offset → offset + zlen data < 2 ^ 64 →
  insert_checked r offset data = Some (insert r offset data).
Proof. apply insert_full. Qed.

Lemma insert_spec r offset (data : list Z) :
  reassembler_wf r → 0 ≤ offset → offset + zlen data < 2 ^ 64 →
  reassembler_wf (insert r offset data) ∧
  r_delivered (insert r offset data) = r_delivered r ∧
  ∀ o b, has_byte (insert r offset data) o b ↔
    (r_delivered r ≤ o ∧ puts offset data o b) ∨
    (¬ (r_delivered r ≤ o ∧ offset ≤ o < offset + zlen data) ∧ has_byte r o b).
Proof. apply insert_full. Qed.

(** ** Reading *)

(** Reading returns the longest contiguous run of held bytes and keeps the rest. *)
Lemma read_spec r :
  reassembler_wf r →
  let '(d, r') := read r in
  reassembler_wf r' ∧ r_delivered r' = ack_point r ∧
  ack_point r = r_delivered r + zlen d ∧
  (∀ o b, puts (r_delivered r) d o b ↔ has_byte r o b ∧ o < ack_point r) ∧
  (∀ b, ¬ has_byte r (ack_point r) b) ∧
  (∀ o b, has_byte r' o b ↔ has_byte r o b ∧ ack_point r ≤ o).
Proof.
  intros Hwf. pose proof (wf_delivered _ Hwf) as Hd. unfold read, ack_point.
  destruct (segs r !! r_delivered r) as [seg|] eqn:Hs.
  - destruct (wf_seg _ Hwf _ _ Hs) as (_ & Hne & Hend).
    assert (0 < zlen seg) by (destruct seg; [done|cbn; lia]).
    rewrite as_u64_id by (unfold is_u64 in *; lia).
    assert (∀ k v, segs r !! k = Some v → k ≠ r_delivered r →
      r_delivered r + zlen seg < k) as Hlater.
    { intros k v Hk Hne'. destruct (wf_seg _ Hwf _ _ Hk).
      apply (wf_apart _ Hwf _ _ _ _ Hs Hk). lia. }
    split_and!; cbn; [|done|done| | |].
    + split; cbn; [unfold is_u64 in *; lia|..].
      * intros k v [? Hk]%lookup_delete_Some. pose proof (Hlater _ _ Hk ltac:(done)).
        split; [lia|]. by destruct (wf_seg _ Hwf _ _ Hk).
      * intros k1 v1 k2 v2 [_ H1]%lookup_delete_Some [_ H2]%lookup_delete_Some Hlt.
        exact (wf_apart _ Hwf _ _ _ _ H1 H2 Hlt).
    + intros o b. split.
      * intros Hp. pose proof (puts_range _ _ _ _ Hp). destruct Hp as [? Hp].
        split; [by exists (r_delivered r), seg|lia].
      * intros [(k & v & Hk & Hko & Hv) Ho]. destruct (decide (k = r_delivered r)) as [->|Hne'].
        -- rewrite Hs in Hk. injection Hk as <-. by split.
        -- pose proof (Hlater _ _ Hk Hne'). lia.
    + intros b (k & v & Hk & Hko & Hv). pose proof (lookup_lt_Some _ _ _ Hv).
      destruct (decide (k = r_delivered r)) as [->|Hne'].
      * rewrite Hs in Hk. injection Hk as <-. lia.
      * pose proof (Hlater _ _ Hk Hne'). lia.
    + intros o b. unfold has_byte. cbn. split.
      * intros (k & v & [? Hk]%lookup_delete_Some & Hko & Hv).
        pose proof (Hlater _ _ Hk ltac:(done)). split; [by exists k, v|lia].
      * intros [(k & v & Hk & Hko & Hv) Ho]. pose proof (lookup_lt_Some _ _ _ Hv).
        exists k, v. split_and!; [|done|done]. rewrite lookup_delete_ne; [done|].
        intros <-. rewrite Hs in Hk. injection Hk as <-. lia.
  - assert (∀ k v, segs r !! k = Some v → r_delivered r < k) as Hlater.
    { intros k v Hk. destruct (wf_seg _ Hwf _ _ Hk). destruct (decide (k = r_delivered r)) as [->|];
        [by rewrite Hs in Hk|lia]. }
    split_and!; cbn; [done|done|lia| | |].
    + intros o b. split.
      * intros Hp%puts_range. cbn in Hp. lia.
      * intros [(k & v & Hk%Hlater & Hko & _) Ho]. lia.
    + intros b (k & v & Hk%Hlater & Hko & _). lia.
    + intros o b. split; [|by intros []]. intros Hb. split; [done|].
      destruct Hb as (k & v & Hk%Hlater & ? & _). lia.
Qed.

Lemma ack_point_range r : reassembler_wf r → r_delivered r ≤ ack_point r < 2 ^ 64.
Proof.
  intros Hwf. pose proof (wf_delivered _ Hwf) as [? ?]. unfold ack_point.
  destruct (segs r !! r_delivered r) as [seg|] eqn:Hs; [|lia].
  destruct (wf_seg _ Hwf _ _ Hs) as (_ & _ & ?). rewrite as_u64_id by (unfold is_u64; lia). lia.
Qed.

(** Every byte below the ack point is held or delivered. *)
Lemma below_ack_point r o :
  reassembler_wf r → r_delivered r ≤ o < ack_point r → ∃ b, has_byte r o b.
Proof.
  intros Hwf Ho. pose proof (read_spec r Hwf) as Hr. destruct (read r) as [d r'].
  destruct Hr as (_ & _ & Hack & Hp & _).
  destruct (puts_covered (r_delivered r) d o) as [b [Hb _]%Hp]; [lia|]. by exists b.
Qed.

(** What is inserted in order and contiguously is acked. *)
Lemma insert_ack_point r offset (data : list Z) :
  reassembler_wf r → 0 ≤ offset → offset + zlen data < 2 ^ 64 →
  ack_point r ≤ ack_point (insert r offset data) ∧
  (offset ≤ ack_point r → offset + zlen data ≤ ack_point (insert r offset data)).
Proof.
  intros Hwf Ho Hlt. destruct (insert_spec r offset data Hwf Ho Hlt) as (Hwf' & Hd & Hb).
  pose proof (ack_point_range _ Hwf). pose proof (ack_point_range _ Hwf').
  pose proof (read_spec _ Hwf') as Hr. destruct (read (insert r offset data)) as [d r'].
  destruct Hr as (_ & _ & _ & _ & Hno & _).
  assert (∀ o, r_delivered r ≤ o < ack_point r → ∃ b, has_byte (insert r offset data) o b) as Hold.
  { intros o Hor. destruct (decide (offset ≤ o < offset + zlen data)) as [Hin|].
    - destruct (puts_covered offset data o Hin) as [b Hp]. exists b. apply Hb. left. by split; [lia|].
    - destruct (below_ack_point r o Hwf Hor) as [b ?]. exists b. apply Hb. right. split; [lia|done]. }
  split.
  - destruct (Z.le_gt_cases (ack_point r) (ack_point (insert r offset data))) as [|Hgt]; [done|].
    destruct (Hold (ack_point (insert r offset data))) as [b ?]; [lia|]. by destruct (Hno b).
  - intros Hle.
    destruct (Z.le_gt_cases (offset + zlen data) (ack_point (insert r offset data))) as [|Hgt]; [done|].
    set (p := ack_point (insert r offset data)) in *.
    destruct (Z.lt_ge_cases p offset).
    + destruct (Hold p) as [b ?]; [lia|]. by destruct (Hno b).
    + destruct (puts_covered offset data p) as [b Hp]; [lia|]. destruct (Hno b).
      apply Hb. left. by split; [lia|].
Qed.

(** ** Runs: segments arriving in any order, interleaved with reads *)

Inductive reassembly_op := OpInsert (offset : Z) (data : list Z) | OpRead.

Fixpoint reassemble (r : Reassembler) (ops : list reassembly_op) : list Z * Reassembler :=
  match ops with
  | [] => ([], r)
  | OpInsert offset data :: ops => reassemble (insert r offset data) ops
  | OpRead :: ops =>
    let '(d, r) := read r in
    let '(out, r) := reassemble r ops in
    (d ++ out, r)
  end.

(** [data] at [offset] is a piece of the stream. *)
Definition piece (stream : list Z) (offset : Z) (data : list Z) : Prop :=
  0 ≤ offset ∧ offset + zlen data < 2 ^ 64 ∧
  ∀ o b, puts offset data o b → stream !! Z.to_nat o = Some b.

Definition op_carries (stream : list Z) (op : reassembly_op) : Prop :=
  match op with OpInsert offset data => piece stream offset data | OpRead => True end.

Definition covered (ops : list reassembly_op) (o : Z) : Prop :=
  ∃ offset data, OpInsert offset data ∈ ops ∧ offset ≤ o < offset + zlen data.

Lemma piece_drop stream offset (data rest : list Z) :
  0 ≤ offset → zlen stream < 2 ^ 64 → data ≠ [] →
  drop (Z.to_nat offset) stream = data ++ rest → piece stream offset data.
Proof.
  intros Ho Hs Hne Hd.
  assert (length stream - Z.to_nat offset = length data + length rest)%nat as Hlen
    by (by rewrite <- length_drop, Hd, length_app).
  assert (0 < zlen data) by (destruct data; [done|cbn; lia]).
  split_and!; [done|lia|]. intros o b [Hoo Hb]. pose proof (lookup_lt_Some _ _ _ Hb).
  replace (Z.to_nat o) with (Z.to_nat offset + Z.to_nat (o - offset))%nat by lia.
  rewrite <- lookup_drop, Hd. by apply lookup_app_l_Some.
Qed.

Lemma piece_slice stream offset data n :
  0 ≤ offset → offset + zlen data < 2 ^ 64 →
  data = take n (drop (Z.to_nat offset) stream) → piece stream offset data.
Proof.
  intros Ho Hlt ->. split_and!; [done|done|]. intros o b [Hoo Hb].
  apply lookup_take_Some in Hb as [Hb _]. rewrite lookup_drop in Hb.
  by replace (Z.to_nat o) with (Z.to_nat offset + Z.to_nat (o - offset))%nat by lia.
Qed.

(** The reassembler holds pieces of the stream, and its invariant holds. *)
Record holds (stream : list Z) (r : Reassembler) : Prop := {
  holds_wf : reassembler_wf r;
  holds_delivered : r_delivered r ≤ zlen stream;
  holds_byte o b : has_byte r o b → stream !! Z.to_nat o = Some b;
}.

Lemma holds_new stream : holds stream reassembler_new.
Proof. split; [apply reassembler_new_wf|cbn; lia|]. by intros o b (k & v & Hk & _). Qed.

Lemma insert_holds stream r offset data :
  holds stream r → piece stream offset data → holds stream (insert r offset data).
Proof.
  intros [Hwf Hd Hb] (Ho & Hlt & Hp).
  destruct (insert_spec r offset data Hwf Ho Hlt) as (Hwf' & Hd' & Hb').
  split; [done|lia|]. intros o b [[_ ?]|[_ ?]]%Hb'; auto.
Qed.

Lemma read_holds stream r :
  holds stream r → holds stream (snd (read r)) ∧
  take (Z.to_nat (r_delivered r)) stream ++ fst (read r) =
    take (Z.to_nat (r_delivered (snd (read r)))) stream ∧
  r_delivered (snd (read r)) = r_delivered r + zlen (fst (read r)).
Proof.
  intros [Hwf Hd Hb]. pose proof (read_spec r Hwf) as Hr. destruct (read r) as [d r'].
  destruct Hr as (Hwf' & Hd' & Hack & Hp & _ & Hb'). cbn.
  pose proof (wf_delivered _ Hwf) as [Hd0 _].
  assert (∀ i b, d !! i = Some b → stream !! (Z.to_nat (r_delivered r) + i)%nat = Some b) as Hd2.
  { intros i b Hi. pose proof (lookup_lt_Some _ _ _ Hi).
    destruct (Hp (r_delivered r + Z.of_nat i) b) as [[Hh _] _].
    - split; [lia|]. by replace (Z.to_nat _) with i by lia.
    - apply Hb in Hh. by replace (Z.to_nat _) with (Z.to_nat (r_delivered r) + i)%nat in Hh by lia. }
  assert (r_delivered r + zlen d ≤ zlen stream).
  { destruct (decide (d = [])) as [->|Hne]; [cbn; lia|].
    destruct (lookup_lt_is_Some_2 d (length d - 1)) as [b Hl]; [destruct d; [done|cbn; lia]|].
    apply Hd2, lookup_lt_Some in Hl. destruct d; [done|cbn in *; lia]. }
  split_and!; [|apply list_eq; intros i|lia].
  - split; [done|lia|]. intros o b [? _]%Hb'. by apply Hb.
  - assert (length (take (Z.to_nat (r_delivered r)) stream) = Z.to_nat (r_delivered r)) as Hlt
      by (rewrite length_take; lia).
    destruct (Nat.lt_ge_cases i (Z.to_nat (r_delivered r))).
    + rewrite lookup_app_l, !lookup_take_lt by lia. done.
    + rewrite lookup_app_r, Hlt by lia.
      destruct (d !! (i - Z.to_nat (r_delivered r))%nat) as [b|] eqn:Hi.
      * pose proof (lookup_lt_Some _ _ _ Hi). rewrite lookup_take_lt by lia.
        apply Hd2 in Hi. symmetry.
        by replace (Z.to_nat (r_delivered r) + (i - Z.to_nat (r_delivered r)))%nat with i in Hi by lia.
      * apply lookup_ge_None_1 in Hi. symmetry. apply lookup_ge_None_2. rewrite length_take. lia.
Qed.

Lemma holds_ack_point stream r : holds stream r → ack_point r ≤ zlen stream.
Proof.
  intros [Hwf Hd Hb]. pose proof (ack_point_range _ Hwf). pose proof (wf_delivered _ Hwf) as [? _].
  destruct (decide (ack_point r = r_delivered r)) as [->|]; [done|].
  destruct (below_ack_point r (ack_point r - 1) Hwf) as [b ?%Hb%lookup_lt_Some]; lia.
Qed.

Lemma reassemble_spec stream ops : ∀ r (seen : Z → Prop),
  holds stream r → Forall (op_carries stream) ops →
  (∀ o, 0 ≤ o < r_delivered r → seen o) →
  (∀ o, r_delivered r ≤ o → (seen o ↔ ∃ b, has_byte r o b)) →
  let '(out, r') := reassemble r ops in
  holds stream r' ∧
  take (Z.to_nat (r_delivered r)) stream ++ out = take (Z.to_nat (r_delivered r')) stream ∧
  r_delivered r' = r_delivered r + zlen out ∧
  (∀ o, 0 ≤ o < r_delivered r' → seen o ∨ covered ops o) ∧
  (∀ o, r_delivered r' ≤ o → (seen o ∨ covered ops o ↔ ∃ b, has_byte r' o b)).
Proof.
  induction ops as [|op ops IH]; intros r seen Hr Hops Hlow Hhigh; cbn.
  { assert (∀ o, ¬ covered [] o) as Hno by (by intros o (? & ? & ?%not_elem_of_nil & _)).
    split_and!; [done|by rewrite app_nil_r|lia|by auto|].
    intros o Ho. rewrite <- Hhigh by done. split; [by intros [?|?%Hno]|by left]. }
  apply Forall_cons_1 in Hops as [Hop Hops]. destruct op as [offset data|].
  - destruct Hop as (Ho & Hlt & Hp).
    pose proof (insert_holds stream r offset data Hr ltac:(by split_and!)) as Hr'.
    destruct (insert_spec r offset data (holds_wf _ _ Hr) Ho Hlt) as (_ & Hd & Hb).
    specialize (IH (insert r offset data) (λ o, seen o ∨ offset ≤ o < offset + zlen data) Hr' Hops).
    destruct (reassemble (insert r offset data) ops) as [out r2].
    assert (∀ o, ((seen o ∨ offset ≤ o < offset + zlen data) ∨ covered ops o) ↔
      (seen o ∨ covered (OpInsert offset data :: ops) o)) as Hcov.
    { intros o. unfold covered. setoid_rewrite elem_of_cons. naive_solver. }
    setoid_rewrite Hcov in IH. rewrite Hd in IH. apply IH; [by auto|]. intros o Hod. split.
    + intros Hor. destruct (decide (offset ≤ o < offset + zlen data)) as [Hin|Hout].
      * destruct (puts_covered offset data o Hin) as [b ?]. exists b. apply Hb. by left.
      * destruct Hor as [Hs|]; [|done]. apply Hhigh in Hs as [b ?]; [|done].
        exists b. apply Hb. right. split; [lia|done].
    + intros [b [[_ ?%puts_range]|[_ ?]]%Hb]; [by right|left]. apply Hhigh; [done|]. by exists b.
  - destruct (read_holds stream r Hr) as (Hr' & Ht & Hd).
    pose proof (read_spec r (holds_wf _ _ Hr)) as Hsp.
    destruct (read r) as [d r1]. destruct Hsp as (_ & Hd1 & _ & _ & _ & Hb1).
    cbn in Hr', Ht, Hd. specialize (IH r1 seen Hr' Hops).
    destruct (reassemble r1 ops) as [out r2]. destruct IH as (Hr2 & Ht2 & Hd2 & Hl2 & Hh2).
    { intros o Ho. destruct (Z.lt_ge_cases o (r_delivered r)); [apply Hlow; lia|].
      apply Hhigh; [done|]. apply below_ack_point; [apply Hr|lia]. }
    { intros o Ho. rewrite Hhigh by lia. setoid_rewrite Hb1. naive_solver lia. }
    assert (∀ o, covered ops o ↔ covered (OpRead :: ops) o) as Hcov.
    { intros o. unfold covered. setoid_rewrite elem_of_cons. naive_solver. }
    setoid_rewrite Hcov in Hl2. setoid_rewrite Hcov in Hh2.
    split_and!; [done| |rewrite length_app; lia|done|done].
    by rewrite (assoc_L (++)), Ht, Ht2.
Qed.

(** ** Properties *)

(** Reassembly is exact: whatever pieces of a stream arrive, in any order,
    overlapping and repeated, interleaved with reads, once the last available
    bytes are read the concatenation of the reads is the longest prefix of the
    stream that the pieces cover — never a gap, a filler byte or a repeat. *)
Theorem reassembly_exact stream ops :
  zlen stream < 2 ^ 64 → Forall (op_carries stream) ops →
  let out := fst (reassemble reassembler_new (ops ++ [OpRead])) in
  out = take (length out) stream ∧
  (∀ o, 0 ≤ o < zlen out → covered ops o) ∧ ¬ covered ops (zlen out).
Proof.
  intros Hs Hops out.
  assert (∀ ops r, fst (reassemble r (ops ++ [OpRead])) =
    fst (reassemble r ops) ++ fst (read (snd (reassemble r ops)))) as Hsnoc.
  { clear. induction ops as [|[offset data|] ops IH]; intros r; cbn.
    - destruct (read r). cbn. by rewrite app_nil_r.
    - apply IH.
    - destruct (read r) as [d r1]. specialize (IH r1).
      destruct (reassemble r1 (ops ++ [OpRead])), (reassemble r1 ops). cbn in *.
      by rewrite IH, (assoc_L (++)). }
  pose proof (reassemble_spec stream ops reassembler_new (λ _, False) (holds_new stream) Hops)
    as Hsp. unfold out. clear out. rewrite Hsnoc.
  destruct (reassemble reassembler_new ops) as [out r].
  destruct Hsp as (Hr & Ht & Hd & Hlow & Hhigh).
  { cbn. lia. }
  { intros o Ho. split; [done|]. by intros (b & k & v & Hk & _). }
  cbn in Ht, Hd. rewrite take_0, app_nil_l in Ht. cbn [fst snd].
  destruct (read_holds stream r Hr) as (_ & Ht2 & Hd2).
  pose proof (read_spec r (holds_wf _ _ Hr)) as Hsp.
  destruct (read r) as [d r2]. destruct Hsp as (_ & Hd3 & Hack & Hp & Hno & _).
  cbn in *. rewrite <- Ht in Ht2. rewrite length_app. split_and!.
  - rewrite Ht2. f_equal. lia.
  - intros o Ho. destruct (Z.lt_ge_cases o (r_delivered r)) as [|Hge].
    + destruct (Hlow o); [lia|done|done].
    + destruct (Hhigh o Hge) as [_ Hb]. destruct (below_ack_point r o (holds_wf _ _ Hr)) as [b ?];
        [lia|]. destruct Hb as [|]; [by exists b|done|done].
  - intros Hc. destruct (Hhigh (ack_point r)) as [Hb _]; [lia|].
    destruct Hb as [b ?]; [right; by replace (ack_point r) with (Z.of_nat (length out + length d)) by lia|].
    by destruct (Hno b).
Qed.

Lemma reassembly_exact_witness :
  fst (reassemble reassembler_new
    ([OpInsert 4 [5; 6]; OpRead; OpInsert 0 [1; 2]; OpInsert 1 [2; 3; 4]; OpRead;
      OpInsert 8 [9]; OpInsert 3 [4; 5]] ++ [OpRead])) = [1; 2; 3; 4; 5; 6].
Proof.
  destruct (reassembly_exact [1; 2; 3; 4; 5; 6; 7; 8; 9]
    [OpInsert 4 [5; 6]; OpRead; OpInsert 0 [1; 2]; OpInsert 1 [2; 3; 4]; OpRead;
      OpInsert 8 [9]; OpInsert 3 [4; 5]]) as (Heq & _ & _).
  - cbn. lia.
  - repeat (apply Forall_cons_2;
      [lazymatch goal with
       | |- op_carries _ OpRead => exact I
       | |- op_carries _ (OpInsert _ ?d) =>
         apply (piece_slice _ _ _ (length d)); [lia|cbn; lia|reflexivity]
       end|]).
    apply Forall_nil_2.
  - exact Heq.
Defined.
