(* ===== verification/Stream.v ===== *)
(** * One reliable stream ([crates/transport/src/stream.rs], [StreamState])

    Send buffer, retransmission timer, RTT estimate, congestion window, FIN and
    receive half of one stream. [u64]/[u32] fields are [Z]; ticks are rounds of
    [poll_transmit]. *)

From stdpp Require Import gmap.
From S2P Require Import Prelude Wire Reassembler.

(** @ crates/transport/src/stream.rs:16-17 DEFAULT_WINDOW *)
Definition DEFAULT_WINDOW : Z := 256 * 1024.
(** @ crates/transport/src/stream.rs:23-25 MAX_STREAM_CHUNK *)
Definition MAX_STREAM_CHUNK : Z := 1024.
(** @ crates/transport/src/stream.rs:27-29 MSS *)
Definition MSS : Z := MAX_STREAM_CHUNK.
(** @ crates/transport/src/stream.rs:31-32 INIT_CWND *)
Definition INIT_CWND : Z := 10 * MSS.
(** @ crates/transport/src/stream.rs:34-35 MAX_CWND *)
Definition MAX_CWND : Z := DEFAULT_WINDOW.
(** @ crates/transport/src/stream.rs:37-41 INIT_RTO *)
Definition INIT_RTO : Z := 8.
Definition MIN_RTO : Z := 2.
Definition MAX_RTO : Z := 240.
(** @ crates/transport/src/stream.rs:191-195 CLOSE_GRACE_TICKS *)
Definition CLOSE_GRACE_TICKS : Z := 100.

(** @ crates/transport/src/stream.rs:138-143 HalfState *)
Inductive HalfState := HOpen | HFinished (at_ : Z).

#[export] Instance half_state_eq_dec : EqDecision HalfState.
Proof. solve_decision. Defined.

(** @ crates/transport/src/stream.rs:145-189 StreamState *)
Record StreamState := mkStreamState {
  s_id : Z;
  s_kind : StreamKind;
  s_meta : list Z;
  s_needs_open : bool;
  s_send_buf : list Z;
  s_send_base : Z;
  s_send_high : Z;
  s_send_next : Z;
  s_peer_window : Z;
  s_send_fin : bool;
  s_fin_sent : bool;
  s_fin_acked : bool;
  s_close_status : option Z;
  s_rto_start : option Z;
  s_rto : Z;
  s_srtt : Z;
  s_rttvar : Z;
  s_timed : option (Z * Z);
  s_cwnd : Z;
  s_ssthresh : Z;
  s_recv : Reassembler;
  s_recv_window : Z;
  s_peer_fin : HalfState;
  s_close_received : bool;
  s_close_ticks : Z;
  s_reset : bool;
}.

Definition set_needs_open (v : bool) (s : StreamState) : StreamState :=   mkStreamState
    (s_id s) (s_kind s) (s_meta s) v (s_send_buf s) (s_send_base s) (s_send_high s)
    (s_send_next s) (s_peer_window s) (s_send_fin s) (s_fin_sent s) (s_fin_acked s)
    (s_close_status s) (s_rto_start s) (s_rto s) (s_srtt s) (s_rttvar s) (s_timed s)
    (s_cwnd s) (s_ssthresh s) (s_recv s) (s_recv_window s) (s_peer_fin s)
    (s_close_received s) (s_close_ticks s) (s_reset s).
Definition set_send_buf (v : list Z) (s : StreamState) : StreamState :=   mkStreamState
    (s_id s) (s_kind s) (s_meta s) (s_needs_open s) v (s_send_base s) (s_send_high s)
    (s_send_next s) (s_peer_window s) (s_send_fin s) (s_fin_sent s) (s_fin_acked s)
    (s_close_status s) (s_rto_start s) (s_rto s) (s_srtt s) (s_rttvar s) (s_timed s)
    (s_cwnd s) (s_ssthresh s) (s_recv s) (s_recv_window s) (s_peer_fin s)
    (s_close_received s) (s_close_ticks s) (s_reset s).
Definition set_send_base (v : Z) (s : StreamState) : StreamState :=   mkStreamState
    (s_id s) (s_kind s) (s_meta s) (s_needs_open s) (s_send_buf s) v (s_send_high s)
    (s_send_next s) (s_peer_window s) (s_send_fin s) (s_fin_sent s) (s_fin_acked s)
    (s_close_status s) (s_rto_start s) (s_rto s) (s_srtt s) (s_rttvar s) (s_timed s)
    (s_cwnd s) (s_ssthresh s) (s_recv s) (s_recv_window s) (s_peer_fin s)
    (s_close_received s) (s_close_ticks s) (s_reset s).
Definition set_send_high (v : Z) (s : StreamState) : StreamState :=   mkStreamState
    (s_id s) (s_kind s) (s_meta s) (s_needs_open s) (s_send_buf s) (s_send_base s) v
    (s_send_next s) (s_peer_window s) (s_send_fin s) (s_fin_sent s) (s_fin_acked s)
    (s_close_status s) (s_rto_start s) (s_rto s) (s_srtt s) (s_rttvar s) (s_timed s)
    (s_cwnd s) (s_ssthresh s) (s_recv s) (s_recv_window s) (s_peer_fin s)
    (s_close_received s) (s_close_ticks s) (s_reset s).
Definition set_send_next (v : Z) (s : StreamState) : StreamState :=   mkStreamState
    (s_id s) (s_kind s) (s_meta s) (s_needs_open s) (s_send_buf s) (s_send_base s)
    (s_send_high s) v (s_peer_window s) (s_send_fin s) (s_fin_sent s) (s_fin_acked s)
    (s_close_status s) (s_rto_start s) (s_rto s) (s_srtt s) (s_rttvar s) (s_timed s)
    (s_cwnd s) (s_ssthresh s) (s_recv s) (s_recv_window s) (s_peer_fin s)
    (s_close_received s) (s_close_ticks s) (s_reset s).
Definition set_peer_window (v : Z) (s : StreamState) : StreamState :=   mkStreamState
    (s_id s) (s_kind s) (s_meta s) (s_needs_open s) (s_send_buf s) (s_send_base s)
    (s_send_high s) (s_send_next s) v (s_send_fin s) (s_fin_sent s) (s_fin_acked s)
    (s_close_status s) (s_rto_start s) (s_rto s) (s_srtt s) (s_rttvar s) (s_timed s)
    (s_cwnd s) (s_ssthresh s) (s_recv s) (s_recv_window s) (s_peer_fin s)
    (s_close_received s) (s_close_ticks s) (s_reset s).
Definition set_send_fin (v : bool) (s : StreamState) : StreamState :=   mkStreamState
    (s_id s) (s_kind s) (s_meta s) (s_needs_open s) (s_send_buf s) (s_send_base s)
    (s_send_high s) (s_send_next s) (s_peer_window s) v (s_fin_sent s) (s_fin_acked s)
    (s_close_status s) (s_rto_start s) (s_rto s) (s_srtt s) (s_rttvar s) (s_timed s)
    (s_cwnd s) (s_ssthresh s) (s_recv s) (s_recv_window s) (s_peer_fin s)
    (s_close_received s) (s_close_ticks s) (s_reset s).
Definition set_fin_sent (v : bool) (s : StreamState) : StreamState :=   mkStreamState
    (s_id s) (s_kind s) (s_meta s) (s_needs_open s) (s_send_buf s) (s_send_base s)
    (s_send_high s) (s_send_next s) (s_peer_window s) (s_send_fin s) v (s_fin_acked s)
    (s_close_status s) (s_rto_start s) (s_rto s) (s_srtt s) (s_rttvar s) (s_timed s)
    (s_cwnd s) (s_ssthresh s) (s_recv s) (s_recv_window s) (s_peer_fin s)
    (s_close_received s) (s_close_ticks s) (s_reset s).
Definition set_fin_acked (v : bool) (s : StreamState) : StreamState :=   mkStreamState
    (s_id s) (s_kind s) (s_meta s) (s_needs_open s) (s_send_buf s) (s_send_base s)
    (s_send_high s) (s_send_next s) (s_peer_window s) (s_send_fin s) (s_fin_sent s) v
    (s_close_status s) (s_rto_start s) (s_rto s) (s_srtt s) (s_rttvar s) (s_timed s)
    (s_cwnd s) (s_ssthresh s) (s_recv s) (s_recv_window s) (s_peer_fin s)
    (s_close_received s) (s_close_ticks s) (s_reset s).
Definition set_close_status (v : option Z) (s : StreamState) : StreamState :=
    mkStreamState (s_id s) (s_kind s) (s_meta s) (s_needs_open s) (s_send_buf s)
    (s_send_base s) (s_send_high s) (s_send_next s) (s_peer_window s) (s_send_fin s)
    (s_fin_sent s) (s_fin_acked s) v (s_rto_start s) (s_rto s) (s_srtt s) (s_rttvar s)
    (s_timed s) (s_cwnd s) (s_ssthresh s) (s_recv s) (s_recv_window s) (s_peer_fin s)
    (s_close_received s) (s_close_ticks s) (s_reset s).
Definition set_rto_start (v : option Z) (s : StreamState) : StreamState :=
    mkStreamState (s_id s) (s_kind s) (s_meta s) (s_needs_open s) (s_send_buf s)
    (s_send_base s) (s_send_high s) (s_send_next s) (s_peer_window s) (s_send_fin s)
    (s_fin_sent s) (s_fin_acked s) (s_close_status s) v (s_rto s) (s_srtt s) (s_rttvar
    s) (s_timed s) (s_cwnd s) (s_ssthresh s) (s_recv s) (s_recv_window s) (s_peer_fin s)
    (s_close_received s) (s_close_ticks s) (s_reset s).
Definition set_rto (v : Z) (s : StreamState) : StreamState :=   mkStreamState (s_id s)
    (s_kind s) (s_meta s) (s_needs_open s) (s_send_buf s) (s_send_base s) (s_send_high
    s) (s_send_next s) (s_peer_window s) (s_send_fin s) (s_fin_sent s) (s_fin_acked s)
    (s_close_status s) (s_rto_start s) v (s_srtt s) (s_rttvar s) (s_timed s) (s_cwnd s)
    (s_ssthresh s) (s_recv s) (s_recv_window s) (s_peer_fin s) (s_close_received s)
    (s_close_ticks s) (s_reset s).
Definition set_srtt (v : Z) (s : StreamState) : StreamState :=   mkStreamState (s_id s)
    (s_kind s) (s_meta s) (s_needs_open s) (s_send_buf s) (s_send_base s) (s_send_high
    s) (s_send_next s) (s_peer_window s) (s_send_fin s) (s_fin_sent s) (s_fin_acked s)
    (s_close_status s) (s_rto_start s) (s_rto s) v (s_rttvar s) (s_timed s) (s_cwnd s)
    (s_ssthresh s) (s_recv s) (s_recv_window s) (s_peer_fin s) (s_close_received s)
    (s_close_ticks s) (s_reset s).
Definition set_rttvar (v : Z) (s : StreamState) : StreamState :=   mkStreamState (s_id
    s) (s_kind s) (s_meta s) (s_needs_open s) (s_send_buf s) (s_send_base s)
    (s_send_high s) (s_send_next s) (s_peer_window s) (s_send_fin s) (s_fin_sent s)
    (s_fin_acked s) (s_close_status s) (s_rto_start s) (s_rto s) (s_srtt s) v (s_timed
    s) (s_cwnd s) (s_ssthresh s) (s_recv s) (s_recv_window s) (s_peer_fin s)
    (s_close_received s) (s_close_ticks s) (s_reset s).
Definition set_timed (v : option (Z * Z)) (s : StreamState) : StreamState :=
    mkStreamState (s_id s) (s_kind s) (s_meta s) (s_needs_open s) (s_send_buf s)
    (s_send_base s) (s_send_high s) (s_send_next s) (s_peer_window s) (s_send_fin s)
    (s_fin_sent s) (s_fin_acked s) (s_close_status s) (s_rto_start s) (s_rto s) (s_srtt
    s) (s_rttvar s) v (s_cwnd s) (s_ssthresh s) (s_recv s) (s_recv_window s) (s_peer_fin
    s) (s_close_received s) (s_close_ticks s) (s_reset s).
Definition set_cwnd (v : Z) (s : StreamState) : StreamState :=   mkStreamState (s_id s)
    (s_kind s) (s_meta s) (s_needs_open s) (s_send_buf s) (s_send_base s) (s_send_high
    s) (s_send_next s) (s_peer_window s) (s_send_fin s) (s_fin_sent s) (s_fin_acked s)
    (s_close_status s) (s_rto_start s) (s_rto s) (s_srtt s) (s_rttvar s) (s_timed s) v
    (s_ssthresh s) (s_recv s) (s_recv_window s) (s_peer_fin s) (s_close_received s)
    (s_close_ticks s) (s_reset s).
Definition set_ssthresh (v : Z) (s : StreamState) : StreamState :=   mkStreamState (s_id
    s) (s_kind s) (s_meta s) (s_needs_open s) (s_send_buf s) (s_send_base s)
    (s_send_high s) (s_send_next s) (s_peer_window s) (s_send_fin s) (s_fin_sent s)
    (s_fin_acked s) (s_close_status s) (s_rto_start s) (s_rto s) (s_srtt s) (s_rttvar s)
    (s_timed s) (s_cwnd s) v (s_recv s) (s_recv_window s) (s_peer_fin s)
    (s_close_received s) (s_close_ticks s) (s_reset s).
Definition set_recv (v : Reassembler) (s : StreamState) : StreamState :=   mkStreamState
    (s_id s) (s_kind s) (s_meta s) (s_needs_open s) (s_send_buf s) (s_send_base s)
    (s_send_high s) (s_send_next s) (s_peer_window s) (s_send_fin s) (s_fin_sent s)
    (s_fin_acked s) (s_close_status s) (s_rto_start s) (s_rto s) (s_srtt s) (s_rttvar s)
    (s_timed s) (s_cwnd s) (s_ssthresh s) v (s_recv_window s) (s_peer_fin s)
    (s_close_received s) (s_close_ticks s) (s_reset s).
Definition set_recv_window (v : Z) (s : StreamState) : StreamState :=   mkStreamState
    (s_id s) (s_kind s) (s_meta s) (s_needs_open s) (s_send_buf s) (s_send_base s)
    (s_send_high s) (s_send_next s) (s_peer_window s) (s_send_fin s) (s_fin_sent s)
    (s_fin_acked s) (s_close_status s) (s_rto_start s) (s_rto s) (s_srtt s) (s_rttvar s)
    (s_timed s) (s_cwnd s) (s_ssthresh s) (s_recv s) v (s_peer_fin s) (s_close_received
    s) (s_close_ticks s) (s_reset s).
Definition set_peer_fin (v : HalfState) (s : StreamState) : StreamState :=
    mkStreamState (s_id s) (s_kind s) (s_meta s) (s_needs_open s) (s_send_buf s)
    (s_send_base s) (s_send_high s) (s_send_next s) (s_peer_window s) (s_send_fin s)
    (s_fin_sent s) (s_fin_acked s) (s_close_status s) (s_rto_start s) (s_rto s) (s_srtt
    s) (s_rttvar s) (s_timed s) (s_cwnd s) (s_ssthresh s) (s_recv s) (s_recv_window s) v
    (s_close_received s) (s_close_ticks s) (s_reset s).
Definition set_close_received (v : bool) (s : StreamState) : StreamState :=
    mkStreamState (s_id s) (s_kind s) (s_meta s) (s_needs_open s) (s_send_buf s)
    (s_send_base s) (s_send_high s) (s_send_next s) (s_peer_window s) (s_send_fin s)
    (s_fin_sent s) (s_fin_acked s) (s_close_status s) (s_rto_start s) (s_rto s) (s_srtt
    s) (s_rttvar s) (s_timed s) (s_cwnd s) (s_ssthresh s) (s_recv s) (s_recv_window s)
    (s_peer_fin s) v (s_close_ticks s) (s_reset s).
Definition set_close_ticks (v : Z) (s : StreamState) : StreamState :=   mkStreamState
    (s_id s) (s_kind s) (s_meta s) (s_needs_open s) (s_send_buf s) (s_send_base s)
    (s_send_high s) (s_send_next s) (s_peer_window s) (s_send_fin s) (s_fin_sent s)
    (s_fin_acked s) (s_close_status s) (s_rto_start s) (s_rto s) (s_srtt s) (s_rttvar s)
    (s_timed s) (s_cwnd s) (s_ssthresh s) (s_recv s) (s_recv_window s) (s_peer_fin s)
    (s_close_received s) v (s_reset s).
Definition set_reset (v : bool) (s : StreamState) : StreamState :=   mkStreamState (s_id
    s) (s_kind s) (s_meta s) (s_needs_open s) (s_send_buf s) (s_send_base s)
    (s_send_high s) (s_send_next s) (s_peer_window s) (s_send_fin s) (s_fin_sent s)
    (s_fin_acked s) (s_close_status s) (s_rto_start s) (s_rto s) (s_srtt s) (s_rttvar s)
    (s_timed s) (s_cwnd s) (s_ssthresh s) (s_recv s) (s_recv_window s) (s_peer_fin s)
    (s_close_received s) (s_close_ticks s) v.

(** @ crates/transport/src/stream.rs:198-227 StreamState::new *)
Definition stream_new (id : Z) (kind : StreamKind) (meta : list Z) (needs_open : bool) :
    StreamState := {|
  s_id := id; s_kind := kind; s_meta := meta; s_needs_open := needs_open;
  s_send_buf := []; s_send_base := 0; s_send_high := 0; s_send_next := 0;
  s_peer_window := DEFAULT_WINDOW; s_send_fin := false; s_fin_sent := false;
  s_fin_acked := false; s_close_status := None; s_rto_start := None; s_rto := INIT_RTO;
  s_srtt := 0; s_rttvar := 0; s_timed := None; s_cwnd := INIT_CWND;
  s_ssthresh := MAX_CWND; s_recv := reassembler_new; s_recv_window := DEFAULT_WINDOW;
  s_peer_fin := HOpen; s_close_received := false; s_close_ticks := 0; s_reset := false |}.

(** [matches!(self.peer_fin, Finished(at) if delivered >= at && unread() == 0)],
    in [fully_done] and in [is_recv_finished]. *)
Definition recv_finished (s : StreamState) : bool :=
  match s_peer_fin s with
  | HFinished at_ => (at_ <=? r_delivered (s_recv s)) && (unread (s_recv s) =? 0)
  | HOpen => false
  end.

(** @ crates/transport/src/stream.rs:229-248 StreamState::fully_done *)
Definition fully_done (s : StreamState) : bool :=
  if negb (s_send_fin s) then false
  else if s_fin_acked s && recv_finished s then true
  else s_close_received s && (CLOSE_GRACE_TICKS <=? s_close_ticks s).

(** @ crates/transport/src/stream.rs:250-253 StreamState::write *)
Definition stream_write (s : StreamState) (data : list Z) : StreamState :=
  set_send_next (as_u64 (s_send_next s + zlen data))
    (set_send_buf (s_send_buf s ++ data) s).

(** @ crates/transport/src/stream.rs:312-319 StreamState::recompute_rto *)
Definition recompute_rto (s : StreamState) : StreamState :=
  set_rto
    (if 0 <? s_srtt s
     then Z.min (Z.max (as_u32 (s_srtt s + Z.max (as_u32 (4 * s_rttvar s)) 1)) MIN_RTO) MAX_RTO
     else INIT_RTO) s.

(** @ crates/transport/src/stream.rs:298-310 StreamState::update_rtt *)
Definition update_rtt (s : StreamState) (r : Z) : StreamState :=
  recompute_rto
    (if s_srtt s =? 0 then set_rttvar (r / 2) (set_srtt r s)
     else
       let delta := Z.abs (s_srtt s - r) in
       let s := set_rttvar (as_u32 (as_u32 (3 * s_rttvar s) + delta) / 4) s in
       set_srtt (as_u32 (as_u32 (7 * s_srtt s) + r) / 8) s).

(** @ crates/transport/src/stream.rs:321-331 StreamState::grow_cwnd *)
Definition grow_cwnd (s : StreamState) (acked : Z) : StreamState :=
  let inc :=
    if s_cwnd s <? s_ssthresh s then Z.min (as_u32 acked) MSS
    else as_u32 (Z.max (MSS * MSS / Z.max (s_cwnd s) 1) 1) in
  set_cwnd (Z.min (saturating_add_u32 (s_cwnd s) inc) MAX_CWND) s.

(** @ crates/transport/src/stream.rs:333-340 StreamState::on_rto *)
Definition on_rto (s : StreamState) : StreamState :=
  let s := set_ssthresh (Z.max (s_cwnd s / 2) (2 * MSS)) s in
  let s := set_cwnd MSS s in
  let s := set_rto (Z.min (saturating_mul_u32 (s_rto s) 2) MAX_RTO) s in
  set_timed None s.

(** The three phases of [on_ack] after its guard: progress, the RTT sample, the
    FIN. *)
Definition ack_progress (s : StreamState) (ack now : Z) : StreamState :=
  if s_send_base s <? ack then
    let advance := Z.min (ack - s_send_base s) (zlen (s_send_buf s)) in
    let s := set_send_buf (drop (Z.to_nat advance) (s_send_buf s)) s in
    let s := set_send_base (as_u64 (s_send_base s + advance)) s in
    let s := set_send_high (Z.max (s_send_high s) (s_send_base s)) s in
    let s := grow_cwnd s advance in
    let s := set_rto_start
      (if s_send_base s <? s_send_high s then Some now else None) s in
    recompute_rto s
  else s.

Definition ack_sample (s : StreamState) (ack now : Z) : StreamState :=
  match s_timed s with
  | Some (seq, sent) =>
    if seq <=? ack
    then set_timed None (update_rtt s (as_u32 (Z.max (saturating_sub now sent) 1)))
    else s
  | None => s
  end.

Definition ack_fin (s : StreamState) (ack : Z) : StreamState :=
  if s_send_fin s && s_fin_sent s && (s_send_next s <=? ack) then set_fin_acked true s
  else s.

(** @ crates/transport/src/stream.rs:255-296 StreamState::on_ack *)
Definition stream_on_ack (s : StreamState) (ack window now : Z) : StreamState :=
  if s_send_next s <? ack then s
  else
    let s := set_peer_window window s in
    let s := ack_progress s ack now in
    let s := ack_sample s ack now in
    ack_fin s ack.

(** The chunks of [[off, to_)], at most one round per byte; [None] is a panic, or no
    fuel left.
    @ crates/transport/src/stream.rs:342-362 StreamState::emit_range *)
Fixpoint emit_loop (fuel : nat) (s : StreamState) (out : list Frame) (off to_ : Z) :
    option (StreamState * list Frame) :=
  if off <? to_ then
    match fuel with
    | O => None
    | S fuel =>
      let chunk_end := Z.min (as_u64 (off + MAX_STREAM_CHUNK)) to_ in
      let lo := Z.to_nat (as_u64 (off - s_send_base s)) in
      let hi := Z.to_nat (as_u64 (chunk_end - s_send_base s)) in
      let fin := s_send_fin s && (chunk_end =? s_send_next s) && negb (s_fin_acked s) in
      let s := if fin then set_fin_sent true s else s in
      data ← slice_checked (s_send_buf s) lo hi;
      emit_loop fuel s (out ++ [StreamData (s_id s) off data fin]) chunk_end to_
    end
  else Some (s, out).

(** @ crates/transport/src/stream.rs:342-362 StreamState::emit_range *)
Definition emit_range_checked (s : StreamState) (out : list Frame) (from to_ : Z) :
    option (StreamState * list Frame) :=
  emit_loop (Z.to_nat (to_ - from)) s out from to_.

(** It neither panics nor runs out of fuel ([emit_range_calm]), so the default is
    never taken. *)
Definition emit_range (s : StreamState) (out : list Frame) (from to_ : Z) :
    StreamState * list Frame :=
  default (s, out) (emit_range_checked s out from to_).

(** The closure [rto_due] in [transmit]. *)
Definition rto_due (now : Z) (start : option Z) (rto : Z) : bool :=
  match start with Some t => rto <=? saturating_sub now t | None => true end.

(** The open frame, once. *)
Definition transmit_open (s : StreamState) (out : list Frame) : StreamState * list Frame :=
  if s_needs_open s
  then (set_needs_open false s, out ++ [StreamOpen (s_id s) (s_kind s) (s_meta s)])
  else (s, out).

(** New data, else a due retransmission, else the bare FIN. *)
Definition transmit_data (s : StreamState) (now : Z) (out : list Frame) :
    StreamState * list Frame :=
  let cap := Z.min (s_peer_window s) (s_cwnd s) in
  let send_end := Z.min (s_send_next s) (as_u64 (s_send_base s + cap)) in
  if s_send_high s <? send_end then
    let from := Z.max (s_send_high s) (s_send_base s) in
    let '(s, out) := emit_range s out from send_end in
    let s := match s_timed s with None => set_timed (Some (send_end, now)) s | _ => s end in
    let s := set_send_high send_end s in
    let s := match s_rto_start s with None => set_rto_start (Some now) s | _ => s end in
    (s, out)
  else if s_send_base s <? s_send_high s then
    if rto_due now (s_rto_start s) (s_rto s) then
      let '(s, out) := emit_range s out (s_send_base s) (s_send_high s) in
      (on_rto (set_rto_start (Some now) s), out)
    else (s, out)
  else if s_send_fin s && negb (s_fin_acked s) && (s_send_next s =? s_send_base s) then
    if negb (s_fin_sent s) || rto_due now (s_rto_start s) (s_rto s) then
      (set_rto_start (Some now) (set_fin_sent true s),
       out ++ [StreamData (s_id s) (s_send_next s) [] true])
    else (s, out)
  else (s, out).

(** The receive-window advertisement. *)
Definition transmit_ack (s : StreamState) (out : list Frame) : StreamState * list Frame :=
  let unread := Z.min (unread (s_recv s)) DEFAULT_WINDOW in
  let s := set_recv_window (saturating_sub DEFAULT_WINDOW unread) s in
  (s, out ++ [StreamAck (s_id s) (ack_point (s_recv s)) (s_recv_window s)]).

(** The graceful close, and its grace period. *)
Definition transmit_close (s : StreamState) (out : list Frame) : StreamState * list Frame :=
  let out :=
    match s_close_status s with
    | Some status =>
      if negb (s_fin_acked s) then out ++ [StreamClose (s_id s) status] else out
    | None => out
    end in
  if s_close_received s && s_send_fin s && bool_decide (s_peer_fin s = HOpen)
  then (set_close_ticks (saturating_add_u32 (s_close_ticks s) 1) s, out)
  else (s, out).

(** @ crates/transport/src/stream.rs:364-445 StreamState::transmit *)
Definition transmit (s : StreamState) (now : Z) (out : list Frame) :
    StreamState * list Frame :=
  if s_reset s then (s, out)
  else
    let '(s, out) := transmit_open s out in
    let '(s, out) := transmit_data s now out in
    let '(s, out) := transmit_ack s out in
    transmit_close s out.

(** *** The same, with their panics

    What an ack drains is in the buffer. *)
Definition ack_progress_checked (s : StreamState) (ack now : Z) : option StreamState :=
  if s_send_base s <? ack then
    let advance := Z.min (ack - s_send_base s) (zlen (s_send_buf s)) in
    _ ← slice_checked (s_send_buf s) 0 (Z.to_nat advance);
    Some (ack_progress s ack now)
  else Some s.

(** @ crates/transport/src/stream.rs:255-296 StreamState::on_ack *)
Definition stream_on_ack_checked (s : StreamState) (ack window now : Z) : option StreamState :=
  if s_send_next s <? ack then Some s
  else
    let s := set_peer_window window s in
    s ← ack_progress_checked s ack now;
    let s := ack_sample s ack now in
    Some (ack_fin s ack).

(** @ crates/transport/src/stream.rs:383-422 StreamState::transmit *)
Definition transmit_data_checked (s : StreamState) (now : Z) (out : list Frame) :
    option (StreamState * list Frame) :=
  let cap := Z.min (s_peer_window s) (s_cwnd s) in
  let send_end := Z.min (s_send_next s) (as_u64 (s_send_base s + cap)) in
  if s_send_high s <? send_end then
    let from := Z.max (s_send_high s) (s_send_base s) in
    '(s, out) ← emit_range_checked s out from send_end;
    let s := match s_timed s with None => set_timed (Some (send_end, now)) s | _ => s end in
    let s := set_send_high send_end s in
    let s := match s_rto_start s with None => set_rto_start (Some now) s | _ => s end in
    Some (s, out)
  else if s_send_base s <? s_send_high s then
    if rto_due now (s_rto_start s) (s_rto s) then
      '(s, out) ← emit_range_checked s out (s_send_base s) (s_send_high s);
      Some (on_rto (set_rto_start (Some now) s), out)
    else Some (s, out)
  else Some (transmit_data s now out).

(** @ crates/transport/src/stream.rs:364-445 StreamState::transmit *)
Definition transmit_checked (s : StreamState) (now : Z) (out : list Frame) :
    option (StreamState * list Frame) :=
  if s_reset s then Some (s, out)
  else
    let '(s, out) := transmit_open s out in
    '(s, out) ← transmit_data_checked s now out;
    let '(s, out) := transmit_ack s out in
    Some (transmit_close s out).

(** ** Invariant

    [w] is everything the application wrote; [2^63] bounds it so that offsets
    do not wrap. *)
Record stream_wf (w : list Z) (s : StreamState) : Prop := {
  sw_len : zlen w < 2 ^ 63;
  sw_next : s_send_next s = zlen w;
  sw_base : 0 ≤ s_send_base s ≤ s_send_high s;
  sw_high : s_send_high s ≤ zlen w;
  sw_buf : s_send_buf s = drop (Z.to_nat (s_send_base s)) w;
  sw_window : is_u32 (s_peer_window s);
  sw_cwnd : MSS ≤ s_cwnd s ≤ MAX_CWND;
  sw_ssthresh : 2 * MSS ≤ s_ssthresh s ≤ MAX_CWND;
  sw_rto : MIN_RTO ≤ s_rto s ≤ MAX_RTO;
  sw_fin_acked : s_fin_acked s = true → s_fin_sent s = true;
  sw_fin_sent : s_fin_sent s = true → s_send_fin s = true;
}.

(** The invariant is about the send half: these fields decide it. *)
Definition same_send (s s' : StreamState) : Prop :=
  s_send_next s' = s_send_next s ∧ s_send_base s' = s_send_base s ∧
  s_send_high s' = s_send_high s ∧ s_send_buf s' = s_send_buf s ∧
  s_peer_window s' = s_peer_window s ∧ s_send_fin s' = s_send_fin s ∧
  s_fin_sent s' = s_fin_sent s ∧ s_fin_acked s' = s_fin_acked s.

Ltac stream_consts :=
  unfold MSS, MAX_STREAM_CHUNK, MAX_CWND, DEFAULT_WINDOW, INIT_CWND, INIT_RTO, MIN_RTO,
    MAX_RTO in *.

Lemma stream_new_wf id kind meta needs_open : stream_wf [] (stream_new id kind meta needs_open).
Proof. split; cbn; stream_consts; try done; lia_ints. Qed.

Lemma stream_write_wf w s data :
  stream_wf w s → zlen (w ++ data) < 2 ^ 63 → stream_wf (w ++ data) (stream_write s data).
Proof.
  intros Hwf Hlen. pose proof (sw_base _ _ Hwf). pose proof (sw_high _ _ Hwf).
  rewrite length_app in Hlen.
  split; cbn; rewrite ?length_app; try apply Hwf; try lia.
  - rewrite (sw_next _ _ Hwf), as_u64_id by (unfold is_u64; lia). lia.
  - rewrite (sw_buf _ _ Hwf), drop_app_le by lia. done.
Qed.

Lemma recompute_rto_bounds s :
  MIN_RTO ≤ s_rto (recompute_rto s) ≤ MAX_RTO ∧ recompute_rto s = set_rto (s_rto (recompute_rto s)) s.
Proof. unfold recompute_rto. cbn. stream_consts. split; [destruct (0 <? s_srtt s); lia|done]. Qed.

Lemma recompute_rto_wf w s : stream_wf w s → stream_wf w (recompute_rto s).
Proof.
  intros Hwf. destruct (recompute_rto_bounds s) as [Hb ->]. split; try apply Hwf. exact Hb.
Qed.

Lemma update_rtt_wf w s r : stream_wf w s → stream_wf w (update_rtt s r).
Proof.
  intros Hwf. unfold update_rtt. apply recompute_rto_wf.
  destruct (s_srtt s =? 0); split; apply Hwf.
Qed.

Lemma grow_cwnd_bounds s acked :
  MSS ≤ s_cwnd s ≤ MAX_CWND → 0 ≤ acked →
  s_cwnd s ≤ s_cwnd (grow_cwnd s acked) ≤ MAX_CWND ∧
  grow_cwnd s acked = set_cwnd (s_cwnd (grow_cwnd s acked)) s.
Proof.
  intros Hc Ha. split; [|done]. unfold grow_cwnd. cbn. stream_consts.
  destruct (s_cwnd s <? s_ssthresh s);
    match goal with |- context [as_u32 ?v] => pose proof (as_u32_range v) end; lia_ints.
Qed.

Lemma grow_cwnd_wf w s acked : 0 ≤ acked → stream_wf w s → stream_wf w (grow_cwnd s acked).
Proof.
  intros Ha Hwf. pose proof (sw_cwnd _ _ Hwf).
  destruct (grow_cwnd_bounds s acked) as [Hb ->]; [done..|].
  split; try apply Hwf. change (MSS ≤ s_cwnd (grow_cwnd s acked) ≤ MAX_CWND). lia.
Qed.

Lemma on_rto_wf w s : stream_wf w s → stream_wf w (on_rto s).
Proof.
  intros Hwf. pose proof (sw_cwnd _ _ Hwf). pose proof (sw_rto _ _ Hwf).
  split; try apply Hwf; cbn; stream_consts.
  - lia.
  - Z.div_mod_to_equations. lia.
  - lia_ints.
Qed.

(** What an in-range ack does to the send buffer. *)
Lemma ack_progress_spec w s ack now :
  stream_wf w s → ack ≤ zlen w →
  stream_wf w (ack_progress s ack now) ∧
  s_send_base (ack_progress s ack now) = Z.max (s_send_base s) ack ∧
  s_send_high (ack_progress s ack now) = Z.max (s_send_high s) ack ∧
  s_fin_acked (ack_progress s ack now) = s_fin_acked s.
Proof.
  intros Hwf Hack. pose proof (sw_base _ _ Hwf). pose proof (sw_high _ _ Hwf).
  pose proof (sw_len _ _ Hwf). unfold ack_progress.
  destruct (Z.ltb_spec (s_send_base s) ack); [|split_and!; [done|lia|lia|done]].
  assert (Z.min (ack - s_send_base s) (zlen (s_send_buf s)) = ack - s_send_base s) as ->.
  { rewrite (sw_buf _ _ Hwf), length_drop. lia. }
  cbn zeta. split_and!; [apply recompute_rto_wf| | |done].
  - set (s2 := set_send_high _ _).
    assert (stream_wf w s2) as Hwf2.
    { unfold s2. split; cbn; try apply Hwf.
      - rewrite as_u64_id by (unfold is_u64; lia). lia.
      - rewrite as_u64_id by (unfold is_u64; lia). lia.
      - rewrite as_u64_id, (sw_buf _ _ Hwf), drop_drop by (unfold is_u64; lia). f_equal. lia. }
    apply (grow_cwnd_wf _ _ (ack - s_send_base s)) in Hwf2; [|lia].
    split; apply Hwf2.
  - cbn. rewrite as_u64_id by (unfold is_u64; lia). lia.
  - cbn. rewrite as_u64_id by (unfold is_u64; lia). lia.
Qed.

Lemma ack_sample_spec w s ack now :
  stream_wf w s → stream_wf w (ack_sample s ack now) ∧ same_send s (ack_sample s ack now).
Proof.
  intros Hwf. unfold ack_sample. destruct (s_timed s) as [[seq sent]|]; [|by split].
  destruct (seq <=? ack); [|by split].
  set (r := as_u32 _). pose proof (update_rtt_wf w s r Hwf) as H. split; [split; apply H|].
  unfold update_rtt. by destruct (s_srtt s =? 0).
Qed.

Lemma ack_fin_wf w s ack : stream_wf w s → stream_wf w (ack_fin s ack).
Proof.
  intros Hwf. unfold ack_fin. destruct (s_send_fin s && s_fin_sent s && _) eqn:Hf; [|done].
  apply andb_true_iff in Hf as [[_ ?]%andb_true_iff _]. split; cbn; try apply Hwf. done.
Qed.

(** An ack the peer could not have meant (beyond what was written) is ignored;
    any other advances the send base to it, never back, and drops exactly the
    acked bytes from the buffer. *)
Lemma stream_on_ack_spec w s ack window now :
  stream_wf w s → is_u32 window →
  stream_wf w (stream_on_ack s ack window now) ∧
  if zlen w <? ack then stream_on_ack s ack window now = s
  else
    s_send_base (stream_on_ack s ack window now) = Z.max (s_send_base s) ack ∧
    s_send_high (stream_on_ack s ack window now) = Z.max (s_send_high s) ack ∧
    s_peer_window (stream_on_ack s ack window now) = window ∧
    s_fin_acked (stream_on_ack s ack window now) =
      (s_fin_acked s || (s_send_fin s && s_fin_sent s && (zlen w <=? ack))).
Proof.
  intros Hwf Hwin. unfold stream_on_ack. rewrite (sw_next _ _ Hwf).
  destruct (Z.ltb_spec (zlen w) ack) as [|Hle]; [by split|]. cbn zeta.
  assert (stream_wf w (set_peer_window window s)) as Hwf1 by (split; try apply Hwf; done).
  destruct (ack_progress_spec w _ ack now Hwf1 Hle) as (Hwf2 & Hb & Hh & Hf).
  destruct (ack_sample_spec w _ ack now Hwf2) as
    (Hwf3 & Hnext & Hb3 & Hh3 & _ & Hw3 & Hsf3 & Hfs3 & Hfa3).
  assert (∀ s, s_send_base (ack_fin s ack) = s_send_base s ∧
    s_send_high (ack_fin s ack) = s_send_high s ∧
    s_peer_window (ack_fin s ack) = s_peer_window s) as Hkeep
    by (intros s'; unfold ack_fin; by destruct (_ && _)).
  set (s3 := ack_sample _ _ _) in *. destruct (Hkeep s3) as (Hb4 & Hh4 & Hw4).
  assert (∀ s, s_peer_window (ack_progress s ack now) = s_peer_window s ∧
    s_send_fin (ack_progress s ack now) = s_send_fin s ∧
    s_fin_sent (ack_progress s ack now) = s_fin_sent s) as Hpk
    by (intros s'; unfold ack_progress; by destruct (_ <? _)).
  destruct (Hpk (set_peer_window window s)) as (Hw2 & Hsf2 & Hfs2).
  split_and!; [by apply ack_fin_wf|by rewrite Hb4, Hb3, Hb|by rewrite Hh4, Hh3, Hh|
    by rewrite Hw4, Hw3, Hw2|].
  assert (s_fin_acked (ack_fin s3 ack) =
    s_fin_acked s3 || (s_send_fin s3 && s_fin_sent s3 && (s_send_next s3 <=? ack))) as ->.
  { unfold ack_fin. destruct (s_send_fin s3 && s_fin_sent s3 && (s_send_next s3 <=? ack));
      cbn; [by rewrite orb_true_r|by rewrite orb_false_r]. }
  by rewrite Hfa3, Hf, Hsf3, Hsf2, Hfs3, Hfs2, (sw_next _ _ Hwf3).
Qed.

(** ** Emission *)

(** [chunks w s off to_ l]: the frames [l] cut bytes [[off, to_)] of the stream
    into consecutive non-empty pieces of at most [MAX_STREAM_CHUNK] bytes, with
    the FIN exactly on a piece that reaches the end of a closed stream. *)
Fixpoint chunks (w : list Z) (s : StreamState) (off to_ : Z) (l : list Frame) : Prop :=
  match l with
  | [] => off = to_
  | StreamData id o data fin :: l =>
    let e := off + zlen data in
    id = s_id s ∧ o = off ∧ 0 < zlen data ≤ MAX_STREAM_CHUNK ∧
    data = slice w (Z.to_nat off) (Z.to_nat e) ∧
    fin = (s_send_fin s && (e =? zlen w) && negb (s_fin_acked s)) ∧
    chunks w s e to_ l
  | _ => False
  end.

Lemma slice_drop {A} (l : list A) n a b :
  (n ≤ a ≤ b)%nat → slice (drop n l) (a - n) (b - n) = slice l a b.
Proof.
  intros. unfold slice. rewrite drop_drop. f_equal; [lia|f_equal; lia].
Qed.

(** Sending the FIN only sets [fin_sent]. *)
Definition mark_fin (b : bool) (s : StreamState) : StreamState :=
  if b then set_fin_sent true s else s.

Lemma mark_fin_twice a b s : mark_fin a (mark_fin b s) = mark_fin (a || b) s.
Proof. by destruct a, b. Qed.

Lemma mark_fin_wf w b s :
  stream_wf w s → (b = true → s_send_fin s = true) → stream_wf w (mark_fin b s).
Proof. intros Hwf Hb. destruct b; [|done]. split; try apply Hwf; cbn; auto. Qed.

Lemma mark_fin_proj b s :
  s_send_fin (mark_fin b s) = s_send_fin s ∧ s_fin_acked (mark_fin b s) = s_fin_acked s ∧
  s_send_buf (mark_fin b s) = s_send_buf s ∧ s_send_base (mark_fin b s) = s_send_base s ∧
  s_send_next (mark_fin b s) = s_send_next s ∧ s_id (mark_fin b s) = s_id s.
Proof. by destruct b. Qed.

Lemma chunks_mark_fin w b s off to_ l : chunks w (mark_fin b s) off to_ l ↔ chunks w s off to_ l.
Proof.
  destruct (mark_fin_proj b s) as (Hf & Ha & _ & _ & _ & Hi).
  revert off. induction l as [|[] l IH]; intros off0; cbn; try done.
  by rewrite Hf, Ha, Hi, IH.
Qed.

Lemma emit_loop_spec w fuel : ∀ s out off to_,
  zlen w < 2 ^ 63 → s_send_next s = zlen w → 0 ≤ s_send_base s →
  s_send_buf s = drop (Z.to_nat (s_send_base s)) w →
  s_send_base s ≤ off ≤ to_ → to_ ≤ zlen w → (Z.to_nat (to_ - off) ≤ fuel)%nat →
  ∃ l b,
    emit_loop fuel s out off to_ = Some (mark_fin b s, out ++ l) ∧
    chunks w s off to_ l ∧
    b = (s_send_fin s && (off <? to_) && (to_ =? zlen w) && negb (s_fin_acked s)).
Proof.
  induction fuel as [|fuel IH]; intros s out off to_ Hlen Hnext Hb0 Hbuf Hoff Hto Hfuel.
  { exists [], false. cbn. rewrite app_nil_r, (proj2 (Z.ltb_ge off to_)) by lia.
    split_and!; [done|lia|]. by rewrite andb_false_r. }
  cbn [emit_loop]. destruct (Z.ltb_spec off to_) as [Hlt|Hge].
  2:{ exists [], false. rewrite app_nil_r. split_and!; [done|cbn; lia|by rewrite andb_false_r]. }
  unfold MAX_STREAM_CHUNK. rewrite (as_u64_id (off + 1024)) by (unfold is_u64; lia).
  set (e := Z.min (off + 1024) to_).
  set (fin := s_send_fin s && (e =? s_send_next s) && negb (s_fin_acked s)).
  change (if fin then set_fin_sent true s else s) with (mark_fin fin s).
  destruct (mark_fin_proj fin s) as (Hsf & Hfa & Hsb & Hsbase & Hsn & Hid).
  rewrite Hsb, Hid, !as_u64_id by (unfold is_u64; lia).
  rewrite slice_checked_ok by (rewrite Hbuf, length_drop; lia). cbn [mbind option_bind].
  set (data := slice _ _ _).
  assert (data = slice w (Z.to_nat off) (Z.to_nat e)) as Hdata.
  { unfold data. rewrite Hbuf, <- (slice_drop w (Z.to_nat (s_send_base s))) by lia.
    f_equal; lia. }
  assert (zlen data = e - off) as Hl.
  { rewrite Hdata, length_slice by lia. lia. }
  destruct (IH (mark_fin fin s) (out ++ [StreamData (s_id s) off data fin]) e to_)
    as (l & b & He & Hc & Hbb); rewrite ?Hsn, ?Hsbase, ?Hsb; [done|done|done|done|lia|lia|lia|].
  exists (StreamData (s_id s) off data fin :: l), (b || fin).
  rewrite He, mark_fin_twice, <- (assoc_L (++)). split_and!; [done|..].
  - apply chunks_mark_fin in Hc. cbn [chunks]. rewrite Hl. unfold MAX_STREAM_CHUNK.
    replace (off + (e - off)) with e by lia. unfold fin. rewrite Hnext.
    split_and!; try done; lia.
  - rewrite Hbb, Hsf, Hfa. unfold fin. rewrite Hnext.
    destruct (s_send_fin s), (s_fin_acked s); cbn; rewrite ?andb_false_r, ?andb_true_r; try done.
    destruct (Z.ltb_spec e to_) as [Het|].
    + rewrite (proj2 (Z.eqb_neq e (zlen w))) by lia. by rewrite orb_false_r.
    + by replace e with to_ by lia.
Qed.

Lemma emit_range_spec w s out from to_ :
  stream_wf w s → s_send_base s ≤ from ≤ to_ → to_ ≤ zlen w →
  ∃ l b,
    emit_range s out from to_ = (mark_fin b s, out ++ l) ∧ chunks w s from to_ l ∧
    b = (s_send_fin s && (from <? to_) && (to_ =? zlen w) && negb (s_fin_acked s)).
Proof.
  intros Hwf ??. unfold emit_range, emit_range_checked.
  destruct (emit_loop_spec w (Z.to_nat (to_ - from)) s out from to_) as (l & b & -> & Hl);
    try apply Hwf; try done. by exists l, b.
Qed.

(** A frame of the stream [s], whose application wrote [w]. *)
Definition frame_of (w : list Z) (s : StreamState) (f : Frame) : Prop :=
  match f with
  | StreamData id off data fin =>
    id = s_id s ∧ 0 ≤ off ∧ zlen data ≤ MAX_STREAM_CHUNK ∧ off + zlen data ≤ zlen w ∧
    data = slice w (Z.to_nat off) (Z.to_nat (off + zlen data)) ∧
    (fin = true → s_send_fin s = true ∧ off + zlen data = zlen w)
  | StreamOpen id kind meta => id = s_id s ∧ kind = s_kind s ∧ meta = s_meta s
  | StreamAck id ack window =>
    id = s_id s ∧ ack = ack_point (s_recv s) ∧ 0 ≤ window ≤ DEFAULT_WINDOW
  | StreamClose id status => id = s_id s ∧ s_close_status s = Some status
  | _ => False
  end.

Lemma chunks_frames w s to_ l : ∀ off,
  0 ≤ off → to_ ≤ zlen w → chunks w s off to_ l → Forall (frame_of w s) l ∧ off ≤ to_.
Proof.
  induction l as [|[] l IH]; intros off Ho Hto; cbn; try done; [intros ->; split; [done|lia]|].
  intros (-> & -> & Hl & Hd & -> & Hc).
  destruct (IH (off + zlen data)) as [Hf Hle]; [lia|done|done|].
  split; [|lia]. constructor; [|done]. cbn. split_and!; try done; try lia.
  intros [[? ?%Z.eqb_eq]%andb_true_iff _]%andb_true_iff. done.
Qed.

(** Every byte of an emitted range is in one of its chunks. *)
Lemma chunks_cover w s to_ l : ∀ off o,
  chunks w s off to_ l → off ≤ o < to_ →
  ∃ id off' data fin, StreamData id off' data fin ∈ l ∧ off' ≤ o < off' + zlen data.
Proof.
  induction l as [|[] l IH]; intros off o; cbn; try done; [lia|].
  intros (-> & -> & Hl & Hd & -> & Hc) Ho.
  destruct (Z.lt_ge_cases o (off + zlen data)).
  - do 4 eexists. split; [by left|lia].
  - destruct (IH _ o Hc) as (? & ? & ? & ? & ? & ?); [lia|].
    do 4 eexists. split; [by right|done].
Qed.

(** ** Transmission *)

(** What [transmit] never touches. *)
Record keeps (s s' : StreamState) : Prop := {
  k_id : s_id s' = s_id s;
  k_kind : s_kind s' = s_kind s;
  k_meta : s_meta s' = s_meta s;
  k_buf : s_send_buf s' = s_send_buf s;
  k_base : s_send_base s' = s_send_base s;
  k_next : s_send_next s' = s_send_next s;
  k_window : s_peer_window s' = s_peer_window s;
  k_fin : s_send_fin s' = s_send_fin s;
  k_acked : s_fin_acked s' = s_fin_acked s;
  k_status : s_close_status s' = s_close_status s;
  k_recv : s_recv s' = s_recv s;
  k_peer_fin : s_peer_fin s' = s_peer_fin s;
  k_closed : s_close_received s' = s_close_received s;
  k_reset : s_reset s' = s_reset s;
}.

#[export] Instance keeps_preorder : PreOrder keeps.
Proof.
  split; [by split|]. intros s1 s2 s3 [] []. split; by etrans.
Qed.

Lemma keeps_frame_of w s s' f : keeps s s' → frame_of w s f → frame_of w s' f.
Proof. intros []. destruct f; cbn; congruence. Qed.

Lemma mark_fin_keeps b s : keeps s (mark_fin b s).
Proof. by destruct b. Qed.

(** The end of what may be in flight. *)
Definition flight_limit (w : list Z) (s : StreamState) : Z :=
  Z.min (zlen w) (s_send_base s + Z.min (s_peer_window s) (s_cwnd s)).

(** What one step of transmission promises. *)
Record transmits (w : list Z) (s s' : StreamState) (l : list Frame) : Prop := {
  t_keeps : keeps s s';
  t_wf : stream_wf w s';
  t_frames : Forall (frame_of w s) l;
  t_high : s_send_high s' = Z.max (s_send_high s) (flight_limit w s);
  t_flight : ∀ id off data fin, StreamData id off data fin ∈ l →
    s_send_base s ≤ off ∧ off + zlen data ≤ s_send_high s';
}.

Lemma chunks_within w s to_ l : ∀ off,
  chunks w s off to_ l → ∀ id o data fin, StreamData id o data fin ∈ l →
  off ≤ o ∧ o + zlen data ≤ to_.
Proof.
  induction l as [|f l IH]; intros off Hc id o data fin Hin; [by apply not_elem_of_nil in Hin|].
  assert (chunks w s off to_ (f :: l) → off ≤ to_) as Hle.
  { clear. revert off. generalize (f :: l). intros l'. induction l' as [|[] l' IH];
      intros off; cbn; try done; [lia|]. intros (_ & _ & ? & _ & _ & H%IH). lia. }
  pose proof (Hle Hc) as Hle'. destruct f; try done. destruct Hc as (-> & -> & ? & _ & _ & Hc).
  assert (off + zlen data0 ≤ to_).
  { revert Hc. clear. generalize (off + zlen data0). induction l as [|[] l' IH];
      intros off'; cbn; try done; [lia|]. intros (_ & _ & ? & _ & _ & H%IH). lia. }
  apply elem_of_cons in Hin as [[= -> -> -> ->]|Hin]; [lia|].
  destruct (IH _ Hc _ _ _ _ Hin). lia.
Qed.

(** Split on the FIN mark and on which timers are running. *)
Ltac timers b s :=
  destruct b; cbn; destruct (s_timed s); cbn; destruct (s_rto_start s); cbn.

Definition is_data (f : Frame) : Prop :=
  match f with StreamData _ _ _ _ => True | _ => False end.

Lemma chunks_data w s to_ l : ∀ off, chunks w s off to_ l → Forall is_data l.
Proof.
  induction l as [|[] l IH]; intros off; cbn; try done.
  intros (_ & _ & _ & _ & _ & ?%IH). by constructor.
Qed.

Lemma transmit_data_spec w s now out :
  stream_wf w s →
  ∃ l, (transmit_data s now out).2 = out ++ l ∧ transmits w s (transmit_data s now out).1 l ∧
    s_needs_open (transmit_data s now out).1 = s_needs_open s ∧
    Forall is_data l.
Proof.
  intros Hwf. pose proof (sw_base _ _ Hwf). pose proof (sw_high _ _ Hwf).
  pose proof (sw_len _ _ Hwf). pose proof (sw_window _ _ Hwf). pose proof (sw_cwnd _ _ Hwf).
  unfold transmit_data. rewrite (sw_next _ _ Hwf).
  rewrite as_u64_id by (stream_consts; unfold is_u32 in *; unfold is_u64; lia).
  fold (flight_limit w s).
  assert (s_send_base s ≤ flight_limit w s ≤ zlen w).
  { unfold flight_limit. stream_consts. unfold is_u32 in *. lia. }
  destruct (Z.ltb_spec (s_send_high s) (flight_limit w s)) as [Hnew|Hnew].
  - rewrite Z.max_l by lia.
    destruct (emit_range_spec w s out (s_send_high s) (flight_limit w s) Hwf)
      as (l & b & -> & Hc & Hb); [lia|lia|].
    assert (b = true → s_send_fin s = true) as Hbf by (destruct (s_send_fin s); naive_solver).
    pose proof (mark_fin_wf _ _ _ Hwf Hbf) as [].
    exists l. cbn [fst snd]. split_and!; [done| |by timers b s|by eapply chunks_data]. split.
    + timers b s; by split.
    + timers b s; split; cbn in *; try done; lia.
    + by eapply chunks_frames; [|..|exact Hc]; lia.
    + timers b s; lia.
    + intros id o data fin Hin. pose proof (chunks_within _ _ _ _ _ Hc _ _ _ _ Hin) as Hr.
      timers b s; lia.
  - assert (∀ s', keeps s s' → stream_wf w s' → s_send_high s' = s_send_high s →
      transmits w s s' []) as Hnone.
    { intros s' Hk Hwf' Hh. split; [done|done|done|lia|]. by intros ???? ?%not_elem_of_nil. }
    destruct (Z.ltb_spec (s_send_base s) (s_send_high s)) as [Hout|Hout].
    + destruct (rto_due _ _ _).
      2:{ exists []. rewrite app_nil_r. by split_and!; [|apply Hnone| |]. }
      destruct (emit_range_spec w s out (s_send_base s) (s_send_high s) Hwf)
        as (l & b & -> & Hc & Hb); [lia|lia|].
      exists l. cbn [fst snd].
      assert (b = true → s_send_fin s = true) as Hbf by (destruct (s_send_fin s); naive_solver).
      pose proof (mark_fin_wf _ _ _ Hwf Hbf) as Hwf'.
      split_and!; [done| |by destruct b|by eapply chunks_data]. split.
      * by destruct b.
      * apply on_rto_wf. split; apply Hwf'.
      * by eapply chunks_frames; [|..|exact Hc]; lia.
      * destruct b; cbn; lia.
      * intros id o data fin Hin. pose proof (chunks_within _ _ _ _ _ Hc _ _ _ _ Hin) as Hr.
        destruct b; cbn; lia.
    + destruct (s_send_fin s && negb (s_fin_acked s) && _) eqn:Hf.
      2:{ exists []. rewrite app_nil_r. by split_and!; [|apply Hnone| |]. }
      destruct (negb (s_fin_sent s) || _).
      2:{ exists []. rewrite app_nil_r. by split_and!; [|apply Hnone| |]. }
      apply andb_true_iff in Hf as [[Hsf _]%andb_true_iff Hn%Z.eqb_eq].
      exists [StreamData (s_id s) (zlen w) [] true].
      split_and!; [done| |done|by apply Forall_singleton]. cbn [fst].
      split; cbn.
      * by split.
      * split; try apply Hwf; cbn; auto.
      * apply Forall_singleton. cbn. stream_consts. unfold slice.
        rewrite drop_ge by lia. rewrite take_nil.
        split_and!; [done|lia|lia|lia|done|]. intros _. split; [done|lia].
      * lia.
      * intros ???? [= -> -> -> ->]%list_elem_of_singleton. cbn. lia.
Qed.

Lemma transmits_trans w s1 s2 s3 l1 l2 :
  transmits w s1 s2 l1 → keeps s2 s3 → stream_wf w s3 → s_send_high s3 = s_send_high s2 →
  Forall (frame_of w s1) l2 → (∀ id off data fin, StreamData id off data fin ∉ l2) →
  transmits w s1 s3 (l1 ++ l2).
Proof.
  intros [Hk Hwf Hf Hh Hin] Hk2 Hwf2 Hh2 Hf2 Hno. split.
  - by etrans.
  - done.
  - by apply Forall_app_2.
  - by rewrite Hh2.
  - intros id off data fin [Hi|Hi]%elem_of_app; [rewrite Hh2; by eapply Hin|by apply Hno in Hi].
Qed.

Lemma transmit_spec w s now out :
  stream_wf w s → reassembler_wf (s_recv s) → s_reset s = false →
  ∃ l, (transmit s now out).2 = out ++ l ∧
    transmits w s (transmit s now out).1 l ∧
    s_needs_open (transmit s now out).1 = false ∧
    (StreamOpen (s_id s) (s_kind s) (s_meta s) ∈ l ↔ s_needs_open s = true) ∧
    ∃ win, StreamAck (s_id s) (ack_point (s_recv s)) win ∈ l.
Proof.
  intros Hwf Hr Hreset. unfold transmit. rewrite Hreset.
  (* the open frame *)
  set (lo := if s_needs_open s then [StreamOpen (s_id s) (s_kind s) (s_meta s)] else []).
  assert (∃ s1, transmit_open s out = (s1, out ++ lo) ∧ keeps s s1 ∧ stream_wf w s1 ∧
    s_send_high s1 = s_send_high s ∧ s_needs_open s1 = false ∧
    flight_limit w s1 = flight_limit w s) as (s1 & -> & Hk1 & Hwf1 & Hh1 & Hn1 & Hfl).
  { unfold transmit_open, lo. destruct (s_needs_open s) eqn:Hn.
    - eexists. split_and!; [done|by split|split; apply Hwf|done..].
    - exists s. rewrite app_nil_r. by split_and!. }
  (* the data *)
  destruct (transmit_data_spec w s1 now (out ++ lo) Hwf1) as (ld & Hld & Htd & Hnd & Hdata).
  destruct (transmit_data s1 now (out ++ lo)) as [s2 out2]. cbn [fst snd] in *. subst out2.
  assert (transmits w s s2 (lo ++ ld)) as Ht2.
  { destruct Htd as [Hk2 Hwf2 Hf2 Hh2 Hi2]. split.
    - by etrans.
    - done.
    - apply Forall_app_2.
      + unfold lo. destruct (s_needs_open s); [|done]. by apply Forall_singleton.
      + eapply Forall_impl; [exact Hf2|]. intros f. destruct Hk1. destruct f; cbn; congruence.
    - by rewrite Hh2, Hh1, Hfl.
    - intros id off data fin [Hi|Hi]%elem_of_app.
      + unfold lo in Hi. destruct (s_needs_open s); [by apply list_elem_of_singleton in Hi|].
        by apply not_elem_of_nil in Hi.
      + destruct (Hi2 _ _ _ _ Hi). by rewrite (k_base _ _ Hk1) in *. }
  (* the window advertisement and the close *)
  cbn [transmit_ack]. set (s3 := set_recv_window _ s2).
  assert (∃ s4 lc, transmit_close s3 (((out ++ lo) ++ ld) ++ [StreamAck (s_id s3)
      (ack_point (s_recv s3)) (s_recv_window s3)]) =
      (s4, (((out ++ lo) ++ ld) ++ [StreamAck (s_id s3) (ack_point (s_recv s3))
        (s_recv_window s3)]) ++ lc) ∧
    keeps s3 s4 ∧ stream_wf w s4 ∧ s_send_high s4 = s_send_high s3 ∧
    s_needs_open s4 = s_needs_open s3 ∧
    (∀ f, f ∈ lc → ∃ st, f = StreamClose (s_id s3) st ∧ s_close_status s3 = Some st))
    as (s4 & lc & Heq & Hk4 & Hwf4 & Hh4 & Hn4 & Hlc).
  { assert (stream_wf w s3) as Hwf3 by (destruct (t_wf _ _ _ _ Ht2); by split).
    unfold transmit_close.
    destruct (_ && bool_decide (s_peer_fin s3 = HOpen));
    destruct (s_close_status s3) as [st|] eqn:Hst; [destruct (negb (s_fin_acked s3))| |
      destruct (negb (s_fin_acked s3))|];
    (eexists; first [exists [StreamClose (s_id s3) st]; split; [reflexivity|]
                    |exists []; split; [by rewrite app_nil_r|]];
     split_and!; [by split|destruct Hwf3; by split|done|done|
       try (intros f Hf; by apply not_elem_of_nil in Hf)]);
    intros f ->%list_elem_of_singleton; eauto. }
  rewrite Heq. cbn [fst snd].
  set (la := [StreamAck _ _ _]) in *.
  exists ((lo ++ ld) ++ (la ++ lc)). rewrite <- !(assoc_L (++)). split; [done|].
  assert (keeps s2 s4) as Hk24 by (etrans; [|exact Hk4]; by split).
  assert (keeps s s3) as Hk3 by (etrans; [apply (t_keeps _ _ _ _ Ht2)|by split]).
  split_and!.
  - rewrite (assoc_L (++)). apply (transmits_trans _ _ s2); try done.
    + apply Forall_app_2; [apply Forall_singleton|].
      * assert (0 ≤ s_recv_window s3 ≤ DEFAULT_WINDOW) as Hrw.
        { pose proof (ack_point_range _ Hr). cbn. unfold saturating_sub, unread.
          rewrite (k_recv _ _ (t_keeps _ _ _ _ Ht2)). stream_consts. lia. }
        cbn [frame_of]. rewrite (k_id _ _ Hk3), (k_recv _ _ Hk3).
        split; [done|split; [done|exact Hrw]].
      * apply Forall_forall. intros f (st & -> & Hst)%Hlc.
        cbn [frame_of]. by rewrite (k_id _ _ Hk3), <- (k_status _ _ Hk3).
    + intros id off data fin [Hi|Hi]%elem_of_app; [by apply list_elem_of_singleton in Hi|].
      by apply Hlc in Hi as (st & ? & _).
  - rewrite Hn4. change (s_needs_open s2 = false). congruence.
  - rewrite !elem_of_app. split.
    + intros [Hi|[Hi|[Hi|Hi]]].
      * unfold lo in Hi. destruct (s_needs_open s); [done|by apply not_elem_of_nil in Hi].
      * by apply (proj1 (Forall_forall _ _) Hdata) in Hi.
      * by apply list_elem_of_singleton in Hi.
      * by apply Hlc in Hi as (st & ? & _).
    + intros Hno. left. unfold lo. rewrite Hno. by left.
  - eexists. rewrite !elem_of_app. right. right. left. apply list_elem_of_singleton.
    by rewrite <- (k_id _ _ Hk3), <- (k_recv _ _ Hk3).
Qed.

(** [transmit] only appends to [out]. *)
Lemma emit_loop_app fuel : ∀ s out off to_,
  emit_loop fuel s out off to_ = prod_map id (app out) <$> emit_loop fuel s [] off to_.
Proof.
  induction fuel as [|fuel IH]; intros s out off to_; cbn [emit_loop];
    destruct (off <? to_); try done; try (cbn; by rewrite app_nil_r).
  destruct (slice_checked _ _ _); [|done]. cbn [mbind option_bind].
  rewrite IH, (IH _ ([] ++ _)). rewrite <- option_fmap_compose. apply option_fmap_ext.
  intros [s' l']. cbn. by rewrite <- (assoc_L (++)).
Qed.

Lemma emit_range_app s out off to_ :
  emit_range s out off to_ = ((emit_range s [] off to_).1, out ++ (emit_range s [] off to_).2).
Proof.
  unfold emit_range, emit_range_checked. rewrite emit_loop_app.
  destruct (emit_loop _ s [] _ _) as [[s' l]|]; [done|]. cbn. by rewrite app_nil_r.
Qed.

Lemma transmit_data_app s now out :
  transmit_data s now out =
    ((transmit_data s now []).1, out ++ (transmit_data s now []).2).
Proof.
  unfold transmit_data. destruct (s_send_high s <? _); [|destruct (_ <? _)].
  - rewrite emit_range_app. by destruct (emit_range s [] _ _).
  - destruct (rto_due _ _ _); [|cbn; by rewrite app_nil_r].
    rewrite emit_range_app. by destruct (emit_range s [] _ _).
  - destruct (_ && _); [|cbn; by rewrite app_nil_r].
    by destruct (_ || _); cbn; rewrite ?app_nil_r.
Qed.

Lemma transmit_app s now out :
  transmit s now out = ((transmit s now []).1, out ++ (transmit s now []).2).
Proof.
  unfold transmit. destruct (s_reset s); [cbn; by rewrite app_nil_r|].
  unfold transmit_open.
  destruct (s_needs_open s);
    rewrite transmit_data_app; rewrite (transmit_data_app _ _ ([] ++ _)) || idtac;
    destruct (transmit_data _ now []) as [s2 l2]; cbn [fst snd app];
    unfold transmit_ack, transmit_close; repeat case_match; cbn;
    rewrite <- ?(assoc_L (++)); done.
Qed.

(** The frames of one transmission are its data frames, after at most an open
    frame and before control frames. *)
Lemma transmit_shape s t :
  s_reset s = false →
  ∃ s1 lo lc,
    (transmit s t []).2 = lo ++ (transmit_data s1 t []).2 ++ lc ∧
    s1 = set_needs_open false s ∧
    (∀ f, f ∈ lo ++ lc → ¬ is_data f) ∧
    s_rto (transmit s t []).1 = s_rto (transmit_data s1 t []).1 ∧
    s_rto_start (transmit s t []).1 = s_rto_start (transmit_data s1 t []).1.
Proof.
  intros Hr. unfold transmit. rewrite Hr. exists (set_needs_open false s).
  set (lo := if s_needs_open s then [StreamOpen (s_id s) (s_kind s) (s_meta s)] else []).
  exists lo.
  assert (transmit_open s [] = (set_needs_open false s, lo)) as ->.
  { unfold transmit_open, lo. destruct s as [? ? ? []]; reflexivity. }
  rewrite transmit_data_app. destruct (transmit_data _ t []) as [s2 l2]. cbn [fst snd].
  unfold transmit_ack, transmit_close.
  destruct (s_close_status _); [destruct (negb _)|]; destruct (_ && _);
    cbn [fst snd]; rewrite <- ?(assoc_L (++)); (eexists; split; [reflexivity|]);
    (split; [done|]); (split; [|done]); intros f Hf; unfold lo in Hf;
    destruct (s_needs_open s); rewrite ?elem_of_app, ?elem_of_cons, ?elem_of_nil in Hf;
    naive_solver.
Qed.

(** ** Loss recovery *)

(** Hand the data frames of [l] to a receiver. *)
Definition deliver (l : list Frame) (r : Reassembler) : Reassembler :=
  foldl (λ r f, match f with StreamData _ off data _ => insert r off data | _ => r end) r l.

Lemma deliver_app l1 l2 r : deliver (l1 ++ l2) r = deliver l2 (deliver l1 r).
Proof. apply foldl_app. Qed.

Lemma deliver_no_data l r : (∀ f, f ∈ l → ¬ is_data f) → deliver l r = r.
Proof.
  induction l as [|f l IH]; [done|]. intros Hf. cbn.
  assert (¬ is_data f) by (apply Hf; by left).
  destruct f; try (apply IH; intros; apply Hf; by right). by exfalso.
Qed.

(** A range the sender emitted, delivered to a receiver that has everything
    below it, is acked to its end. *)
Lemma deliver_chunks w s to_ l : ∀ off r,
  zlen w < 2 ^ 63 → 0 ≤ off → to_ ≤ zlen w → holds w r → chunks w s off to_ l →
  off ≤ ack_point r → holds w (deliver l r) ∧ to_ ≤ ack_point (deliver l r).
Proof.
  induction l as [|[] l IH]; intros off r Hw Ho Hto Hr; cbn [chunks]; try done.
  { intros -> ?. split; [done|]. cbn. lia. }
  intros (-> & -> & Hl & Hd & -> & Hc) Hack.
  pose proof (chunks_frames w s to_ l (off + zlen data) ltac:(lia) Hto Hc) as [_ Hle].
  assert (piece w off data) as Hp.
  { eapply (piece_slice _ _ _ (Z.to_nat (off + zlen data) - Z.to_nat off)); [done|lia|exact Hd]. }
  pose proof (insert_holds _ _ _ _ Hr Hp) as Hr'. destruct Hp as (_ & Hlt & _).
  destruct (insert_ack_point r off data (holds_wf _ _ Hr) Ho Hlt) as [_ Ha].
  apply (IH (off + zlen data)); [done|lia|done|done|exact Hc|]. by apply Ha.
Qed.

(** ** Properties *)

(** Flow and congestion control: whatever a stream transmits is cut from what
    the application wrote, in pieces of at most one MTU chunk; it never goes
    past what was in flight before or the smaller of the peer's window and the
    congestion window, whichever is further; the FIN is only on the piece that
    ends a closed stream; and the invariant (window and timer bounds included)
    is kept. *)
Theorem transmit_respects_windows w s t :
  stream_wf w s → reassembler_wf (s_recv s) → s_reset s = false →
  let '(s', l) := transmit s t [] in
  stream_wf w s' ∧ s_send_base s' = s_send_base s ∧
  s_send_high s' = Z.max (s_send_high s)
    (Z.min (zlen w) (s_send_base s + Z.min (s_peer_window s) (s_cwnd s))) ∧
  ∀ id off data fin, StreamData id off data fin ∈ l →
    id = s_id s ∧ s_send_base s ≤ off ∧ off + zlen data ≤ s_send_high s' ∧
    zlen data ≤ MAX_STREAM_CHUNK ∧
    data = slice w (Z.to_nat off) (Z.to_nat (off + zlen data)) ∧
    (fin = true → s_send_fin s = true ∧ off + zlen data = zlen w).
Proof.
  intros Hw Hr Hreset. destruct (transmit_spec w s t [] Hw Hr Hreset) as (l & Hl & [] & _).
  destruct (transmit s t []) as [s' l']. cbn in *. subst l'.
  split_and!; [done|by destruct t_keeps0|done|].
  intros id off data fin Hin. destruct (t_flight0 _ _ _ _ Hin).
  pose proof (proj1 (Forall_forall _ _) t_frames0 _ Hin) as (? & ? & ? & ? & ? & ?).
  by split_and!.
Qed.

(** Acks: an ack beyond what was written changes nothing; any other ack moves
    the send base forward to it and never back, drops exactly the acked bytes,
    and adopts the advertised window; and the invariant is kept. *)
Theorem ack_advances_base w s ack window t :
  stream_wf w s → is_u32 window →
  let s' := stream_on_ack s ack window t in
  stream_wf w s' ∧
  s_send_buf s' = drop (Z.to_nat (s_send_base s')) w ∧
  if zlen w <? ack then s' = s
  else s_send_base s' = Z.max (s_send_base s) ack ∧ s_peer_window s' = window.
Proof.
  intros Hw Hwin. destruct (stream_on_ack_spec w s ack window t Hw Hwin) as [Hw' Hs].
  split_and!; [done|apply Hw'|]. destruct (zlen w <? ack); [done|].
  by destruct Hs as (? & _ & ? & _).
Qed.

(** Loss recovery: with data outstanding, no room for new data and the
    retransmission timer due — whatever frames were lost before — one delivered
    transmission and the ack it provokes acknowledge everything that was in
    flight. *)
Theorem retransmission_recovers w s r t window :
  stream_wf w s → holds w r → s_reset s = false →
  s_send_base s ≤ ack_point r →
  s_send_base s < s_send_high s →
  Z.min (zlen w) (s_send_base s + Z.min (s_peer_window s) (s_cwnd s)) ≤ s_send_high s →
  rto_due t (s_rto_start s) (s_rto s) = true → is_u32 window → reassembler_wf (s_recv s) →
  let '(s', l) := transmit s t [] in
  let r' := deliver l r in
  s_send_high s ≤ ack_point r' ∧ holds w r' ∧
  s_send_high s ≤ s_send_base (stream_on_ack s' (ack_point r') window t).
Proof.
  intros Hw Hr Hreset Hbase Hout Hfull Hdue Hwin Hrecv.
  pose proof (sw_base _ _ Hw). pose proof (sw_high _ _ Hw). pose proof (sw_len _ _ Hw).
  destruct (transmit_spec w s t [] Hw Hrecv Hreset) as (_ & _ & [Hk Hw' _ _ _] & _).
  destruct (transmit_shape s t Hreset) as (s1 & lo & lc & Hl & -> & Hno & _).
  set (s1 := set_needs_open false s) in *.
  assert (stream_wf w s1) as Hw1 by (destruct Hw; by split).
  destruct (emit_range_spec w s1 [] (s_send_base s) (s_send_high s) Hw1)
    as (l & b & He & Hc & _); [cbn; lia|lia|].
  assert ((transmit_data s1 t []).2 = l) as Hd.
  { unfold transmit_data. pose proof (sw_window _ _ Hw). pose proof (sw_cwnd _ _ Hw).
    change (s_send_next s1) with (s_send_next s). rewrite (sw_next _ _ Hw).
    change (s_send_base s1) with (s_send_base s). change (s_send_high s1) with (s_send_high s).
    change (s_peer_window s1) with (s_peer_window s). change (s_cwnd s1) with (s_cwnd s).
    rewrite as_u64_id by (stream_consts; unfold is_u32 in *; unfold is_u64; lia).
    rewrite (proj2 (Z.ltb_ge _ _)) by lia. rewrite (proj2 (Z.ltb_lt _ _)) by lia.
    change (s_rto_start s1) with (s_rto_start s). change (s_rto s1) with (s_rto s).
    by rewrite Hdue, He. }
  destruct (transmit s t []) as [s' l']. cbn [fst snd] in *. subst l'. rewrite Hd, !deliver_app.
  rewrite (deliver_no_data lo) by (intros f Hf; apply Hno, elem_of_app; by left).
  rewrite (deliver_no_data lc) by (intros f Hf; apply Hno, elem_of_app; by right).
  destruct (deliver_chunks w s1 (s_send_high s) l (s_send_base s) r) as [Hr' Ha]; try done; [lia|].
  split_and!; [done|done|]. pose proof (holds_ack_point _ _ Hr') as Hle.
  destruct (stream_on_ack_spec w s' (ack_point (deliver l r)) window t Hw' Hwin) as [_ Hs].
  rewrite (proj2 (Z.ltb_ge _ _)) in Hs by done. destruct Hs as (-> & _). lia.
Qed.

(** ** Freedom from panics

    Where it does not panic a step is the one above. *)

Lemma ack_progress_calm s ack now : ack_progress_checked s ack now = Some (ack_progress s ack now).
Proof.
  unfold ack_progress_checked, ack_progress. destruct (Z.ltb_spec (s_send_base s) ack); [|done].
  by rewrite slice_checked_ok by lia.
Qed.

Lemma stream_on_ack_calm s ack window now :
  stream_on_ack_checked s ack window now = Some (stream_on_ack s ack window now).
Proof.
  unfold stream_on_ack_checked, stream_on_ack. destruct (_ <? _); [done|]. by rewrite ack_progress_calm.
Qed.

Lemma transmit_data_agrees s now out r :
  transmit_data_checked s now out = Some r → transmit_data s now out = r.
Proof.
  unfold transmit_data_checked. destruct (s_send_high s <? _) eqn:Hnew; [|destruct (_ <? s_send_high s) eqn:Hout].
  - unfold transmit_data. rewrite Hnew. unfold emit_range.
    destruct (emit_range_checked _ _ _ _) as [[s' l]|]; [|done]. by intros [= <-].
  - unfold transmit_data. rewrite Hnew, Hout. destruct (rto_due _ _ _); [|by intros [= <-]].
    unfold emit_range. destruct (emit_range_checked _ _ _ _) as [[s' l]|]; [|done]. by intros [= <-].
  - by intros [= <-].
Qed.

Lemma transmit_agrees s now out r : transmit_checked s now out = Some r → transmit s now out = r.
Proof.
  unfold transmit_checked, transmit. destruct (s_reset s); [by intros [= <-]|].
  destruct (transmit_open s out) as [s1 out1].
  destruct (transmit_data_checked s1 now out1) as [[s2 out2]|] eqn:Hd; [|done].
  apply transmit_data_agrees in Hd. rewrite Hd. by intros [= <-].
Qed.

(** What keeps the slices of the send buffer in range, without reference to what the
    application wrote.  [short]: the stream is not about to run out of offsets. *)
Definition short (s : StreamState) : Prop := s_send_next s + MAX_STREAM_CHUNK < 2 ^ 64.

Record send_ok (s : StreamState) : Prop := {
  so_base : 0 ≤ s_send_base s ≤ s_send_high s;
  so_high : s_send_high s - s_send_base s ≤ zlen (s_send_buf s);
  so_next : 0 ≤ s_send_next s ∧ s_send_next s - s_send_base s ≤ zlen (s_send_buf s);
  so_bound : s_send_high s + MAX_STREAM_CHUNK < 2 ^ 64;
}.

(** [emit_range] only marks the FIN as sent. *)
Lemma emit_loop_shape fuel : ∀ s out off to_ r,
  emit_loop fuel s out off to_ = Some r → ∃ b l, r = (mark_fin b s, out ++ l).
Proof.
  induction fuel as [|fuel IH]; intros s out off to_ r; cbn [emit_loop]; destruct (off <? to_); try done;
    try (intros [= <-]; exists false, []; by rewrite app_nil_r).
  destruct (slice_checked _ _ _); [|done]. cbn [mbind option_bind].
  intros (b & l' & ->)%IH. match goal with |- context [if ?f then _ else s] => exists (b || f) end.
  eexists. by rewrite <- (assoc_L (++)), <- mark_fin_twice.
Qed.

Lemma emit_range_shape s out from to_ : ∃ b l, emit_range s out from to_ = (mark_fin b s, out ++ l).
Proof.
  unfold emit_range, emit_range_checked. destruct (emit_loop _ _ _ _ _) as [r|] eqn:He.
  - cbn. by apply emit_loop_shape in He.
  - exists false, []. cbn. by rewrite app_nil_r.
Qed.

Lemma emit_loop_calm fuel : ∀ s out off to_,
  0 ≤ s_send_base s ≤ off → to_ - s_send_base s ≤ zlen (s_send_buf s) →
  to_ + MAX_STREAM_CHUNK < 2 ^ 64 → (Z.to_nat (to_ - off) ≤ fuel)%nat →
  is_Some (emit_loop fuel s out off to_).
Proof.
  induction fuel as [|fuel IH]; intros s out off to_ Hb Hl Ht Hf; cbn [emit_loop];
    destruct (Z.ltb_spec off to_); try done; [lia|]. unfold MAX_STREAM_CHUNK in *.
  rewrite (as_u64_id (off + 1024)), !as_u64_id by (unfold is_u64; lia).
  match goal with |- context [if ?f then _ else s] => change (if f then set_fin_sent true s else s) with (mark_fin f s);
    destruct (mark_fin_proj f s) as (_ & _ & Hsb & Hsbase & _ & _) end.
  rewrite Hsb, slice_checked_ok by lia. cbn [mbind option_bind].
  apply IH; rewrite ?Hsbase, ?Hsb; lia.
Qed.

Lemma emit_range_calm s out from to_ :
  0 ≤ s_send_base s ≤ from → to_ - s_send_base s ≤ zlen (s_send_buf s) →
  to_ + MAX_STREAM_CHUNK < 2 ^ 64 → is_Some (emit_range_checked s out from to_).
Proof. intros. by apply emit_loop_calm. Qed.

Lemma transmit_calm s now out : send_ok s → short s → is_Some (transmit_checked s now out).
Proof.
  intros Hs Hshort. unfold transmit_checked. destruct (s_reset s); [done|].
  assert (send_ok (transmit_open s out).1 ∧ short (transmit_open s out).1) as [Hs1 Hsh1].
  { unfold transmit_open. destruct (s_needs_open s); [|done]. by destruct Hs. }
  destruct (transmit_open s out) as [s1 out1]. cbn [fst] in *. destruct Hs1. unfold short in Hsh1.
  assert (is_Some (transmit_data_checked s1 now out1)) as [[s2 out2] ->]; [|by eexists].
  unfold transmit_data_checked.
  set (e := Z.min (s_send_next s1) _). assert (e ≤ s_send_next s1) by lia.
  destruct (Z.ltb_spec (s_send_high s1) e).
  - destruct (emit_range_calm s1 out1 (Z.max (s_send_high s1) (s_send_base s1)) e) as [[s2 out2] ->];
      [lia..|by eexists].
  - destruct (_ <? _); [|done]. destruct (rto_due _ _ _); [|done].
    destruct (emit_range_calm s1 out1 (s_send_base s1) (s_send_high s1)) as [[s2 out2] ->]; [lia..|by eexists].
Qed.

(** Every operation keeps the ranges. *)
Lemma stream_new_send id kind meta needs_open : send_ok (stream_new id kind meta needs_open).
Proof. split; cbn; stream_consts; lia_ints. Qed.

Lemma stream_write_send s data : send_ok s → send_ok (stream_write s data).
Proof.
  intros []. unfold stream_write. split; cbn; rewrite ?length_app; try lia.
  pose proof (as_u64_range (s_send_next s + zlen data)) as [Hu _].
  assert (as_u64 (s_send_next s + zlen data) ≤ s_send_next s + zlen data) by (apply Z.mod_le; [lia|by cbv]).
  lia.
Qed.

(** The fields that decide it. *)
Lemma send_ok_same s s' :
  s_send_base s' = s_send_base s → s_send_high s' = s_send_high s → s_send_buf s' = s_send_buf s →
  s_send_next s' = s_send_next s → send_ok s → send_ok s'.
Proof. intros Hb Hh Hf Hn []. split; by rewrite ?Hb, ?Hh, ?Hf, ?Hn. Qed.

Lemma stream_on_ack_send s ack window now :
  send_ok s → short s →
  send_ok (stream_on_ack s ack window now) ∧ s_send_next (stream_on_ack s ack window now) = s_send_next s.
Proof.
  intros Hs Hsh. unfold stream_on_ack. destruct (Z.ltb_spec (s_send_next s) ack) as [|Hack]; [done|].
  set (s1 := set_peer_window window s).
  assert (send_ok (ack_progress s1 ack now) ∧ s_send_next (ack_progress s1 ack now) = s_send_next s) as [Hp Hpn].
  { unfold ack_progress. change (s_send_base s1) with (s_send_base s).
    change (s_send_buf s1) with (s_send_buf s). destruct (Z.ltb_spec (s_send_base s) ack); [|by destruct Hs].
    destruct Hs. unfold short in Hsh. set (adv := Z.min _ _).
    assert (as_u64 (s_send_base s + adv) = s_send_base s + adv) as Hb
      by (apply as_u64_id; unfold MAX_STREAM_CHUNK in *; unfold is_u64; lia).
    split; [|done]. split; cbn; change (s_send_base s1) with (s_send_base s);
      change (s_send_high s1) with (s_send_high s); change (s_send_next s1) with (s_send_next s);
      rewrite ?Hb, ?length_drop; lia. }
  set (s2 := ack_progress s1 ack now) in *.
  assert (send_ok (ack_sample s2 ack now) ∧ s_send_next (ack_sample s2 ack now) = s_send_next s) as [Ha Han].
  { unfold ack_sample. destruct (s_timed s2) as [[q sent]|]; [|done]. destruct (q <=? ack); [|done].
    unfold update_rtt. destruct (_ =? 0); (split; [by apply (send_ok_same s2)|done]). }
  unfold ack_fin. destruct (_ && _ && _); [|done]. split; [by apply (send_ok_same (ack_sample s2 ack now))|done].
Qed.

Lemma transmit_send s now out :
  send_ok s → short s →
  send_ok (transmit s now out).1 ∧ s_send_next (transmit s now out).1 = s_send_next s.
Proof.
  intros Hs Hsh. unfold transmit. destruct (s_reset s); [done|].
  assert (send_ok (transmit_open s out).1 ∧ s_send_next (transmit_open s out).1 = s_send_next s) as [Hs1 Hn1].
  { unfold transmit_open. destruct (s_needs_open s); [|done]. split; [by apply (send_ok_same s)|done]. }
  destruct (transmit_open s out) as [s1 out1]. cbn [fst] in *.
  assert (send_ok (transmit_data s1 now out1).1 ∧
    s_send_next (transmit_data s1 now out1).1 = s_send_next s) as [Hs2 Hn2].
  { unfold short in Hsh. rewrite <- Hn1 in *. unfold transmit_data. set (e := Z.min (s_send_next s1) _).
    destruct (Z.ltb_spec (s_send_high s1) e).
    - destruct (emit_range_shape s1 out1 (Z.max (s_send_high s1) (s_send_base s1)) e) as (b & l & ->).
      destruct Hs1. timers b s1; (split; [split; cbn; lia|done]).
    - destruct (_ <? _).
      + destruct (rto_due _ _ _); [|done].
        destruct (emit_range_shape s1 out1 (s_send_base s1) (s_send_high s1)) as (b & l & ->).
        split; [apply (send_ok_same s1); by destruct b|by destruct b].
      + destruct (_ && _ && _); [|done]. destruct (_ || _); [|done].
        split; [by apply (send_ok_same s1)|done]. }
  destruct (transmit_data s1 now out1) as [s2 out2]. cbn [fst] in *.
  cbn [transmit_ack]. unfold transmit_close.
  destruct (_ && _ && _); cbn [fst]; (split; [by apply (send_ok_same s2)|done]).
Qed.

(** ** Witnesses *)

(** A stream that wrote three bytes and sent them. *)
Definition sample_sent : StreamState :=
  (transmit (stream_write (stream_new 0 Forward [49] true) [7; 8; 9]) 1 []).1.

Lemma sample_sent_wf : stream_wf [7; 8; 9] sample_sent.
Proof.
  assert (stream_wf [7; 8; 9] (stream_write (stream_new 0 Forward [49] true) [7; 8; 9])) as Hw
    by (apply (stream_write_wf []); [apply stream_new_wf|cbn; lia]).
  by destruct (transmit_spec _ _ 1 [] Hw reassembler_new_wf eq_refl) as (l & _ & [] & _).
Defined.

Lemma transmit_respects_windows_witness :
  s_send_high (transmit sample_sent 100 []).1 = 3 ∧
  stream_wf [7; 8; 9] (transmit sample_sent 100 []).1.
Proof.
  pose proof (transmit_respects_windows [7; 8; 9] sample_sent 100 sample_sent_wf
    reassembler_new_wf eq_refl) as H.
  destruct (transmit sample_sent 100 []) as [s' l].
  destruct H as (H & _ & Hh & _). cbn [fst]. split; [rewrite Hh; reflexivity|exact H].
Defined.

Lemma ack_advances_base_witness :
  s_send_base (stream_on_ack sample_sent 2 500 4) = 2 ∧
  s_send_buf (stream_on_ack sample_sent 2 500 4) = [9].
Proof.
  pose proof (ack_advances_base [7; 8; 9] sample_sent 2 500 4 sample_sent_wf
    ltac:(lia_ints)) as (_ & Hbuf & Hbase).
  cbn [Z.ltb Z.compare] in Hbase. destruct Hbase as [Hbase _].
  split; [exact Hbase|]. rewrite Hbuf, Hbase. reflexivity.
Defined.

(** The three bytes were lost; at tick 100 the timer is long due. *)
Lemma retransmission_recovers_witness :
  3 ≤ s_send_base (stream_on_ack (transmit sample_sent 100 []).1
    (ack_point (deliver (transmit sample_sent 100 []).2 reassembler_new)) 500 100).
Proof.
  pose proof (retransmission_recovers [7; 8; 9] sample_sent reassembler_new 100 500
    sample_sent_wf (holds_new _) eq_refl ltac:(vm_compute; congruence) ltac:(reflexivity)
    ltac:(vm_compute; congruence) eq_refl ltac:(lia_ints) reassembler_new_wf) as H.
  destruct (transmit sample_sent 100 []) as [s' l]. exact (proj2 (proj2 H)).
Defined.
