(* ===== verification/Mux.v ===== *)
(** * The stream multiplexer ([crates/transport/src/stream.rs], [StreamMux])

    Its operations, the local steps of its owner, and the invariant of one
    multiplexer. Two of them over a network are in [StreamNet]. *)

From stdpp Require Import gmap sorting relations.
From S2P Require Import Prelude Wire Reassembler Stream.

(** @ crates/transport/src/stream.rs:19-21 MAX_STREAMS *)
Definition MAX_STREAMS : nat := 1024.

(** @ crates/transport/src/stream.rs:45-63 StreamEvent *)
Inductive StreamEvent :=
| EvOpened (id : Z) (kind : StreamKind) (meta : list Z)
| EvReadable (id : Z)
| EvClosed (id : Z) (status : Z)
| EvReset (id : Z).

(** @ crates/transport/src/stream.rs:448-461 StreamMux *)
Record StreamMux := mkStreamMux {
  next_local_id : Z;
  id_step : Z;
  local_parity : Z;
  streams : gmap Z StreamState;
  events : list StreamEvent;
  now : Z;
}.

Definition set_streams (v : gmap Z StreamState) (m : StreamMux) : StreamMux :=
  mkStreamMux (next_local_id m) (id_step m) (local_parity m) v (events m) (now m).
Definition push_event (e : StreamEvent) (m : StreamMux) : StreamMux :=
  mkStreamMux (next_local_id m) (id_step m) (local_parity m) (streams m)
    (events m ++ [e]) (now m).

(** Run [f] on stream [id] where it exists ([streams.get_mut(&id)]). *)
Definition with_stream (m : StreamMux) (id : Z) (f : StreamState → StreamState) : StreamMux :=
  match streams m !! id with
  | Some s => set_streams (<[id := f s]> (streams m)) m
  | None => m
  end.

(** @ crates/transport/src/stream.rs:467-477 StreamMux::new *)
Definition mux_new (is_client : bool) : StreamMux := {|
  next_local_id := if is_client then 0 else 1;
  id_step := 2;
  local_parity := if is_client then 0 else 1;
  streams := ∅;
  events := [];
  now := 0;
|}.

(** @ crates/transport/src/stream.rs:479-486 StreamMux::open *)
Definition mux_open (m : StreamMux) (kind : StreamKind) (meta : list Z) : Z * StreamMux :=
  let id := next_local_id m in
  (id, {| next_local_id := as_u64 (next_local_id m + id_step m);
          id_step := id_step m; local_parity := local_parity m;
          streams := <[id := stream_new id kind meta true]> (streams m);
          events := events m; now := now m |}).

(** @ crates/transport/src/stream.rs:488-493 StreamMux::write *)
Definition mux_write (m : StreamMux) (id : Z) (data : list Z) : StreamMux :=
  with_stream m id (λ s, stream_write s data).

(** @ crates/transport/src/stream.rs:495-501 StreamMux::close *)
Definition mux_close (m : StreamMux) (id status : Z) : StreamMux :=
  with_stream m id (λ s, set_close_status (Some status) (set_send_fin true s)).

(** @ crates/transport/src/stream.rs:503-508 StreamMux::reset *)
Definition mux_reset (m : StreamMux) (id : Z) : StreamMux :=
  with_stream m id (set_reset true).

(** @ crates/transport/src/stream.rs:510-516 StreamMux::read *)
Definition mux_read (m : StreamMux) (id : Z) : list Z * StreamMux :=
  match streams m !! id with
  | Some s =>
    let '(d, r) := read (s_recv s) in
    (d, set_streams (<[id := set_recv r s]> (streams m)) m)
  | None => ([], m)
  end.

(** @ crates/transport/src/stream.rs:518-527 StreamMux::is_recv_finished *)
Definition is_recv_finished (m : StreamMux) (id : Z) : bool :=
  match streams m !! id with
  | Some s => recv_finished s
  | None => true
  end.

(** @ crates/transport/src/stream.rs:529-532 StreamMux::take_events *)
Definition take_events (m : StreamMux) : list StreamEvent * StreamMux :=
  (events m, mkStreamMux (next_local_id m) (id_step m) (local_parity m) (streams m) [] (now m)).

(** The [StreamData] arm of [on_frame] on an existing stream: the new state and
    whether bytes became readable; [None] when the frame is dropped. *)
Definition accept_data (s : StreamState) (offset : Z) (data : list Z) (fin : bool) :
    option (StreamState * bool) :=
  endp ← checked_add_u64 offset (zlen data);
  if saturating_add_u64 (r_delivered (s_recv s)) DEFAULT_WINDOW <? offset then None
  else
    let had := ack_point (s_recv s) in
    let s :=
      if fin && bool_decide (s_peer_fin s = HOpen) then set_peer_fin (HFinished endp) s
      else s in
    let s := set_recv (insert (s_recv s) offset data) s in
    Some (s, had <? ack_point (s_recv s)).

(** @ crates/transport/src/stream.rs:534-604 StreamMux::on_frame *)
Definition on_frame (m : StreamMux) (frame : Frame) : StreamMux :=
  match frame with
  | StreamOpen id kind meta =>
    if (id mod 2 =? local_parity m) || (MAX_STREAMS <=? size (streams m))%nat then m
    else
      match streams m !! id with
      | Some _ => m
      | None =>
        push_event (EvOpened id kind meta)
          (set_streams (<[id := stream_new id kind meta false]> (streams m)) m)
      end
  | StreamData id offset data fin =>
    match streams m !! id with
    | Some s =>
      match accept_data s offset data fin with
      | None => m
      | Some (s, readable) =>
        let m := set_streams (<[id := s]> (streams m)) m in
        if readable then push_event (EvReadable id) m else m
      end
    | None => m
    end
  | StreamAck id ack window =>
    with_stream m id (λ s, stream_on_ack s ack window (now m))
  | StreamClose id status =>
    match streams m !! id with
    | Some s =>
      if negb (s_close_received s) then
        push_event (EvClosed id status)
          (set_streams (<[id := set_close_received true s]> (streams m)) m)
      else m
    | None => m
    end
  | StreamReset id =>
    match streams m !! id with
    | Some s =>
      push_event (EvReset id) (set_streams (<[id := set_reset true s]> (streams m)) m)
    | None => m
    end
  | _ => m
  end.

(** The ids in the map's order. *)
Definition stream_ids (m : gmap Z StreamState) : list Z := merge_sort Z.le (map_to_list m).*1.

(** One round of the [for (id, s) in self.streams.iter_mut()] loop. *)
Definition poll_step (now : Z) (acc : gmap Z StreamState * list Frame * list Z) (id : Z) :
    gmap Z StreamState * list Frame * list Z :=
  let '(streams, out, retire_ids) := acc in
  match streams !! id with
  | None => acc
  | Some s =>
    if s_reset s then (streams, out ++ [StreamReset id], retire_ids ++ [id])
    else
      let '(s, out) := transmit s now out in
      (<[id := s]> streams, out, if fully_done s then retire_ids ++ [id] else retire_ids)
  end.

(** @ crates/transport/src/stream.rs:606-628 StreamMux::poll_transmit *)
Definition poll_transmit (m : StreamMux) : list Frame * StreamMux :=
  let now := as_u64 (now m + 1) in
  let '(streams', out, retire_ids) :=
    foldl (poll_step now) (streams m, [], []) (stream_ids (streams m)) in
  (out, {| next_local_id := next_local_id m; id_step := id_step m;
           local_parity := local_parity m;
           streams := foldl (λ m id, delete id m) streams' retire_ids;
           events := events m; now := now |}).

(** *** The same, with their panics

    The [StreamData] arm of [on_frame] on an existing stream. *)
Definition accept_data_checked (s : StreamState) (offset : Z) (data : list Z) (fin : bool) :
    option (option (StreamState * bool)) :=
  match checked_add_u64 offset (zlen data) with
  | None => Some None
  | Some endp =>
    if saturating_add_u64 (r_delivered (s_recv s)) DEFAULT_WINDOW <? offset then Some None
    else
      let had := ack_point (s_recv s) in
      let s :=
        if fin && bool_decide (s_peer_fin s = HOpen) then set_peer_fin (HFinished endp) s
        else s in
      recv ← insert_checked (s_recv s) offset data;
      let s := set_recv recv s in
      Some (Some (s, had <? ack_point (s_recv s)))
  end.

(** The arms for data and for acks copy and drain buffers; the others cannot panic.
    @ crates/transport/src/stream.rs:534-604 StreamMux::on_frame *)
Definition on_frame_checked (m : StreamMux) (frame : Frame) : option StreamMux :=
  match frame with
  | StreamData id offset data fin =>
    match streams m !! id with
    | Some s =>
      accepted ← accept_data_checked s offset data fin;
      Some
        match accepted with
        | None => m
        | Some (s, readable) =>
          let m := set_streams (<[id := s]> (streams m)) m in
          if (readable : bool) then push_event (EvReadable id) m else m
        end
    | None => Some m
    end
  | StreamAck id ack window =>
    match streams m !! id with
    | Some s =>
      s ← stream_on_ack_checked s ack window (now m);
      Some (set_streams (<[id := s]> (streams m)) m)
    | None => Some m
    end
  | f => Some (on_frame m f)
  end.

Definition poll_step_checked (now : Z) (id : Z) (acc : gmap Z StreamState * list Frame * list Z) :
    option (gmap Z StreamState * list Frame * list Z) :=
  let '(streams, out, retire_ids) := acc in
  match streams !! id with
  | None => Some acc
  | Some s =>
    if s_reset s then Some (streams, out ++ [StreamReset id], retire_ids ++ [id])
    else
      '(s, out) ← transmit_checked s now out;
      Some (<[id := s]> streams, out, if fully_done s then retire_ids ++ [id] else retire_ids)
  end.

(** @ crates/transport/src/stream.rs:606-628 StreamMux::poll_transmit *)
Definition poll_transmit_checked (m : StreamMux) : option (list Frame * StreamMux) :=
  let now := as_u64 (now m + 1) in
  '(streams', out, retire_ids) ←
    for_each (stream_ids (streams m)) (poll_step_checked now) (streams m, [], []);
  Some (out, {| next_local_id := next_local_id m; id_step := id_step m;
           local_parity := local_parity m;
           streams := foldl (λ m id, delete id m) streams' retire_ids;
           events := events m; now := now |}).

(** @ crates/transport/src/stream.rs:630-634 StreamMux::has_traffic *)
Definition has_traffic (m : StreamMux) : bool := negb (bool_decide (streams m = ∅)).

(** @ crates/transport/src/stream.rs:636-642 StreamMux::in_flight *)
Definition in_flight (m : StreamMux) (id : Z) : Z :=
  match streams m !! id with Some s => zlen (s_send_buf s) | None => 0 end.

(** @ crates/transport/src/stream.rs:644-648 StreamMux::recv_buffered *)
Definition recv_buffered (m : StreamMux) (id : Z) : Z :=
  match streams m !! id with Some s => unread (s_recv s) | None => 0 end.

(** ** Ghost state and local steps *)

(** Whether [on_frame] opens a stream, and for a per-stream record of bytes, the
    record that stream starts with. *)
Definition opens (m : StreamMux) (f : Frame) (id : Z) : bool :=
  match f with
  | StreamOpen id' _ _ =>
    bool_decide (id' = id) && negb (id mod 2 =? local_parity m) &&
    (size (streams m) <? MAX_STREAMS)%nat && bool_decide (streams m !! id = None)
  | _ => false
  end.

Definition on_open (m : StreamMux) (f : Frame) (g : gmap Z (list Z)) : gmap Z (list Z) :=
  match f with
  | StreamOpen id _ _ => if opens m f id then <[id := []]> g else g
  | _ => g
  end.

(** What the owner of a multiplexer does with it, with [w] the bytes written on
    each stream and the frames it emits. An application that closed a stream
    does not write on it again, and ids and offsets do not run out. *)
Inductive local_step (w : gmap Z (list Z)) (m : StreamMux) :
    gmap Z (list Z) → StreamMux → list Frame → Prop :=
| ls_open kind meta :
    next_local_id m < 2 ^ 64 - 2 →
    local_step w m (<[(mux_open m kind meta).1 := []]> w) (mux_open m kind meta).2 []
| ls_write id s data :
    streams m !! id = Some s → s_send_fin s = false → zlen (w !!! id ++ data) < 2 ^ 63 →
    local_step w m (<[id := w !!! id ++ data]> w) (mux_write m id data) []
| ls_close id status : local_step w m w (mux_close m id status) []
| ls_reset id : local_step w m w (mux_reset m id) []
| ls_take : local_step w m w (take_events m).2 []
| ls_poll : local_step w m w (poll_transmit m).2 (poll_transmit m).1.

(** ** One multiplexer *)

Record mux_wf (w : gmap Z (list Z)) (m : StreamMux) : Prop := {
  mw_step : id_step m = 2;
  mw_parity : next_local_id m mod 2 = local_parity m;
  mw_next : is_u64 (next_local_id m);
  mw_stream id s : streams m !! id = Some s →
    s_id s = id ∧ stream_wf (w !!! id) s ∧ reassembler_wf (s_recv s);
}.

Lemma mux_new_wf b : mux_wf ∅ (mux_new b).
Proof. split; [done|by destruct b|destruct b; cbn; lia_ints|done]. Qed.

(** The effect of a change to one stream. *)
Lemma with_stream_lookup m id f k :
  streams (with_stream m id f) !! k =
    if bool_decide (k = id) then f <$> streams m !! id else streams m !! k.
Proof.
  unfold with_stream. destruct (streams m !! id) as [s|] eqn:Hs; cbn.
  - case_bool_decide as Hk; [subst; by rewrite lookup_insert_eq|by rewrite lookup_insert_ne].
  - case_bool_decide; [by subst|done].
Qed.

Lemma with_stream_same m id f :
  next_local_id (with_stream m id f) = next_local_id m ∧
  id_step (with_stream m id f) = id_step m ∧
  local_parity (with_stream m id f) = local_parity m ∧ now (with_stream m id f) = now m.
Proof. unfold with_stream. by destruct (streams m !! id). Qed.

Lemma mux_wf_update w w' m m' id :
  mux_wf w m → id_step m' = id_step m → local_parity m' = local_parity m →
  next_local_id m' = next_local_id m →
  (∀ k, k ≠ id → w' !!! k = w !!! k) →
  (∀ k s, k ≠ id → streams m' !! k = Some s → streams m !! k = Some s) →
  (∀ s, streams m' !! id = Some s →
    s_id s = id ∧ stream_wf (w' !!! id) s ∧ reassembler_wf (s_recv s)) →
  mux_wf w' m'.
Proof.
  intros [] Hs Hp Hn Hw Hother Hid. split; [congruence..|by rewrite Hn|].
  intros k s Hk. destruct (decide (k = id)) as [->|]; [by apply Hid|].
  rewrite Hw by done. eauto.
Qed.

Lemma with_stream_wf w w' m id f :
  mux_wf w m → (∀ k, k ≠ id → w' !!! k = w !!! k) →
  (∀ s, streams m !! id = Some s → s_id (f s) = s_id s ∧
    stream_wf (w' !!! id) (f s) ∧ reassembler_wf (s_recv (f s))) →
  mux_wf w' (with_stream m id f).
Proof.
  intros Hwf Hw Hf. destruct (with_stream_same m id f) as (Hn & Hs & Hp & _).
  apply (mux_wf_update w _ m _ id); try done.
  - intros k s Hk. by rewrite with_stream_lookup, bool_decide_eq_false_2.
  - intros s. rewrite with_stream_lookup, bool_decide_eq_true_2 by done.
    intros (s0 & Hs0 & ->)%fmap_Some. destruct (Hf s0 Hs0) as (Hi & ?).
    split; [|done]. rewrite Hi. by apply (mw_stream _ _ Hwf).
Qed.

(** ** Polling *)

Lemma elem_of_stream_ids m id : id ∈ stream_ids m ↔ is_Some (m !! id).
Proof.
  unfold stream_ids. rewrite merge_sort_Permutation, list_elem_of_fmap. split.
  - intros ([k s] & -> & Hk%elem_of_map_to_list). by exists s.
  - intros [s Hs]. exists (id, s). split; [done|]. by apply elem_of_map_to_list.
Qed.

Lemma NoDup_stream_ids m : NoDup (stream_ids m).
Proof. unfold stream_ids. rewrite merge_sort_Permutation. apply NoDup_fst_map_to_list. Qed.

(** What a round does to one stream: its frames, and its state unless it is
    retired. *)
Definition polled (now : Z) (id : Z) (s : StreamState) : list Frame * option StreamState :=
  if s_reset s then ([StreamReset id], None)
  else
    let '(s', l) := transmit s now [] in
    (l, if fully_done s' then None else Some s').

Lemma poll_loop_spec now ids : ∀ (m0 : gmap Z StreamState) out retire,
  NoDup ids → (∀ id, id ∈ ids → is_Some (m0 !! id)) → (∀ id, id ∈ retire → id ∉ ids) →
  let '(m1, out1, retire1) := foldl (poll_step now) (m0, out, retire) ids in
  (∀ f, f ∈ out1 ↔ f ∈ out ∨
    ∃ id s, id ∈ ids ∧ m0 !! id = Some s ∧ f ∈ (polled now id s).1) ∧
  (∀ id, foldl (λ m id, delete id m) m1 retire1 !! id =
    if bool_decide (id ∈ ids) then m0 !! id ≫= λ s, (polled now id s).2
    else if bool_decide (id ∈ retire) then None else m0 !! id).
Proof.
  assert (∀ l (m : gmap Z StreamState) id, foldl (λ m id, delete id m) m l !! id =
    if bool_decide (id ∈ l) then None else m !! id) as Hdel.
  { induction l as [|k l IH]; intros m id; cbn; [done|]. rewrite IH.
    destruct (decide (id = k)) as [->|].
    - rewrite (bool_decide_eq_true_2 (k ∈ k :: l)) by by left.
      case_bool_decide; [done|]. apply lookup_delete_eq.
    - rewrite lookup_delete_ne by done. erewrite (bool_decide_ext (id ∈ k :: l)); [done|].
      rewrite elem_of_cons. naive_solver. }
  induction ids as [|k ids IH]; intros m0 out retire Hnd Hin Hret; cbn.
  { split; [|by intros id; rewrite Hdel]. intros f. split; [by left|].
    by intros [?|(? & ? & ?%not_elem_of_nil & _)]. }
  apply NoDup_cons in Hnd as [Hk Hnd].
  destruct (Hin k ltac:(by left)) as [s Hs]. rewrite Hs.
  set (m1 := if s_reset s then m0 else <[k := (transmit s now []).1]> m0).
  set (r1 := if s_reset s then retire ++ [k] else
    if fully_done (transmit s now []).1 then retire ++ [k] else retire).
  assert ((if s_reset s then (m0, out ++ [StreamReset k], retire ++ [k])
    else let '(s', out') := transmit s now out in
      (<[k := s']> m0, out', if fully_done s' then retire ++ [k] else retire)) =
    (m1, out ++ (polled now k s).1, r1)) as ->.
  { unfold m1, r1, polled. destruct (s_reset s); [done|]. rewrite transmit_app.
    by destruct (transmit s now []). }
  assert (∀ id, id ≠ k → m1 !! id = m0 !! id) as Hm1.
  { intros id ?. unfold m1. destruct (s_reset s); [done|]. by rewrite lookup_insert_ne. }
  assert (∀ id, id ∈ r1 ↔ id ∈ retire ∨ (id = k ∧ (polled now k s).2 = None)) as Hr1.
  { intros id. unfold r1, polled. destruct (s_reset s); cbn.
    - rewrite elem_of_app, list_elem_of_singleton. naive_solver.
    - destruct (transmit s now []) as [s' l]. cbn. destruct (fully_done s').
      + rewrite elem_of_app, list_elem_of_singleton. naive_solver.
      + naive_solver. }
  specialize (IH m1 (out ++ (polled now k s).1) r1 Hnd).
  destruct (foldl _ _ ids) as [[m2 out2] r2].
  destruct IH as [Hout Hmap].
  { intros id Hid. rewrite Hm1 by (by intros ->). apply Hin. by right. }
  { intros id [?|[-> _]]%Hr1; [|done]. intros ?. by eapply Hret; [|right]. }
  split.
  - intros f. rewrite Hout, elem_of_app. setoid_rewrite elem_of_cons. split.
    + intros [[?|?]|(id & s' & Hid & Hs' & ?)]; [by left|right..].
      * exists k, s. by split_and!; [left|..].
      * exists id, s'. split_and!; [by right| |done]. by rewrite <- Hm1 by (by intros ->).
    + intros [?|(id & s' & [->|Hid] & Hs' & ?)]; [by left; left|..].
      * left. right. rewrite Hs in Hs'. by injection Hs' as ->.
      * right. exists id, s'. split_and!; [done| |done]. by rewrite Hm1 by (by intros ->).
  - intros id. rewrite Hmap. destruct (decide (id = k)) as [->|Hne].
    + rewrite (bool_decide_eq_false_2 (k ∈ ids)), (bool_decide_eq_true_2 (k ∈ k :: ids))
        by (done || by left).
      rewrite Hs. cbn. unfold r1, m1, polled. destruct (s_reset s); cbn.
      * rewrite bool_decide_eq_true_2; [done|]. apply elem_of_app. right. by left.
      * destruct (transmit s now []) as [s' l]. cbn. destruct (fully_done s').
        -- rewrite bool_decide_eq_true_2; [done|]. apply elem_of_app. right. by left.
        -- rewrite bool_decide_eq_false_2; [by rewrite lookup_insert_eq|].
           intros Hc%Hret. apply Hc. by left.
    + rewrite Hm1 by done.
      rewrite (bool_decide_ext (id ∈ k :: ids) (id ∈ ids)) by (rewrite elem_of_cons; naive_solver).
      case_bool_decide; [done|].
      rewrite (bool_decide_ext (id ∈ r1) (id ∈ retire)) by (rewrite Hr1; naive_solver). done.
Qed.

(** [poll_transmit], stream by stream. *)
Lemma poll_transmit_spec m :
  let '(out, m') := poll_transmit m in
  let t := as_u64 (now m + 1) in
  (∀ f, f ∈ out ↔ ∃ id s, streams m !! id = Some s ∧ f ∈ (polled t id s).1) ∧
  (∀ id, streams m' !! id = streams m !! id ≫= λ s, (polled t id s).2) ∧
  next_local_id m' = next_local_id m ∧ id_step m' = id_step m ∧
  local_parity m' = local_parity m.
Proof.
  unfold poll_transmit. cbn zeta.
  pose proof (poll_loop_spec (as_u64 (now m + 1)) (stream_ids (streams m)) (streams m) [] []
    (NoDup_stream_ids _)) as H.
  destruct (foldl _ _ _) as [[m1 out1] r1].
  destruct H as [Hout Hmap].
  { intros id. by apply elem_of_stream_ids. }
  { by intros id ?%not_elem_of_nil. }
  cbn. split_and!; [|intros id; rewrite Hmap|done..].
  - intros f. rewrite Hout. split.
    + intros [?%not_elem_of_nil|(id & s & _ & ? & ?)]; [done|by exists id, s].
    + intros (id & s & Hs & ?). right. exists id, s. split_and!; [|done|done].
      by apply elem_of_stream_ids.
  - destruct (streams m !! id) as [s|] eqn:Hs.
    + rewrite bool_decide_eq_true_2; [done|]. apply elem_of_stream_ids. by exists s.
    + by destruct (bool_decide _).
Qed.

(** ** The invariant of one multiplexer is preserved *)

Lemma lookup_total_insert_ne' (w : gmap Z (list Z)) k id v : k ≠ id → <[id := v]> w !!! k = w !!! k.
Proof. intros. by rewrite lookup_total_insert_ne. Qed.

Lemma accept_data_spec s offset data fin s' readable :
  accept_data s offset data fin = Some (s', readable) →
  offset + zlen data < 2 ^ 64 ∧
  s_recv s' = insert (s_recv s) offset data ∧
  s_peer_fin s' = (if fin && bool_decide (s_peer_fin s = HOpen)
                   then HFinished (offset + zlen data) else s_peer_fin s) ∧
  s_id s' = s_id s ∧ s_send_fin s' = s_send_fin s ∧
  (∀ w, stream_wf w s → stream_wf w s').
Proof.
  unfold accept_data, checked_add_u64. destruct (Z.leb_spec (offset + zlen data) u64_max); [|done].
  cbn [mbind option_bind]. destruct (_ <? offset); [done|]. intros [= <- _].
  destruct (fin && bool_decide (s_peer_fin s = HOpen)); cbn; split_and!; try done;
    try lia_ints; intros w []; by split.
Qed.

(** What an operation needs of a frame's fields. *)
Definition frame_ok (f : Frame) : Prop :=
  match f with
  | StreamData _ offset _ _ => 0 ≤ offset
  | StreamAck _ _ window => is_u32 window
  | _ => True
  end.

Lemma frame_wf_ok f : frame_wf f → frame_ok f.
Proof. destruct f; cbn; try done; [intros [_ []]; lia|intros (_ & _ & ?)]; done. Qed.

Lemma on_frame_wf w m f :
  mux_wf w m → frame_ok f → mux_wf (on_open m f w) (on_frame m f).
Proof.
  intros Hwf Hf. destruct f as [| | | | | |id kind meta|id offset data fin|id ack window|
    id status|id|]; try done; cbn [on_open on_frame]; cbn in Hf.
  - cbn [opens]. rewrite bool_decide_eq_true_2 by done.
    destruct (id mod 2 =? local_parity m); [done|]. cbn [negb orb andb].
    rewrite Nat.leb_antisym. destruct (size (streams m) <? MAX_STREAMS)%nat; [|done].
    cbn [negb]. destruct (streams m !! id) eqn:Hs;
      [by rewrite bool_decide_eq_false_2|rewrite bool_decide_eq_true_2 by done].
    apply (mux_wf_update w _ m _ id); try done; cbn.
    + intros k ?. by apply lookup_total_insert_ne'.
    + intros k s ?. by rewrite lookup_insert_ne.
    + intros s. rewrite lookup_insert_eq, lookup_total_insert_eq. intros [= <-].
      split_and!; [done|apply stream_new_wf|apply reassembler_new_wf].
  - destruct (streams m !! id) as [s|] eqn:Hs; [|done].
    destruct (accept_data s offset data fin) as [[s' readable]|] eqn:Ha; [|done].
    apply accept_data_spec in Ha as (Hlt & Hr & _ & Hi & _ & Hw).
    destruct (mw_stream _ _ Hwf _ _ Hs) as (Hid & Hsw & Hrw).
    apply (mux_wf_update w _ m _ id); try done; try by destruct readable.
    + intros k s0 ?. destruct readable; cbn; by rewrite lookup_insert_ne.
    + intros s0. assert (streams (if readable then push_event (EvReadable id)
        (set_streams (<[id:=s']> (streams m)) m) else set_streams (<[id:=s']> (streams m)) m)
        !! id = Some s') as -> by (destruct readable; cbn; apply lookup_insert_eq).
      intros [= <-]. split_and!; [congruence|by apply Hw|].
      rewrite Hr. by apply insert_spec.
  - apply (with_stream_wf w); [done|done|]. intros s Hs.
    destruct (mw_stream _ _ Hwf _ _ Hs) as (Hid & Hsw & Hrw).
    assert (s_id (stream_on_ack s ack window (now m)) = s_id s ∧
      s_recv (stream_on_ack s ack window (now m)) = s_recv s) as [-> ->].
    { unfold stream_on_ack, ack_fin, ack_sample, update_rtt, ack_progress.
      repeat first [case_match; subst; cbn in *; try done]. }
    split_and!; [done|by apply stream_on_ack_spec|done].
  - destruct (streams m !! id) as [s|] eqn:Hs; [|done].
    destruct (negb (s_close_received s)); [|done].
    destruct (mw_stream _ _ Hwf _ _ Hs) as (Hid & [] & Hrw).
    apply (mux_wf_update w _ m _ id); try done; cbn.
    + intros k s0 ?. by rewrite lookup_insert_ne.
    + intros s0. rewrite lookup_insert_eq. intros [= <-]. by split_and!.
  - destruct (streams m !! id) as [s|] eqn:Hs; [|done].
    destruct (mw_stream _ _ Hwf _ _ Hs) as (Hid & [] & Hrw).
    apply (mux_wf_update w _ m _ id); try done; cbn.
    + intros k s0 ?. by rewrite lookup_insert_ne.
    + intros s0. rewrite lookup_insert_eq. intros [= <-]. by split_and!.
Qed.

(** ** What a step does to the other fields of a stream *)

Lemma on_frame_effect m f id s' :
  streams (on_frame m f) !! id = Some s' →
  (∃ s, streams m !! id = Some s ∧ s_recv s' = s_recv s ∧ s_peer_fin s' = s_peer_fin s ∧
     s_send_fin s' = s_send_fin s) ∨
  (opens m f id = true ∧ s_recv s' = reassembler_new ∧ s_peer_fin s' = HOpen) ∨
  (∃ s offset data fin r, f = StreamData id offset data fin ∧ streams m !! id = Some s ∧
     accept_data s offset data fin = Some (s', r)).
Proof.
  intros Hs'.
  assert (∀ k v, k ≠ id → <[k := v]> (streams m) !! id = streams m !! id) as Hne
    by (intros; by apply lookup_insert_ne).
  assert (streams m !! id = Some s' → ∃ s, streams m !! id = Some s ∧ s_recv s' = s_recv s ∧
    s_peer_fin s' = s_peer_fin s ∧ s_send_fin s' = s_send_fin s) as Hsame by (intros; by exists s').
  destruct f as [| | | | | |k kind meta|k offset data fin|k ack window|k status|k|];
    cbn [on_frame] in Hs'; try (left; by apply Hsame).
  - destruct (_ || _) eqn:Hg; [left; by apply Hsame|].
    destruct (streams m !! k) eqn:Hk; [left; by apply Hsame|]. cbn in Hs'.
    destruct (decide (k = id)) as [->|]; [|rewrite Hne in Hs' by done; left; by apply Hsame].
    rewrite lookup_insert_eq in Hs'. injection Hs' as <-. right. left.
    cbn [opens]. apply orb_false_iff in Hg as [-> Hg].
    rewrite Nat.leb_antisym in Hg. apply negb_false_iff in Hg.
    rewrite Hg, !bool_decide_eq_true_2 by done. done.
  - destruct (streams m !! k) as [s|] eqn:Hk; [|left; by apply Hsame].
    destruct (accept_data s offset data fin) as [[s1 r]|] eqn:Ha; [|left; by apply Hsame].
    assert (<[k := s1]> (streams m) !! id = Some s') as Hs'' by (destruct r; exact Hs').
    destruct (decide (k = id)) as [->|]; [|rewrite Hne in Hs'' by done; left; by apply Hsame].
    rewrite lookup_insert_eq in Hs''. injection Hs'' as <-. right. right. by exists s, offset, data, fin, r.
  - left. rewrite with_stream_lookup in Hs'. case_bool_decide; [subst|by apply Hsame].
    apply fmap_Some in Hs' as (s & Hs & ->). exists s. split; [done|].
    unfold stream_on_ack, ack_fin, ack_sample, update_rtt, ack_progress.
    repeat first [case_match; subst; cbn in *; try done].
  - left. destruct (streams m !! k) as [s|] eqn:Hk; [|by apply Hsame].
    destruct (negb _); [|by apply Hsame]. cbn in Hs'.
    destruct (decide (k = id)) as [->|]; [|rewrite Hne in Hs' by done; by apply Hsame].
    rewrite lookup_insert_eq in Hs'. injection Hs' as <-. by exists s.
  - left. destruct (streams m !! k) as [s|] eqn:Hk; [|by apply Hsame]. cbn in Hs'.
    destruct (decide (k = id)) as [->|]; [|rewrite Hne in Hs' by done; by apply Hsame].
    rewrite lookup_insert_eq in Hs'. injection Hs' as <-. by exists s.
Qed.

Lemma on_frame_parity m f : local_parity (on_frame m f) = local_parity m ∧
  next_local_id (on_frame m f) = next_local_id m.
Proof.
  destruct f as [| | | | | |id kind meta|id offset data fin|id ack window|id status|id|];
    try done; cbn [on_frame].
  - destruct (_ || _); [done|]. by destruct (streams m !! id).
  - destruct (streams m !! id); [|done]. by destruct (accept_data _ _ _ _) as [[? []]|].
  - by destruct (with_stream_same m id (λ s, stream_on_ack s ack window (now m))) as (? & _ & ? & _).
  - destruct (streams m !! id) as [s|]; [|done]. by destruct (negb _).
  - by destruct (streams m !! id).
Qed.

Lemma transmit_frames w id s t :
  s_id s = id → stream_wf w s → reassembler_wf (s_recv s) → s_reset s = false →
  Forall (frame_of w s) (transmit s t []).2 ∧ keeps s (transmit s t []).1 ∧
  stream_wf w (transmit s t []).1.
Proof.
  intros Hid Hw Hr Hreset. destruct (transmit_spec w s t [] Hw Hr Hreset) as (l & -> & [] & _).
  by split_and!.
Qed.

(** What a local step other than [open] does to a stream. *)
Definition stream_kept (s s' : StreamState) : Prop :=
  s_recv s' = s_recv s ∧ s_peer_fin s' = s_peer_fin s ∧
  (s_send_fin s = true → s_send_fin s' = true).

Definition streams_kept (m m' : StreamMux) : Prop :=
  next_local_id m' = next_local_id m ∧
  ∀ id s', streams m' !! id = Some s' → ∃ s, streams m !! id = Some s ∧ stream_kept s s'.

Lemma with_stream_kept m id f :
  (∀ s, stream_kept s (f s)) → streams_kept m (with_stream m id f).
Proof.
  intros Hf. split; [apply (with_stream_same m id f)|].
  intros k s'. rewrite with_stream_lookup. case_bool_decide; [subst|intros; by exists s'].
  intros (s & Hs & ->)%fmap_Some. by exists s.
Qed.

(** A poll keeps every stream it does not retire. *)
Lemma poll_kept w m :
  mux_wf w m →
  mux_wf w (poll_transmit m).2 ∧ local_parity (poll_transmit m).2 = local_parity m ∧
  streams_kept m (poll_transmit m).2.
Proof.
  intros Hwf. pose proof (poll_transmit_spec m) as Hp. destruct (poll_transmit m) as [out m'].
  destruct Hp as (_ & Hm & Hn & Hst & Hp). cbn [fst snd].
  assert (∀ id s', streams m' !! id = Some s' → ∃ s, streams m !! id = Some s ∧
    keeps s s' ∧ stream_wf (w !!! id) s') as Hk.
  { intros id s'. rewrite Hm. destruct (streams m !! id) as [s|] eqn:Hs; [|done]. cbn.
    destruct (mw_stream _ _ Hwf _ _ Hs) as (Hid & Hsw & Hr).
    unfold polled. destruct (s_reset s) eqn:Hreset; [done|].
    destruct (transmit_frames (w !!! id) id s (as_u64 (now m + 1)) Hid Hsw Hr Hreset) as (_ & ? & ?).
    destruct (transmit s _ []) as [s1 l]. cbn in *. destruct (fully_done s1); [done|].
    intros [= <-]. by exists s. }
  split_and!; [|done|].
  - destruct Hwf as [? ? ? Hstr]. split; [congruence|congruence|by rewrite Hn|].
    intros id s' (s & Hs & [] & Hsw)%Hk. destruct (Hstr _ _ Hs) as (? & ? & ?).
    split_and!; [congruence|done|congruence].
  - split; [done|]. intros id s' (s & Hs & [] & _)%Hk. exists s. split; [done|]. split_and!; [done..|congruence].
Qed.

Lemma open_wf w m kind meta :
  mux_wf w m → next_local_id m < 2 ^ 64 - 2 →
  mux_wf (<[next_local_id m := []]> w) (mux_open m kind meta).2.
Proof.
  intros [Hst Hp Hn Hstr] Hnext. split; cbn; [done|..]; rewrite ?Hst.
  - rewrite as_u64_id by (unfold is_u64 in *; lia). rewrite <- Hp.
    rewrite Z.add_mod by lia. rewrite Z.mod_same, Z.add_0_r by lia. by rewrite Z.mod_mod.
  - apply as_u64_range.
  - intros id s. destruct (decide (id = next_local_id m)) as [->|].
    + rewrite lookup_insert_eq, lookup_total_insert_eq. intros [= <-].
      split_and!; [done|apply stream_new_wf|apply reassembler_new_wf].
    + rewrite lookup_insert_ne, lookup_total_insert_ne by done. by apply Hstr.
Qed.

(** A local step keeps the invariant; unless it opens a stream, it keeps each
    stream's receive half and never reopens a send half. *)
Lemma local_step_spec w m w' m' out :
  mux_wf w m → local_step w m w' m' out →
  mux_wf w' m' ∧ local_parity m' = local_parity m ∧
  (streams_kept m m' ∨
   ∃ kind meta, next_local_id m < 2 ^ 64 - 2 ∧ m' = (mux_open m kind meta).2).
Proof.
  intros Hwf Hstep.
  assert (∀ id f, local_parity (with_stream m id f) = local_parity m) as Hpar
    by (intros id f; apply (with_stream_same m id f)).
  destruct Hstep as [kind meta Hnext|id s data Hs Hfin Hlen|id status|id| |].
  - split_and!; [by apply open_wf|done|right; by eauto].
  - split_and!; [|apply Hpar|left; by apply with_stream_kept].
    apply (with_stream_wf w); [done|intros; by apply lookup_total_insert_ne'|].
    intros s0 Hs0. destruct (mw_stream _ _ Hwf _ _ Hs0) as (? & ? & ?).
    rewrite lookup_total_insert_eq. split_and!; [done|by apply stream_write_wf|done].
  - split_and!; [|apply Hpar|left; by apply with_stream_kept].
    apply (with_stream_wf w); [done|done|]. intros s0 Hs0.
    destruct (mw_stream _ _ Hwf _ _ Hs0) as (? & [] & ?). by split_and!.
  - split_and!; [|apply Hpar|left; by apply with_stream_kept].
    apply (with_stream_wf w); [done|done|]. intros s0 Hs0.
    destruct (mw_stream _ _ Hwf _ _ Hs0) as (? & [] & ?). by split_and!.
  - split_and!; [destruct Hwf; by split|done|]. left. split; [done|]. intros id s' Hs. by exists s'.
  - destruct (poll_kept w m Hwf) as (? & ? & ?). by split_and!; [..|left].
Qed.

Lemma mux_read_same m id :
  next_local_id (mux_read m id).2 = next_local_id m ∧
  local_parity (mux_read m id).2 = local_parity m.
Proof.
  unfold mux_read. destruct (streams m !! id) as [s|]; [|done]. by destruct (read (s_recv s)).
Qed.

Lemma mux_read_wf w m id : mux_wf w m → mux_wf w (mux_read m id).2.
Proof.
  intros Hwf. unfold mux_read. destruct (streams m !! id) as [s|] eqn:Hs; [|done].
  destruct (mw_stream _ _ Hwf _ _ Hs) as (Hid & [] & Hr).
  pose proof (read_spec _ Hr) as Hrs. destruct (read (s_recv s)) as [d r].
  apply (mux_wf_update w w m _ id); try done; cbn.
  - intros k s'. intros ?. by rewrite lookup_insert_ne.
  - intros s'. rewrite lookup_insert_eq. intros [= <-]. split_and!; [done|by split|apply Hrs].
Qed.

(** ** Freedom from panics *)

Lemma accept_data_agrees s offset data fin r :
  accept_data_checked s offset data fin = Some r → accept_data s offset data fin = r.
Proof.
  unfold accept_data_checked, accept_data. destruct (checked_add_u64 _ _); [|by intros [= <-]].
  cbn [mbind option_bind]. destruct (_ <? _); [by intros [= <-]|].
  set (s1 := if fin && _ then _ else s). unfold insert.
  destruct (insert_checked _ _ _); [|done]. by intros [= <-].
Qed.

Lemma on_frame_agrees m f m' : on_frame_checked m f = Some m' → on_frame m f = m'.
Proof.
  destruct f; cbn [on_frame_checked]; try by intros [= <-].
  - cbn [on_frame]. destruct (streams m !! id) as [s|]; [|by intros [= <-]].
    destruct (accept_data_checked _ _ _ _) as [r|] eqn:Ha; [|done].
    apply accept_data_agrees in Ha. rewrite Ha. by intros [= <-].
  - cbn [on_frame]. unfold with_stream. destruct (streams m !! id) as [s|]; [|by intros [= <-]].
    rewrite stream_on_ack_calm. by intros [= <-].
Qed.

(** The checks on a frame and the shape of the buffer keep every copy in range. *)
Lemma on_frame_calm m f :
  (∀ id s, streams m !! id = Some s → reassembler_wf (s_recv s)) → frame_ok f →
  on_frame_checked m f = Some (on_frame m f).
Proof.
  intros Hm Hf. assert (is_Some (on_frame_checked m f)) as [m' Hm']; [|by rewrite (on_frame_agrees _ _ _ Hm')].
  destruct f; cbn [on_frame_checked]; try done.
  - destruct (streams m !! id) as [s|] eqn:Hs; [|done]. unfold accept_data_checked, checked_add_u64.
    destruct (Z.leb_spec (offset + zlen data) u64_max); [|done]. destruct (_ <? _); [done|].
    assert (∀ b : bool, s_recv (if b then set_peer_fin (HFinished (offset + zlen data)) s else s) = s_recv s)
      as -> by (by intros []).
    rewrite insert_calm by (first [by eapply Hm|done|lia_ints]). by eexists.
  - destruct (streams m !! id); [|done]. by rewrite stream_on_ack_calm.
Qed.

Lemma poll_step_agrees now id acc acc' :
  poll_step_checked now id acc = Some acc' → poll_step now acc id = acc'.
Proof.
  destruct acc as [[str out] retire]. unfold poll_step_checked, poll_step.
  destruct (str !! id) as [s|]; [|by intros [= <-]]. destruct (s_reset s); [by intros [= <-]|].
  destruct (transmit_checked _ _ _) as [[s' out']|] eqn:Ht; [|done]. apply transmit_agrees in Ht.
  rewrite Ht. by intros [= <-].
Qed.

Lemma poll_transmit_agrees m r : poll_transmit_checked m = Some r → poll_transmit m = r.
Proof.
  unfold poll_transmit_checked, poll_transmit.
  assert (∀ n ids acc acc', for_each ids (poll_step_checked n) acc = Some acc' →
    foldl (poll_step n) acc ids = acc') as H.
  { intros n. induction ids as [|id ids IH]; intros acc acc'; cbn [for_each foldl]; [by intros [= ->]|].
    destruct (poll_step_checked n id acc) as [acc1|] eqn:Hs; [|done]. apply poll_step_agrees in Hs.
    rewrite Hs. apply IH. }
  destruct (for_each _ _ _) as [[[str out] retire]|] eqn:Hf; [|done]. apply H in Hf. rewrite Hf.
  by intros [= <-].
Qed.

Definition sends_ok (m : StreamMux) : Prop :=
  ∀ id s, streams m !! id = Some s → send_ok s ∧ short s.

Lemma poll_transmit_calm m : sends_ok m → poll_transmit_checked m = Some (poll_transmit m).
Proof.
  intros Hm. assert (is_Some (poll_transmit_checked m)) as [r Hr];
    [|by rewrite (poll_transmit_agrees _ _ Hr)].
  unfold poll_transmit_checked.
  assert (∀ n ids str out retire, (∀ id s, str !! id = Some s → send_ok s ∧ short s) →
    is_Some (for_each ids (poll_step_checked n) (str, out, retire))) as H.
  { intros n. induction ids as [|id ids IH]; intros str out retire Hs; cbn [for_each]; [done|].
    unfold poll_step_checked. destruct (str !! id) as [s|] eqn:Hid; [|by apply IH].
    destruct (s_reset s); [by apply IH|]. destruct (Hs _ _ Hid) as [Hok Hsh].
    destruct (transmit_calm s n out Hok Hsh) as [[s' out'] Ht]. rewrite Ht. cbn [mbind option_bind].
    apply transmit_agrees in Ht. destruct (transmit_send s n out Hok Hsh) as [Hok' Hn].
    rewrite Ht in *. cbn [fst] in *. apply IH. intros k x. rewrite lookup_insert_Some.
    intros [[_ <-]|[_ Hx]]; [|by eapply Hs]. split; [done|]. unfold short. by rewrite Hn. }
  destruct (H (as_u64 (now m + 1)) (stream_ids (streams m)) (streams m) [] [] Hm) as [[[str out] retire] ->].
  by eexists.
Qed.
