(* ===== verification/StreamNet.v ===== *)
(** * Reliable delivery on streams ([crates/transport/src/stream.rs])

    Two multiplexers over a network that loses, duplicates and reorders frames:
    what the reader of a stream gets is a prefix of what its writer wrote, and
    all of it once end-of-stream is reported. *)

From stdpp Require Import gmap relations.
From S2P Require Import Prelude Wire Reassembler Stream Mux.

(** Two multiplexers and the frames the first one ever sent. [wrote] is what the
    application wrote on the first, [got] what it read from the second (since
    the stream was last opened there). *)
Record net := mkNet {
  n_a : StreamMux;
  n_b : StreamMux;
  wrote : gmap Z (list Z);
  wrote_b : gmap Z (list Z);
  got : gmap Z (list Z);
  wire_ab : list Frame;
}.

Definition net_new (a_is_client : bool) : net :=
  {| n_a := mux_new a_is_client; n_b := mux_new (negb a_is_client); wrote := ∅;
     wrote_b := ∅; got := ∅; wire_ab := [] |}.

(** The first end may receive any frame at all; the second, any frame the first
    ever sent, any number of times and in any order. *)
Inductive net_step (n : net) : net → Prop :=
| net_a w m out :
    local_step (wrote n) (n_a n) w m out →
    net_step n {| n_a := m; n_b := n_b n; wrote := w; wrote_b := wrote_b n; got := got n;
                  wire_ab := wire_ab n ++ out |}
| net_a_read id :
    net_step n {| n_a := (mux_read (n_a n) id).2; n_b := n_b n; wrote := wrote n;
                  wrote_b := wrote_b n; got := got n; wire_ab := wire_ab n |}
| net_a_frame f :
    frame_wf f →
    net_step n {| n_a := on_frame (n_a n) f; n_b := n_b n;
                  wrote := on_open (n_a n) f (wrote n); wrote_b := wrote_b n; got := got n;
                  wire_ab := wire_ab n |}
| net_b w m out :
    local_step (wrote_b n) (n_b n) w m out →
    net_step n {| n_a := n_a n; n_b := m; wrote := wrote n; wrote_b := w; got := got n;
                  wire_ab := wire_ab n |}
| net_b_read id :
    net_step n {| n_a := n_a n; n_b := (mux_read (n_b n) id).2; wrote := wrote n;
                  wrote_b := wrote_b n;
                  got := <[id := got n !!! id ++ (mux_read (n_b n) id).1]> (got n);
                  wire_ab := wire_ab n |}
| net_b_frame f :
    f ∈ wire_ab n →
    net_step n {| n_a := n_a n; n_b := on_frame (n_b n) f; wrote := wrote n;
                  wrote_b := on_open (n_b n) f (wrote_b n);
                  got := on_open (n_b n) f (got n); wire_ab := wire_ab n |}.

Definition net_reachable (a_is_client : bool) (n : net) : Prop :=
  rtc net_step (net_new a_is_client) n.

(** ** The invariant, one stream at a time

    For a stream id of the first end's parity: [w] was written, [g] was read,
    [sa] and [sb] are the stream's states at the two ends. *)

(** No more bytes can be written: the writer closed the stream, or dropped it. *)
Definition closed (sa : option StreamState) : Prop :=
  ∀ s, sa = Some s → s_send_fin s = true.

Definition about (id : Z) (f : Frame) : Prop :=
  match f with
  | StreamOpen id' _ _ | StreamData id' _ _ _ => id' = id
  | _ => False
  end.

Record view_inv (id : Z) (unused : Prop) (w g : list Z) (sa sb : option StreamState)
    (wire : list Frame) : Prop := {
  v_unused : unused → sa = None ∧ w = [] ∧ g = [] ∧ sb = None ∧ ∀ f, f ∈ wire → ¬ about id f;
  v_wire offset data fin : StreamData id offset data fin ∈ wire →
    piece w offset data ∧ (fin = true → offset + zlen data = zlen w ∧ closed sa);
  v_b s : sb = Some s →
    holds w (s_recv s) ∧ g = take (Z.to_nat (r_delivered (s_recv s))) w ∧
    ∀ at_, s_peer_fin s = HFinished at_ → at_ = zlen w ∧ closed sa;
  v_prefix : g `prefix_of` w;
}.

Record net_inv (n : net) : Prop := {
  ni_a : mux_wf (wrote n) (n_a n);
  ni_b : mux_wf (wrote_b n) (n_b n);
  ni_parity : local_parity (n_a n) ≠ local_parity (n_b n);
  ni_ok : Forall frame_ok (wire_ab n);
  ni_view id : id mod 2 = local_parity (n_a n) →
    view_inv id (next_local_id (n_a n) ≤ id) (wrote n !!! id) (got n !!! id)
      (streams (n_a n) !! id) (streams (n_b n) !! id) (wire_ab n);
}.

Lemma net_new_inv b : net_inv (net_new b).
Proof.
  split.
  - apply mux_new_wf.
  - apply mux_new_wf.
  - by destruct b.
  - constructor.
  - intros id Hid. cbn. rewrite !lookup_total_empty, !lookup_empty. split.
    + intros _. split_and!; try done. by intros f ?%not_elem_of_nil.
    + by intros ??? ?%not_elem_of_nil.
    + done.
    + done.
Qed.

(** ** How views evolve *)

Section views.
Context {id : Z} {unused : Prop} {w g : list Z} {sa sb : option StreamState}
  {wire : list Frame}.
Hypothesis Hv : view_inv id unused w g sa sb wire.

(** The writer's end changes without writing. *)
Lemma view_sender (unused' : Prop) sa' :
  (unused' → unused) → (∀ s', sa' = Some s' → ∃ s, sa = Some s ∧
    (s_send_fin s = true → s_send_fin s' = true)) →
  view_inv id unused' w g sa' sb wire.
Proof.
  intros Hu Hs. destruct Hv as [Hv1 Hv2 Hv3 Hv4].
  assert (closed sa → closed sa') as Hc.
  { intros Hc s' Hs'. destruct (Hs s' Hs') as (s & Hsa & Hf). auto. }
  split; [|..|done].
  2:{ intros offset data fin Hin. destruct (Hv2 _ _ _ Hin) as [? Hf]. split; [done|].
      intros [? ?]%Hf. auto. }
  2:{ intros s Hsb. destruct (Hv3 s Hsb) as (? & ? & Hat). split_and!; [done..|].
      intros at_ [? ?]%Hat. auto. }
  intros Hu'. destruct (Hv1 (Hu Hu')) as (-> & ?). split; [|done].
  destruct sa' as [s'|]; [|done]. by destruct (Hs s' eq_refl) as (s & ? & _).
Qed.

Lemma piece_app stream more offset data :
  piece stream offset data → piece (stream ++ more) offset data.
Proof.
  intros (? & ? & Hp). split_and!; [done|done|]. intros. apply lookup_app_l_Some. auto.
Qed.

Lemma holds_app stream more r : holds stream r → holds (stream ++ more) r.
Proof.
  intros []. split; [done|rewrite length_app; lia|].
  intros. apply lookup_app_l_Some. auto.
Qed.

(** The writer writes on an open stream. *)
Lemma view_write s s' more :
  sa = Some s → s_send_fin s = false → view_inv id unused (w ++ more) g (Some s') sb wire.
Proof.
  intros Hs Hfin. destruct Hv as [Hv1 Hv2 Hv3 Hv4].
  assert (¬ closed sa) as Hopen by (intros Hc; specialize (Hc s Hs); congruence).
  split.
  - intros Hu. destruct (Hv1 Hu) as (? & _). congruence.
  - intros offset data fin Hin. destruct (Hv2 _ _ _ Hin) as [Hp Hf].
    split; [by apply piece_app|]. by intros [_ ?]%Hf.
  - intros sb' Hsb. destruct (Hv3 _ Hsb) as (Hh & Hg & Hf). split_and!.
    + by apply holds_app.
    + rewrite take_app_le; [done|]. pose proof (holds_delivered _ _ Hh). lia.
    + by intros at_ [_ ?]%Hf.
  - by apply prefix_app_r.
Qed.

(** The reader's end changes without reading or receiving. *)
Lemma view_receiver sb' :
  (∀ s', sb' = Some s' → ∃ s, sb = Some s ∧ s_recv s' = s_recv s ∧
    s_peer_fin s' = s_peer_fin s) →
  view_inv id unused w g sa sb' wire.
Proof.
  intros Hs. destruct Hv as [Hv1 Hv2 Hv3 Hv4]. split; [|done| |done].
  - intros Hu. destruct (Hv1 Hu) as (? & ? & ? & -> & ?). split_and!; try done.
    destruct sb' as [s'|]; [|done]. by destruct (Hs s' eq_refl) as (s & ? & _).
  - intros s' Hs'. destruct (Hs s' Hs') as (s & Hsb & -> & ->). auto.
Qed.

(** The reader opens the stream. *)
Lemma view_open f s' :
  f ∈ wire → about id f → s_recv s' = reassembler_new → s_peer_fin s' = HOpen →
  view_inv id unused w [] sa (Some s') wire.
Proof.
  intros Hf Ha Hr Hp. destruct Hv as [Hv1 Hv2 Hv3 Hv4]. split.
  - intros Hu. destruct (Hv1 Hu) as (_ & _ & _ & _ & Hno). by destruct (Hno f).
  - done.
  - intros s [= <-]. rewrite Hr, Hp. split_and!; [apply holds_new|done|done].
  - apply prefix_nil.
Qed.

(** A data frame arrives. *)
Lemma view_data s s' offset data fin r :
  StreamData id offset data fin ∈ wire → sb = Some s →
  accept_data s offset data fin = Some (s', r) →
  view_inv id unused w g sa (Some s') wire.
Proof.
  intros Hf Hs Ha. apply accept_data_spec in Ha as (Hlt & Hr & Hp & _).
  destruct Hv as [Hv1 Hv2 Hv3 Hv4]. destruct (Hv2 _ _ _ Hf) as [Hpc Hfin].
  destruct (Hv3 _ Hs) as (Hh & Hg & Hat). split; [|done| |done].
  - intros Hu. destruct (Hv1 Hu) as (_ & _ & _ & ? & _). congruence.
  - intros s1 [= <-]. rewrite Hr, Hp. split_and!.
    + by apply insert_holds.
    + destruct Hpc as (? & ? & _).
      by destruct (insert_spec (s_recv s) offset data (holds_wf _ _ Hh)) as (_ & -> & _).
    + destruct (fin && _) eqn:Hb; [|done]. apply andb_true_iff in Hb as [-> _].
      intros at_ [= <-]. by apply Hfin.
Qed.

(** The application reads. *)
Lemma view_read s :
  sb = Some s →
  view_inv id unused w (g ++ (read (s_recv s)).1) sa
    (Some (set_recv (read (s_recv s)).2 s)) wire.
Proof.
  intros Hs. destruct Hv as [Hv1 Hv2 Hv3 Hv4]. destruct (Hv3 _ Hs) as (Hh & Hg & Hat).
  destruct (read_holds _ _ Hh) as (Hh' & Ht & Hd). split; [|done| |].
  - intros Hu. destruct (Hv1 Hu) as (_ & _ & _ & ? & _). congruence.
  - intros s1 [= <-]. cbn [s_recv s_peer_fin set_recv]. split_and!; [done| |done].
    by rewrite Hg, Ht.
  - rewrite Hg, Ht. apply prefix_take.
Qed.

(** Frames are put on the wire. *)
Lemma view_wire s out :
  sa = Some s → stream_wf w s → s_id s = id →
  (∀ f, f ∈ out → frame_of w s f ∨ ¬ about id f) →
  view_inv id unused w g sa sb (wire ++ out).
Proof.
  intros Hs Hw Hid Hout. destruct Hv as [Hv1 Hv2 Hv3 Hv4]. split; [|..|done|done].
  - intros Hu. destruct (Hv1 Hu) as (? & _). congruence.
  - intros offset data fin [Hin|Hin]%elem_of_app; [by apply Hv2|].
    apply Hout in Hin as [Hf|Ha]; [|by destruct Ha].
    destruct Hf as (_ & Ho & Hmax & Hle & Hd & Hfin). pose proof (sw_len _ _ Hw). split.
    + eapply (piece_slice _ _ _ (Z.to_nat (offset + zlen data) - Z.to_nat offset)); [done|lia|].
      exact Hd.
    + intros [? ?]%Hfin. split; [done|]. intros s1 Hs1. congruence.
Qed.

Lemma view_wire_other out :
  (∀ f, f ∈ out → ¬ about id f) → view_inv id unused w g sa sb (wire ++ out).
Proof.
  intros Hout. destruct Hv as [Hv1 Hv2 Hv3 Hv4]. split; [|..|done|done].
  - intros Hu. destruct (Hv1 Hu) as (? & ? & ? & ? & Hno). split_and!; try done.
    intros f [?|?]%elem_of_app; auto.
  - intros offset data fin [Hin|Hin]%elem_of_app; [by apply Hv2|].
    apply Hout in Hin. by destruct Hin.
Qed.
End views.

(** ** Steps preserve the invariant *)

(** A poll's frames belong to the polled streams. *)
Lemma polled_frames w m t id s f :
  mux_wf w m → streams m !! id = Some s → f ∈ (polled t id s).1 →
  frame_ok f ∧ (frame_of (w !!! id) s f ∨ f = StreamReset id).
Proof.
  intros Hwf Hs. destruct (mw_stream _ _ Hwf _ _ Hs) as (Hid & Hsw & Hr).
  unfold polled. destruct (s_reset s) eqn:Hreset; cbn.
  - intros ->%list_elem_of_singleton. by split; [|right].
  - pose proof (transmit_frames (w !!! id) id s t Hid Hsw Hr Hreset) as (Hf & _ & _).
    destruct (transmit s t []) as [s' l]. cbn in *. intros Hin.
    pose proof (proj1 (Forall_forall _ _) Hf _ Hin) as Hfo. split; [|by left].
    destruct f; try done; cbn in *; [by destruct Hfo as (_ & ? & _)|].
    destruct Hfo as (_ & _ & ?). unfold DEFAULT_WINDOW in *. lia_ints.
Qed.

Lemma local_step_views w m w' m' out id g sb wire :
  mux_wf w m → local_step w m w' m' out → id mod 2 = local_parity m →
  view_inv id (next_local_id m ≤ id) (w !!! id) g (streams m !! id) sb wire →
  view_inv id (next_local_id m' ≤ id) (w' !!! id) g (streams m' !! id) sb (wire ++ out).
Proof.
  intros Hwf Hstep Hpar Hv.
  assert (∀ m', streams_kept m m' →
    view_inv id (next_local_id m' ≤ id) (w !!! id) g (streams m' !! id) sb wire) as Hkeep.
  { intros m1 [-> Hk]. eapply view_sender; [exact Hv|done|].
    intros s' (s & ? & _ & _ & ?)%Hk. by exists s. }
  destruct Hstep as [kind meta Hnext|k s data Hs Hfin Hlen|k status|k| |];
    try (rewrite app_nil_r; apply Hkeep; by apply with_stream_kept).
  - rewrite app_nil_r. cbn. destruct Hwf as [Hst Hpm [? _] _]. rewrite Hst.
    rewrite as_u64_id by (unfold is_u64; lia).
    destruct (decide (id = next_local_id m)) as [->|].
    + destruct (v_unused _ _ _ _ _ _ _ Hv) as (_ & _ & -> & -> & Hno); [lia|].
      rewrite lookup_insert_eq, lookup_total_insert_eq. split; [lia| |done|done].
      intros ??? Hin. by destruct (Hno _ Hin).
    + rewrite lookup_insert_ne, lookup_total_insert_ne by done.
      eapply view_sender; [exact Hv|lia|]. intros s' Hs'. by exists s'.
  - rewrite app_nil_r. destruct (decide (k = id)) as [->|].
    + unfold mux_write. rewrite with_stream_lookup, bool_decide_eq_true_2 by done.
      destruct (with_stream_same m id (λ s, stream_write s data)) as (-> & _).
      rewrite Hs, lookup_total_insert_eq. rewrite Hs in Hv. by eapply view_write.
    + rewrite lookup_total_insert_ne by done. apply Hkeep. by apply with_stream_kept.
  - rewrite app_nil_r. apply Hkeep. split; [done|]. intros k s' Hs. by exists s'.
  - destruct (poll_kept w m Hwf) as (_ & _ & Hk). specialize (Hkeep _ Hk).
    pose proof (poll_transmit_spec m) as Hp. destruct (poll_transmit m) as [out m'].
    destruct Hp as (Hout & _). cbn [fst snd] in *.
    assert (∀ f, f ∈ out → (∃ s, streams m !! id = Some s ∧ frame_of (w !!! id) s f) ∨ ¬ about id f)
      as Hf.
    { intros f (k & s & Hs & Hin)%Hout.
      apply (polled_frames w m _ k s f Hwf Hs) in Hin as [_ [Hfo| ->]]; [|right; by intros []].
      destruct (decide (k = id)) as [->|]; [left; by exists s|right].
      destruct (mw_stream _ _ Hwf _ _ Hs) as (Hid & _).
      destruct f; try (intros Ha; exact Ha); cbn in *; destruct Hfo; congruence. }
    assert (view_inv id (next_local_id m ≤ id) (w !!! id) g (streams m !! id) sb (wire ++ out)) as Hv'.
    { destruct (streams m !! id) as [s|] eqn:Hs.
      - destruct (mw_stream _ _ Hwf _ _ Hs) as (? & ? & ?).
        eapply view_wire; [exact Hv|done..|]. intros f [(s' & [= <-] & ?)|?]%Hf; [by left|by right].
      - eapply view_wire_other; [exact Hv|]. by intros f [(s' & ? & ?)|?]%Hf. }
    destruct Hk as [-> Hk]. eapply view_sender; [exact Hv'|done|].
    intros s' (s & ? & _ & _ & ?)%Hk. by exists s.
Qed.

Lemma on_open_lookup m f g id :
  on_open m f g !!! id = if opens m f id then [] else g !!! id.
Proof.
  unfold on_open. destruct f; try done. destruct (decide (id0 = id)) as [->|].
  - destruct (opens m _ id); [by rewrite lookup_total_insert_eq|done].
  - assert (opens m (StreamOpen id0 kind meta) id = false) as ->
      by (cbn [opens]; by rewrite bool_decide_eq_false_2).
    destruct (opens m _ id0); [by rewrite lookup_total_insert_ne|done].
Qed.

Lemma opens_spec m f id :
  opens m f id = true → about id f ∧ id mod 2 ≠ local_parity m ∧ streams m !! id = None.
Proof.
  unfold opens. destruct f; try done. intros H.
  apply andb_true_iff in H as [[[?%bool_decide_eq_true H]%andb_true_iff _]%andb_true_iff
    ?%bool_decide_eq_true]. apply negb_true_iff, Z.eqb_neq in H. by subst.
Qed.

Lemma net_inv_step n n' : net_inv n → net_step n n' → net_inv n'.
Proof.
  intros [Ha Hb Hpar Hok Hview] Hstep.
  destruct Hstep as [w m out Hl|id|f Hf|w m out Hl|id|f Hf].
  - destruct (local_step_spec _ _ _ _ _ Ha Hl) as (Hwf & Hp & _).
    split; cbn; [done|done|by rewrite Hp| |].
    + apply Forall_app_2; [done|]. destruct Hl; try constructor.
      apply Forall_forall. intros f Hin. pose proof (poll_transmit_spec (n_a n)) as Hs.
      destruct (poll_transmit (n_a n)) as [out m']. destruct Hs as (Hout & _).
      apply Hout in Hin as (id & s & Hs & Hin).
      apply (polled_frames _ _ _ _ _ _ Ha Hs Hin).
    + intros id. rewrite Hp. intros Hid. by eapply local_step_views; [|done|done|apply Hview].
  - assert (streams_kept' : ∀ k s', streams (mux_read (n_a n) id).2 !! k = Some s' →
      ∃ s, streams (n_a n) !! k = Some s ∧ (s_send_fin s = true → s_send_fin s' = true)).
    { intros k s'. unfold mux_read. destruct (streams (n_a n) !! id) as [s|] eqn:Hs;
        [|intros; by exists s']. destruct (read (s_recv s)) as [d r]. cbn.
      destruct (decide (k = id)) as [->|].
      - rewrite lookup_insert_eq. intros [= <-]. by exists s.
      - rewrite lookup_insert_ne by done. intros. by exists s'. }
    assert (mux_wf (wrote n) (mux_read (n_a n) id).2) by by apply mux_read_wf.
    destruct (mux_read_same (n_a n) id) as (Hn & Hp).
    split; cbn; rewrite ?Hp; try done. intros k Hk. rewrite Hn.
    eapply view_sender; [by apply Hview|done|apply streams_kept'].
  - destruct (on_frame_parity (n_a n) f) as [Hp Hn].
    split; cbn; rewrite ?Hp, ?Hn; try done; [by apply on_frame_wf, frame_wf_ok|].
    intros id Hid. rewrite on_open_lookup.
    destruct (opens (n_a n) f id) eqn:Ho; [by apply opens_spec in Ho as (_ & ? & _)|].
    eapply view_sender; [by apply Hview|done|].
    intros s' [(s & Hs & _ & _ & He)|[[? _]|(s & off & data & fin & r & -> & Hs & Hacc)]]%on_frame_effect.
    + exists s. split; [done|congruence].
    + congruence.
    + exists s. apply accept_data_spec in Hacc as (_ & _ & _ & _ & ? & _). split; [done|congruence].
  - destruct (local_step_spec _ _ _ _ _ Hb Hl) as (Hwf & Hp & Hk).
    split; cbn; [done|done|by rewrite Hp|done|].
    intros id Hid. eapply view_receiver; [by apply Hview|].
    intros s' Hs'. destruct Hk as [[_ Hk]|(kind & meta & _ & ->)].
    + apply Hk in Hs' as (s & ? & ? & ? & _). by exists s.
    + cbn in Hs'. rewrite lookup_insert_ne in Hs'; [by exists s'|].
      intros Heq. pose proof (mw_parity _ _ Hb). congruence.
  - assert (mux_wf (wrote_b n) (mux_read (n_b n) id).2) by by apply mux_read_wf.
    destruct (mux_read_same (n_b n) id) as (_ & Hp).
    split; cbn; rewrite ?Hp; try done. intros k Hk. specialize (Hview k Hk).
    unfold mux_read in *. destruct (decide (k = id)) as [->|].
    + rewrite lookup_total_insert_eq. destruct (streams (n_b n) !! id) as [s|] eqn:Hs.
      * destruct (read (s_recv s)) as [d r] eqn:Hr. cbn. rewrite lookup_insert_eq.
        pose proof (view_read Hview s eq_refl) as Hv. by rewrite Hr in Hv.
      * cbn. rewrite app_nil_r, Hs. done.
    + rewrite lookup_total_insert_ne by done.
      destruct (streams (n_b n) !! id) as [s|] eqn:Hs; [|done].
      destruct (read (s_recv s)) as [d r]. cbn. by rewrite lookup_insert_ne.
  - destruct (on_frame_parity (n_b n) f) as [Hp Hn].
    pose proof (proj1 (Forall_forall _ _) Hok _ Hf) as Hfok.
    split; cbn; rewrite ?Hp; try done; [by apply on_frame_wf|].
    intros id Hid. specialize (Hview id Hid). rewrite on_open_lookup.
    destruct (opens (n_b n) f id) eqn:Ho.
    + destruct (opens_spec _ _ _ Ho) as (Hab & _ & Hnone).
      destruct (streams (on_frame (n_b n) f) !! id) as [s'|] eqn:Hs'.
      * destruct (on_frame_effect _ _ _ _ Hs') as
          [(s & Hs & _)|[(_ & Hr & Hpf)|(s & ? & ? & ? & ? & _ & Hs & _)]]; [congruence| |congruence].
        by eapply view_open.
      * eapply (view_receiver (g := []) (sb := None)); [|done].
        destruct Hview as [Hv1 Hv2 Hv3 Hv4]. split; [|done|done|apply prefix_nil].
        intros Hu. destruct (Hv1 Hu) as (? & ? & ? & ? & ?). by split_and!.
    + destruct (streams (on_frame (n_b n) f) !! id) as [s'|] eqn:Hs'.
      * destruct (on_frame_effect _ _ _ _ Hs') as
          [(s & Hs & ? & ? & _)|[(? & _)|(s & off & data & fin & r & -> & Hs & Hacc)]].
        -- eapply view_receiver; [done|]. intros s1 [= <-]. by exists s.
        -- congruence.
        -- eapply view_data; [exact Hview|done|exact Hs|exact Hacc].
      * eapply view_receiver; [exact Hview|done].
Qed.

Lemma reachable_net_inv b n : net_reachable b n → net_inv n.
Proof. apply rtc_invariant; [apply net_new_inv|intros ??; apply net_inv_step]. Qed.

(** A stream that acked its FIN, with nothing in flight and no peer activity. *)
Definition quiet (w : list Z) (s : StreamState) : Prop :=
  stream_wf w s ∧ reassembler_wf (s_recv s) ∧ s_send_base s = zlen w ∧
  s_fin_acked s = true ∧ s_needs_open s = false ∧ s_reset s = false ∧
  s_peer_fin s = HOpen ∧ s_close_received s = false.

Lemma quiet_transmit w s t :
  quiet w s →
  ∃ win, (transmit s t []).2 = [StreamAck (s_id s) (ack_point (s_recv s)) win] ∧
    quiet w (transmit s t []).1 ∧ fully_done (transmit s t []).1 = false.
Proof.
  intros (Hw & Hr & Hb & Hf & Hn & Hreset & Hp & Hc).
  pose proof (sw_base _ _ Hw). pose proof (sw_high _ _ Hw). pose proof (sw_window _ _ Hw).
  pose proof (sw_cwnd _ _ Hw). pose proof (sw_len _ _ Hw).
  unfold transmit. rewrite Hreset. unfold transmit_open. rewrite Hn.
  assert (transmit_data s t [] = (s, [])) as ->.
  { unfold transmit_data. rewrite (sw_next _ _ Hw).
    rewrite as_u64_id by (stream_consts; unfold is_u32 in *; unfold is_u64; lia).
    rewrite !(proj2 (Z.ltb_ge _ _)) by lia. by rewrite Hf, andb_false_r. }
  unfold transmit_ack, transmit_close. cbn [s_close_received s_send_fin set_recv_window].
  rewrite Hc. cbn [andb fst snd]. cbn [s_fin_acked set_recv_window s_close_status]. rewrite Hf.
  eexists. split; [by destruct (s_close_status s)|]. cbn [negb].
  split; [|unfold fully_done, recv_finished; cbn; rewrite Hp, Hc, andb_false_r;
    by destruct (s_send_fin s)].
  split_and!; try done. destruct Hw. by split.
Qed.

Lemma quiet_ack w s ack window t :
  quiet w s → is_u32 window → quiet w (stream_on_ack s ack window t).
Proof.
  intros (Hw & Hr & Hb & Hf & Hn & Hreset & Hp & Hc) Hwin.
  destruct (stream_on_ack_spec w s ack window t Hw Hwin) as [Hw' Hs].
  destruct (Z.ltb_spec (zlen w) ack); [by rewrite Hs; split_and!|].
  destruct Hs as (Hb' & _ & _ & Hf').
  assert (∀ s', s_recv s' = s_recv s → s_needs_open s' = s_needs_open s →
    s_reset s' = s_reset s → s_peer_fin s' = s_peer_fin s →
    s_close_received s' = s_close_received s → stream_wf w s' → s_send_base s' = zlen w →
    s_fin_acked s' = true → quiet w s') as Hq.
  { intros s' H1 H2 H3 H4 H5 ???. split_and!; try congruence. }
  apply Hq; [..|done|rewrite Hb'; lia|by rewrite Hf', Hf];
    unfold stream_on_ack, ack_fin, ack_sample, update_rtt, ack_progress;
    repeat first [case_match; subst; cbn in *; try done].
Qed.

(** The writer's end, polled ([None]) or acked ([Some (ack, window)]) in any
    order: the frames it emits. *)
Fixpoint polls_and_acks (m : StreamMux) (l : list (option (Z * Z))) : list Frame :=
  match l with
  | [] => []
  | None :: l => (poll_transmit m).1 ++ polls_and_acks (poll_transmit m).2 l
  | Some (ack, window) :: l => polls_and_acks (on_frame m (StreamAck 0 ack window)) l
  end.

Definition quiet_mux (w : list Z) (m : StreamMux) : Prop :=
  ∃ s, streams m !! 0 = Some s ∧ s_id s = 0 ∧ quiet w s ∧ ∀ id, id ≠ 0 → streams m !! id = None.

Lemma quiet_polls_and_acks w l : ∀ m,
  quiet_mux w m → Forall (λ o, from_option (λ p : Z * Z, is_u32 p.2) True o) l →
  Forall (λ f, ∃ ack window, f = StreamAck 0 ack window) (polls_and_acks m l).
Proof.
  induction l as [|[[ack window]|] l IH]; intros m (s & Hs & Hid & Hq & Hno) Hl; cbn.
  - constructor.
  - apply Forall_cons_1 in Hl as [Hwin Hl]. apply IH; [|done].
    exists (stream_on_ack s ack window (now m)). unfold with_stream. rewrite Hs. cbn.
    rewrite lookup_insert_eq. split_and!; [done| |by apply quiet_ack|].
    + assert (∀ x, s_id (stream_on_ack s ack window x) = s_id s) as ->; [|done]. intros x.
      unfold stream_on_ack, ack_fin, ack_sample, update_rtt, ack_progress.
      repeat first [case_match; subst; cbn in *; try done].
    + intros id Hne. by rewrite lookup_insert_ne, Hno.
  - apply Forall_cons_1 in Hl as [_ Hl].
    pose proof (poll_transmit_spec m) as Hp. destruct (poll_transmit m) as [out m'].
    destruct Hp as (Hout & Hm & _). cbn [fst snd].
    destruct (quiet_transmit w s (as_u64 (now m + 1)) Hq) as (win & Hl2 & Hq' & Hd).
    assert (s_reset s = false) as Hreset by apply Hq.
    assert (polled (as_u64 (now m + 1)) 0 s =
      ([StreamAck (s_id s) (ack_point (s_recv s)) win],
       Some (transmit s (as_u64 (now m + 1)) []).1)) as Hpoll.
    { unfold polled. rewrite Hreset. destruct (transmit s _ []) as [s1 l1]. cbn in *.
      by rewrite Hd, Hl2. }
    apply Forall_app_2.
    + apply Forall_forall. intros f (id & s' & Hs' & Hin)%Hout.
      destruct (decide (id = 0)) as [->|Hne]; [|by rewrite Hno in Hs'].
      rewrite Hs in Hs'. injection Hs' as <-. rewrite Hpoll in Hin.
      apply list_elem_of_singleton in Hin as ->. rewrite Hid. eauto.
    + apply IH; [|done]. eexists. rewrite Hm, Hs. cbn. rewrite Hpoll. split_and!; [done| |done|].
      * destruct Hq as (Hw & Hr & _).
        by destruct (transmit_frames w 0 s (as_u64 (now m + 1)) Hid Hw Hr Hreset) as (_ & [] & _);
          congruence.
      * intros id Hne. by rewrite Hm, Hno.
Qed.

(** ** Properties *)

(** C5 Stream safety: under any loss, duplication and reordering, with any frames
    at all arriving at the writer and any interleaving of the two owners'
    operations, the bytes read from a stream are a prefix of those written. *)
Theorem stream_delivers_prefix b n id :
  net_reachable b n → id mod 2 = local_parity (n_a n) →
  got n !!! id `prefix_of` wrote n !!! id.
Proof. intros Hn%reachable_net_inv Hid. apply (ni_view _ Hn id Hid). Qed.

(** C36 No truncation: when a receiver that still has the stream reports
    end-of-stream, the reader has every byte that was written, and the writer had
    closed it. (Of a stream it does not have, or no longer has, the multiplexer always
    reports the end.) *)
Theorem stream_eof_complete b n id s :
  net_reachable b n → id mod 2 = local_parity (n_a n) →
  streams (n_b n) !! id = Some s → is_recv_finished (n_b n) id = true →
  got n !!! id = wrote n !!! id ∧ closed (streams (n_a n) !! id).
Proof.
  intros Hn%reachable_net_inv Hid Hs. unfold is_recv_finished. rewrite Hs. unfold recv_finished.
  destruct (v_b _ _ _ _ _ _ _ (ni_view _ Hn id Hid) _ Hs) as (Hh & Hg & Hat).
  destruct (s_peer_fin s) as [|at_] eqn:Hp; [done|]. destruct (Hat at_ eq_refl) as [-> Hc].
  intros [Hle%Z.leb_le _]%andb_true_iff. split; [|done]. rewrite Hg. apply take_ge. lia.
Qed.

(** Invariant of both ends: in every reachable state each stream's windows,
    timers and offsets are in their bounds and its send buffer is exactly the
    unacknowledged suffix of what was written, whatever acks arrived. *)
Theorem reachable_streams_bounded b n id s :
  net_reachable b n → streams (n_a n) !! id = Some s →
  MSS ≤ s_cwnd s ≤ MAX_CWND ∧ 2 * MSS ≤ s_ssthresh s ≤ MAX_CWND ∧
  MIN_RTO ≤ s_rto s ≤ MAX_RTO ∧
  0 ≤ s_send_base s ≤ s_send_high s ∧ s_send_high s ≤ s_send_next s ∧
  s_send_buf s = drop (Z.to_nat (s_send_base s)) (wrote n !!! id) ∧
  reassembler_wf (s_recv s).
Proof.
  intros Hn%reachable_net_inv Hs. destruct (mw_stream _ _ (ni_a _ Hn) _ _ Hs) as (_ & Hw & Hr).
  rewrite (sw_next _ _ Hw). split_and!; try apply Hw. done.
Qed.

(** The open frame is sent by the first poll of a stream and by no later one,
    whether or not it arrived. *)
Theorem open_sent_only_by_first_poll w m id s :
  mux_wf w m → streams m !! id = Some s → s_reset s = false →
  let '(out, m') := poll_transmit m in
  (StreamOpen id (s_kind s) (s_meta s) ∈ out ↔ s_needs_open s = true) ∧
  ∀ s', streams m' !! id = Some s' → s_needs_open s' = false.
Proof.
  intros Hwf Hs Hreset. pose proof (poll_transmit_spec m) as Hp.
  destruct (poll_transmit m) as [out m']. destruct Hp as (Hout & Hm & _).
  destruct (mw_stream _ _ Hwf _ _ Hs) as (Hid & Hsw & Hr).
  destruct (transmit_spec _ _ (as_u64 (now m + 1)) [] Hsw Hr Hreset)
    as (l & Hl & _ & Hn & Hopen & _).
  rewrite Hid in Hopen. cbn in Hl. split.
  - rewrite <- Hopen, Hout. split.
    + intros (k & s2 & Hs2 & Hin).
      destruct (polled_frames w m _ k s2 _ Hwf Hs2 Hin) as (_ & [Hf|]); [|done].
      destruct (mw_stream _ _ Hwf _ _ Hs2) as (Hk & _).
      assert (id = k) as -> by (destruct Hf; congruence).
      rewrite Hs in Hs2. injection Hs2 as <-. unfold polled in Hin. rewrite Hreset in Hin.
      destruct (transmit s _ []) as [s1 l1]. cbn in *. by subst.
    + intros Hin. exists id, s. split; [done|]. unfold polled. rewrite Hreset.
      destruct (transmit s _ []) as [s1 l1]. cbn in *. by subst.
  - intros s'. rewrite Hm, Hs. cbn. unfold polled. rewrite Hreset.
    destruct (transmit s _ []) as [s1 l1]. cbn in *. destruct (fully_done s1); [done|].
    by intros [= <-].
Qed.

(** ** Witnesses, and a lost FIN *)

(** One owner's or network's action, as a function of the system. *)
Definition a_open (n : net) : net :=
  mkNet (mux_open (n_a n) Forward [49]).2 (n_b n)
    (<[(mux_open (n_a n) Forward [49]).1 := []]> (wrote n)) (wrote_b n) (got n) (wire_ab n ++ []).
Definition a_write (id : Z) (data : list Z) (n : net) : net :=
  mkNet (mux_write (n_a n) id data) (n_b n) (<[id := wrote n !!! id ++ data]> (wrote n))
    (wrote_b n) (got n) (wire_ab n ++ []).
Definition a_close (id : Z) (n : net) : net :=
  mkNet (mux_close (n_a n) id 0) (n_b n) (wrote n) (wrote_b n) (got n) (wire_ab n ++ []).
Definition a_poll (n : net) : net :=
  mkNet (poll_transmit (n_a n)).2 (n_b n) (wrote n) (wrote_b n) (got n)
    (wire_ab n ++ (poll_transmit (n_a n)).1).
Definition a_frame (f : Frame) (n : net) : net :=
  mkNet (on_frame (n_a n) f) (n_b n) (on_open (n_a n) f (wrote n)) (wrote_b n) (got n) (wire_ab n).
Definition b_frame (f : Frame) (n : net) : net :=
  mkNet (n_a n) (on_frame (n_b n) f) (wrote n) (on_open (n_b n) f (wrote_b n))
    (on_open (n_b n) f (got n)) (wire_ab n).
Definition b_read (id : Z) (n : net) : net :=
  mkNet (n_a n) (mux_read (n_b n) id).2 (wrote n) (wrote_b n)
    (<[id := got n !!! id ++ (mux_read (n_b n) id).1]> (got n)) (wire_ab n).

(** The client opens stream 0, writes three bytes and polls; everything arrives
    and is read. *)
Definition sample_open : net :=
  b_frame (StreamOpen 0 Forward [49]) (a_poll (a_write 0 [7; 8; 9] (a_open (net_new true)))).
Definition sample_data : net := b_read 0 (b_frame (StreamData 0 0 [7; 8; 9] false) sample_open).

Ltac in_wire := apply (bool_decide_unpack _); vm_compute; exact I.

Lemma sample_data_reachable : net_reachable true sample_data.
Proof.
  unfold net_reachable. eapply rtc_l; [apply net_a, (ls_open _ _ Forward [49]); cbn; lia|].
  eapply rtc_l; [eapply net_a, (ls_write _ _ 0 _ [7; 8; 9]); [reflexivity|reflexivity|vm_compute; reflexivity]|].
  eapply rtc_l; [apply net_a, ls_poll|].
  eapply rtc_l; [apply (net_b_frame _ (StreamOpen 0 Forward [49])); in_wire|].
  eapply rtc_l; [apply (net_b_frame _ (StreamData 0 0 [7; 8; 9] false)); in_wire|].
  eapply rtc_l; [apply (net_b_read _ 0)|].
  apply rtc_refl.
Defined.

(** All data acked, then the writer closes: the FIN it sends (again) is lost, and
    the reader's next ordinary ack arrives. *)
Definition fin_lost : net :=
  a_frame (StreamAck 0 3 262144)
    (a_poll (a_close 0 (a_frame (StreamAck 0 3 262144) sample_data))).

Lemma fin_lost_reachable : net_reachable true fin_lost.
Proof.
  unfold net_reachable. etrans; [apply sample_data_reachable|].
  eapply rtc_l; [apply (net_a_frame _ (StreamAck 0 3 262144)); cbn; lia_ints|].
  eapply rtc_l; [eapply net_a, (ls_close _ _ 0 0)|].
  eapply rtc_l; [apply net_a, ls_poll|].
  eapply rtc_l; [apply (net_a_frame _ (StreamAck 0 3 262144)); cbn; lia_ints|].
  apply rtc_refl.
Defined.

Lemma fin_lost_quiet : quiet_mux [7; 8; 9] (n_a fin_lost).
Proof.
  pose proof (reachable_net_inv _ _ fin_lost_reachable) as Hn.
  destruct (streams (n_a fin_lost) !! 0) as [s|] eqn:Hs; [|vm_compute in Hs; discriminate].
  destruct (mw_stream _ _ (ni_a _ Hn) _ _ Hs) as (Hid & Hw & Hr).
  assert (wrote fin_lost !!! 0 = [7; 8; 9]) as Hwr by (vm_compute; reflexivity).
  rewrite Hwr in Hw. exists s. split_and!; [done|done| |].
  - split_and!; [exact Hw|exact Hr|..];
      (vm_compute in Hs; injection Hs as <-; reflexivity).
  - intros id Hne. assert ((map_to_list (streams (n_a fin_lost))).*1 = [0]) as Hm
      by (vm_compute; reflexivity).
    destruct (streams (n_a fin_lost) !! id) as [s0|] eqn:Hid'; [|reflexivity].
    apply elem_of_map_to_list, (list_elem_of_fmap_2 fst) in Hid'. rewrite Hm in Hid'.
    change ((id, s0).1) with id in Hid'. apply list_elem_of_singleton in Hid'. by destruct (Hne Hid').
Qed.

(** A lost FIN is never sent again: there is a reachable state where the
    reader has every byte but not the end of the stream, and from then on,
    however the writer is polled and whatever acks it gets, every frame it emits
    is a bare window ack — no FIN, no close. *)
Theorem lost_fin_never_resent :
  ∃ n, net_reachable true n ∧ got n !!! 0 = wrote n !!! 0 ∧
    is_recv_finished (n_b n) 0 = false ∧
    ∀ l, Forall (λ o, from_option (λ p : Z * Z, is_u32 p.2) True o) l →
      Forall (λ f, ∃ ack window, f = StreamAck 0 ack window) (polls_and_acks (n_a n) l).
Proof.
  exists fin_lost. split_and!; [apply fin_lost_reachable|vm_compute; reflexivity..|].
  intros l. apply (quiet_polls_and_acks [7; 8; 9]), fin_lost_quiet.
Qed.

Lemma stream_delivers_prefix_witness : got sample_data !!! 0 `prefix_of` [7; 8; 9].
Proof.
  change (got sample_data !!! 0 `prefix_of` wrote sample_data !!! 0).
  apply (stream_delivers_prefix true sample_data 0 sample_data_reachable). reflexivity.
Defined.

Lemma reachable_streams_bounded_witness :
  ∃ s, streams (n_a sample_data) !! 0 = Some s ∧ MIN_RTO ≤ s_rto s ≤ MAX_RTO.
Proof.
  destruct (streams (n_a sample_data) !! 0) as [s|] eqn:Hs; [|vm_compute in Hs; discriminate].
  exists s. split; [reflexivity|].
  apply (reachable_streams_bounded true sample_data 0 s sample_data_reachable Hs).
Defined.

(** The FIN arrives. *)
Definition sample_eof : net :=
  b_frame (StreamData 0 3 [] true) (a_poll (a_close 0 (a_frame (StreamAck 0 3 262144) sample_data))).

Lemma stream_eof_complete_witness :
  is_recv_finished (n_b sample_eof) 0 = true ∧ got sample_eof !!! 0 = wrote sample_eof !!! 0.
Proof.
  assert (is_recv_finished (n_b sample_eof) 0 = true) as Hfin by (vm_compute; reflexivity).
  split; [exact Hfin|].
  destruct (streams (n_b sample_eof) !! 0) as [s|] eqn:Hs; [|vm_compute in Hs; discriminate].
  refine (proj1 (stream_eof_complete true sample_eof 0 s _ eq_refl Hs Hfin)).
  unfold net_reachable. etrans; [apply sample_data_reachable|].
  eapply rtc_l; [apply (net_a_frame _ (StreamAck 0 3 262144)); cbn; lia_ints|].
  eapply rtc_l; [eapply net_a, (ls_close _ _ 0 0)|].
  eapply rtc_l; [apply net_a, ls_poll|].
  eapply rtc_l; [apply (net_b_frame _ (StreamData 0 3 [] true)); in_wire|].
  apply rtc_refl.
Defined.

Lemma open_sent_only_by_first_poll_witness :
  let m := (mux_open (mux_new true) Forward [49]).2 in
  StreamOpen 0 Forward [49] ∈ (poll_transmit m).1 ∧
  ∀ s', streams (poll_transmit m).2 !! 0 = Some s' → s_needs_open s' = false.
Proof.
  cbn zeta. pose proof (open_sent_only_by_first_poll (<[0 := []]> ∅)
    (mux_open (mux_new true) Forward [49]).2 0 (stream_new 0 Forward [49] true)
    (open_wf ∅ (mux_new true) Forward [49] (mux_new_wf true) ltac:(cbn; lia)) eq_refl eq_refl) as H.
  destruct (poll_transmit (mux_open (mux_new true) Forward [49]).2) as [out m'].
  destruct H as [H1 H2]. split; [by apply H1|exact H2].
Defined.
