(* ===== verification/Cell.v ===== *)
(** * Screen cells ([crates/term/src/cell.rs])

    A character is its code point, an attribute byte is a number below 256. *)

From S2P Require Import Prelude.

(** @ crates/term/src/cell.rs:3-13 Color *)
Inductive Color :=
| Default
| Indexed (n : Z)
| Rgb (r g b : Z).

#[export] Instance color_eq_dec : EqDecision Color.
Proof. solve_decision. Defined.

(** The attribute bits. @ crates/term/src/cell.rs:15-27 flags *)
Definition BOLD : Z := Z.shiftl 1 0.
Definition UNDERLINE : Z := Z.shiftl 1 1.
Definition REVERSE : Z := Z.shiftl 1 2.
Definition ITALIC : Z := Z.shiftl 1 3.
Definition DIM : Z := Z.shiftl 1 4.
Definition HIDDEN : Z := Z.shiftl 1 5.
Definition STRIKE : Z := Z.shiftl 1 6.
Definition PREDICTED : Z := Z.shiftl 1 7.

(** @ crates/term/src/cell.rs:29-36 Cell *)
Record Cell := mkCell {
  ch : Z;
  fg : Color;
  bg : Color;
  flags : Z;
}.

#[export] Instance cell_eq_dec : EqDecision Cell.
Proof. solve_decision. Defined.

(** [Cell::default()] and [Cell::blank()].
    @ crates/term/src/cell.rs:38-52 Cell::blank *)
Definition blank : Cell := {| ch := 32; fg := Default; bg := Default; flags := 0 |}.

#[export] Instance cell_inhabited : Inhabited Cell := populate blank.

(** @ crates/term/src/cell.rs:54-56 Cell::is_blank *)
Definition is_blank (c : Cell) : bool := bool_decide (c = blank).

(** A [char] is a Unicode scalar value. *)
Definition is_char (c : Z) : Prop := 0 ≤ c < 0x110000 ∧ ¬ (0xD800 ≤ c < 0xE000).

#[export] Instance is_char_dec c : Decision (is_char c).
Proof. unfold is_char. apply _. Defined.

Definition color_wf (c : Color) : Prop :=
  match c with
  | Default => True
  | Indexed n => is_u8 n
  | Rgb r g b => is_u8 r ∧ is_u8 g ∧ is_u8 b
  end.

(** The field types of the struct. *)
Definition cell_wf (c : Cell) : Prop :=
  is_char (ch c) ∧ color_wf (fg c) ∧ color_wf (bg c) ∧ is_u8 (flags c).

Lemma blank_wf : cell_wf blank.
Proof. unfold cell_wf, is_char; cbn. split_and!; try lia_ints; done. Qed.
#[export] Hint Resolve blank_wf : noissh.
