(* ===== verification/Text.v ===== *)
(** * Strings

    A [String] is the list of its code points; on the wire it is UTF-8. What the
    source uses of the standard library's strings: [as_bytes], [from_utf8],
    [strip_prefix], [split_once], [trim], [split_whitespace], [lines] and the
    parser of unsigned decimal numbers. *)

From S2P Require Import Prelude Cell.

(** ** UTF-8 *)

Definition utf8_char (c : Z) : list Z :=
  if c <? 0x80 then [c]
  else if c <? 0x800 then [0xC0 + c / 64; 0x80 + c mod 64]
  else if c <? 0x10000 then [0xE0 + c / 4096; 0x80 + (c / 64) mod 64; 0x80 + c mod 64]
  else [0xF0 + c / 262144; 0x80 + (c / 4096) mod 64; 0x80 + (c / 64) mod 64; 0x80 + c mod 64].

(** [s.as_bytes()]. *)
Definition as_bytes (s : list Z) : list Z := concat (utf8_char <$> s).

Definition continuation (b : Z) : bool := (0x80 <=? b) && (b <? 0xC0).

Definition push_char (c : Z) (low : Z) (rest : option (list Z)) : option (list Z) :=
  if (low <=? c) && bool_decide (is_char c) then cons c <$> rest else None.

(** [std::str::from_utf8]: overlong forms, surrogates and values above the last
    code point are rejected. *)
Fixpoint from_utf8 (l : list Z) : option (list Z) :=
  match l with
  | [] => Some []
  | b0 :: l =>
    if b0 <? 0x80 then push_char b0 0 (from_utf8 l)
    else
      match l with
      | [] => None
      | b1 :: l =>
        if negb (continuation b1) then None
        else if b0 <? 0xE0 then push_char ((b0 - 0xC0) * 64 + (b1 - 0x80)) 0x80 (from_utf8 l)
        else
          match l with
          | [] => None
          | b2 :: l =>
            if negb (continuation b2) then None
            else if b0 <? 0xF0 then
              push_char ((b0 - 0xE0) * 4096 + (b1 - 0x80) * 64 + (b2 - 0x80)) 0x800 (from_utf8 l)
            else
              match l with
              | [] => None
              | b3 :: l =>
                if negb (continuation b3) then None
                else push_char ((b0 - 0xF0) * 262144 + (b1 - 0x80) * 4096 + (b2 - 0x80) * 64 +
                       (b3 - 0x80)) 0x10000 (from_utf8 l)
              end
          end
      end
  end.

Lemma push_char_some c low rest :
  low ≤ c → is_char c → push_char c low rest = cons c <$> rest.
Proof.
  intros. unfold push_char. by rewrite (proj2 (Z.leb_le _ _)), bool_decide_eq_true_2 by done.
Qed.

Lemma continuation_low c : continuation (0x80 + c mod 64) = true.
Proof.
  unfold continuation. pose proof (Z.mod_pos_bound c 64 ltac:(lia)).
  apply andb_true_iff. rewrite Z.leb_le, Z.ltb_lt. lia.
Qed.

Lemma from_utf8_char c l : is_char c → from_utf8 (utf8_char c ++ l) = cons c <$> from_utf8 l.
Proof.
  intros Hc. pose proof Hc as [Hr _]. unfold utf8_char.
  pose proof (Z.div_mod c 64 ltac:(lia)). pose proof (Z.mod_pos_bound c 64 ltac:(lia)).
  destruct (Z.ltb_spec c 0x80); [|destruct (Z.ltb_spec c 0x800); [|destruct (Z.ltb_spec c 0x10000)]];
    cbn [app from_utf8].
  - rewrite (proj2 (Z.ltb_lt _ _)) by lia. apply push_char_some; [lia|done].
  - rewrite (proj2 (Z.ltb_ge _ _)) by lia. rewrite continuation_low. cbn [negb].
    rewrite (proj2 (Z.ltb_lt _ _)) by lia.
    replace ((0xC0 + c / 64 - 0xC0) * 64 + (0x80 + c mod 64 - 0x80)) with c by lia.
    by apply push_char_some.
  - assert (c / 4096 = c / 64 / 64) as He by (rewrite Z.div_div by lia; done).
    pose proof (Z.div_mod (c / 64) 64 ltac:(lia)).
    pose proof (Z.mod_pos_bound (c / 64) 64 ltac:(lia)).
    rewrite !(proj2 (Z.ltb_ge _ _)) by lia. rewrite !continuation_low. cbn [negb].
    rewrite (proj2 (Z.ltb_lt _ _)) by lia.
    replace ((0xE0 + c / 4096 - 0xE0) * 4096 + (0x80 + (c / 64) mod 64 - 0x80) * 64 +
      (0x80 + c mod 64 - 0x80)) with c by lia.
    by apply push_char_some.
  - assert (c / 4096 = c / 64 / 64) as He by (rewrite Z.div_div by lia; done).
    assert (c / 262144 = c / 4096 / 64) as He' by (rewrite Z.div_div by lia; done).
    pose proof (Z.div_mod (c / 64) 64 ltac:(lia)).
    pose proof (Z.mod_pos_bound (c / 64) 64 ltac:(lia)).
    pose proof (Z.div_mod (c / 4096) 64 ltac:(lia)).
    pose proof (Z.mod_pos_bound (c / 4096) 64 ltac:(lia)).
    rewrite !(proj2 (Z.ltb_ge _ _)) by lia. rewrite !continuation_low. cbn [negb].
    replace ((0xF0 + c / 262144 - 0xF0) * 262144 + (0x80 + (c / 4096) mod 64 - 0x80) * 4096 +
      (0x80 + (c / 64) mod 64 - 0x80) * 64 + (0x80 + c mod 64 - 0x80)) with c by lia.
    by apply push_char_some.
Qed.

Lemma from_utf8_as_bytes s : Forall is_char s → from_utf8 (as_bytes s) = Some s.
Proof.
  induction 1 as [|c s Hc _ IH]; [done|].
  change (as_bytes (c :: s)) with (utf8_char c ++ as_bytes s).
  by rewrite from_utf8_char, IH.
Qed.

(** What may follow the first byte of a character of more than one: its length and
    the range of the second byte; [None] where no character starts like that. *)
Definition utf8_lead (b0 : Z) : option (nat * Z * Z) :=
  if (0xC2 <=? b0) && (b0 <=? 0xDF) then Some (2%nat, 0x80, 0xBF)
  else if b0 =? 0xE0 then Some (3%nat, 0xA0, 0xBF)
  else if b0 =? 0xED then Some (3%nat, 0x80, 0x9F)
  else if (0xE1 <=? b0) && (b0 <=? 0xEF) then Some (3%nat, 0x80, 0xBF)
  else if b0 =? 0xF0 then Some (4%nat, 0x90, 0xBF)
  else if (0xF1 <=? b0) && (b0 <=? 0xF3) then Some (4%nat, 0x80, 0xBF)
  else if b0 =? 0xF4 then Some (4%nat, 0x80, 0x8F)
  else None.

Definition REPLACEMENT : Z := 0xFFFD.

(** [String::from_utf8_lossy]: each longest part that starts like a character but
    is none becomes one replacement character. *)
Fixpoint from_utf8_lossy (l : list Z) : list Z :=
  match l with
  | [] => []
  | b0 :: l =>
    if b0 <? 0x80 then b0 :: from_utf8_lossy l
    else
      match utf8_lead b0 with
      | None => REPLACEMENT :: from_utf8_lossy l
      | Some (n, lo, hi) =>
        match l with
        | [] => [REPLACEMENT]
        | b1 :: l1 =>
          if negb ((lo <=? b1) && (b1 <=? hi)) then REPLACEMENT :: from_utf8_lossy l
          else if (n =? 2)%nat then ((b0 - 0xC0) * 64 + (b1 - 0x80)) :: from_utf8_lossy l1
          else
            match l1 with
            | [] => [REPLACEMENT]
            | b2 :: l2 =>
              if negb (continuation b2) then REPLACEMENT :: from_utf8_lossy l1
              else if (n =? 3)%nat then
                ((b0 - 0xE0) * 4096 + (b1 - 0x80) * 64 + (b2 - 0x80)) :: from_utf8_lossy l2
              else
                match l2 with
                | [] => [REPLACEMENT]
                | b3 :: l3 =>
                  if negb (continuation b3) then REPLACEMENT :: from_utf8_lossy l2
                  else ((b0 - 0xF0) * 262144 + (b1 - 0x80) * 4096 + (b2 - 0x80) * 64 + (b3 - 0x80))
                    :: from_utf8_lossy l3
                end
            end
        end
      end
  end.

(** Decides the tests of [utf8_lead] on a first byte whose range is known. *)
Ltac solve_lead :=
  unfold utf8_lead;
  repeat match goal with
  | |- context [?a <=? ?b] => destruct (Z.leb_spec a b); try lia
  | |- context [?a =? ?b] => destruct (Z.eqb_spec a b); try lia
  end; cbn [andb].

Lemma lossy_char c l : is_char c → from_utf8_lossy (utf8_char c ++ l) = c :: from_utf8_lossy l.
Proof.
  intros [Hr Hs]. unfold utf8_char.
  pose proof (Z.div_mod c 64 ltac:(lia)). pose proof (Z.mod_pos_bound c 64 ltac:(lia)).
  destruct (Z.ltb_spec c 0x80); [|destruct (Z.ltb_spec c 0x800); [|destruct (Z.ltb_spec c 0x10000)]];
    cbn [app from_utf8_lossy].
  - by rewrite (proj2 (Z.ltb_lt _ _)) by lia.
  - rewrite (proj2 (Z.ltb_ge _ _)) by lia.
    assert (utf8_lead (0xC0 + c / 64) = Some (2%nat, 0x80, 0xBF)) as -> by (solve_lead; done).
    rewrite !(proj2 (Z.leb_le _ _)) by lia. cbn. f_equal. lia.
  - assert (c / 4096 = c / 64 / 64) as He by (rewrite Z.div_div by lia; done).
    pose proof (Z.div_mod (c / 64) 64 ltac:(lia)).
    pose proof (Z.mod_pos_bound (c / 64) 64 ltac:(lia)).
    rewrite (proj2 (Z.ltb_ge _ _)) by lia.
    assert (∃ lo hi, utf8_lead (0xE0 + c / 4096) = Some (3%nat, lo, hi) ∧
      lo ≤ 0x80 + (c / 64) mod 64 ≤ hi) as (lo & hi & -> & Hb).
    { solve_lead; eexists _, _; (split; [reflexivity|]); lia. }
    rewrite !(proj2 (Z.leb_le _ _)), continuation_low by lia. cbn. f_equal. lia.
  - assert (c / 4096 = c / 64 / 64) as He by (rewrite Z.div_div by lia; done).
    assert (c / 262144 = c / 4096 / 64) as He' by (rewrite Z.div_div by lia; done).
    pose proof (Z.div_mod (c / 64) 64 ltac:(lia)).
    pose proof (Z.mod_pos_bound (c / 64) 64 ltac:(lia)).
    pose proof (Z.div_mod (c / 4096) 64 ltac:(lia)).
    pose proof (Z.mod_pos_bound (c / 4096) 64 ltac:(lia)).
    rewrite (proj2 (Z.ltb_ge _ _)) by lia.
    assert (∃ lo hi, utf8_lead (0xF0 + c / 262144) = Some (4%nat, lo, hi) ∧
      lo ≤ 0x80 + (c / 4096) mod 64 ≤ hi) as (lo & hi & -> & Hb).
    { solve_lead; eexists _, _; (split; [reflexivity|]); lia. }
    rewrite !(proj2 (Z.leb_le _ _)), !continuation_low by lia. cbn. f_equal. lia.
Qed.

(** Text is decoded as itself. *)
Lemma lossy_as_bytes s : Forall is_char s → from_utf8_lossy (as_bytes s) = s.
Proof.
  induction 1 as [|c s Hc _ IH]; [done|].
  change (as_bytes (c :: s)) with (utf8_char c ++ as_bytes s). by rewrite lossy_char, IH.
Qed.

Lemma as_bytes_app s1 s2 : as_bytes (s1 ++ s2) = as_bytes s1 ++ as_bytes s2.
Proof. unfold as_bytes. by rewrite fmap_app, concat_app. Qed.

Lemma push_char_range c low rest s :
  push_char c low rest = Some s → ∃ s', s = c :: s' ∧ is_char c ∧ rest = Some s'.
Proof.
  unfold push_char. destruct (_ && _) eqn:H; [|done]. apply andb_true_iff in H as [_ H].
  apply bool_decide_eq_true_1 in H. destruct rest as [s'|]; [|done]. intros [= <-]. eauto.
Qed.

(** Only scalar values are decoded. *)
Lemma from_utf8_range l s : from_utf8 l = Some s → Forall is_char s.
Proof.
  assert (∀ n l s, (length l ≤ n)%nat → from_utf8 l = Some s → Forall is_char s) as H;
    [|by apply (H (length l))].
  clear. induction n as [|n IH]; intros l s Hl Hs; [destruct l; [|cbn in Hl; lia]|];
    [by injection Hs as <-|].
  destruct l as [|b0 l]; [by injection Hs as <-|]. cbn [from_utf8 length] in *.
  repeat case_match; try done;
    apply push_char_range in Hs as (s' & -> & ? & ?); constructor; try done;
    (eapply IH; [|done]); cbn [length] in *; lia.
Qed.

(** ** Searching *)

(** [s.strip_prefix(p)]. *)
Fixpoint strip_prefix (p s : list Z) : option (list Z) :=
  match p, s with
  | [], _ => Some s
  | a :: p, b :: s => if a =? b then strip_prefix p s else None
  | _ :: _, [] => None
  end.

(** [s.split_once(f)] for a character predicate. *)
Fixpoint split_once (f : Z → bool) (s : list Z) : option (list Z * list Z) :=
  match s with
  | [] => None
  | c :: s => if f c then Some ([], s) else '(a, b) ← split_once f s; Some (c :: a, b)
  end.

Lemma strip_prefix_spec p s s' : strip_prefix p s = Some s' ↔ s = p ++ s'.
Proof.
  revert s. induction p as [|a p IH]; intros s; cbn; [naive_solver|].
  destruct s as [|b s]; [naive_solver|].
  destruct (Z.eqb_spec a b) as [->|Hne]; [rewrite IH; naive_solver|]. split; [done|].
  intros [= -> _]. done.
Qed.

Lemma split_once_app f a c b :
  Forall (λ x, f x = false) a → f c = true → split_once f (a ++ c :: b) = Some (a, b).
Proof.
  intros Ha Hc. induction Ha as [|x a Hx _ IH]; cbn; [by rewrite Hc|]. by rewrite Hx, IH.
Qed.

(** ** Decimal numbers *)

Definition is_digit (c : Z) : bool := (48 <=? c) && (c <=? 57).

(** One digit of [from_str_radix]: overflow is an error. *)
Definition push_digit (max : Z) (acc : option Z) (c : Z) : option Z :=
  n ← acc;
  if is_digit c then
    let n := n * 10 + (c - 48) in if n <=? max then Some n else None
  else None.

(** [s.parse::<u64>()] (and the narrower types, by their maximum): one sign is
    allowed, at least one digit is needed. *)
Definition parse_uint (max : Z) (s : list Z) : option Z :=
  let s := match s with 43 :: s => s | _ => s end in
  match s with
  | [] => None
  | _ => foldl (push_digit max) (Some 0) s
  end.

Lemma digits_loop_spec fuel : ∀ n acc,
  0 ≤ n < 10 ^ Z.of_nat fuel → (1 ≤ fuel)%nat →
  ∃ ds, digits_loop fuel n acc = ds ++ acc ∧ ds ≠ [] ∧ Forall (λ c, is_digit c = true) ds ∧
    ∀ max m, 0 ≤ m → m * 10 ^ zlen ds + n ≤ max →
      foldl (push_digit max) (Some m) ds = Some (m * 10 ^ zlen ds + n).
Proof.
  induction fuel as [|fuel IH]; intros n acc Hn Hfuel; [lia|]. cbn [digits_loop].
  pose proof (Z.div_mod n 10 ltac:(lia)). pose proof (Z.mod_pos_bound n 10 ltac:(lia)).
  assert (is_digit (48 + n mod 10) = true) as Hd
    by (unfold is_digit; rewrite andb_true_iff, !Z.leb_le; lia).
  assert (∀ max m, 0 ≤ m * 10 + n mod 10 ≤ max →
    push_digit max (Some m) (48 + n mod 10) = Some (m * 10 + n mod 10)) as Hpush.
  { intros max m Hm. unfold push_digit. cbn [mbind option_bind]. rewrite Hd.
    replace (48 + n mod 10 - 48) with (n mod 10) by lia.
    by rewrite (proj2 (Z.leb_le _ _)) by lia. }
  destruct (Z.eqb_spec (n / 10) 0) as [Hz|Hz].
  - exists [48 + n mod 10]. split_and!; [done|done|by repeat constructor|].
    intros max m Hm0 Hm. change (zlen [48 + n mod 10]) with 1 in *. cbn [foldl].
    rewrite Hpush by lia. f_equal. lia.
  - rewrite Nat2Z.inj_succ, Z.pow_succ_r in Hn by lia.
    assert (0 ≤ n / 10 < 10 ^ Z.of_nat fuel) as Hdiv
      by (split; [apply Z.div_pos; lia|apply Z.div_lt_upper_bound; lia]).
    destruct fuel as [|fuel]; [cbn in Hdiv; lia|].
    destruct (IH (n / 10) ((48 + n mod 10) :: acc) Hdiv ltac:(lia)) as (ds & -> & Hne & Hds & Hf).
    exists (ds ++ [48 + n mod 10]). rewrite <- (assoc_L (++)).
    split_and!; [done|by destruct ds|by apply Forall_app_2; [|repeat constructor]|].
    intros max m Hm0. rewrite length_app. cbn [length]. rewrite Nat2Z.inj_add, Z.pow_add_r by lia.
    change (10 ^ Z.of_nat 1) with 10. intros Hm.
    rewrite foldl_app, Hf by nia. cbn [foldl]. rewrite Hpush by nia. f_equal. nia.
Qed.

Lemma digits_spec n :
  is_u64 n → digits n ≠ [] ∧ Forall (λ c, is_digit c = true) (digits n) ∧
  ∀ max, n ≤ max → parse_uint max (digits n) = Some n.
Proof.
  intros Hn. unfold digits.
  destruct (digits_loop_spec 20 n []) as (ds & -> & Hne & Hds & Hf); [|lia|].
  { unfold is_u64 in Hn. change (10 ^ Z.of_nat 20) with 100000000000000000000. lia_ints. }
  rewrite app_nil_r. split_and!; [done|done|]. intros max Hmax.
  assert (parse_uint max ds = foldl (push_digit max) (Some 0) ds) as ->.
  { unfold parse_uint. destruct ds as [|c ds]; [done|]. apply Forall_cons_1 in Hds as [Hc _].
    unfold is_digit in Hc. assert (c ≠ 43) by lia.
    do 6 (destruct c as [|c|c]; try done; try (destruct c as [c|c|]; try done)). }
  rewrite Hf by lia. f_equal. 
Qed.

(** ** White space and lines *)

(** [char::is_whitespace]: the Unicode property [White_Space]. *)
Definition is_whitespace (c : Z) : bool :=
  ((9 <=? c) && (c <=? 13)) || (c =? 32) || (c =? 0x85) || (c =? 0xA0) || (c =? 0x1680)
  || ((0x2000 <=? c) && (c <=? 0x200A)) || (c =? 0x2028) || (c =? 0x2029) || (c =? 0x202F)
  || (c =? 0x205F) || (c =? 0x3000).

(** [s.trim_start_matches(f)]. *)
Fixpoint trim_start (f : Z → bool) (s : list Z) : list Z :=
  match s with
  | c :: s' => if f c then trim_start f s' else s
  | [] => []
  end.

(** [s.trim()]. *)
Definition trim (s : list Z) : list Z :=
  reverse (trim_start is_whitespace (reverse (trim_start is_whitespace s))).

Definition flush (word : list Z) (rest : list (list Z)) : list (list Z) :=
  match word with [] => rest | _ => word :: rest end.

(** [s.split_whitespace()]; [word] is what was read of the current word. *)
Fixpoint words (word s : list Z) : list (list Z) :=
  match s with
  | [] => flush word []
  | c :: s => if is_whitespace c then flush word (words [] s) else words (word ++ [c]) s
  end.
Definition split_whitespace (s : list Z) : list (list Z) := words [] s.

(** A line without the carriage return before its line feed. *)
Definition strip_cr (line : list Z) : list Z :=
  match last line with Some 13 => take (length line - 1) line | _ => line end.

(** [s.lines()]; a last line without line feed counts when it is not empty. *)
Fixpoint lines_from (line s : list Z) : list (list Z) :=
  match s with
  | [] => match line with [] => [] | _ => [line] end
  | c :: s => if c =? 10 then strip_cr line :: lines_from [] s else lines_from (line ++ [c]) s
  end.
Definition lines (s : list Z) : list (list Z) := lines_from [] s.

(** No white space in it. *)
Definition solid (s : list Z) : Prop := Forall (λ c, is_whitespace c = false) s.

Lemma trim_start_solid f s : match s with c :: _ => f c = false | [] => True end → trim_start f s = s.
Proof. destruct s as [|c s]; [done|]. cbn. by intros ->. Qed.

(** Nothing to trim between two visible characters. *)
Lemma trim_id s a b :
  head s = Some a → last s = Some b → is_whitespace a = false → is_whitespace b = false → trim s = s.
Proof.
  intros Ha Hb Hwa Hwb. unfold trim.
  rewrite (trim_start_solid _ s) by (destruct s; by simplify_eq/=).
  rewrite <- head_reverse in Hb.
  rewrite (trim_start_solid _ (reverse s)) by (destruct (reverse s); by simplify_eq/=).
  apply reverse_involutive.
Qed.

Lemma words_solid_app w : ∀ word s,
  solid w → words word (w ++ s) = words (word ++ w) s.
Proof.
  induction w as [|c w IH]; intros word s Hw; [by rewrite app_nil_r|].
  apply Forall_cons_1 in Hw as [Hc Hw]. cbn. rewrite Hc, IH by done. by rewrite <- (assoc_L (++)).
Qed.

Lemma split_whitespace_two w1 w2 :
  solid w1 → solid w2 → w1 ≠ [] → w2 ≠ [] → split_whitespace (w1 ++ 32 :: w2) = [w1; w2].
Proof.
  intros H1 H2 Hn1 Hn2. unfold split_whitespace. rewrite words_solid_app by done. cbn [app words].
  change (is_whitespace 32) with true. cbn match. rewrite <- (app_nil_r w2) at 1.
  rewrite words_solid_app by done. cbn [words app]. destruct w1, w2; done.
Qed.

(** A line feed ends the first line. *)
Lemma lines_from_app l : ∀ line s,
  10 ∉ l → lines_from line (l ++ 10 :: s) = strip_cr (line ++ l) :: lines_from [] s.
Proof.
  induction l as [|c l IH]; intros line s Hl; cbn [app lines_from]; [by rewrite app_nil_r|].
  apply not_elem_of_cons in Hl as [Hc Hl]. rewrite (proj2 (Z.eqb_neq _ _)) by done.
  rewrite IH by done. by rewrite <- (assoc_L (++)).
Qed.

Lemma strip_cr_id l c : last l = Some c → c ≠ 13 → strip_cr l = l.
Proof.
  intros Hl Hc. unfold strip_cr. rewrite Hl.
  destruct c as [|p|p]; try done. do 4 (destruct p as [p|p|]; try done).
Qed.

Lemma solid_not_in c s : is_whitespace c = true → solid s → c ∉ s.
Proof. intros Hc Hs Hin. apply (proj1 (Forall_forall _ _) Hs) in Hin. congruence. Qed.
