(* ===== verification/Literal.v ===== *)
(** * Text written out

    Strings of the source as lists of characters, for messages and shell commands. *)

From Stdlib Require Import Ascii String.
From stdpp Require Import list.
From S2P Require Import Prelude Text.

(** The characters of a literal. *)
Definition str (s : string) : list Z :=
  default [] (from_utf8 ((λ a, Z.of_nat (nat_of_ascii a)) <$> list_ascii_of_string s)).
(** Shell text, with a backtick (which none of it uses) for the double quote. *)
Definition shell_text (s : string) : list Z := (λ c, if c =? 96 then 34 else c) <$> str s.
