(* ===== verification/Socks.v ===== *)
(** * The SOCKS front end ([src/socks.rs])

    Negotiation of one local connection: SOCKS5 without authentication and
    SOCKS4/4a, [CONNECT] only.  The socket is the answers of its reads and
    writes. *)

From S2P Require Import Prelude Cell Text.

(** @ src/socks.rs:15-15 MAX_NEGOTIATION_BYTES *)
Definition MAX_NEGOTIATION_BYTES : nat := 600.

(** @ src/socks.rs:18-27 Phase *)
Inductive Phase := Greeting | Request | Done | Failed.

#[export] Instance Phase_eq_dec : EqDecision Phase.
Proof. solve_decision. Defined.

(** The socket goes with the connection.
    @ src/socks.rs:30-43 Progress *)
Inductive Progress :=
| Pending
| Connected (target : list Z) (leftover : list Z)
| PFailed.

(** @ src/socks.rs:46-52 SocksConn *)
Record SocksConn := mkSocksConn {
  inbuf : list Z;
  out : list Z;
  phase : Phase;
  target : option (list Z);
}.

Definition set_phase (v : Phase) (s : SocksConn) : SocksConn :=
  mkSocksConn (inbuf s) (out s) v (target s).
Definition set_inbuf (v : list Z) (s : SocksConn) : SocksConn :=
  mkSocksConn v (out s) (phase s) (target s).
Definition put_out (v : list Z) (s : SocksConn) : SocksConn :=
  mkSocksConn (inbuf s) (out s ++ v) (phase s) (target s).

(** @ src/socks.rs:55-64 SocksConn::new *)
Definition socks_new : SocksConn := mkSocksConn [] [] Greeting None.

(** ** Addresses as text *)

(** [{:x}] of a 16-bit number. *)
Definition hex_char (v : Z) : Z := if v <? 10 then 48 + v else 87 + v.
Fixpoint hex_loop (fuel : nat) (n : Z) (acc : list Z) : list Z :=
  match fuel with
  | O => acc
  | S fuel =>
    let acc := hex_char (n mod 16) :: acc in
    if n / 16 =? 0 then acc else hex_loop fuel (n / 16) acc
  end.
Definition hex16 (n : Z) : list Z := hex_loop 4 n [].

(** The longest run of zero segments, the first of those: its start and length. *)
Definition zero_span (acc : (nat * nat) * (nat * nat)) (x : nat * Z) : (nat * nat) * (nat * nat) :=
  let '((ls, ll), (cs, cl)) := acc in
  let '(i, seg) := x in
  if seg =? 0 then
    let cs := if (cl =? 0)%nat then i else cs in
    let cl := S cl in
    if (ll <? cl)%nat then ((cs, cl), (cs, cl)) else ((ls, ll), (cs, cl))
  else ((ls, ll), (0%nat, 0%nat)).

Fixpoint join (sep : list Z) (parts : list (list Z)) : list Z :=
  match parts with
  | [] => []
  | [part] => part
  | part :: parts => part ++ sep ++ join sep parts
  end.

(** [Display] of [Ipv4Addr] and [Ipv6Addr]. *)
Definition ipv4_text (b : list Z) : list Z := join [46] (digits <$> b).

Definition ipv6_text (segs : list Z) : list Z :=
  match segs with
  | [0; 0; 0; 0; 0; 0xffff; a; b] =>
    [58; 58; 102; 102; 102; 102; 58] ++ ipv4_text [a / 256; a mod 256; b / 256; b mod 256]
  | _ =>
    let '((start, len), _) := foldl zero_span ((0, 0), (0, 0))%nat (imap pair segs) in
    if (1 <? len)%nat then
      join [58] (hex16 <$> take start segs) ++ [58; 58] ++ join [58] (hex16 <$> drop (start + len) segs)
    else join [58] (hex16 <$> segs)
  end.

(** Big-endian 16-bit words of a byte string. *)
Fixpoint words16 (l : list Z) : list Z :=
  match l with
  | a :: b :: l => (a * 256 + b) :: words16 l
  | _ => []
  end.

(** ** Parsing *)

(** @ src/socks.rs:255-259 SocksConn::fail_socks5 *)
Definition fail_socks5 (rep : Z) (s : SocksConn) : SocksConn :=
  set_phase Failed (put_out [0x05; rep; 0x00; 0x01; 0; 0; 0; 0; 0; 0] s).

(** @ src/socks.rs:319-323 SocksConn::fail_socks4 *)
Definition fail_socks4 (s : SocksConn) : SocksConn :=
  set_phase Failed (put_out [0x00; 0x5B; 0; 0; 0; 0; 0; 0] s).

(** The length and the start of the address.
    @ src/socks.rs:195-208 SocksConn::parse_socks5_request *)
Definition address_span (buf : list Z) (atyp : Z) : option (option (nat * nat)) :=
  if atyp =? 0x01 then Some (Some (4, 4))%nat
  else if atyp =? 0x04 then Some (Some (16, 4))%nat
  else if atyp =? 0x03 then
    match buf !! 4%nat with
    | None => Some None
    | Some l => Some (Some (Z.to_nat l, 5%nat))
    end
  else None.

(** @ src/socks.rs:220-239 SocksConn::parse_socks5_request *)
Definition host_text (atyp : Z) (addr : list Z) : option (list Z) :=
  if atyp =? 0x01 then Some (ipv4_text addr)
  else if atyp =? 0x04 then Some (ipv6_text (words16 addr))
  else from_utf8 addr.

(** @ src/socks.rs:244-248 SocksConn::parse_socks5_request *)
Definition target_text (atyp : Z) (host : list Z) (port : Z) : list Z :=
  if atyp =? 0x04 then [91] ++ host ++ [93; 58] ++ digits port
  else host ++ [58] ++ digits port.

(** @ src/socks.rs:185-252 SocksConn::parse_socks5_request *)
Definition parse_socks5_request (s : SocksConn) : bool * SocksConn :=
  let buf := inbuf s in
  match buf with
  | ver :: cmd :: _ :: atyp :: _ =>
    if negb (ver =? 5) then (true, fail_socks5 0x01 s)
    else
      match address_span buf atyp with
      | None => (true, fail_socks5 0x08 s)
      | Some None => (false, s)
      | Some (Some (addr_len, addr_start)) =>
        let need := (addr_start + addr_len + 2)%nat in
        if (length buf <? need)%nat then (false, s)
        else if negb (cmd =? 0x01) then (true, fail_socks5 0x07 s)
        else
          let addr := slice buf addr_start (addr_start + addr_len) in
          let port := from_be_bytes (slice buf (addr_start + addr_len) need) in
          match host_text atyp addr with
          | None => (true, fail_socks5 0x01 s)
          | Some host =>
            (true, mkSocksConn (drop need buf)
              (out s ++ [0x05; 0x00; 0x00; 0x01; 0; 0; 0; 0; 0; 0]) Done
              (Some (target_text atyp host port)))
          end
      end
  | _ => (false, s)
  end.

(** [l[from..].iter().position(|&b| b == 0).map(|p| p + from)] *)
Fixpoint position0 (l : list Z) : option nat :=
  match l with
  | [] => None
  | b :: l => if b =? 0 then Some 0%nat else S <$> position0 l
  end.
Definition nul_from (l : list Z) (from : nat) : option nat :=
  (λ p, p + from)%nat <$> position0 (drop from l).

(** Hostname and end of the request: [None] where bytes are missing, an error
    where the hostname is not UTF-8.
    @ src/socks.rs:280-304 SocksConn::parse_socks4 *)
Definition socks4_host (buf ip : list Z) (uid_nul : nat) : option (option (list Z * nat)) :=
  let is_4a := match ip with [0; 0; 0; x] => negb (x =? 0) | _ => false end in
  if is_4a then
    let host_start := S uid_nul in
    match nul_from buf host_start with
    | None => None
    | Some host_nul =>
      Some ((λ host, (host, S host_nul)) <$> from_utf8 (slice buf host_start host_nul))
    end
  else Some (Some (ipv4_text ip, S uid_nul)).

(** @ src/socks.rs:263-317 SocksConn::parse_socks4 *)
Definition parse_socks4 (s : SocksConn) : SocksConn :=
  let buf := inbuf s in
  if (length buf <? 9)%nat then s
  else
    let cmd := default 0 (buf !! 1%nat) in
    let port := from_be_bytes (slice buf 2 4) in
    let ip := slice buf 4 8 in
    if bool_decide (ip = [0; 0; 0; 0]) then fail_socks4 s
    else
      match nul_from buf 8 with
      | None => s
      | Some uid_nul =>
        match socks4_host buf ip uid_nul with
        | None => s
        | Some None => fail_socks4 s
        | Some (Some (host, consumed)) =>
          if negb (cmd =? 0x01) then fail_socks4 s
          else
            mkSocksConn (drop consumed buf) (out s ++ [0x00; 0x5A] ++ to_be_bytes 2 port ++ ip) Done
              (Some (host ++ [58] ++ digits port))
        end
      end.

(** The loop advances the phase at every turn, so three turns are enough.
    @ src/socks.rs:138-181 SocksConn::try_parse *)
Fixpoint try_parse_loop (fuel : nat) (s : SocksConn) : SocksConn :=
  match fuel with
  | O => s
  | S fuel =>
    match phase s with
    | Greeting =>
      match inbuf s with
      | [] => s
      | ver :: rest =>
        if ver =? 5 then
          match rest with
          | [] => s
          | n :: _ =>
            if n =? 0 then set_phase Failed s
            else
              let total := (2 + Z.to_nat n)%nat in
              if (length (inbuf s) <? total)%nat then s
              else
                try_parse_loop fuel
                  (mkSocksConn (drop total (inbuf s)) (out s ++ [0x05; 0x00]) Request (target s))
          end
        else if ver =? 4 then parse_socks4 s
        else set_phase Failed s
      end
    | Request =>
      let '(consumed, s) := parse_socks5_request s in
      if (consumed : bool) then try_parse_loop fuel s else s
    | Done | Failed => s
    end
  end.

Definition try_parse (s : SocksConn) : SocksConn := try_parse_loop 3 s.

(** ** The socket *)

(** @ src/socks.rs:120-135 SocksConn::flush_out *)
Fixpoint flush_out (answers : list WriteAnswer) (s : SocksConn) : SocksConn :=
  match out s with
  | [] => s
  | _ =>
    match answers with
    | [] | WrTook 0 :: _ | WrWouldBlock :: _ => s
    | WrTook n :: answers =>
      flush_out answers (mkSocksConn (inbuf s) (drop n (out s)) (phase s) (target s))
    | WrInterrupted :: answers => flush_out answers s
    | WrFailed :: _ => set_phase Failed s
    end
  end.

(** Everything that can be read; [None] when the peer has closed or reading
    failed. @ src/socks.rs:80-92 SocksConn::negotiate *)
Fixpoint read_all (answers : list ReadAnswer) (buf : list Z) : option (list Z) :=
  match answers with
  | [] | RdWouldBlock :: _ => Some buf
  | RdData [] :: _ | RdFailed :: _ => None
  | RdData data :: answers => read_all answers (buf ++ data)
  | RdInterrupted :: answers => read_all answers buf
  end.

(** @ src/socks.rs:73-117 SocksConn::negotiate *)
Definition negotiate (w1 : list WriteAnswer) (reads : list ReadAnswer) (w2 : list WriteAnswer)
    (s : SocksConn) : Progress * option SocksConn :=
  let s := flush_out w1 s in
  if bool_decide (phase s = Failed) then (PFailed, None)
  else
    match read_all reads (inbuf s) with
    | None => (PFailed, None)
    | Some buf =>
      if (MAX_NEGOTIATION_BYTES <? length buf)%nat then (PFailed, None)
      else
        let s := flush_out w2 (try_parse (set_inbuf buf s)) in
        match phase s with
        | Failed => (PFailed, None)
        | Done =>
          match out s with
          | [] => (Connected (default [] (target s)) (inbuf s), None)
          | _ => (Pending, Some s)
          end
        | _ => (Pending, Some s)
        end
    end.

(** ** Bytes may come in any pieces

    [feed] is the parser's part of a call, for the proofs: what has arrived is put
    into the buffer and parsed. *)

Definition ext (b : list Z) (s : SocksConn) : SocksConn := set_inbuf (inbuf s ++ b) s.
Definition feed (s : SocksConn) (bytes : list Z) : SocksConn := try_parse (ext bytes s).

Lemma ext_fields b s :
  inbuf (ext b s) = inbuf s ++ b ∧ out (ext b s) = out s ∧ phase (ext b s) = phase s ∧
  target (ext b s) = target s.
Proof. done. Qed.

Lemma slice_app_l {A} (l k : list A) a b : (b ≤ length l)%nat → slice (l ++ k) a b = slice l a b.
Proof.
  intros Hb. unfold slice. destruct (decide (a ≤ b)%nat); [|by rewrite (proj2 (Nat.sub_0_le b a)) by lia].
  rewrite drop_app_le by lia. apply take_app_le. rewrite length_drop. lia.
Qed.

Lemma address_span_ext buf b atyp r :
  address_span buf atyp = r → r ≠ Some None → address_span (buf ++ b) atyp = r.
Proof.
  unfold address_span. intros <-. repeat case_match; try done.
  - intros _. by erewrite lookup_app_l_Some in * by done; simplify_eq.
  - intros _. by erewrite lookup_app_l_Some in * by done; simplify_eq.
Qed.

Lemma parse_socks5_ext s b s1 :
  parse_socks5_request s = (true, s1) →
  parse_socks5_request (ext b s) = (true, ext b s1) ∧ (phase s1 = Done ∨ phase s1 = Failed).
Proof.
  unfold parse_socks5_request. cbn [inbuf ext set_inbuf].
  destruct (inbuf s) as [|ver [|cmd [|rsv [|atyp rest]]]] eqn:Hb; [done..|].
  cbn [app].
  assert (∀ rep, (true, fail_socks5 rep s) = (true, s1) →
    (true, fail_socks5 rep (ext b s)) = (true, ext b s1) ∧
    (phase s1 = Done ∨ phase s1 = Failed)) as Hfail.
  { intros rep [= <-]. split; [done|by right]. }
  destruct (negb (ver =? 5)); [apply Hfail|].
  set (l := ver :: cmd :: rsv :: atyp :: rest) in *.
  change (ver :: cmd :: rsv :: atyp :: rest ++ b) with (l ++ b) in *. clearbody l.
  destruct (address_span l atyp) as [[[alen astart]|]|] eqn:Ha; [|done|].
  2:{ rewrite (address_span_ext _ b _ _ Ha) by done. apply Hfail. }
  rewrite (address_span_ext _ b _ _ Ha) by done.
  destruct (Nat.ltb_spec (length l) (astart + alen + 2)) as [|Hlen]; [done|].
  rewrite (proj2 (Nat.ltb_ge _ _)) by (rewrite length_app; lia).
  destruct (negb (cmd =? 1)); [apply Hfail|].
  rewrite !slice_app_l by lia. destruct (host_text _ _) as [host|]; [|apply Hfail].
  intros [= <-]. split; [|by left]. unfold ext. cbn. by rewrite drop_app_le by lia.
Qed.

Lemma parse_socks5_pending s s1 : parse_socks5_request s = (false, s1) → s1 = s.
Proof.
  unfold parse_socks5_request. repeat case_match; by intros [= <-].
Qed.

Lemma position0_ext l b n : position0 l = Some n → position0 (l ++ b) = Some n ∧ (n < length l)%nat.
Proof.
  revert n. induction l as [|x l IH]; intros n; [done|]. cbn [position0 app length].
  destruct (x =? 0); [intros [= <-]; split; [done|lia]|].
  intros (m & Hm & ->)%fmap_Some. destruct (IH m Hm) as [-> ?]. split; [done|lia].
Qed.

Lemma nul_from_ext l b from n :
  (from ≤ length l)%nat → nul_from l from = Some n →
  nul_from (l ++ b) from = Some n ∧ (n < length l)%nat.
Proof.
  unfold nul_from. intros Hf (m & Hm & ->)%fmap_Some. rewrite drop_app_le by lia.
  destruct (position0_ext _ b _ Hm) as [-> Hlt]. rewrite length_drop in Hlt. split; [done|lia].
Qed.

Lemma socks4_host_ext buf b ip n r :
  (n < length buf)%nat → socks4_host buf ip n = Some r →
  socks4_host (buf ++ b) ip n = Some r ∧ ∀ host m, r = Some (host, m) → (m ≤ length buf)%nat.
Proof.
  intros Hn. unfold socks4_host. set (is4a := match ip with [] => false | _ => _ end).
  destruct is4a.
  - destruct (nul_from buf (S n)) as [m|] eqn:Hm; [|done].
    destruct (nul_from_ext buf b (S n) m ltac:(lia) Hm) as [-> Hlt]. intros [= <-].
    rewrite slice_app_l by lia. split; [done|]. intros host k (h & _ & [= _ ->])%fmap_Some. lia.
  - intros [= <-]. split; [done|]. intros host m [= _ <-]. lia.
Qed.

Lemma parse_socks4_ext s b :
  parse_socks4 s = s ∨
  parse_socks4 (ext b s) = ext b (parse_socks4 s) ∧
  (phase (parse_socks4 s) = Done ∨ phase (parse_socks4 s) = Failed).
Proof.
  unfold parse_socks4. cbn [inbuf ext set_inbuf].
  destruct (Nat.ltb_spec (length (inbuf s)) 9) as [|Hlen]; [by left|].
  rewrite (proj2 (Nat.ltb_ge _ _)) by (rewrite length_app; lia).
  rewrite !slice_app_l by lia. rewrite lookup_app_l by lia.
  case_bool_decide; [by right; split; [|right]|].
  destruct (nul_from (inbuf s) 8) as [n|] eqn:Hn; [|by left].
  destruct (nul_from_ext (inbuf s) b 8 n ltac:(lia) Hn) as [-> Hlt].
  destruct (socks4_host (inbuf s) _ n) as [r|] eqn:Hh; [|by left].
  destruct (socks4_host_ext _ b _ _ _ Hlt Hh) as [-> Hm].
  destruct r as [[host m]|]; [|by right; split; [|right]].
  destruct (negb _); [by right; split; [|right]|].
  right. split; [|by left]. unfold ext. cbn. by rewrite drop_app_le by (by eapply Hm).
Qed.

(** What is decided is decided for good. *)
Lemma try_parse_loop_settled fuel s : phase s = Done ∨ phase s = Failed → try_parse_loop fuel s = s.
Proof. destruct fuel; [done|]. cbn. by intros [-> | ->]. Qed.

Lemma try_parse_loop_request fuel s :
  phase s = Request → try_parse_loop (S fuel) s = (parse_socks5_request s).2.
Proof.
  intros Hp. cbn [try_parse_loop]. rewrite Hp. destruct (parse_socks5_request s) as [[] s1] eqn:H; [|done].
  apply try_parse_loop_settled. by apply (parse_socks5_ext s [] s1).
Qed.

Lemma request_ext s b :
  phase s = Request →
  try_parse (ext b (parse_socks5_request s).2) = (parse_socks5_request (ext b s)).2.
Proof.
  intros Hp. destruct (parse_socks5_request s) as [[] s1] eqn:H.
  - destruct (parse_socks5_ext s b s1 H) as [-> Hs1]. cbn [snd].
    by apply try_parse_loop_settled.
  - apply parse_socks5_pending in H as ->. cbn [snd]. by apply try_parse_loop_request.
Qed.

Lemma try_parse_greeting s :
  phase s = Greeting →
  try_parse s =
    match inbuf s with
    | [] => s
    | ver :: rest =>
      if ver =? 5 then
        match rest with
        | [] => s
        | n :: _ =>
          if n =? 0 then set_phase Failed s
          else if (length (inbuf s) <? 2 + Z.to_nat n)%nat then s
          else (parse_socks5_request (mkSocksConn (drop (2 + Z.to_nat n) (inbuf s))
                  (out s ++ [0x05; 0x00]) Request (target s))).2
        end
      else if ver =? 4 then parse_socks4 s
      else set_phase Failed s
    end.
Proof.
  intros Hp. unfold try_parse. remember 2%nat as fuel eqn:Hf. cbn [try_parse_loop]. rewrite Hp.
  repeat case_match; try done; try congruence. subst fuel. by apply try_parse_loop_request.
Qed.

(** Negotiation does not depend on how the bytes arrive: parsing after each of
    two pieces leaves the connection as parsing once after both. *)
Lemma feed_feed s a b : feed (feed s a) b = feed s (a ++ b).
Proof.
  unfold feed. assert (ext (a ++ b) s = ext b (ext a s)) as ->.
  { unfold ext, set_inbuf. cbn. by rewrite (assoc_L (++)). }
  generalize (ext a s). clear s. intros s.
  destruct (phase s) eqn:Hp.
  2:{ unfold try_parse at 2 3. rewrite !try_parse_loop_request by done. by apply request_ext. }
  2,3: unfold try_parse at 2; rewrite try_parse_loop_settled by auto; done.
  rewrite (try_parse_greeting s), (try_parse_greeting (ext b s)) by done.
  cbn [ext inbuf set_inbuf out target].
  destruct (inbuf s) as [|ver rest] eqn:Hb.
  { rewrite try_parse_greeting by done. cbn [ext inbuf set_inbuf out target]. by rewrite Hb. }
  cbn [app]. destruct (ver =? 5) eqn:H5.
  2:{ destruct (ver =? 4) eqn:H4; [|apply try_parse_loop_settled; by right].
      destruct (parse_socks4_ext s b) as [->|[-> Hs]]; [|by apply try_parse_loop_settled].
      rewrite try_parse_greeting by done. cbn [ext inbuf set_inbuf]. rewrite Hb. cbn [app].
      by rewrite H5, H4. }
  destruct rest as [|n rest].
  { rewrite try_parse_greeting by done. cbn [ext inbuf set_inbuf]. rewrite Hb. cbn [app].
    by rewrite H5. }
  cbn [app]. destruct (n =? 0) eqn:Hn; [apply try_parse_loop_settled; by right|].
  change (ver :: n :: rest ++ b) with ((ver :: n :: rest) ++ b). rewrite <- Hb.
  destruct (Nat.ltb_spec (length (inbuf s)) (2 + Z.to_nat n)) as [Hlt|Hge].
  { rewrite try_parse_greeting by done. cbn [ext inbuf set_inbuf]. rewrite Hb. cbn [app].
    by rewrite H5, Hn. }
  rewrite (proj2 (Nat.ltb_ge _ _)) by (rewrite length_app; lia).
  rewrite drop_app_le by lia. by apply request_ext.
Qed.

Lemma feed_pieces chunks : ∀ s a, foldl feed (feed s a) chunks = feed s (a ++ concat chunks).
Proof.
  induction chunks as [|b chunks IH]; intros s a; cbn [foldl concat]; [by rewrite app_nil_r|].
  by rewrite feed_feed, IH, (assoc_L (++)).
Qed.

(** ** The requests of the protocol *)

Inductive Address :=
| Ip4 (bytes : list Z)
| Ip6 (bytes : list Z)
| Domain (host : list Z).

Inductive ConnectRequest :=
| V5 (methods : list Z) (addr : Address) (port : Z)
| V4 (userid ip : list Z) (port : Z)
| V4a (userid : list Z) (x : Z) (host : list Z) (port : Z).

Definition encode_address (a : Address) : list Z :=
  match a with
  | Ip4 bytes => 0x01 :: bytes
  | Ip6 bytes => 0x04 :: bytes
  | Domain host => 0x03 :: zlen (as_bytes host) :: as_bytes host
  end.

(** What a client sends. *)
Definition encode_request (r : ConnectRequest) : list Z :=
  match r with
  | V5 methods addr port =>
    (5 :: zlen methods :: methods) ++ [5; 1; 0] ++ encode_address addr ++ to_be_bytes 2 port
  | V4 userid ip port => [4; 1] ++ to_be_bytes 2 port ++ ip ++ userid ++ [0]
  | V4a userid x host port =>
    [4; 1] ++ to_be_bytes 2 port ++ [0; 0; 0; x] ++ userid ++ [0] ++ as_bytes host ++ [0]
  end.

(** What it asks for, and what it is told. *)
Definition request_target (r : ConnectRequest) : list Z :=
  match r with
  | V5 _ (Ip4 bytes) port | V4 _ bytes port => ipv4_text bytes ++ [58] ++ digits port
  | V5 _ (Ip6 bytes) port => [91] ++ ipv6_text (words16 bytes) ++ [93; 58] ++ digits port
  | V5 _ (Domain host) port | V4a _ _ host port => host ++ [58] ++ digits port
  end.

Definition request_replies (r : ConnectRequest) : list Z :=
  match r with
  | V5 _ _ _ => [0x05; 0x00] ++ [0x05; 0x00; 0x00; 0x01; 0; 0; 0; 0; 0; 0]
  | V4 _ ip port => [0x00; 0x5A] ++ to_be_bytes 2 port ++ ip
  | V4a _ x _ port => [0x00; 0x5A] ++ to_be_bytes 2 port ++ [0; 0; 0; x]
  end.

Definition address_wf (a : Address) : Prop :=
  match a with
  | Ip4 bytes => length bytes = 4%nat
  | Ip6 bytes => length bytes = 16%nat
  | Domain host => Forall is_char host ∧ zlen (as_bytes host) < 256
  end.

Definition request_wf (r : ConnectRequest) : Prop :=
  match r with
  | V5 methods addr port => methods ≠ [] ∧ address_wf addr ∧ is_u16 port
  | V4 userid ip port =>
    (0 ∉ userid) ∧ length ip = 4%nat ∧ take 3 ip ≠ [0; 0; 0] ∧ is_u16 port
  | V4a userid x host port =>
    (0 ∉ userid) ∧ x ≠ 0 ∧ Forall is_char host ∧ (0 ∉ as_bytes host) ∧ is_u16 port
  end.

Lemma port_bytes port : is_u16 port → from_be_bytes (to_be_bytes 2 port) = port.
Proof. intros H. apply from_to_be_bytes. unfold is_u16 in H. change (256 ^ Z.of_nat 2) with 65536. lia. Qed.

Lemma position0_nul l r : 0 ∉ l → position0 (l ++ (0 :: r)) = Some (length l).
Proof.
  induction l as [|x l IH]; [done|]. rewrite not_elem_of_cons. intros [Hx Hl]. cbn [position0 app length].
  rewrite (proj2 (Z.eqb_neq x 0)) by done. by rewrite (IH Hl).
Qed.

Lemma nul_from_app pre l r : 0 ∉ l → nul_from (pre ++ l ++ (0 :: r)) (length pre) = Some (length pre + length l)%nat.
Proof.
  intros Hl. unfold nul_from. rewrite drop_app_length, position0_nul by done. cbn. f_equal. lia.
Qed.

Lemma parse_v5_request o addr port extra :
  address_wf addr → is_u16 port →
  parse_socks5_request (mkSocksConn ([5; 1; 0] ++ encode_address addr ++ to_be_bytes 2 port ++ extra)
    o Request None) =
  (true, mkSocksConn extra (o ++ [0x05; 0x00; 0x00; 0x01; 0; 0; 0; 0; 0; 0]) Done
    (Some (request_target (V5 [] addr port)))).
Proof.
  intros Ha Hp. pose proof (length_to_be_bytes 2 port) as Hl.
  assert (∀ pre bytes, let l := pre ++ bytes ++ to_be_bytes 2 port ++ extra in
    let n := length pre in let k := length bytes in
    (length l <? n + k + 2)%nat = false ∧ slice l n (n + k) = bytes ∧
    slice l (n + k) (n + k + 2) = to_be_bytes 2 port ∧ drop (n + k + 2) l = extra) as Hcut.
  { intros pre bytes. cbn zeta. split_and!.
    - apply Nat.ltb_ge. rewrite !length_app, Hl. lia.
    - apply slice_mid.
    - rewrite (assoc_L (++)). apply slice_mid'; rewrite ?length_app; lia.
    - rewrite !(assoc_L (++)). apply drop_app_length'. rewrite !length_app, Hl. lia. }
  unfold parse_socks5_request. cbn [inbuf].
  destruct addr as [bytes|bytes|host]; cbn [encode_address address_wf] in *.
  - destruct (Hcut [5; 1; 0; 1] bytes) as (H1 & H2 & H3 & H4). cbn zeta in *. cbn [length] in *.
    rewrite Ha in *. cbn [app] in *. cbn [negb Z.eqb Pos.eqb address_span].
    rewrite H1, H2, H3, H4, port_bytes by done. done.
  - destruct (Hcut [5; 1; 0; 4] bytes) as (H1 & H2 & H3 & H4). cbn zeta in *. cbn [length] in *.
    rewrite Ha in *. cbn [app] in *. cbn [negb Z.eqb Pos.eqb address_span].
    rewrite H1, H2, H3, H4, port_bytes by done. done.
  - destruct Ha as [Hc _].
    destruct (Hcut [5; 1; 0; 3; zlen (as_bytes host)] (as_bytes host)) as (H1 & H2 & H3 & H4).
    cbn zeta in *. cbn [length] in *. cbn [app] in *. cbn [negb Z.eqb Pos.eqb address_span].
    unfold address_span. cbn [Z.eqb Pos.eqb]. cbn [lookup list_lookup]. rewrite Nat2Z.id.
    rewrite H1, H2, H3, H4, port_bytes by done. cbn [host_text Z.eqb Pos.eqb].
    unfold host_text. cbn [Z.eqb Pos.eqb]. by rewrite from_utf8_as_bytes.
Qed.

Lemma digit_bytes port : to_be_bytes 2 port = [port / 256 mod 256; port mod 256].
Proof. done. Qed.

Lemma parse_v4_request o userid ip port extra :
  0 ∉ userid → length ip = 4%nat → take 3 ip ≠ [0; 0; 0] → is_u16 port →
  parse_socks4 (mkSocksConn (encode_request (V4 userid ip port) ++ extra) o Greeting None) =
  mkSocksConn extra (o ++ request_replies (V4 userid ip port)) Done (Some (request_target (V4 userid ip port))).
Proof.
  intros Hu Hip Hn Hp. cbn [encode_request request_replies request_target].
  pose proof (port_bytes port Hp) as Hport. rewrite digit_bytes in *.
  destruct ip as [|a [|b [|c [|d []]]]]; try done. cbn [app]. unfold parse_socks4. cbn [inbuf].
  rewrite (proj2 (Nat.ltb_ge _ _)) by (cbn [length]; rewrite !length_app; cbn [length]; lia).
  cbn [lookup list_lookup default from_option]. unfold slice at 1 2 3 4.
  cbn [drop take Nat.sub]. rewrite Hport, digit_bytes.
  assert (a ≠ 0 ∨ b ≠ 0 ∨ c ≠ 0) as Hnz.
  { cbn in Hn. destruct (decide (a = 0)) as [->|]; [|by left]. destruct (decide (b = 0)) as [->|]; [|by auto].
    destruct (decide (c = 0)) as [->|]; by auto. }
  rewrite bool_decide_false by (intros [=]; lia).
  set (pre := [4; 1; port / 256 mod 256; port mod 256; a; b; c; d]).
  assert (∀ l, 4 :: 1 :: port / 256 mod 256 :: port mod 256 :: a :: b :: c :: d :: l = pre ++ l) as Hpre by done.
  rewrite <- (assoc_L (++)). cbn [app]. rewrite Hpre.
  change 8%nat with (length pre) at 1. rewrite nul_from_app by done.
  unfold socks4_host. set (is4a := match a with 0 => _ | _ => false end).
  assert (is4a = false) as ->.
  { unfold is4a. destruct a; [|done..]. destruct b; [|done..]. destruct c; [|done..]. lia. }
  cbn [negb Z.eqb Pos.eqb]. f_equal.
  - rewrite (assoc_L (++)). rewrite (cons_middle 0), (assoc_L (++) _ [0]).
    apply drop_app_length'. rewrite !length_app. cbn [length]. lia.
  - unfold pre, slice. cbn [app drop take Nat.sub]. by rewrite Hport.
Qed.

Lemma parse_v4a_request o userid x host port extra :
  0 ∉ userid → x ≠ 0 → Forall is_char host → 0 ∉ as_bytes host → is_u16 port →
  parse_socks4 (mkSocksConn (encode_request (V4a userid x host port) ++ extra) o Greeting None) =
  mkSocksConn extra (o ++ request_replies (V4a userid x host port)) Done
    (Some (request_target (V4a userid x host port))).
Proof.
  intros Hu Hx Hc Hh Hp. cbn [encode_request request_replies request_target].
  pose proof (port_bytes port Hp) as Hport. rewrite digit_bytes in *. cbn [app].
  unfold parse_socks4. cbn [inbuf].
  rewrite (proj2 (Nat.ltb_ge _ _)) by (cbn [length]; rewrite !length_app; cbn [length]; lia).
  cbn [lookup list_lookup default from_option]. unfold slice at 1 2 3 4.
  cbn [drop take Nat.sub]. rewrite take_0, Hport, digit_bytes.
  rewrite bool_decide_false by (intros [=]; lia).
  set (pre := [4; 1; port / 256 mod 256; port mod 256; 0; 0; 0; x]).
  assert (∀ l, 4 :: 1 :: port / 256 mod 256 :: port mod 256 :: 0 :: 0 :: 0 :: x :: l = pre ++ l) as Hpre by done.
  rewrite <- !(assoc_L (++)). cbn [app]. rewrite <- (assoc_L (++)). cbn [app]. rewrite Hpre.
  change 8%nat with (length pre) at 1. rewrite nul_from_app by done.
  unfold socks4_host. rewrite (proj2 (Z.eqb_neq x 0)) by done. cbn [negb].
  set (pre2 := pre ++ userid ++ [0]).
  assert (pre ++ userid ++ 0 :: as_bytes host ++ 0 :: extra = pre2 ++ as_bytes host ++ 0 :: extra) as ->.
  { unfold pre2. by rewrite <- !(assoc_L (++)). }
  assert (S (length pre + length userid) = length pre2) as ->.
  { unfold pre2. rewrite !length_app. cbn [length]. lia. }
  rewrite nul_from_app by done. rewrite slice_mid, from_utf8_as_bytes by done.
  cbn [fmap option_fmap option_map negb Z.eqb Pos.eqb]. f_equal.
  - rewrite (cons_middle 0), !(assoc_L (++)). apply drop_app_length'. rewrite !length_app. cbn [length]. lia.
  - unfold pre2, pre, slice. cbn [app drop take Nat.sub]. by rewrite Hport.
Qed.

(** Once all of a well-formed request has arrived, parsing is done with it. *)
Lemma feed_request r extra :
  request_wf r →
  feed socks_new (encode_request r ++ extra) =
    mkSocksConn extra (request_replies r) Done (Some (request_target r)).
Proof.
  intros Hwf. unfold feed. rewrite try_parse_greeting by done. cbn [ext set_inbuf inbuf out target socks_new app].
  destruct r as [methods addr port|userid ip port|userid x host port]; cbn [request_wf] in Hwf.
  - destruct Hwf as (Hm & Ha & Hp). cbn [encode_request app]. cbn [Z.eqb Pos.eqb].
    rewrite (proj2 (Z.eqb_neq _ 0)) by (destruct methods; [done|cbn [length]; lia]).
    rewrite Nat2Z.id, (proj2 (Nat.ltb_ge _ _)) by (cbn [length]; rewrite !length_app; lia).
    assert (drop (2 + length methods) (5 :: zlen methods :: (methods ++ 5 :: 1 :: 0 :: encode_address addr ++
      to_be_bytes 2 port) ++ extra) = [5; 1; 0] ++ encode_address addr ++ to_be_bytes 2 port ++ extra) as ->.
    { cbn [Nat.add drop]. rewrite <- (assoc_L (++)), drop_app_length. cbn [app].
      by rewrite <- (assoc_L (++)). }
    rewrite parse_v5_request by done. by destruct addr.
  - destruct Hwf as (Hu & Hip & Hn & Hp). by apply (parse_v4_request [] userid ip port extra).
  - destruct Hwf as (Hu & Hx & Hch & Hh & Hp). by apply (parse_v4a_request [] userid x host port extra).
Qed.

Lemma try_parse_settled s : phase s = Done ∨ phase s = Failed → try_parse s = s.
Proof. apply try_parse_loop_settled. Qed.

(** Parsing only takes bytes off the buffer. *)
Lemma parse_socks5_shrinks s : (length (inbuf (parse_socks5_request s).2) ≤ length (inbuf s))%nat.
Proof.
  unfold parse_socks5_request. destruct (inbuf s) as [|ver [|cmd [|rsv [|atyp rest]]]] eqn:Hb;
    repeat case_match; cbn [snd inbuf fail_socks5 set_phase put_out]; rewrite ?length_drop, ?Hb; lia.
Qed.

Lemma parse_socks4_shrinks s : (length (inbuf (parse_socks4 s)) ≤ length (inbuf s))%nat.
Proof. unfold parse_socks4. repeat case_match; cbn; rewrite ?length_drop; lia. Qed.

Lemma try_parse_shrinks s : (length (inbuf (try_parse s)) ≤ length (inbuf s))%nat.
Proof.
  unfold try_parse. generalize 3%nat. intros fuel. revert s. induction fuel as [|fuel IH]; intros s; [done|].
  cbn [try_parse_loop]. destruct (phase s); [| |done..].
  - destruct (inbuf s) as [|ver [|n rest]] eqn:Hb; [by rewrite Hb|..]; destruct (ver =? 5);
      try (destruct (ver =? 4); [rewrite <- Hb; apply parse_socks4_shrinks|]); try (cbn; by rewrite ?Hb).
    destruct (n =? 0); [cbn; by rewrite Hb|]. destruct (_ <? _)%nat; [by rewrite Hb|].
    etrans; [apply IH|]. cbn [inbuf]. rewrite length_drop. lia.
  - pose proof (parse_socks5_shrinks s). destruct (parse_socks5_request s) as [[] s1]; cbn in *; [|done].
    etrans; [apply IH|done].
Qed.

(** ** The calls of [negotiate] *)

(** What a flush put on the wire. *)
Definition flushed (answers : list WriteAnswer) (s : SocksConn) : list Z :=
  take (length (out s) - length (out (flush_out answers s))) (out s).

(** What a call that read [bytes] put on the wire. *)
Definition call_sent (w1 : list WriteAnswer) (bytes : list Z) (w2 : list WriteAnswer) (s : SocksConn) :
    list Z :=
  let s1 := flush_out w1 s in
  flushed w1 s ++ flushed w2 (try_parse (set_inbuf (inbuf s1 ++ bytes) s1)).

(** Calls of [negotiate] so far, all of them pending: what they have read and what
    they have written. *)
Inductive negotiating : list Z → list Z → SocksConn → Prop :=
| negotiating_new : negotiating [] [] socks_new
| negotiating_call data sent s w1 reads w2 bytes s' :
  negotiating data sent s → read_all reads [] = Some bytes →
  negotiate w1 reads w2 s = (Pending, Some s') →
  negotiating (data ++ bytes) (sent ++ call_sent w1 bytes w2 s) s'.

(** Replies queued earlier stay in front. *)
Definition queued (o : list Z) (s : SocksConn) : SocksConn :=
  mkSocksConn (inbuf s) (o ++ out s) (phase s) (target s).

Lemma parse_socks5_queued o s :
  parse_socks5_request (queued o s) = prod_map id (queued o) (parse_socks5_request s).
Proof.
  unfold parse_socks5_request. cbn [queued inbuf out].
  repeat case_match; simplify_eq; unfold fail_socks5, set_phase, put_out, queued; cbn;
    by rewrite ?(assoc_L (++)).
Qed.

Lemma parse_socks4_queued o s : parse_socks4 (queued o s) = queued o (parse_socks4 s).
Proof.
  unfold parse_socks4. cbn [queued inbuf out].
  repeat case_match; simplify_eq; unfold fail_socks4, set_phase, put_out, queued; cbn;
    by rewrite ?(assoc_L (++)).
Qed.

Lemma try_parse_queued o s : try_parse (queued o s) = queued o (try_parse s).
Proof.
  unfold try_parse. generalize 3%nat. intros fuel. revert s. induction fuel as [|fuel IH]; intros s; [done|].
  cbn [try_parse_loop]. change (phase (queued o s)) with (phase s). change (inbuf (queued o s)) with (inbuf s).
  destruct (phase s); [| |done..].
  - destruct (inbuf s) as [|ver [|n rest]]; [done|..]; destruct (ver =? 5); try done.
    1, 3: destruct (ver =? 4); [apply parse_socks4_queued|done].
    destruct (n =? 0); [done|]. destruct (_ <? _)%nat; [done|]. rewrite <- IH. f_equal.
    unfold queued. cbn. by rewrite (assoc_L (++)).
  - rewrite parse_socks5_queued. destruct (parse_socks5_request s) as [[] s1]; cbn; [apply IH|done].
Qed.

(** Without an error of the socket a flush only takes bytes off the front of the
    queue. *)
Lemma flush_out_shape answers : ∀ s, WrFailed ∉ answers ∨ phase (flush_out answers s) ≠ Failed →
  ∃ l, s = queued l (flush_out answers s).
Proof.
  induction answers as [|a answers IH]; intros s Hs; cbn [flush_out] in *.
  { exists []. destruct s as [? []]; done. }
  destruct (out s) as [|b l] eqn:Ho; [exists []; destruct s; by cbn in *; subst|].
  assert (s = queued [] s) as Hself by by destruct s.
  destruct a as [[|n]| | |].
  - by exists [].
  - destruct (IH (mkSocksConn (inbuf s) (drop (S n) (b :: l)) (phase s) (target s))) as [k Hk].
    { destruct Hs as [Hs|]; [|by right]. left. by apply not_elem_of_cons in Hs as []. }
    exists (take (S n) (b :: l) ++ k). destruct s as [i o ph tg]. cbn [out inbuf phase target] in *. subst o.
    revert Hk. generalize (flush_out answers (mkSocksConn i (drop (S n) (b :: l)) ph tg)).
    intros [i' o' ph' tg'] [= -> Hd -> ->]. unfold queued. cbn [inbuf out phase target].
    f_equal. rewrite <- (assoc_L (++)). etrans; [symmetry; apply (take_drop (S n))|]. f_equal. exact Hd.
  - destruct (IH s) as [k Hk].
    { destruct Hs as [Hs|]; [|by right]. left. by apply not_elem_of_cons in Hs as []. }
    by exists k.
  - by exists [].
  - destruct Hs as [[]%not_elem_of_cons|[]]; done.
Qed.

Lemma flush_out_queued answers s :
  WrFailed ∉ answers ∨ phase (flush_out answers s) ≠ Failed →
  queued (flushed answers s) (flush_out answers s) = s.
Proof.
  intros [l Hl]%flush_out_shape. unfold flushed. revert Hl. generalize (flush_out answers s).
  intros s' ->. cbn [queued out]. by rewrite length_app, Nat.add_sub, take_app_length.
Qed.

Lemma read_all_app reads : ∀ buf, read_all reads buf = (app buf) <$> read_all reads [].
Proof.
  induction reads as [|a reads IH]; intros buf; cbn [read_all]; [cbn; by rewrite app_nil_r|].
  destruct a as [[|b l]| | |]; cbn; try done; [|by rewrite app_nil_r].
  rewrite (IH (buf ++ b :: l)), (IH (b :: l)). destruct (read_all reads []); [|done]. cbn. by rewrite <- (assoc_L (++)).
Qed.

(** A call of [negotiate] on an unbroken socket is one [feed], up to what is on the
    wire already. *)
Lemma negotiate_feeds data sent s w1 reads w2 bytes :
  queued sent s = feed socks_new data → read_all reads [] = Some bytes →
  phase s ≠ Failed → (length (inbuf s ++ bytes) ≤ MAX_NEGOTIATION_BYTES)%nat →
  WrFailed ∉ w1 → WrFailed ∉ w2 →
  ∃ s', queued (sent ++ call_sent w1 bytes w2 s) s' = feed socks_new (data ++ bytes) ∧
    negotiate w1 reads w2 s =
      match phase s' with
      | Failed => (PFailed, None)
      | Done =>
        match out s' with
        | [] => (Connected (default [] (target s')) (inbuf s'), None)
        | _ => (Pending, Some s')
        end
      | _ => (Pending, Some s')
      end.
Proof.
  intros Hs Hr Hp Hlen Hw1 Hw2. unfold negotiate, call_sent.
  pose proof (flush_out_queued w1 s (or_introl Hw1)) as H1. set (s1 := flush_out w1 s) in *.
  assert (phase s1 = phase s ∧ inbuf s1 = inbuf s) as [Hp1 Hi1]
    by (split; [exact (f_equal phase H1)|exact (f_equal inbuf H1)]).
  rewrite bool_decide_false by (rewrite Hp1; exact Hp). rewrite read_all_app, Hr, Hi1. cbn [fmap option_fmap option_map].
  rewrite (proj2 (Nat.ltb_ge _ _)) by done.
  set (s2 := try_parse (set_inbuf (inbuf s ++ bytes) s1)).
  pose proof (flush_out_queued w2 s2 (or_introl Hw2)) as H2. exists (flush_out w2 s2). split; [|done].
  assert (∀ o o' x, queued (o ++ o') x = queued o (queued o' x)) as Happ.
  { intros o o' x. unfold queued. cbn. by rewrite (assoc_L (++)). }
  rewrite !Happ, H2, <- feed_feed, <- Hs. unfold s2, feed. rewrite <- !try_parse_queued. f_equal.
  trans (ext bytes (queued sent (queued (flushed w1 s) s1))); [|by rewrite H1].
  unfold ext, set_inbuf, queued. cbn. by rewrite Hi1.
Qed.

(** What the calls so far have left: the parser's state after all that was read,
    less the replies that are on the wire, and it has not failed. *)
Lemma negotiating_feeds data sent s :
  negotiating data sent s → queued sent s = feed socks_new data ∧ phase s ≠ Failed.
Proof.
  induction 1 as [|data sent s w1 reads w2 bytes s' _ [IH Hp] Hr Hn]; [done|].
  assert (phase (flush_out w1 s) ≠ Failed ∧ (length (inbuf s ++ bytes) ≤ MAX_NEGOTIATION_BYTES)%nat ∧
    phase s' ≠ Failed ∧ s' = flush_out w2 (try_parse (set_inbuf (inbuf s ++ bytes) (flush_out w1 s))))
    as (H1 & Hlen & Hp' & Hs').
  { unfold negotiate in Hn. case_bool_decide as Hf; [done|]. destruct (flush_out_shape w1 s) as [l Hl]; [by right|].
    assert (inbuf (flush_out w1 s) = inbuf s) as Hi by exact (eq_sym (f_equal inbuf Hl)).
    rewrite read_all_app, Hr, Hi in Hn. cbn [fmap option_fmap option_map] in Hn.
    destruct (Nat.ltb_spec MAX_NEGOTIATION_BYTES (length (inbuf s ++ bytes))); [done|].
    set (s2 := flush_out w2 _) in Hn. destruct (phase s2) eqn:Hp2; try done;
      [..|destruct (out s2); [done|]]; injection Hn as <-; by rewrite Hp2. }
  split; [|done]. subst s'. unfold call_sent.
  assert (∀ o o' x, queued (o ++ o') x = queued o (queued o' x)) as Happ.
  { intros o o' x. unfold queued. cbn. by rewrite (assoc_L (++)). }
  pose proof (flush_out_queued w1 s (or_intror H1)) as Hq1. set (s1 := flush_out w1 s) in *.
  assert (inbuf s1 = inbuf s) as Hi by exact (f_equal inbuf Hq1).
  rewrite Hi, !Happ, flush_out_queued by by right. rewrite <- feed_feed, <- IH. unfold feed.
  rewrite <- !try_parse_queued. f_equal.
  trans (ext bytes (queued sent (queued (flushed w1 s) s1))); [|by rewrite Hq1].
  unfold ext, set_inbuf, queued. cbn. by rewrite Hi.
Qed.

(** C27 Negotiation understands the protocol. Take a well-formed [CONNECT] request of
    SOCKS5 (IPv4, IPv6 or domain), SOCKS4 or SOCKS4a that arrives in any pieces, one or
    more to a call, on a socket that neither fails nor ends. While a part of it is
    missing each call leaves the negotiation pending. The call at which it is complete,
    perhaps with bytes after it, and every later one knows exactly the requested target
    and holds what followed as leftover; together the calls have written the replies
    that the protocol prescribes, up to what the socket has not taken yet, and the
    connection is reported once it has taken all. All this within the limit of 600
    buffered bytes, past which a call fails. *)
Theorem socks_connects r data sent s w1 reads w2 bytes :
  request_wf r → negotiating data sent s → read_all reads [] = Some bytes →
  WrFailed ∉ w1 → WrFailed ∉ w2 → (length (data ++ bytes) ≤ MAX_NEGOTIATION_BYTES)%nat →
  (∀ more, more ≠ [] → (data ++ bytes) ++ more = encode_request r →
    ∃ s', negotiate w1 reads w2 s = (Pending, Some s') ∧ phase s' ≠ Done) ∧
  (∀ extra, data ++ bytes = encode_request r ++ extra →
    ∃ rest, (sent ++ call_sent w1 bytes w2 s) ++ rest = request_replies r ∧
      negotiate w1 reads w2 s =
        match rest with
        | [] => (Connected (request_target r) extra, None)
        | _ => (Pending, Some (mkSocksConn extra rest Done (Some (request_target r))))
        end).
Proof.
  intros Hwf [Hs Hp]%negotiating_feeds Hr Hw1 Hw2 Hlen.
  destruct (negotiate_feeds data sent s w1 reads w2 bytes) as (s' & Hs' & ->); [done..| |done|done|].
  { pose proof (try_parse_shrinks (ext data socks_new)) as Hsh. fold (feed socks_new data) in Hsh.
    rewrite <- Hs in Hsh. cbn in Hsh. rewrite length_app in *. lia. }
  split.
  - intros more Hmore Hall. pose proof (feed_feed socks_new (data ++ bytes) more) as Hf.
    rewrite Hall, <- (app_nil_r (encode_request r)), feed_request, <- Hs' in Hf by done.
    destruct (phase s') eqn:Hph; try (eexists; split; [done|by rewrite Hph]);
      unfold feed in Hf; rewrite try_parse_settled in Hf by (cbn; rewrite Hph; auto).
    + injection Hf as Hi _ _. by apply app_nil in Hi as [_ ?].
    + apply (f_equal phase) in Hf. cbn in Hf. congruence.
  - intros extra Hall. rewrite Hall, feed_request in Hs' by done. destruct s' as [i o ph tg].
    injection Hs' as -> Ho -> ->. exists o. split; [done|]. by destruct o.
Qed.

(** Early application data is handed over as leftover only while it fits, with the
    request, in the negotiation bound. *)
Definition plain_request : list Z := encode_request (V5 [0] (Ip4 [10; 0; 0; 7]) 80).

Lemma early_data_bounded :
  negotiate [] [RdData (plain_request ++ replicate 500 65)] [WrTook 12] socks_new =
    (Connected (request_target (V5 [0] (Ip4 [10; 0; 0; 7]) 80)) (replicate 500 65), None) ∧
  negotiate [] [RdData (plain_request ++ replicate 600 65)] [WrTook 12] socks_new = (PFailed, None).
Proof. split; vm_compute; reflexivity. Qed.

(** ** Witnesses *)

(** [[2001:db8::1]:443]: the longest run of zeros is compressed. *)
Example ipv6_sample :
  request_target (V5 [0] (Ip6 [0x20; 1; 0x0d; 0xb8; 0; 0; 0; 0; 0; 0; 0; 0; 0; 0; 0; 1]) 443) =
  [91; 50; 48; 48; 49; 58; 100; 98; 56; 58; 58; 49; 93; 58; 52; 52; 51].
Proof. reflexivity. Qed.

(** A browser's request in three pieces, on a socket that is slow to take the
    replies: the connection is reported at the third call. *)
Definition sample_socks1 : SocksConn := mkSocksConn [5] [] Greeting None.
Definition sample_socks2 : SocksConn := mkSocksConn [5; 1; 0; 3; 3; 97] [0] Request None.

Lemma sample_negotiating : negotiating [5; 1; 0; 5; 1; 0; 3; 3; 97] [5] sample_socks2.
Proof.
  assert (negotiating [5] [] sample_socks1) as H1.
  { exact (negotiating_call [] [] socks_new [] [RdData [5]] [] [5] sample_socks1
      negotiating_new eq_refl eq_refl). }
  exact (negotiating_call [5] [] sample_socks1 [] [RdData [1; 0; 5; 1]; RdInterrupted; RdData [0; 3; 3; 97]]
    [WrTook 1] [1; 0; 5; 1; 0; 3; 3; 97] sample_socks2 H1 eq_refl eq_refl).
Qed.

Lemma socks_connects_witness :
  negotiate [WrTook 1] [RdData [46; 98; 1; 187; 22]] [WrTook 4; WrTook 6] sample_socks2 =
    (Connected [97; 46; 98; 58; 52; 52; 51] [22], None).
Proof.
  destruct (socks_connects (V5 [0] (Domain [97; 46; 98]) 443) [5; 1; 0; 5; 1; 0; 3; 3; 97] [5] sample_socks2
    [WrTook 1] [RdData [46; 98; 1; 187; 22]] [WrTook 4; WrTook 6] [46; 98; 1; 187; 22]) as [_ Hc].
  - split; [done|]. split; [|unfold is_u16; lia].
    split; [repeat (apply Forall_cons_2; [unfold is_char; lia|]); apply Forall_nil_2|reflexivity].
  - exact sample_negotiating.
  - reflexivity.
  - set_solver.
  - set_solver.
  - cbn. unfold MAX_NEGOTIATION_BYTES. lia.
  - destruct (Hc [22] eq_refl) as (rest & Hrest & ->). cbn in Hrest. by injection Hrest as ->.
Defined.
