(* ===== verification/Grid.v ===== *)
(** * The screen grid and terminal emulator ([crates/term/src/grid.rs])

    An operation returns [None] where the source would panic (an index or slice
    out of range). Terminal dimensions are [nat]; control-sequence parameters
    are the 16-bit numbers the parser delivers. The parser ([vte]) and the width
    table ([unicode_width]) are third-party code: the parser is the class [Vte],
    the width a parameter. *)

From S2P Require Import Prelude Cell.

(** @ crates/term/src/grid.rs:8-32 Grid *)
Record Grid := mkGrid {
  rows : nat;
  cols : nat;
  cells : list Cell;
  cursor_row : nat;
  cursor_col : nat;
  cursor_visible : bool;
  pen : Cell;
  autowrap : bool;
  wrap_pending : bool;
  scroll_top : nat;
  scroll_bottom : nat;
  saved : option (nat * nat * Cell);
  alt_screen : bool;
  alt_saved : option (list Cell);
  responses : list Z;
}.

Definition set_rows (v : nat) (s : Grid) : Grid :=   mkGrid v (cols s) (cells s)
    (cursor_row s) (cursor_col s) (cursor_visible s) (pen s) (autowrap s) (wrap_pending
    s) (scroll_top s) (scroll_bottom s) (saved s) (alt_screen s) (alt_saved s)
    (responses s).
Definition set_cols (v : nat) (s : Grid) : Grid :=   mkGrid (rows s) v (cells s)
    (cursor_row s) (cursor_col s) (cursor_visible s) (pen s) (autowrap s) (wrap_pending
    s) (scroll_top s) (scroll_bottom s) (saved s) (alt_screen s) (alt_saved s)
    (responses s).
Definition set_cells (v : list Cell) (s : Grid) : Grid :=   mkGrid (rows s) (cols s) v
    (cursor_row s) (cursor_col s) (cursor_visible s) (pen s) (autowrap s) (wrap_pending
    s) (scroll_top s) (scroll_bottom s) (saved s) (alt_screen s) (alt_saved s)
    (responses s).
Definition set_cursor_row (v : nat) (s : Grid) : Grid :=   mkGrid (rows s) (cols s)
    (cells s) v (cursor_col s) (cursor_visible s) (pen s) (autowrap s) (wrap_pending s)
    (scroll_top s) (scroll_bottom s) (saved s) (alt_screen s) (alt_saved s) (responses
    s).
Definition set_cursor_col (v : nat) (s : Grid) : Grid :=   mkGrid (rows s) (cols s)
    (cells s) (cursor_row s) v (cursor_visible s) (pen s) (autowrap s) (wrap_pending s)
    (scroll_top s) (scroll_bottom s) (saved s) (alt_screen s) (alt_saved s) (responses
    s).
Definition set_cursor_visible (v : bool) (s : Grid) : Grid :=   mkGrid (rows s) (cols s)
    (cells s) (cursor_row s) (cursor_col s) v (pen s) (autowrap s) (wrap_pending s)
    (scroll_top s) (scroll_bottom s) (saved s) (alt_screen s) (alt_saved s) (responses
    s).
Definition set_pen (v : Cell) (s : Grid) : Grid :=   mkGrid (rows s) (cols s) (cells s)
    (cursor_row s) (cursor_col s) (cursor_visible s) v (autowrap s) (wrap_pending s)
    (scroll_top s) (scroll_bottom s) (saved s) (alt_screen s) (alt_saved s) (responses
    s).
Definition set_autowrap (v : bool) (s : Grid) : Grid :=   mkGrid (rows s) (cols s)
    (cells s) (cursor_row s) (cursor_col s) (cursor_visible s) (pen s) v (wrap_pending
    s) (scroll_top s) (scroll_bottom s) (saved s) (alt_screen s) (alt_saved s)
    (responses s).
Definition set_wrap_pending (v : bool) (s : Grid) : Grid :=   mkGrid (rows s) (cols s)
    (cells s) (cursor_row s) (cursor_col s) (cursor_visible s) (pen s) (autowrap s) v
    (scroll_top s) (scroll_bottom s) (saved s) (alt_screen s) (alt_saved s) (responses
    s).
Definition set_scroll_top (v : nat) (s : Grid) : Grid :=   mkGrid (rows s) (cols s)
    (cells s) (cursor_row s) (cursor_col s) (cursor_visible s) (pen s) (autowrap s)
    (wrap_pending s) v (scroll_bottom s) (saved s) (alt_screen s) (alt_saved s)
    (responses s).
Definition set_scroll_bottom (v : nat) (s : Grid) : Grid :=   mkGrid (rows s) (cols s)
    (cells s) (cursor_row s) (cursor_col s) (cursor_visible s) (pen s) (autowrap s)
    (wrap_pending s) (scroll_top s) v (saved s) (alt_screen s) (alt_saved s) (responses
    s).
Definition set_saved (v : option (nat * nat * Cell)) (s : Grid) : Grid :=   mkGrid (rows
    s) (cols s) (cells s) (cursor_row s) (cursor_col s) (cursor_visible s) (pen s)
    (autowrap s) (wrap_pending s) (scroll_top s) (scroll_bottom s) v (alt_screen s)
    (alt_saved s) (responses s).
Definition set_alt_screen (v : bool) (s : Grid) : Grid :=   mkGrid (rows s) (cols s)
    (cells s) (cursor_row s) (cursor_col s) (cursor_visible s) (pen s) (autowrap s)
    (wrap_pending s) (scroll_top s) (scroll_bottom s) (saved s) v (alt_saved s)
    (responses s).
Definition set_alt_saved (v : option (list Cell)) (s : Grid) : Grid :=   mkGrid (rows s)
    (cols s) (cells s) (cursor_row s) (cursor_col s) (cursor_visible s) (pen s)
    (autowrap s) (wrap_pending s) (scroll_top s) (scroll_bottom s) (saved s) (alt_screen
    s) v (responses s).
Definition set_responses (v : list Z) (s : Grid) : Grid :=   mkGrid (rows s) (cols s)
    (cells s) (cursor_row s) (cursor_col s) (cursor_visible s) (pen s) (autowrap s)
    (wrap_pending s) (scroll_top s) (scroll_bottom s) (saved s) (alt_screen s)
    (alt_saved s) v.

(** @ crates/term/src/grid.rs:34-55 Grid::new *)
Definition grid_new (rows cols : nat) : Grid :=
  let rows := Nat.max rows 1 in
  let cols := Nat.max cols 1 in
  {| rows := rows; cols := cols; cells := replicate (rows * cols) blank;
     cursor_row := 0; cursor_col := 0; cursor_visible := true; pen := blank;
     autowrap := true; wrap_pending := false; scroll_top := 0;
     scroll_bottom := (rows - 1)%nat; saved := None; alt_screen := false;
     alt_saved := None; responses := [] |}.

(** @ crates/term/src/grid.rs:57-60 Grid::take_responses *)
Definition take_responses (g : Grid) : list Z * Grid := (responses g, set_responses [] g).

(** @ crates/term/src/grid.rs:62-65 Grid::idx *)
Definition idx (g : Grid) (row col : nat) : nat := row * cols g + col.

(** @ crates/term/src/grid.rs:67-74 Grid::cell *)
Definition cell (g : Grid) (row col : nat) : Cell :=
  if (row <? rows g)%nat && (col <? cols g)%nat then cells g !!! idx g row col else blank.

(** @ crates/term/src/grid.rs:76-86 Grid::render_eq *)
Definition render_eq (g other : Grid) : bool :=
  (rows g =? rows other)%nat && (cols g =? cols other)%nat &&
  bool_decide (cells g = cells other) &&
  (cursor_row g =? cursor_row other)%nat && (cursor_col g =? cursor_col other)%nat &&
  Bool.eqb (cursor_visible g) (cursor_visible other).

(** [self.cells[i] = c] and [self.cells[i]]. *)
Definition put_cell_at (i : nat) (c : Cell) (g : Grid) : option Grid :=
  if (i <? length (cells g))%nat then Some (set_cells (<[i := c]> (cells g)) g) else None.
Definition get_cell_at (i : nat) (g : Grid) : option Cell := cells g !! i.

(** [self.cells.copy_within(src..src + n, dst)]. *)
Definition copy_within (src n dst : nat) (g : Grid) : option Grid :=
  if (src + n <=? length (cells g))%nat && (dst + n <=? length (cells g))%nat
  then Some (set_cells (list_inserts dst (slice (cells g) src (src + n)) (cells g)) g)
  else None.

(** Blank columns [from..upto] of the row that starts at [start]. *)
Definition blank_cols (start from upto : nat) (g : Grid) : option Grid :=
  for_each (seq from (upto - from)) (λ c, put_cell_at (start + c) blank) g.

(** The row [r] copied from row [src]. *)
Definition copy_row (src r : nat) (g : Grid) : option Grid :=
  copy_within (idx g src 0) (cols g) (idx g r 0) g.

(** @ crates/term/src/grid.rs:188-202 Grid::scroll_up *)
Definition scroll_up (n : nat) (g : Grid) : option Grid :=
  let n := Nat.min n (scroll_bottom g - scroll_top g + 1) in
  for_each (seq (scroll_top g) (S (scroll_bottom g) - scroll_top g))
    (λ r g, if (r + n <=? scroll_bottom g)%nat then copy_row (r + n) r g
            else blank_cols (idx g r 0) 0 (cols g) g) g.

(** @ crates/term/src/grid.rs:204-218 Grid::scroll_down *)
Definition scroll_down (n : nat) (g : Grid) : option Grid :=
  let n := Nat.min n (scroll_bottom g - scroll_top g + 1) in
  for_each (rev (seq (scroll_top g) (S (scroll_bottom g) - scroll_top g)))
    (λ r g, if (scroll_top g + n <=? r)%nat then copy_row (r - n) r g
            else blank_cols (idx g r 0) 0 (cols g) g) g.

(** @ crates/term/src/grid.rs:172-178 Grid::line_feed *)
Definition line_feed (g : Grid) : option Grid :=
  if (cursor_row g =? scroll_bottom g)%nat then scroll_up 1 g
  else if (cursor_row g + 1 <? rows g)%nat then Some (set_cursor_row (cursor_row g + 1)%nat g)
  else Some g.

(** @ crates/term/src/grid.rs:180-186 Grid::reverse_index *)
Definition reverse_index (g : Grid) : option Grid :=
  if (cursor_row g =? scroll_top g)%nat then scroll_down 1 g
  else if (0 <? cursor_row g)%nat then Some (set_cursor_row (cursor_row g - 1)%nat g)
  else Some g.

(** @ crates/term/src/grid.rs:220-224 Grid::move_to *)
Definition move_to (row col : nat) (g : Grid) : Grid :=
  set_wrap_pending false
    (set_cursor_col (Nat.min col (cols g - 1)) (set_cursor_row (Nat.min row (rows g - 1)) g)).

(** @ crates/term/src/grid.rs:226-247 Grid::erase_in_display *)
Definition erase_in_display (mode : Z) (g : Grid) : option Grid :=
  let len := length (cells g) in
  let at_ := idx g (cursor_row g) (cursor_col g) in
  if mode =? 0 then
    if (at_ <=? len)%nat
    then Some (set_cells (take at_ (cells g) ++ replicate (len - at_) blank) g) else None
  else if mode =? 1 then
    if (at_ <? len)%nat
    then Some (set_cells (replicate (S at_) blank ++ drop (S at_) (cells g)) g) else None
  else Some (set_cells (replicate len blank) g).

(** @ crates/term/src/grid.rs:249-268 Grid::erase_in_line *)
Definition erase_in_line (mode : Z) (g : Grid) : option Grid :=
  let row_start := idx g (cursor_row g) 0 in
  if mode =? 0 then blank_cols row_start (cursor_col g) (cols g) g
  else if mode =? 1 then blank_cols row_start 0 (S (cursor_col g)) g
  else blank_cols row_start 0 (cols g) g.

(** @ crates/term/src/grid.rs:270-281 Grid::insert_blank_chars *)
Definition insert_blank_chars (n : nat) (g : Grid) : option Grid :=
  let row_start := idx g (cursor_row g) 0 in
  let col := cursor_col g in
  let n := Nat.min n (cols g - col) in
  for_each (rev (seq col (cols g - col)))
    (λ c g, if (col + n <=? c)%nat
            then x ← get_cell_at (row_start + c - n) g; put_cell_at (row_start + c) x g
            else put_cell_at (row_start + c) blank g) g.

(** @ crates/term/src/grid.rs:283-294 Grid::delete_chars *)
Definition delete_chars (n : nat) (g : Grid) : option Grid :=
  let row_start := idx g (cursor_row g) 0 in
  let col := cursor_col g in
  let n := Nat.min n (cols g - col) in
  for_each (seq col (cols g - col))
    (λ c g, if (c + n <? cols g)%nat
            then x ← get_cell_at (row_start + c + n) g; put_cell_at (row_start + c) x g
            else put_cell_at (row_start + c) blank g) g.

(** @ crates/term/src/grid.rs:296-304 Grid::insert_lines *)
Definition insert_lines (n : nat) (g : Grid) : option Grid :=
  if (cursor_row g <? scroll_top g)%nat || (scroll_bottom g <? cursor_row g)%nat then Some g
  else
    let saved_top := scroll_top g in
    set_scroll_top saved_top <$> scroll_down n (set_scroll_top (cursor_row g) g).

(** @ crates/term/src/grid.rs:306-314 Grid::delete_lines *)
Definition delete_lines (n : nat) (g : Grid) : option Grid :=
  if (cursor_row g <? scroll_top g)%nat || (scroll_bottom g <? cursor_row g)%nat then Some g
  else
    let saved_top := scroll_top g in
    set_scroll_top saved_top <$> scroll_up n (set_scroll_top (cursor_row g) g).

(** @ crates/term/src/grid.rs:316-325 Grid::enter_alt_screen *)
Definition enter_alt_screen (g : Grid) : Grid :=
  if negb (alt_screen g) then
    let g := set_alt_screen true g in
    let g := set_alt_saved (Some (cells g)) g in
    let g := set_cells (replicate (rows g * cols g) blank) g in
    move_to 0 0 g
  else g.

(** @ crates/term/src/grid.rs:327-334 Grid::leave_alt_screen *)
Definition leave_alt_screen (g : Grid) : Grid :=
  if alt_screen g then
    let g := set_alt_screen false g in
    match alt_saved g with
    | Some main => set_cells main (set_alt_saved None g)
    | None => g
    end
  else g.

(** Copy the overlap of a [rows0 * cols0] buffer into a blank [rows * cols] one. *)
Definition resize_cells (old : list Cell) (rows0 cols0 rows cols : nat) : option (list Cell) :=
  for_each (seq 0 (Nat.min rows rows0))
    (λ r new,
      for_each (seq 0 (Nat.min cols cols0))
        (λ c new,
          x ← old !! (r * cols0 + c)%nat;
          if (r * cols + c <? length new)%nat then Some (<[(r * cols + c)%nat := x]> new)
          else None) new)
    (replicate (rows * cols) blank).

(** @ crates/term/src/grid.rs:427-455 Grid::resize *)
Definition resize (rows' cols' : nat) (g : Grid) : option Grid :=
  let rows' := Nat.max rows' 1 in
  let cols' := Nat.max cols' 1 in
  new ← resize_cells (cells g) (rows g) (cols g) rows' cols';
  alt ← match alt_saved g with
        | Some alt => Some <$> resize_cells alt (rows g) (cols g) rows' cols'
        | None => Some None
        end;
  Some {| rows := rows'; cols := cols'; cells := new;
          cursor_row := Nat.min (cursor_row g) (rows' - 1);
          cursor_col := Nat.min (cursor_col g) (cols' - 1);
          cursor_visible := cursor_visible g; pen := pen g; autowrap := autowrap g;
          wrap_pending := false; scroll_top := 0; scroll_bottom := (rows' - 1)%nat;
          saved := saved g; alt_screen := alt_screen g; alt_saved := alt;
          responses := responses g |}.

(** ** Control-sequence parameters: groups of 16-bit numbers *)
Definition Params : Type := list (list Z).

(** [groups.get(i).and_then(|x| x.first().copied())]. *)
Definition param (params : Params) (i : nat) : option Z := params !! i ≫= head.

(** @ crates/term/src/grid.rs:477-483 arg *)
Definition arg (params : Params) (i : nat) (default : Z) : Z :=
  match param params i with
  | None => default
  | Some v => if v =? 0 then default else v
  end.

(** @ crates/term/src/grid.rs:485-492 arg_raw *)
Definition arg_raw (params : Params) (i : nat) (default : Z) : Z :=
  match param params i with Some v => v | None => default end.

(** @ crates/term/src/grid.rs:458-475 parse_ext_color *)
Definition parse_ext_color (sub : list Z) : option Color :=
  match sub with
  | [] => None
  | k :: rest =>
    if k =? 5 then (λ n, Indexed (as_u8 n)) <$> head rest
    else if k =? 2 then
      if (4 <=? length sub)%nat then
        r ← sub !! (length sub - 3)%nat;
        g ← sub !! (length sub - 2)%nat;
        b ← sub !! (length sub - 1)%nat;
        Some (Rgb (as_u8 r) (as_u8 g) (as_u8 b))
      else None
    else None
  end.

Definition pen_fg (c : Color) (p : Cell) : Cell :=
  {| ch := ch p; fg := c; bg := bg p; flags := flags p |}.
Definition pen_bg (c : Color) (p : Cell) : Cell :=
  {| ch := ch p; fg := fg p; bg := c; flags := flags p |}.
Definition pen_set (bit : Z) (p : Cell) : Cell :=
  {| ch := ch p; fg := fg p; bg := bg p; flags := Z.lor (flags p) bit |}.
(** [flags &= !bits] on a [u8]. *)
Definition pen_clear (bits : Z) (p : Cell) : Cell :=
  {| ch := ch p; fg := fg p; bg := bg p; flags := Z.land (flags p) (255 - bits) |}.

(** Codes [38] and [48]: the new pen, and how many further groups are consumed. *)
Definition ext_color (groups : Params) (i : nat) (g : list Z) (is_fg : bool) (pen : Cell) :
    Cell * nat :=
  let put c := if is_fg then pen_fg c pen else pen_bg c pen in
  if (2 <=? length g)%nat then
    (match parse_ext_color (drop 1 g) with Some c => put c | None => pen end, 0%nat)
  else
    match param groups (i + 1) with
    | Some k =>
      if k =? 5 then
        (match param groups (i + 2) with Some n => put (Indexed (as_u8 n)) | None => pen end,
         2%nat)
      else if k =? 2 then
        (put (Rgb (as_u8 (default 0 (param groups (i + 2))))
                  (as_u8 (default 0 (param groups (i + 3))))
                  (as_u8 (default 0 (param groups (i + 4))))), 4%nat)
      else (pen, 0%nat)
    | None => (pen, 0%nat)
    end.

(** One attribute code: the new pen, and how many further groups are consumed. *)
Definition sgr_code (groups : Params) (i : nat) (g : list Z) (pen : Cell) : Cell * nat :=
  let code := default 0 (head g) in
  let keep p := (p, 0%nat) in
  if code =? 0 then keep blank
  else if code =? 1 then keep (pen_set BOLD pen)
  else if code =? 2 then keep (pen_set DIM pen)
  else if code =? 3 then keep (pen_set ITALIC pen)
  else if code =? 4 then keep (pen_set UNDERLINE pen)
  else if code =? 7 then keep (pen_set REVERSE pen)
  else if code =? 8 then keep (pen_set HIDDEN pen)
  else if code =? 9 then keep (pen_set STRIKE pen)
  else if code =? 22 then keep (pen_clear (Z.lor BOLD DIM) pen)
  else if code =? 23 then keep (pen_clear ITALIC pen)
  else if code =? 24 then keep (pen_clear UNDERLINE pen)
  else if code =? 27 then keep (pen_clear REVERSE pen)
  else if code =? 28 then keep (pen_clear HIDDEN pen)
  else if code =? 29 then keep (pen_clear STRIKE pen)
  else if (30 <=? code) && (code <=? 37) then keep (pen_fg (Indexed (code - 30)) pen)
  else if (90 <=? code) && (code <=? 97) then keep (pen_fg (Indexed (code - 90 + 8)) pen)
  else if code =? 39 then keep (pen_fg Default pen)
  else if (40 <=? code) && (code <=? 47) then keep (pen_bg (Indexed (code - 40)) pen)
  else if (100 <=? code) && (code <=? 107) then keep (pen_bg (Indexed (code - 100 + 8)) pen)
  else if code =? 49 then keep (pen_bg Default pen)
  else if (code =? 38) || (code =? 48) then ext_color groups i g (code =? 38) pen
  else keep pen.

(** The [while i < groups.len()] loop: at most one round per group. *)
Fixpoint sgr_loop (fuel : nat) (groups : Params) (i : nat) (pen : Cell) : Cell :=
  match fuel with
  | O => pen
  | S fuel =>
    match groups !! i with
    | None => pen
    | Some g =>
      let '(pen, skip) := sgr_code groups i g pen in
      sgr_loop fuel groups (i + skip + 1) pen
    end
  end.

(** @ crates/term/src/grid.rs:336-425 Grid::set_sgr *)
Definition set_sgr (params : Params) (g : Grid) : Grid :=
  match params with
  | [] => set_pen blank g
  | _ => set_pen (sgr_loop (length params) params 0 (pen g)) g
  end.

(** @ crates/term/src/grid.rs:637-650 Grid::set_private_mode *)
Definition set_private_mode (mode : Z) (enable : bool) (g : Grid) : Grid :=
  if mode =? 7 then set_autowrap enable g
  else if mode =? 25 then set_cursor_visible enable g
  else if (mode =? 1049) || (mode =? 47) || (mode =? 1047) then
    if enable then enter_alt_screen g else leave_alt_screen g
  else g.

Definition with_ch (c : Z) (p : Cell) : Cell :=
  {| ch := c; fg := fg p; bg := bg p; flags := flags p |}.

Section emulator.
(** [UnicodeWidthChar::width(c).unwrap_or(0)]. *)
Context (char_width : Z → nat).

(** The pending wrap, then the wide glyph that would straddle the edge, then the
    glyph and the cursor.
    @ crates/term/src/grid.rs:104-170 Grid::put_char *)
Definition put_char (c : Z) (g : Grid) : option Grid :=
  let w := char_width c in
  if (w =? 0)%nat then Some g
  else
    g ← (if wrap_pending g && autowrap g
         then set_wrap_pending false <$> line_feed (set_cursor_col 0 g)
         else Some g);
    g ← (if (w =? 2)%nat && (cols g <=? cursor_col g + 1)%nat then
           set_wrap_pending false <$>
             (if autowrap g then line_feed (set_cursor_col 0 g)
              else Some (set_cursor_col (cols g - 2)%nat g))
         else Some g);
    let r := cursor_row g in
    let col := cursor_col g in
    g ← put_cell_at (idx g r col) (with_ch c (pen g)) g;
    if (w =? 2)%nat then
      g ← put_cell_at (idx g r (col + 1)) (with_ch 0 (pen g)) g;
      if (col + 2 <? cols g)%nat then Some (set_cursor_col (col + 2)%nat g)
      else if autowrap g then Some (set_wrap_pending true g)
      else Some (set_cursor_col (cols g - 1)%nat g)
    else if (cursor_col g + 1 <? cols g)%nat then Some (set_cursor_col (cursor_col g + 1)%nat g)
    else if autowrap g then Some (set_wrap_pending true g)
    else Some g.

(** @ crates/term/src/grid.rs:499-518 Grid::execute *)
Definition execute (byte : Z) (g : Grid) : option Grid :=
  if (byte =? 0x0a) || (byte =? 0x0b) || (byte =? 0x0c) then line_feed g
  else if byte =? 0x0d then Some (set_wrap_pending false (set_cursor_col 0 g))
  else if byte =? 0x08 then
    Some (set_wrap_pending false
      (if (0 <? cursor_col g)%nat then set_cursor_col (cursor_col g - 1)%nat g else g))
  else if byte =? 0x09 then
    let next := ((cursor_col g / 8 + 1) * 8)%nat in
    Some (set_cursor_col (Nat.min next (cols g - 1)) g)
  else Some g.

(** [self.responses.extend_from_slice]. *)
Definition respond (bytes : list Z) (g : Grid) : Grid :=
  set_responses (responses g ++ bytes) g.

(** The cursor position report [ESC[<row>;<col>R]. *)
Definition cpr (private : bool) (row col : nat) : list Z :=
  [0x1b; 0x5b] ++ (if private then [0x3f] else []) ++ digits (Z.of_nat row) ++ [0x3b]
  ++ digits (Z.of_nat col) ++ [0x52].

(** [arg(...) as usize - 1], where the argument is at least 1. *)
Definition arg_index (params : Params) (i : nat) (default : Z) : nat :=
  Z.to_nat (arg params i default - 1).

(** The action ['r']: the comparison is on the 64-bit [bottom], which wraps when
    [rows] is a multiple of [2^16] (a [bottom] that large is rejected). *)
Definition set_scroll_region (params : Params) (g : Grid) : Grid :=
  let top := arg params 0 1 - 1 in
  let bottom := as_u64 (arg params 1 (as_u16 (Z.of_nat (rows g))) - 1) in
  if (top <? bottom) && (bottom <? Z.of_nat (rows g))
  then move_to 0 0 (set_scroll_bottom (Z.to_nat bottom) (set_scroll_top (Z.to_nat top) g))
  else g.

(** The action ['n'] (Device Status Report). *)
Definition status_report (params : Params) (private : bool) (g : Grid) : Grid :=
  let mode := arg_raw params 0 0 in
  if negb private && (mode =? 5) then respond [0x1b; 0x5b; 0x30; 0x6e] g
  else if mode =? 6 then respond (cpr private (cursor_row g + 1) (cursor_col g + 1)) g
  else g.

(** The action ['c'] (Device Attributes). *)
Definition device_attributes (intermediates : list Z) (g : Grid) : Grid :=
  if bool_decide (head intermediates = Some 0x3e)
  then respond [0x1b; 0x5b; 0x3e; 0x30; 0x3b; 0x30; 0x3b; 0x30; 0x63] g
  else if bool_decide (intermediates = [])
  then respond [0x1b; 0x5b; 0x3f; 0x31; 0x3b; 0x32; 0x63] g
  else g.

(** The final byte as a character: ['A'], ['B'], ...
    @ crates/term/src/grid.rs:520-609 Grid::csi_dispatch *)
Definition csi_dispatch (params : Params) (intermediates : list Z) (action : Z) (g : Grid) :
    option Grid :=
  let private := bool_decide (head intermediates = Some 0x3f) in
  let n := Z.to_nat (arg params 0 1) in
  let unwrap g := set_wrap_pending false g in
  if action =? 0x41 then Some (unwrap (set_cursor_row (cursor_row g - n)%nat g))
  else if action =? 0x42 then
    Some (unwrap (set_cursor_row (Nat.min (cursor_row g + n) (rows g - 1)) g))
  else if action =? 0x43 then
    Some (unwrap (set_cursor_col (Nat.min (cursor_col g + n) (cols g - 1)) g))
  else if action =? 0x44 then Some (unwrap (set_cursor_col (cursor_col g - n)%nat g))
  else if action =? 0x47 then
    Some (unwrap (set_cursor_col (Nat.min (arg_index params 0 1) (cols g - 1)) g))
  else if action =? 0x64 then
    Some (unwrap (set_cursor_row (Nat.min (arg_index params 0 1) (rows g - 1)) g))
  else if (action =? 0x48) || (action =? 0x66) then
    Some (move_to (arg_index params 0 1) (arg_index params 1 1) g)
  else if action =? 0x4a then erase_in_display (arg_raw params 0 0) g
  else if action =? 0x4b then erase_in_line (arg_raw params 0 0) g
  else if action =? 0x40 then insert_blank_chars n g
  else if action =? 0x50 then delete_chars n g
  else if action =? 0x4c then insert_lines n g
  else if action =? 0x4d then delete_lines n g
  else if action =? 0x53 then scroll_up n g
  else if action =? 0x54 then scroll_down n g
  else if action =? 0x72 then Some (set_scroll_region params g)
  else if action =? 0x6d then Some (set_sgr params g)
  else if (action =? 0x68) && private then
    Some (set_private_mode (arg_raw params 0 0) true g)
  else if (action =? 0x6c) && private then
    Some (set_private_mode (arg_raw params 0 0) false g)
  else if action =? 0x6e then Some (status_report params private g)
  else if action =? 0x63 then Some (device_attributes intermediates g)
  else Some g.

(** @ crates/term/src/grid.rs:611-633 Grid::esc_dispatch *)
Definition esc_dispatch (byte : Z) (g : Grid) : option Grid :=
  if byte =? 0x44 then line_feed g
  else if byte =? 0x4d then reverse_index g
  else if byte =? 0x45 then line_feed (set_cursor_col 0 g)
  else if byte =? 0x37 then Some (set_saved (Some (cursor_row g, cursor_col g, pen g)) g)
  else if byte =? 0x38 then
    match saved g with
    | Some (r, c, p) =>
      Some (set_pen p (set_cursor_col (Nat.min c (cols g - 1))
        (set_cursor_row (Nat.min r (rows g - 1)) g)))
    | None => Some g
    end
  else if byte =? 0x63 then Some (grid_new (rows g) (cols g))
  else Some g.

(** What the parser calls on the grid ([vte::Perform]). *)
Inductive action :=
| Print (c : Z)
| Execute (byte : Z)
| CsiDispatch (params : Params) (intermediates : list Z) (action : Z)
| EscDispatch (byte : Z).

(** @ crates/term/src/grid.rs:494-497 Perform for Grid *)
Definition perform (a : action) (g : Grid) : option Grid :=
  match a with
  | Print c => put_char c g
  | Execute b => execute b g
  | CsiDispatch params intermediates a => csi_dispatch params intermediates a g
  | EscDispatch b => esc_dispatch b g
  end.
End emulator.

(** [vte]: the parser is a state machine that turns bytes into calls. *)
Class Vte := {
  Parser : Type;
  parser_new : Parser;
  parse : Parser → list Z → list action * Parser;
}.

Section terminal.
Context (char_width : Z → nat) `{!Vte}.

(** @ crates/term/src/grid.rs:653-657 Terminal *)
Record Terminal := mkTerminal { parser : Parser; grid : Grid }.

(** @ crates/term/src/grid.rs:660-665 Terminal::new *)
Definition terminal_new (rows cols : nat) : Terminal :=
  {| parser := parser_new; grid := grid_new rows cols |}.

(** @ crates/term/src/grid.rs:667-670 Terminal::advance *)
Definition advance (t : Terminal) (bytes : list Z) : option Terminal :=
  let '(actions, p) := parse (parser t) bytes in
  g ← for_each actions (perform char_width) (grid t);
  Some {| parser := p; grid := g |}.

(** @ crates/term/src/grid.rs:672-674 Terminal::screen *)
Definition screen (t : Terminal) : Grid := grid t.

(** @ crates/term/src/grid.rs:676-679 Terminal::take_responses *)
Definition terminal_take_responses (t : Terminal) : list Z * Terminal :=
  (responses (grid t), {| parser := parser t; grid := set_responses [] (grid t) |}).

(** @ crates/term/src/grid.rs:681-683 Terminal::resize *)
Definition terminal_resize (t : Terminal) (rows cols : nat) : option Terminal :=
  g ← resize rows cols (grid t);
  Some {| parser := parser t; grid := g |}.
End terminal.
