(* ===== verification/GridOps.v ===== *)
(** * What the grid operations do ([crates/term/src/grid.rs])

    Functional specifications of the cell-moving operations, by row and column,
    and the safety of every action: on a well-formed grid at least two columns
    wide nothing panics and the grid stays well-formed. *)

From S2P Require Import Prelude Cell Grid.

#[local] Open Scope nat_scope.

(** A buffer of [n] well-formed cells. *)
Definition buffer_wf (n : nat) (l : list Cell) : Prop := length l = n ∧ Forall cell_wf l.

Record grid_wf (g : Grid) : Prop := {
  gw_rows : 1 ≤ rows g;
  gw_cols : 1 ≤ cols g;
  gw_cells : buffer_wf (rows g * cols g) (cells g);
  gw_row : cursor_row g < rows g;
  gw_col : cursor_col g < cols g;
  gw_pen : cell_wf (pen g);
  gw_top : scroll_top g ≤ scroll_bottom g;
  gw_bottom : scroll_bottom g < rows g;
  gw_saved r c p : saved g = Some (r, c, p) → cell_wf p;
  gw_alt l : alt_saved g = Some l → buffer_wf (rows g * cols g) l;
}.

(** ** Rows and columns *)

Lemma index_lt R C r c : r < R → c < C → r * C + c < R * C.
Proof. nia. Qed.

Lemma index_row C r c r' : c < C → r' * C ≤ r * C + c < r' * C + C ↔ r = r'.
Proof. intros. split; nia. Qed.

Lemma buffer_index R C i : 1 ≤ C → i < R * C → ∃ r c, r < R ∧ c < C ∧ i = r * C + c.
Proof.
  intros HC Hi. exists (i / C), (i mod C).
  pose proof (Nat.div_mod i C ltac:(lia)). pose proof (Nat.mod_upper_bound i C ltac:(lia)).
  split_and!; [|done|lia]. apply Nat.Div0.div_lt_upper_bound; lia.
Qed.

(** Every cell of [l] comes from [l0] or is blank. *)
Lemma buffer_wf_from n l l0 :
  buffer_wf n l0 → length l = n →
  (∀ i x, l !! i = Some x → x = blank ∨ ∃ j, l0 !! j = Some x) →
  buffer_wf n l.
Proof.
  intros [Hl0 Hf] Hl Hx. split; [done|]. apply Forall_lookup. intros i x Hi.
  destruct (Hx i x Hi) as [->|[j Hj]]; [apply blank_wf|by eapply Forall_lookup_1].
Qed.

(** ** The primitive operations *)

Lemma put_cell_at_spec i c g :
  i < length (cells g) → put_cell_at i c g = Some (set_cells (<[i := c]> (cells g)) g).
Proof. intros Hi. unfold put_cell_at. by rewrite (proj2 (Nat.ltb_lt _ _) Hi). Qed.

Lemma set_cells_cells l g : cells (set_cells l g) = l.
Proof. done. Qed.

Lemma set_cells_twice l l' g : set_cells l (set_cells l' g) = set_cells l g.
Proof. done. Qed.

Lemma set_cells_id g : set_cells (cells g) g = g.
Proof. by destruct g. Qed.

(** A loop that only rewrites cells. *)
Lemma for_each_cells {A} (P : list A → list Cell → Prop) (f : A → Grid → option Grid) items g :
  P [] (cells g) →
  (∀ done a rest l, items = done ++ a :: rest → P done l →
     ∃ l', f a (set_cells l g) = Some (set_cells l' g) ∧ P (done ++ [a]) l') →
  ∃ l, for_each items f g = Some (set_cells l g) ∧ P items l.
Proof.
  intros H0 Hf.
  destruct (for_each_inv (λ done g', ∃ l, g' = set_cells l g ∧ P done l) f items g)
    as (g' & Hg & l & -> & Hl).
  - exists (cells g). by rewrite set_cells_id.
  - intros done a rest g' Hi (l & -> & Hl).
    destruct (Hf done a rest l Hi Hl) as (l' & Hl' & HP). exists (set_cells l' g). eauto.
  - eauto.
Qed.

Lemma blank_cols_spec start from upto g :
  from ≤ upto → start + upto ≤ length (cells g) →
  ∃ l, blank_cols start from upto g = Some (set_cells l g) ∧
    length l = length (cells g) ∧
    ∀ i, l !! i = if decide (start + from ≤ i < start + upto) then Some blank else cells g !! i.
Proof.
  intros Hle Hlen. unfold blank_cols.
  destruct (for_each_cells (λ done l, length l = length (cells g) ∧
    ∀ i, l !! i = if decide (start + from ≤ i < start + from + length done)
                  then Some blank else cells g !! i)
    (λ c, put_cell_at (start + c) blank) (seq from (upto - from)) g) as (l & Hl & Hlen' & Hi).
  - split; [done|]. intros i. cbn. rewrite decide_False by lia. done.
  - intros done c rest l Hs [Hlen' Hl]. apply seq_split in Hs as [-> Hd].
    exists (<[start + (from + length done) := blank]> l).
    rewrite put_cell_at_spec by (cbn; lia). split; [done|]. rewrite length_insert. split; [done|].
    intros i. rewrite length_app. cbn [length].
    destruct (decide (i = start + (from + length done))) as [->|Hne].
    + rewrite list_lookup_insert_eq by lia. by rewrite decide_True by lia.
    + rewrite list_lookup_insert_ne, Hl by done. repeat case_decide; try done; lia.
  - exists l. rewrite length_seq in Hi. split_and!; [done|done|]. intros i. rewrite Hi.
    repeat case_decide; try done; lia.
Qed.

Lemma copy_row_spec src r g :
  length (cells g) = rows g * cols g → src < rows g → r < rows g →
  ∃ l, copy_row src r g = Some (set_cells l g) ∧ length l = length (cells g) ∧
    ∀ r' c, c < cols g → l !! (r' * cols g + c) =
      if decide (r' = r) then cells g !! (src * cols g + c) else cells g !! (r' * cols g + c).
Proof.
  intros Hlen Hsrc Hr. unfold copy_row, copy_within, idx. rewrite !Nat.add_0_r.
  rewrite !(proj2 (Nat.leb_le _ _)) by nia. cbn [andb]. eexists. split; [done|].
  rewrite length_inserts. split; [done|]. intros r' c Hc.
  assert (length (slice (cells g) (src * cols g) (src * cols g + cols g)) = cols g) as Hs
    by (rewrite length_slice; nia).
  case_decide as Hr'; [subst r'|].
  - rewrite list_lookup_inserts by (rewrite ?Hs; nia). rewrite lookup_slice by nia. f_equal. lia.
  - assert (¬ (r * cols g ≤ r' * cols g + c < r * cols g + cols g)) as Hout
      by (rewrite index_row by done; done).
    destruct (decide (r' * cols g + c < r * cols g)).
    + by apply list_lookup_inserts_lt.
    + apply list_lookup_inserts_ge. rewrite Hs. lia.
Qed.

Lemma blank_row_spec r g :
  length (cells g) = rows g * cols g → r < rows g →
  ∃ l, blank_cols (idx g r 0) 0 (cols g) g = Some (set_cells l g) ∧
    length l = length (cells g) ∧
    ∀ r' c, c < cols g → l !! (r' * cols g + c) =
      if decide (r' = r) then Some blank else cells g !! (r' * cols g + c).
Proof.
  intros Hlen Hr. unfold idx. rewrite Nat.add_0_r.
  destruct (blank_cols_spec (r * cols g) 0 (cols g) g) as (l & -> & Hl & Hi); [lia|nia|].
  exists l. split_and!; [done|done|]. intros r' c Hc. rewrite Hi, Nat.add_0_r.
  pose proof (index_row (cols g) r' c r Hc). repeat case_decide; try done; exfalso; tauto.
Qed.

(** ** Moving rows and moving cells *)

(** Each row of [items], in this order, is copied from a row not yet overwritten
    or blanked. *)
Lemma move_rows items (src : nat → option nat) f g :
  length (cells g) = rows g * cols g → NoDup items →
  (∀ r, r ∈ items → r < rows g) →
  (∀ done r rest s, items = done ++ r :: rest → src r = Some s → s < rows g ∧ s ∉ done) →
  (∀ r l, r ∈ items → f r (set_cells l g) =
     match src r with
     | Some s => copy_row s r (set_cells l g)
     | None => blank_cols (idx g r 0) 0 (cols g) (set_cells l g)
     end) →
  ∃ l, for_each items f g = Some (set_cells l g) ∧ length l = length (cells g) ∧
    ∀ r c, c < cols g → l !! (r * cols g + c) =
      if decide (r ∈ items) then
        match src r with Some s => cells g !! (s * cols g + c) | None => Some blank end
      else cells g !! (r * cols g + c).
Proof.
  intros Hlen Hnd Hlt Hsrc Hf.
  refine (for_each_cells (λ done l, length l = length (cells g) ∧
    ∀ r c, c < cols g → l !! (r * cols g + c) =
      if decide (r ∈ done) then
        match src r with Some s => cells g !! (s * cols g + c) | None => Some blank end
      else cells g !! (r * cols g + c)) f items g _ _).
  { split; [done|]. intros r c _. by rewrite decide_False by apply not_elem_of_nil. }
  intros done r rest l Hi [Hl Hrows].
  assert (r ∈ items) as Hr by (rewrite Hi; apply elem_of_app; right; by left).
  assert (r ∉ done) as Hnin.
  { rewrite Hi in Hnd. apply NoDup_app in Hnd as (_ & Hno & _). intros ?%Hno.
    set_solver. }
  pose proof (Hlt r Hr).
  assert (∃ l', f r (set_cells l g) = Some (set_cells l' g) ∧ length l' = length l ∧
    ∀ r' c, c < cols g → l' !! (r' * cols g + c) =
      if decide (r' = r) then
        match src r with Some s => cells g !! (s * cols g + c) | None => Some blank end
      else l !! (r' * cols g + c)) as (l' & Hl' & Hlen' & Hrow').
  { rewrite Hf by done. destruct (src r) as [s|] eqn:Hs.
    - destruct (Hsrc done r rest s Hi Hs) as [Hslt Hsnin].
      destruct (copy_row_spec s r (set_cells l g)) as (l' & Hc & Hll & Hrr);
        [cbn; congruence|done|done|].
      exists l'. split_and!; [done|done|]. intros r' c Hcc. cbn in Hrr.
      rewrite Hrr by done. case_decide; [|done]. by rewrite Hrows, decide_False.
    - destruct (blank_row_spec r (set_cells l g)) as (l' & Hc & Hll & Hrr);
        [cbn; congruence|done|].
      by exists l'. }
  exists l'. split_and!; [done|congruence|]. intros r' c Hc. rewrite Hrow' by done.
  case_decide as Hrr; [subst r'|].
  - rewrite decide_True; [done|]. apply elem_of_app. right. by left.
  - rewrite Hrows by done. destruct (decide (r' ∈ done)).
    + rewrite decide_True; [done|]. apply elem_of_app. by left.
    + rewrite decide_False; [done|]. rewrite elem_of_app, list_elem_of_singleton. tauto.
Qed.

(** The same for single cells, at [base + c] for the columns [c] of [items]. *)
Lemma move_cells items base (src : nat → option nat) f g :
  NoDup items →
  (∀ c, c ∈ items → base + c < length (cells g)) →
  (∀ done c rest s, items = done ++ c :: rest → src c = Some s →
     base + s < length (cells g) ∧ s ∉ done) →
  (∀ c l, c ∈ items → f c (set_cells l g) =
     match src c with
     | Some s => x ← get_cell_at (base + s) (set_cells l g);
                 put_cell_at (base + c) x (set_cells l g)
     | None => put_cell_at (base + c) blank (set_cells l g)
     end) →
  ∃ l, for_each items f g = Some (set_cells l g) ∧ length l = length (cells g) ∧
    (∀ c, c ∈ items → l !! (base + c) =
       match src c with Some s => cells g !! (base + s) | None => Some blank end) ∧
    (∀ i, (∀ c, c ∈ items → i ≠ base + c) → l !! i = cells g !! i).
Proof.
  intros Hnd Hlt Hsrc Hf.
  refine (for_each_cells (λ done l, length l = length (cells g) ∧
    (∀ c, c ∈ done → l !! (base + c) =
       match src c with Some s => cells g !! (base + s) | None => Some blank end) ∧
    (∀ i, (∀ c, c ∈ done → i ≠ base + c) → l !! i = cells g !! i)) f items g _ _).
  { split_and!; [done|by intros c ?%not_elem_of_nil|done]. }
  intros done c rest l Hi (Hl & Hin & Hout).
  assert (c ∈ items) as Hc by (rewrite Hi; apply elem_of_app; right; by left).
  assert (c ∉ done) as Hnin.
  { rewrite Hi in Hnd. apply NoDup_app in Hnd as (_ & Hno & _). intros ?%Hno. set_solver. }
  pose proof (Hlt c Hc).
  set (x := match src c with Some s => cells g !! (base + s) | None => Some blank end).
  assert (∃ y, x = Some y ∧ f c (set_cells l g) = Some (set_cells (<[base + c := y]> l) g))
    as (y & Hy & Hfc).
  { rewrite Hf by done. unfold x. destruct (src c) as [s|] eqn:Hs.
    - destruct (Hsrc done c rest s Hi Hs) as [Hslt Hsnin].
      destruct (lookup_lt_is_Some_2 (cells g) (base + s) Hslt) as [y Hy]. exists y.
      split; [done|]. unfold get_cell_at. cbn [cells set_cells].
      assert (l !! (base + s) = Some y) as ->.
      { rewrite Hout; [done|]. intros c' Hc' ?. assert (c' = s) as -> by lia. done. }
      cbn. rewrite put_cell_at_spec by (cbn; lia). done.
    - exists blank. split; [done|]. by rewrite put_cell_at_spec by (cbn; lia). }
  exists (<[base + c := y]> l). rewrite length_insert. split_and!; [done|done| |].
  - intros c' [Hc'|Hc']%elem_of_app.
    + rewrite list_lookup_insert_ne; [by apply Hin|]. intros ?. assert (c = c') as -> by lia. done.
    + apply list_elem_of_singleton in Hc' as ->. rewrite list_lookup_insert_eq by lia. by rewrite <- Hy.
  - intros i Hno. rewrite list_lookup_insert_ne.
    + apply Hout. intros c' Hc'. apply Hno. apply elem_of_app. by left.
    + intros ?. apply (Hno c); [apply elem_of_app; right; by left|done].
Qed.

(** ** Scrolling *)

Lemma elem_of_region top bottom r : r ∈ seq top (S bottom - top) ↔ top ≤ r ≤ bottom.
Proof. rewrite elem_of_seq. lia. Qed.

Lemma scroll_up_spec n g :
  length (cells g) = rows g * cols g → scroll_top g ≤ scroll_bottom g → scroll_bottom g < rows g →
  ∃ l, scroll_up n g = Some (set_cells l g) ∧ length l = length (cells g) ∧
    ∀ r c, c < cols g → l !! (r * cols g + c) =
      if decide (scroll_top g ≤ r ≤ scroll_bottom g) then
        if decide (r + n ≤ scroll_bottom g) then cells g !! ((r + n) * cols g + c)
        else Some blank
      else cells g !! (r * cols g + c).
Proof.
  intros Hlen Htop Hbot. unfold scroll_up.
  set (n' := Nat.min n _). set (items := seq _ _).
  assert (∀ r, r ∈ items ↔ scroll_top g ≤ r ≤ scroll_bottom g) as Hit
    by (intros; apply elem_of_region).
  destruct (move_rows items (λ r, if decide (r + n ≤ scroll_bottom g) then Some (r + n) else None)
    (λ r g0, if r + n' <=? scroll_bottom g0 then copy_row (r + n') r g0
             else blank_cols (idx g0 r 0) 0 (cols g0) g0) g) as (l & Hl & Hll & Hrow).
  - done.
  - apply NoDup_seq.
  - intros r ?%Hit. lia.
  - intros done r rest s Hi Hs. case_decide; [|done]. injection Hs as <-. split; [lia|].
    intros Hd. pose proof (seq_before _ _ _ _ _ _ Hi Hd). lia.
  - intros r l ?%Hit. cbn [scroll_bottom set_cells]. case_decide.
    + rewrite (proj2 (Nat.leb_le _ _)) by lia. f_equal. lia.
    + by rewrite (proj2 (Nat.leb_gt _ _)) by lia.
  - exists l. split_and!; [exact Hl|done|]. intros r c Hc. rewrite Hrow by done.
    destruct (decide (r ∈ items)) as [Hr%Hit|Hr].
    + rewrite (decide_True (P := scroll_top g ≤ r ≤ scroll_bottom g)) by done. by case_decide.
    + rewrite Hit in Hr. by rewrite decide_False.
Qed.

Lemma scroll_down_spec n g :
  length (cells g) = rows g * cols g → scroll_top g ≤ scroll_bottom g → scroll_bottom g < rows g →
  ∃ l, scroll_down n g = Some (set_cells l g) ∧ length l = length (cells g) ∧
    ∀ r c, c < cols g → l !! (r * cols g + c) =
      if decide (scroll_top g ≤ r ≤ scroll_bottom g) then
        if decide (scroll_top g + n ≤ r) then cells g !! ((r - n) * cols g + c)
        else Some blank
      else cells g !! (r * cols g + c).
Proof.
  intros Hlen Htop Hbot. unfold scroll_down.
  set (n' := Nat.min n _). set (items := rev (seq _ _)).
  assert (∀ r, r ∈ items ↔ scroll_top g ≤ r ≤ scroll_bottom g) as Hit.
  { intros r. unfold items. by rewrite <- elem_of_region, elem_of_rev. }
  destruct (move_rows items (λ r, if decide (scroll_top g + n ≤ r) then Some (r - n) else None)
    (λ r g0, if scroll_top g0 + n' <=? r then copy_row (r - n') r g0
             else blank_cols (idx g0 r 0) 0 (cols g0) g0) g) as (l & Hl & Hll & Hrow).
  - done.
  - apply NoDup_rev_seq.
  - intros r ?%Hit. lia.
  - intros done r rest s Hi Hs. case_decide; [|done]. injection Hs as <-. 
    pose proof (rev_seq_split _ _ _ _ _ Hi) as [Hr Hlt]. split; [lia|].
    intros Hd. pose proof (rev_seq_before _ _ _ _ _ _ Hi Hd). lia.
  - intros r l ?%Hit. cbn [scroll_top set_cells]. case_decide.
    + rewrite (proj2 (Nat.leb_le _ _)) by lia. f_equal. lia.
    + by rewrite (proj2 (Nat.leb_gt _ _)) by lia.
  - exists l. split_and!; [exact Hl|done|]. intros r c Hc. rewrite Hrow by done.
    destruct (decide (r ∈ items)) as [Hr%Hit|Hr].
    + rewrite (decide_True (P := scroll_top g ≤ r ≤ scroll_bottom g)) by done. by case_decide.
    + rewrite Hit in Hr. by rewrite decide_False.
Qed.

(** ** Editing a line *)

(** What happens to the row of the cursor; every other row is kept. *)
Definition row_edit (g : Grid) (l : list Cell) (new : nat → option Cell) : Prop :=
  length l = length (cells g) ∧
  ∀ r c, c < cols g → l !! (r * cols g + c) =
    if decide (r = cursor_row g ∧ cursor_col g ≤ c) then new c else cells g !! (r * cols g + c).

Lemma row_edit_intro g l new (items : list nat) :
  (∀ c, c ∈ items ↔ cursor_col g ≤ c < cols g) →
  length l = length (cells g) →
  (∀ c, c ∈ items → l !! (cursor_row g * cols g + c) = new c) →
  (∀ i, (∀ c, c ∈ items → i ≠ cursor_row g * cols g + c) → l !! i = cells g !! i) →
  row_edit g l new.
Proof.
  intros Hit Hl Hin Hout. split; [done|]. intros r c Hc. case_decide as Hd.
  - destruct Hd as [-> Hd]. apply Hin, Hit. lia.
  - apply Hout. intros c' [? ?]%Hit Heq. apply Hd.
    pose proof (index_row (cols g) r c (cursor_row g) Hc) as [Hr _].
    assert (r = cursor_row g) as -> by (apply Hr; nia). split; [done|nia].
Qed.

Lemma insert_blank_chars_spec n g :
  length (cells g) = rows g * cols g → cursor_row g < rows g → cursor_col g < cols g →
  ∃ l, insert_blank_chars n g = Some (set_cells l g) ∧
    row_edit g l (λ c, if decide (cursor_col g + n ≤ c)
                       then cells g !! (cursor_row g * cols g + (c - n)) else Some blank).
Proof.
  intros Hlen Hrow Hcol. unfold insert_blank_chars, idx. rewrite Nat.add_0_r.
  set (n' := Nat.min n _). set (items := rev (seq _ _)).
  assert (∀ c, c ∈ items ↔ cursor_col g ≤ c < cols g) as Hit.
  { intros c. unfold items. rewrite elem_of_rev, elem_of_seq. lia. }
  destruct (move_cells items (cursor_row g * cols g)
    (λ c, if decide (cursor_col g + n ≤ c) then Some (c - n) else None)
    (λ c g0, if cursor_col g + n' <=? c
             then x ← get_cell_at (cursor_row g * cols g + c - n') g0;
                  put_cell_at (cursor_row g * cols g + c) x g0
             else put_cell_at (cursor_row g * cols g + c) blank g0) g) as (l & Hl & Hll & Hin & Hout).
  - apply NoDup_rev_seq.
  - intros c ?%Hit. rewrite Hlen. apply index_lt; lia.
  - intros done c rest s Hi Hs. case_decide; [|done]. injection Hs as <-.
    pose proof (rev_seq_split _ _ _ _ _ Hi) as [Hc Hlt].
    split; [rewrite Hlen; apply index_lt; lia|].
    intros Hd. pose proof (rev_seq_before _ _ _ _ _ _ Hi Hd). lia.
  - intros c l ?%Hit. case_decide.
    + rewrite (proj2 (Nat.leb_le _ _)) by lia.
      by replace (cursor_row g * cols g + c - n') with (cursor_row g * cols g + (c - n)) by lia.
    + by rewrite (proj2 (Nat.leb_gt _ _)) by lia.
  - exists l. split; [exact Hl|]. apply (row_edit_intro g l _ items Hit Hll); [|done].
    intros c Hc. rewrite Hin by done. by case_decide.
Qed.

Lemma delete_chars_spec n g :
  length (cells g) = rows g * cols g → cursor_row g < rows g → cursor_col g < cols g →
  ∃ l, delete_chars n g = Some (set_cells l g) ∧
    row_edit g l (λ c, if decide (c + n < cols g)
                       then cells g !! (cursor_row g * cols g + (c + n)) else Some blank).
Proof.
  intros Hlen Hrow Hcol. unfold delete_chars, idx. rewrite Nat.add_0_r.
  set (n' := Nat.min n _). set (items := seq _ _).
  assert (∀ c, c ∈ items ↔ cursor_col g ≤ c < cols g) as Hit.
  { intros c. unfold items. rewrite elem_of_seq. lia. }
  destruct (move_cells items (cursor_row g * cols g)
    (λ c, if decide (c + n < cols g) then Some (c + n) else None)
    (λ c g0, if c + n' <? cols g0
             then x ← get_cell_at (cursor_row g * cols g + c + n') g0;
                  put_cell_at (cursor_row g * cols g + c) x g0
             else put_cell_at (cursor_row g * cols g + c) blank g0) g) as (l & Hl & Hll & Hin & Hout).
  - apply NoDup_seq.
  - intros c ?%Hit. rewrite Hlen. apply index_lt; lia.
  - intros done c rest s Hi Hs. case_decide; [|done]. injection Hs as <-.
    pose proof (seq_split _ _ _ _ _ Hi) as [Hc Hlt].
    split; [rewrite Hlen; apply index_lt; lia|].
    intros Hd. pose proof (seq_before _ _ _ _ _ _ Hi Hd). lia.
  - intros c l ?%Hit. cbn [cols set_cells]. case_decide.
    + rewrite (proj2 (Nat.ltb_lt _ _)) by lia.
      by replace (cursor_row g * cols g + c + n') with (cursor_row g * cols g + (c + n)) by lia.
    + by rewrite (proj2 (Nat.ltb_ge _ _)) by lia.
  - exists l. split; [exact Hl|]. apply (row_edit_intro g l _ items Hit Hll); [|done].
    intros c Hc. rewrite Hin by done. by case_decide.
Qed.

(** ** Safety *)

(** The operation does not panic and keeps the invariant and the dimensions. *)
Definition safe (g : Grid) (og : option Grid) : Prop :=
  ∃ g', og = Some g' ∧ grid_wf g' ∧ rows g' = rows g ∧ cols g' = cols g.

Lemma safe_ret g g' : grid_wf g' → rows g' = rows g → cols g' = cols g → safe g (Some g').
Proof. intros. by exists g'. Qed.

Lemma safe_bind g og f :
  safe g og → (∀ g', og = Some g' → grid_wf g' → rows g' = rows g → cols g' = cols g →
    safe g' (f g')) →
  safe g (og ≫= f).
Proof.
  intros (g' & -> & Hwf & Hr & Hc) Hf. cbn.
  destruct (Hf g' eq_refl Hwf Hr Hc) as (g2 & -> & ? & ? & ?). exists g2. split_and!; congruence.
Qed.

Lemma safe_fmap g og f :
  safe g og → (∀ g', grid_wf g' → grid_wf (f g') ∧ rows (f g') = rows g' ∧ cols (f g') = cols g') →
  safe g (f <$> og).
Proof.
  intros (g' & -> & Hwf & Hr & Hc) Hf. cbn. destruct (Hf g' Hwf) as (? & ? & ?).
  exists (f g'). split_and!; congruence.
Qed.

(** The same operation from a grid of the same dimensions. *)
Lemma safe_from g g0 og : rows g = rows g0 → cols g = cols g0 → safe g og → safe g0 og.
Proof. intros Hr Hc (g' & ? & ? & ? & ?). exists g'. split_and!; congruence. Qed.

(** A change to fields that the invariant constrains one by one. *)
Ltac wf_fields :=
  repeat match goal with H : grid_wf _ |- _ => destruct H end;
  split; cbn in *; try done; try lia.

Lemma set_cells_wf l g : grid_wf g → buffer_wf (rows g * cols g) l → grid_wf (set_cells l g).
Proof. intros. wf_fields. Qed.

Lemma safe_set_cells l g :
  grid_wf g → length l = length (cells g) →
  (∀ r c x, r < rows g → c < cols g → l !! (r * cols g + c) = Some x →
     x = blank ∨ ∃ j, cells g !! j = Some x) →
  safe g (Some (set_cells l g)).
Proof.
  intros Hwf Hl Hx. apply safe_ret; [|done|done]. apply set_cells_wf; [done|].
  destruct (gw_cells _ Hwf) as [Hlen Hf]. pose proof (gw_cols _ Hwf).
  apply (buffer_wf_from _ _ (cells g)); [done|congruence|].
  intros i x Hi. pose proof (lookup_lt_Some _ _ _ Hi).
  destruct (buffer_index (rows g) (cols g) i) as (r & c & Hr & Hc & ->); [done|congruence|].
  by apply (Hx r c).
Qed.

Lemma scroll_up_safe n g : grid_wf g → safe g (scroll_up n g).
Proof.
  intros Hwf. destruct (scroll_up_spec n g) as (l & -> & Hl & Hc); try apply Hwf.
  apply safe_set_cells; [done|done|]. intros r c x Hr Hcc. rewrite Hc by done.
  repeat case_decide; [right; by eexists|intros [= <-]; by left|right; by eexists].
Qed.

Lemma scroll_down_safe n g : grid_wf g → safe g (scroll_down n g).
Proof.
  intros Hwf. destruct (scroll_down_spec n g) as (l & -> & Hl & Hc); try apply Hwf.
  apply safe_set_cells; [done|done|]. intros r c x Hr Hcc. rewrite Hc by done.
  repeat case_decide; [right; by eexists|intros [= <-]; by left|right; by eexists].
Qed.

Lemma line_feed_safe g : grid_wf g → safe g (line_feed g).
Proof.
  intros Hwf. unfold line_feed. destruct (_ =? _); [by apply scroll_up_safe|].
  destruct (Nat.ltb_spec (cursor_row g + 1) (rows g)); (apply safe_ret; [|done|done]); [|done].
  wf_fields.
Qed.

Lemma reverse_index_safe g : grid_wf g → safe g (reverse_index g).
Proof.
  intros Hwf. unfold reverse_index. destruct (_ =? _); [by apply scroll_down_safe|].
  destruct (0 <? cursor_row g); (apply safe_ret; [|done|done]); [|done]. wf_fields.
Qed.

Lemma move_to_wf row col g : grid_wf g → grid_wf (move_to row col g).
Proof. intros. wf_fields. Qed.

Lemma blank_cols_safe r from upto g :
  grid_wf g → r < rows g → from ≤ upto → upto ≤ cols g →
  safe g (blank_cols (idx g r 0) from upto g).
Proof.
  intros Hwf Hr Hle Hup. destruct (gw_cells _ Hwf) as [Hlen _]. unfold idx. rewrite Nat.add_0_r.
  destruct (blank_cols_spec (r * cols g) from upto g) as (l & -> & Hl & Hc); [done|nia|].
  apply safe_set_cells; [done|done|]. intros r' c x Hr' Hcc. rewrite Hc.
  case_decide; [intros [= <-]; by left|right; by eexists].
Qed.

Lemma erase_in_display_safe mode g : grid_wf g → safe g (erase_in_display mode g).
Proof.
  intros Hwf. destruct (gw_cells _ Hwf) as [Hlen Hf].
  pose proof (index_lt _ _ _ _ (gw_row _ Hwf) (gw_col _ Hwf)) as Hi. unfold erase_in_display, idx.
  assert (∀ k, Forall cell_wf (replicate k blank)) as Hb
    by (intros; apply Forall_replicate, blank_wf).
  destruct (mode =? 0)%Z; [|destruct (mode =? 1)%Z].
  - rewrite (proj2 (Nat.leb_le _ _)) by lia. apply safe_ret; [|done|done].
    apply set_cells_wf; [done|]. split; [rewrite length_app, length_take, length_replicate; lia|].
    by apply Forall_app_2; [apply Forall_take|].
  - rewrite (proj2 (Nat.ltb_lt _ _)) by lia. apply safe_ret; [|done|done].
    apply set_cells_wf; [done|]. split; [rewrite length_app, length_drop, length_replicate; lia|].
    by apply Forall_app_2; [|apply Forall_drop].
  - apply safe_ret; [|done|done]. apply set_cells_wf; [done|].
    split; [by rewrite length_replicate|done].
Qed.

Lemma erase_in_line_safe mode g : grid_wf g → safe g (erase_in_line mode g).
Proof.
  intros Hwf. pose proof (gw_row _ Hwf). pose proof (gw_col _ Hwf). unfold erase_in_line.
  destruct (mode =? 0)%Z; [|destruct (mode =? 1)%Z]; apply blank_cols_safe; done || lia.
Qed.

Lemma row_edit_safe g l new :
  grid_wf g → row_edit g l new →
  (∀ c x, new c = Some x → x = blank ∨ ∃ j, cells g !! j = Some x) →
  safe g (Some (set_cells l g)).
Proof.
  intros Hwf [Hl Hc] Hnew. apply safe_set_cells; [done|done|]. intros r c x Hr Hcc.
  rewrite Hc by done. case_decide; [apply Hnew|right; by eexists].
Qed.

Lemma insert_blank_chars_safe n g : grid_wf g → safe g (insert_blank_chars n g).
Proof.
  intros Hwf. destruct (insert_blank_chars_spec n g) as (l & -> & He); try apply Hwf.
  eapply row_edit_safe; [done|exact He|]. intros c x. cbn.
  case_decide; [right; by eexists|intros [= <-]; by left].
Qed.

Lemma delete_chars_safe n g : grid_wf g → safe g (delete_chars n g).
Proof.
  intros Hwf. destruct (delete_chars_spec n g) as (l & -> & He); try apply Hwf.
  eapply row_edit_safe; [done|exact He|]. intros c x. cbn.
  case_decide; [right; by eexists|intros [= <-]; by left].
Qed.

Lemma set_top_safe og g top :
  grid_wf g → top ≤ scroll_bottom g → safe g og →
  (∀ g', og = Some g' → scroll_bottom g' = scroll_bottom g) →
  safe g (set_scroll_top top <$> og).
Proof.
  intros Hwf Htop (g' & -> & Hwf' & Hr & Hc) Hb. cbn. specialize (Hb g' eq_refl).
  apply safe_ret; [|done|done]. wf_fields.
Qed.

Lemma insert_lines_safe n g : grid_wf g → safe g (insert_lines n g).
Proof.
  intros Hwf. unfold insert_lines. destruct (_ || _) eqn:Ho; [by apply safe_ret|].
  apply orb_false_iff in Ho as [Ht%Nat.ltb_ge Hb%Nat.ltb_ge].
  assert (grid_wf (set_scroll_top (cursor_row g) g)) as Hwf' by wf_fields.
  destruct (scroll_down_spec n (set_scroll_top (cursor_row g) g)) as (l & Hl & _); try apply Hwf'.
  apply (safe_from (set_scroll_top (cursor_row g) g)); [done|done|].
  apply set_top_safe; [done|cbn; destruct Hwf; lia|by apply scroll_down_safe|].
  rewrite Hl. by intros g' [= <-].
Qed.

Lemma delete_lines_safe n g : grid_wf g → safe g (delete_lines n g).
Proof.
  intros Hwf. unfold delete_lines. destruct (_ || _) eqn:Ho; [by apply safe_ret|].
  apply orb_false_iff in Ho as [Ht%Nat.ltb_ge Hb%Nat.ltb_ge].
  assert (grid_wf (set_scroll_top (cursor_row g) g)) as Hwf' by wf_fields.
  destruct (scroll_up_spec n (set_scroll_top (cursor_row g) g)) as (l & Hl & _); try apply Hwf'.
  apply (safe_from (set_scroll_top (cursor_row g) g)); [done|done|].
  apply set_top_safe; [done|cbn; destruct Hwf; lia|by apply scroll_up_safe|].
  rewrite Hl. by intros g' [= <-].
Qed.

Lemma buffer_wf_blank n : buffer_wf n (replicate n blank).
Proof. split; [apply length_replicate|apply Forall_replicate, blank_wf]. Qed.

Lemma grid_new_wf rows cols : grid_wf (grid_new rows cols).
Proof.
  split; cbn -[Nat.max Nat.mul]; try lia; try done; try apply blank_wf. apply buffer_wf_blank.
Qed.

Lemma enter_alt_screen_safe g : grid_wf g → safe g (Some (enter_alt_screen g)).
Proof.
  intros Hwf. unfold enter_alt_screen. destruct (negb (alt_screen g)); [|by apply safe_ret].
  apply safe_ret; [|done|done]. apply move_to_wf. wf_fields.
  - apply buffer_wf_blank.
  - by intros l [= <-].
Qed.

Lemma leave_alt_screen_safe g : grid_wf g → safe g (Some (leave_alt_screen g)).
Proof.
  intros Hwf. unfold leave_alt_screen. destruct (alt_screen g); [|by apply safe_ret].
  cbn [alt_saved set_alt_screen].
  destruct (alt_saved g) as [l|] eqn:Hl; (apply safe_ret; [|done|done]); wf_fields; by apply gw_alt0.
Qed.

(** ** The pen *)

Lemma pen_set_wf k p : (0 ≤ k < 256)%Z → cell_wf p → cell_wf (pen_set k p).
Proof.
  intros Hk (? & ? & ? & Hf). split_and!; try done. cbn.
  apply (lor_bound 8); [lia|exact Hf|lia].
Qed.

Lemma pen_clear_wf k p : cell_wf p → cell_wf (pen_clear k p).
Proof.
  intros (? & ? & ? & Hf). split_and!; try done. cbn. apply (land_bound 8); [lia|exact Hf].
Qed.

Lemma pen_fg_wf c p : color_wf c → cell_wf p → cell_wf (pen_fg c p).
Proof. intros ? (? & ? & ? & ?). by split_and!. Qed.
Lemma pen_bg_wf c p : color_wf c → cell_wf p → cell_wf (pen_bg c p).
Proof. intros ? (? & ? & ? & ?). by split_and!. Qed.

Lemma parse_ext_color_wf sub c : parse_ext_color sub = Some c → color_wf c.
Proof.
  unfold parse_ext_color. destruct sub as [|k rest]; [done|].
  destruct (k =? 5)%Z; [|destruct (k =? 2)%Z; [|done]].
  - intros (n & _ & ->)%fmap_Some. apply as_u8_range.
  - destruct (4 <=? _); [|done].
    intros (r & _ & (gr & _ & (b & _ & [= <-])%bind_Some)%bind_Some)%bind_Some.
    cbn. auto with noissh.
Qed.

Lemma ext_color_wf groups i g is_fg p : cell_wf p → cell_wf (ext_color groups i g is_fg p).1.
Proof.
  intros Hp. unfold ext_color. destruct (2 <=? length g).
  - destruct (parse_ext_color _) eqn:Hc; [|done]. apply parse_ext_color_wf in Hc.
    destruct is_fg; [by apply pen_fg_wf|by apply pen_bg_wf].
  - destruct (param groups (i + 1)) as [k|]; [|done]. destruct (k =? 5)%Z.
    + destruct (param groups (i + 2)); [|done].
      destruct is_fg; [apply pen_fg_wf|apply pen_bg_wf]; cbn; auto with noissh.
    + destruct (k =? 2)%Z; [|done].
      destruct is_fg; [apply pen_fg_wf|apply pen_bg_wf]; cbn; auto with noissh.
Qed.

Lemma sgr_code_wf groups i g p : cell_wf p → cell_wf (sgr_code groups i g p).1.
Proof.
  intros Hp. unfold sgr_code. cbn zeta.
  repeat match goal with |- cell_wf (if ?b then _ else _).1 => destruct b eqn:? end;
  repeat match goal with
  | H : (_ && _)%Z = true |- _ => apply andb_true_iff in H as [?%Z.leb_le ?%Z.leb_le]
  end; cbn [fst];
  first
    [ done | apply blank_wf | by apply ext_color_wf
    | apply pen_set_wf; [vm_compute; split; congruence|done]
    | by apply pen_clear_wf
    | apply pen_fg_wf; [cbn; lia_ints|done] | apply pen_bg_wf; [cbn; lia_ints|done] ].
Qed.

Lemma sgr_loop_wf fuel groups : ∀ i p, cell_wf p → cell_wf (sgr_loop fuel groups i p).
Proof.
  induction fuel as [|fuel IH]; intros i p Hp; cbn; [done|].
  destruct (groups !! i) as [g|]; [|done].
  pose proof (sgr_code_wf groups i g p Hp). destruct (sgr_code groups i g p) as [p' skip].
  by apply IH.
Qed.

Lemma set_sgr_safe params g : grid_wf g → safe g (Some (set_sgr params g)).
Proof.
  intros Hwf. assert (∀ p, cell_wf p → safe g (Some (set_pen p g))) as Hp.
  { intros p Hp. apply safe_ret; [|done|done]. wf_fields. }
  destruct params as [|x xs]; [apply Hp, blank_wf|]. apply Hp, sgr_loop_wf, Hwf.
Qed.

(** Enough fuel: the loop over the groups ends in at most one round per group. *)
Lemma sgr_loop_fuel (groups : Params) : ∀ n m i p,
  (length groups - i ≤ n) → (length groups - i ≤ m) →
  sgr_loop n groups i p = sgr_loop m groups i p.
Proof.
  assert (∀ i, length groups - i ≤ 0 → groups !! i = None) as Hnone
    by (intros; apply lookup_ge_None_2; lia).
  induction n as [|n IH]; intros m i p Hn Hm.
  - destruct m as [|m]; cbn [sgr_loop]; [done|]. by rewrite Hnone by lia.
  - destruct m as [|m]; cbn [sgr_loop]; [by rewrite Hnone by lia|].
    destruct (groups !! i) as [g|] eqn:Hg; [|done]. apply lookup_lt_Some in Hg.
    destruct (sgr_code groups i g p) as [p' skip]. apply IH; lia.
Qed.

(** ** Actions *)

Lemma set_private_mode_safe mode enable g :
  grid_wf g → safe g (Some (set_private_mode mode enable g)).
Proof.
  intros Hwf. unfold set_private_mode.
  destruct (mode =? 7)%Z; [apply safe_ret; [wf_fields|done|done]|].
  destruct (mode =? 25)%Z; [apply safe_ret; [wf_fields|done|done]|].
  destruct (_ || _); [|by apply safe_ret].
  destruct enable; [by apply enter_alt_screen_safe|by apply leave_alt_screen_safe].
Qed.

Lemma put_cell_at_safe g r c x :
  grid_wf g → r < rows g → c < cols g → cell_wf x → safe g (put_cell_at (idx g r c) x g).
Proof.
  intros Hwf Hr Hc Hx. destruct (gw_cells _ Hwf) as [Hlen Hf].
  rewrite put_cell_at_spec by (unfold idx; rewrite Hlen; by apply index_lt).
  apply safe_ret; [|done|done]. apply set_cells_wf; [done|].
  split; [by rewrite length_insert|by apply Forall_insert].
Qed.

Lemma with_ch_wf c p : is_char c → cell_wf p → cell_wf (with_ch c p).
Proof. intros ? (? & ? & ? & ?). by split_and!. Qed.

Lemma with_ch_0_wf p : cell_wf p → cell_wf (with_ch 0 p).
Proof. apply with_ch_wf. unfold is_char. lia. Qed.

Lemma line_feed_col g g' : line_feed g = Some g' → grid_wf g → cursor_col g' = cursor_col g.
Proof.
  intros Hl Hwf. unfold line_feed in Hl. destruct (_ =? _).
  - destruct (scroll_up_spec 1 g) as (l & Hs & _); try apply Hwf.
    rewrite Hl in Hs. by injection Hs as ->.
  - destruct (_ <? _); by injection Hl as <-.
Qed.

Section emulator.
Context (char_width : Z → nat) (Hwidth : ∀ c, char_width c ≤ 2).

(** On a grid at least two columns wide, printing is safe. *)
Lemma put_char_safe c g :
  grid_wf g → 2 ≤ cols g → is_char c → safe g (put_char char_width c g).
Proof.
  intros Hwf H2 Hc. unfold put_char. specialize (Hwidth c).
  destruct (char_width c =? 0) eqn:H0; [by apply safe_ret|].
  apply safe_bind.
  { destruct (_ && _); [|by apply safe_ret].
    apply safe_fmap; [|intros g1 Hwf1; split_and!; [wf_fields|done|done]].
    apply (safe_from (set_cursor_col 0 g)); [done|done|]. apply line_feed_safe. wf_fields. }
  intros g1 _ Hwf1 Hr1 Hc1.
  assert (∃ g2, (if (char_width c =? 2) && (cols g1 <=? cursor_col g1 + 1)
    then set_wrap_pending false <$>
      (if autowrap g1 then line_feed (set_cursor_col 0 g1)
       else Some (set_cursor_col (cols g1 - 2) g1)) else Some g1) = Some g2 ∧
    grid_wf g2 ∧ rows g2 = rows g1 ∧ cols g2 = cols g1 ∧
    (char_width c = 2 → cursor_col g2 + 1 < cols g2)) as (g2 & -> & Hwf2 & Hr2 & Hc2 & Hfit).
  { destruct (_ && _) eqn:Hw.
    - destruct (autowrap g1).
      + assert (grid_wf (set_cursor_col 0 g1)) as Hwf0 by wf_fields.
        destruct (line_feed_safe _ Hwf0) as (g2 & Hl & Hwf2 & Hr2 & Hc2). rewrite Hl.
        exists (set_wrap_pending false g2). split_and!; [done|wf_fields|done|done|].
        intros _. cbn. rewrite (line_feed_col _ _ Hl Hwf0). cbn in *. lia.
      + exists (set_wrap_pending false (set_cursor_col (cols g1 - 2) g1)).
        split_and!; [done|wf_fields|done|done|]. intros _. cbn. lia.
    - exists g1. split_and!; try done. intros Hw2. rewrite Hw2 in Hw. cbn in Hw.
      apply Nat.leb_gt in Hw. done. }
  cbn [mbind option_bind]. apply (safe_from g2); [done|done|].
  apply safe_bind; [apply put_cell_at_safe; try apply Hwf2; by apply with_ch_wf, Hwf2|].
  intros g3 Hg3 Hwf3 Hr3 Hc3.
  assert (cursor_row g3 = cursor_row g2 ∧ cursor_col g3 = cursor_col g2) as [Hrow3 Hcol3].
  { unfold put_cell_at in Hg3. destruct (_ <? _); [by injection Hg3 as <-|done]. }
  pose proof (gw_row _ Hwf2). pose proof (gw_col _ Hwf2).
  destruct (char_width c =? 2) eqn:Hw2.
  - apply Nat.eqb_eq in Hw2. specialize (Hfit Hw2).
    apply safe_bind; [apply put_cell_at_safe; [done|lia|lia|apply with_ch_0_wf, Hwf3]|].
    intros g4 _ Hwf4 Hr4 Hc4.
    destruct (Nat.ltb_spec (cursor_col g2 + 2) (cols g4)); [|destruct (autowrap g4)];
      (apply safe_ret; [wf_fields|done|done]).
  - destruct (Nat.ltb_spec (cursor_col g3 + 1) (cols g3)); [|destruct (autowrap g3)];
      (apply safe_ret; [wf_fields|done|done]).
Qed.

Lemma execute_safe byte g : grid_wf g → safe g (execute byte g).
Proof.
  intros Hwf. unfold execute. destruct (_ || _ || _); [by apply line_feed_safe|].
  destruct (byte =? 13)%Z; [apply safe_ret; [wf_fields|done|done]|].
  destruct (byte =? 8)%Z; [apply safe_ret; [|by destruct (0 <? _)..]; destruct (0 <? _); wf_fields|].
  destruct (byte =? 9)%Z; [|by apply safe_ret]. apply safe_ret; [|done|done].
  pose proof (gw_cols _ Hwf). wf_fields.
Qed.

Lemma respond_safe l g : grid_wf g → safe g (Some (respond l g)).
Proof. intros. apply safe_ret; [wf_fields|done|done]. Qed.

Lemma set_scroll_region_safe params g : grid_wf g → safe g (Some (set_scroll_region params g)).
Proof.
  intros Hwf. unfold set_scroll_region. destruct (_ && _)%Z eqn:Hb; [|by apply safe_ret].
  apply andb_true_iff in Hb as [Ht%Z.ltb_lt Hb%Z.ltb_lt].
  pose proof (as_u64_range (arg params 1 (as_u16 (Z.of_nat (rows g))) - 1)%Z) as [? _].
  apply safe_ret; [|done|done]. apply move_to_wf. wf_fields.
Qed.

Lemma esc_dispatch_safe byte g : grid_wf g → safe g (esc_dispatch byte g).
Proof.
  intros Hwf. unfold esc_dispatch.
  destruct (byte =? 68)%Z; [by apply line_feed_safe|].
  destruct (byte =? 77)%Z; [by apply reverse_index_safe|].
  destruct (byte =? 69)%Z;
    [apply (safe_from (set_cursor_col 0 g)); [done|done|]; apply line_feed_safe; wf_fields|].
  destruct (byte =? 55)%Z.
  { pose proof (gw_pen _ Hwf). apply safe_ret; [|done|done]. wf_fields. by intros r c p [= <- <- <-]. }
  destruct (byte =? 56)%Z.
  { destruct (saved g) as [[[r c] p]|] eqn:Hs; [|by apply safe_ret].
    pose proof (gw_saved _ Hwf _ _ _ Hs). apply safe_ret; [|done|done]. wf_fields. }
  destruct (byte =? 99)%Z; [|by apply safe_ret].
  pose proof (gw_rows _ Hwf). pose proof (gw_cols _ Hwf).
  apply safe_ret; [apply grid_new_wf|cbn -[Nat.max]; lia..].
Qed.

Lemma csi_dispatch_safe params intermediates a g :
  grid_wf g → safe g (csi_dispatch params intermediates a g).
Proof.
  intros Hwf. pose proof (gw_rows _ Hwf). pose proof (gw_cols _ Hwf). unfold csi_dispatch.
  set (n := Z.to_nat _).
  repeat match goal with
  | |- safe _ (if ?b then _ else _) => destruct b
  end;
  first
    [ by apply erase_in_display_safe | by apply erase_in_line_safe
    | by apply insert_blank_chars_safe | by apply delete_chars_safe
    | by apply insert_lines_safe | by apply delete_lines_safe
    | by apply scroll_up_safe | by apply scroll_down_safe
    | by apply set_scroll_region_safe | by apply set_sgr_safe
    | by apply set_private_mode_safe
    | by apply safe_ret; [apply move_to_wf|..]
    | solve [apply safe_ret; [wf_fields|done|done]]
    | unfold status_report, device_attributes; repeat case_match;
      solve [by apply respond_safe | by apply safe_ret] ].
Qed.

(** What the parser promises of its calls: characters are Unicode scalars. *)
Definition action_wf (a : action) : Prop :=
  match a with Print c => is_char c | _ => True end.

Lemma perform_safe a g :
  grid_wf g → 2 ≤ cols g → action_wf a → safe g (perform char_width a g).
Proof.
  intros. destruct a; cbn;
    [by apply put_char_safe|by apply execute_safe|by apply csi_dispatch_safe
    |by apply esc_dispatch_safe].
Qed.
End emulator.

(** ** Resizing *)

(** The overlap is copied to the same row and column; the rest is blank. *)
Lemma resize_cells_spec old rows0 cols0 rows cols :
  length old = rows0 * cols0 → 1 ≤ cols →
  ∃ l, resize_cells old rows0 cols0 rows cols = Some l ∧ length l = rows * cols ∧
    ∀ r c, r < rows → c < cols → l !! (r * cols + c) =
      if decide (r < rows0 ∧ c < cols0) then old !! (r * cols0 + c) else Some blank.
Proof.
  intros Hold Hcols. unfold resize_cells.
  destruct (for_each_inv (λ done l, length l = rows * cols ∧
    ∀ r c, r < rows → c < cols → l !! (r * cols + c) =
      if decide (r < length done ∧ r < rows0 ∧ c < cols0) then old !! (r * cols0 + c) else Some blank)
    (λ r new, for_each (seq 0 (Nat.min cols cols0)) (λ c new, x ← old !! (r * cols0 + c);
      if r * cols + c <? length new then Some (<[r * cols + c:=x]> new) else None) new)
    (seq 0 (Nat.min rows rows0)) (replicate (rows * cols) blank)) as (l & Hl & Hlen & Hc).
  - split; [by rewrite length_replicate|]. intros r c Hr Hc. cbn [length].
    rewrite decide_False by lia. apply lookup_replicate_2. by apply index_lt.
  - intros done r rest l Hs [Hlen Hl]. apply seq_split in Hs as [-> Hd].
    set (R := length done) in *. cbn [Nat.add].
    destruct (for_each_inv (λ dc l', length l' = rows * cols ∧
      ∀ r c, r < rows → c < cols → l' !! (r * cols + c) =
        if decide (r = R ∧ c < length dc) then old !! (r * cols0 + c) else l !! (r * cols + c))
      (λ c new, x ← old !! (R * cols0 + c);
        if R * cols + c <? length new then Some (<[R * cols + c:=x]> new) else None)
      (seq 0 (Nat.min cols cols0)) l) as (l' & Hl' & Hlen' & Hc').
    + split; [done|]. intros r c _ _. cbn [length]. by rewrite decide_False by lia.
    + intros dc c rest' l1 Hs [Hlen1 Hl1]. apply seq_split in Hs as [-> Hdc]. cbn [Nat.add].
      set (C := length dc) in *.
      destruct (lookup_lt_is_Some_2 old (R * cols0 + C)) as [x Hx];
        [rewrite Hold; apply index_lt; lia|].
      rewrite Hx. cbn [mbind option_bind]. assert (R * cols + C < rows * cols) by (apply index_lt; lia).
      rewrite (proj2 (Nat.ltb_lt _ _)) by lia. eexists. split; [done|].
      rewrite length_insert. split; [done|]. intros r c Hr Hc. rewrite length_app. cbn [length].
      destruct (decide (r = R ∧ c = C)) as [[-> ->]|Hne].
      * rewrite list_lookup_insert_eq, decide_True by lia. by rewrite Hx.
      * rewrite list_lookup_insert_ne.
        -- rewrite Hl1 by done. repeat case_decide; try done; exfalso; lia.
        -- intros Heq. apply Hne.
           pose proof (index_row cols r c R Hc) as [Hrr _]. assert (r = R) as -> by (apply Hrr; lia).
           split; [done|lia].
    + exists l'. split; [exact Hl'|]. split; [done|]. intros r c Hr Hc. rewrite Hc', Hl by done.
      rewrite length_seq, length_app. cbn [length]. fold R.
      repeat case_decide; try done; exfalso; lia.
  - exists l. split_and!; [exact Hl|done|]. intros r c Hr Hcc. rewrite Hc by done.
    rewrite length_seq. repeat case_decide; try done; exfalso; lia.
Qed.

Lemma resize_cells_wf old rows0 cols0 rows cols l :
  buffer_wf (rows0 * cols0) old → 1 ≤ cols →
  resize_cells old rows0 cols0 rows cols = Some l → buffer_wf (rows * cols) l.
Proof.
  intros Hold Hcols Hl.
  destruct (resize_cells_spec old rows0 cols0 rows cols) as (l' & Hl' & Hlen & Hc);
    [apply Hold|done|]. rewrite Hl in Hl'. injection Hl' as <-.
  split; [done|]. apply Forall_lookup. intros i x Hi. pose proof (lookup_lt_Some _ _ _ Hi).
  destruct (buffer_index rows cols i) as (r & c & Hr & Hcc & ->); [done|congruence|].
  rewrite Hc in Hi by done. case_decide.
  - destruct Hold as [_ Hf]. by eapply Forall_lookup_1.
  - injection Hi as <-. apply blank_wf.
Qed.

Lemma resize_spec rows' cols' g :
  grid_wf g →
  ∃ g', resize rows' cols' g = Some g' ∧ grid_wf g' ∧
    rows g' = Nat.max rows' 1 ∧ cols g' = Nat.max cols' 1 ∧
    ∀ r c, r < rows g' → c < cols g' → cell g' r c =
      if decide (r < rows g ∧ c < cols g) then cell g r c else blank.
Proof.
  intros Hwf. destruct (gw_cells _ Hwf) as [Hlen Hf]. unfold resize.
  set (R := Nat.max rows' 1). set (C := Nat.max cols' 1).
  destruct (resize_cells_spec (cells g) (rows g) (cols g) R C) as (l & Hl & Hll & Hc);
    [done|lia|].
  pose proof (resize_cells_wf (cells g) (rows g) (cols g) R C l (gw_cells _ Hwf) ltac:(lia) Hl) as Hlwf.
  rewrite Hl. cbn [mbind option_bind].
  assert (∃ alt, match alt_saved g with
    | Some alt => Some <$> resize_cells alt (rows g) (cols g) R C
    | None => Some None end = Some alt ∧
    ∀ l, alt = Some l → buffer_wf (R * C) l) as (alt & -> & Halt).
  { destruct (alt_saved g) as [a|] eqn:Ha; [|by exists None].
    pose proof (gw_alt _ Hwf _ Ha) as Hawf.
    destruct (resize_cells_spec a (rows g) (cols g) R C) as (la & Hla & _); [apply Hawf|lia|].
    rewrite Hla. exists (Some la). split; [done|]. intros ? [= <-].
    by eapply resize_cells_wf; [exact Hawf|lia|]. }
  cbn. eexists. split; [done|]. split_and!; [|done|done|].
  - split; cbn; try apply Hwf; try done; lia.
  - cbn. intros r c Hr Hcc. unfold cell. cbn [rows cols cells idx].
    rewrite (proj2 (Nat.ltb_lt _ _) Hr), (proj2 (Nat.ltb_lt _ _) Hcc). cbn [andb].
    unfold idx. cbn [cols]. rewrite list_lookup_total_alt, Hc by done. case_decide as Hd.
    + destruct Hd as [Hd1 Hd2].
      rewrite (proj2 (Nat.ltb_lt _ _) Hd1), (proj2 (Nat.ltb_lt _ _) Hd2). cbn [andb].
      by rewrite list_lookup_total_alt.
    + done.
Qed.

(** ** Properties *)

Section terminal.
Context (char_width : Z → nat) `{!Vte}.

(** What the owner of a terminal does with it. *)
Inductive terminal_op :=
| TermAdvance (bytes : list Z)
| TermResize (rows cols : nat)
| TermTakeResponses.

Definition terminal_step (o : terminal_op) (t : Terminal) : option Terminal :=
  match o with
  | TermAdvance bytes => advance char_width t bytes
  | TermResize rows cols => terminal_resize t rows cols
  | TermTakeResponses => Some (terminal_take_responses t).2
  end.

Definition wide_enough (o : terminal_op) : Prop :=
  match o with TermResize _ cols => 2 ≤ cols | _ => True end.

(** Output that the parser turns into well-formed calls. *)
Lemma advance_safe t bytes :
  (∀ c, char_width c ≤ 2) → (∀ p bytes, Forall action_wf (parse p bytes).1) →
  grid_wf (grid t) → 2 ≤ Grid.cols (grid t) →
  ∃ t', advance char_width t bytes = Some t' ∧ grid_wf (grid t') ∧
    Grid.rows (grid t') = Grid.rows (grid t) ∧ Grid.cols (grid t') = Grid.cols (grid t).
Proof.
  intros Hw Hp Hwf Hc. unfold advance. specialize (Hp (parser t) bytes).
  destruct (parse (parser t) bytes) as [actions p]. cbn in Hp.
  destruct (for_each_inv (λ _ g, grid_wf g ∧ Grid.rows g = Grid.rows (grid t) ∧
    Grid.cols g = Grid.cols (grid t)) (perform char_width) actions (grid t)) as (g & -> & ?);
    [done| |by eexists].
  intros done' a rest' g Hi' (Hwf' & Hr' & Hc'). rewrite Hi' in Hp.
  apply Forall_app in Hp as [_ [Ha _]%Forall_cons_1].
  destruct (perform_safe char_width Hw a g Hwf' ltac:(lia) Ha) as (g' & -> & ? & ? & ?).
  exists g'. split_and!; [done|done|congruence|congruence].
Qed.

(** C34 The emulator never panics: with glyphs at most two columns wide and a
    screen at least two columns wide, whatever the shell outputs and however the
    window is resized, no index or slice is out of range, and the cursor, the
    scroll region and every cell stay valid. *)
Theorem terminal_never_panics rows cols ops :
  (∀ c, char_width c ≤ 2) →
  (∀ p bytes, Forall action_wf (parse p bytes).1) →
  2 ≤ cols → Forall wide_enough ops →
  ∃ t, for_each ops terminal_step (terminal_new rows cols) = Some t ∧
    grid_wf (screen t) ∧ 2 ≤ Grid.cols (screen t).
Proof.
  intros Hw Hp Hcols Hops. unfold screen.
  apply (for_each_inv (λ _ t, grid_wf (grid t) ∧ 2 ≤ Grid.cols (grid t))).
  { split; [apply grid_new_wf|]. cbn -[Nat.max]. lia. }
  intros done o rest t Hi [Hwf Hc]. rewrite Hi in Hops.
  apply Forall_app in Hops as [_ [Ho _]%Forall_cons_1].
  destruct o as [bytes|rows' cols'|]; cbn [terminal_step].
  - destruct (advance_safe t bytes Hw Hp Hwf Hc) as (t' & -> & ? & _ & Hc').
    exists t'. split_and!; [done|done|lia].
  - unfold terminal_resize. destruct (resize_spec rows' cols' (grid t) Hwf) as (g' & -> & ? & _ & Hc' & _).
    eexists. split; [done|]. split; [done|]. cbn in *. rewrite Hc'. lia.
  - eexists. split; [done|]. split; [cbn; wf_fields|done].
Qed.
End terminal.

(** Scrolling moves whole rows inside the region and nothing outside it: rows
    come from [n] below (above), and [n] blank rows open at the bottom (top). *)
Theorem scroll_moves_region g n :
  grid_wf g →
  (∃ g', scroll_up n g = Some g' ∧ g' = set_cells (cells g') g ∧
     ∀ r c, r < rows g → c < cols g → cell g' r c =
       if decide (scroll_top g ≤ r ≤ scroll_bottom g) then
         if decide (r + n ≤ scroll_bottom g) then cell g (r + n) c else blank
       else cell g r c) ∧
  (∃ g', scroll_down n g = Some g' ∧ g' = set_cells (cells g') g ∧
     ∀ r c, r < rows g → c < cols g → cell g' r c =
       if decide (scroll_top g ≤ r ≤ scroll_bottom g) then
         if decide (scroll_top g + n ≤ r) then cell g (r - n) c else blank
       else cell g r c).
Proof.
  intros Hwf. destruct (gw_cells _ Hwf) as [Hlen _].
  pose proof (gw_top _ Hwf). pose proof (gw_bottom _ Hwf).
  assert (∀ g' r c, rows g' = rows g → cols g' = cols g → r < rows g → c < cols g →
    cell g' r c = default blank (cells g' !! (r * cols g + c))) as Hcell.
  { intros g' r c Hr' Hc' Hr Hc. unfold cell, idx. rewrite Hr', Hc'.
    rewrite (proj2 (Nat.ltb_lt _ _) Hr), (proj2 (Nat.ltb_lt _ _) Hc). cbn [andb].
    by rewrite list_lookup_total_alt. }
  split.
  - destruct (scroll_up_spec n g) as (l & -> & _ & Hc); [done..|].
    eexists. split_and!; [done|done|]. intros r c Hr Hcc.
    rewrite (Hcell (set_cells l g)) by done. cbn [cells set_cells]. rewrite Hc by done.
    repeat case_decide; [by rewrite Hcell by lia|done|by rewrite Hcell by lia].
  - destruct (scroll_down_spec n g) as (l & -> & _ & Hc); [done..|].
    eexists. split_and!; [done|done|]. intros r c Hr Hcc.
    rewrite (Hcell (set_cells l g)) by done. cbn [cells set_cells]. rewrite Hc by done.
    repeat case_decide; [by rewrite Hcell by lia|done|by rewrite Hcell by lia].
Qed.

(** Resizing keeps the overlap cell by cell, blanks the rest, and keeps the
    cursor and the scroll region on the screen. *)
Theorem resize_keeps_overlap g rows' cols' :
  grid_wf g →
  ∃ g', resize rows' cols' g = Some g' ∧ grid_wf g' ∧
    rows g' = Nat.max rows' 1 ∧ cols g' = Nat.max cols' 1 ∧
    ∀ r c, r < rows g' → c < cols g' → cell g' r c =
      if decide (r < rows g ∧ c < cols g) then cell g r c else blank.
Proof. apply resize_spec. Qed.

(** On a one-column screen a two-column glyph is not clamped: printing it on
    the last row indexes past the buffer (a panic), and on any other row its
    spacer overwrites the first cell of the next row. *)
Theorem wide_glyph_needs_two_columns char_width c :
  char_width c = 2 →
  put_char char_width c (grid_new 1 1) = None ∧
  ∃ g', put_char char_width c (grid_new 3 1) = Some g' ∧ cell g' 2 0 = with_ch 0 blank.
Proof.
  intros Hw. unfold put_char. rewrite Hw. split; [reflexivity|].
  eexists. split; [reflexivity|]. reflexivity.
Qed.

(** ** Witnesses *)

(** A parser that prints every byte from 32 up and executes the others. *)
Definition sample_vte : Vte := {|
  Parser := unit; parser_new := tt;
  parse := λ p bytes, ((λ b, if (b <? 32)%Z then Execute b else Print (b mod 0x80)) <$> bytes, p)
|}.
Definition sample_width (c : Z) : nat :=
  if (c <? 32)%Z then 0 else if (c =? 0x7e)%Z then 2 else 1.

Lemma sample_width_le c : sample_width c ≤ 2.
Proof. unfold sample_width. repeat case_match; lia. Qed.

Lemma sample_vte_wf p bytes : Forall action_wf (@parse sample_vte p bytes).1.
Proof.
  apply Forall_fmap, Forall_forall. intros b _. cbn. destruct (b <? 32)%Z; [done|].
  cbn. pose proof (Z.mod_pos_bound b 0x80). unfold is_char. lia.
Qed.

Lemma terminal_never_panics_witness :
  ∃ t, for_each [TermAdvance [65%Z; 0x7e%Z; 10%Z; 66%Z; 67%Z]; TermResize 3 2; TermAdvance [68%Z]]
    (@terminal_step sample_width sample_vte) (@terminal_new sample_vte 2 3) = Some t ∧
    grid_wf (screen t) ∧ 2 ≤ Grid.cols (screen t).
Proof.
  apply (@terminal_never_panics sample_width sample_vte); [exact sample_width_le|
    exact sample_vte_wf|lia|]. repeat constructor.
Defined.

Definition sample_grid : Grid :=
  set_cells ((λ c, with_ch c blank) <$> [65; 66; 67; 68; 69; 70]%Z) (grid_new 3 2).

Lemma sample_grid_wf : grid_wf sample_grid.
Proof.
  apply set_cells_wf; [apply grid_new_wf|]. split; [reflexivity|].
  apply Forall_fmap. repeat (apply Forall_cons_2;
    [apply with_ch_wf; [unfold is_char; lia|apply blank_wf]|]). apply Forall_nil_2.
Defined.

Lemma scroll_moves_region_witness :
  ∃ g', scroll_up 1 sample_grid = Some g' ∧ cell g' 0 1 = with_ch 68 blank ∧ cell g' 2 0 = blank.
Proof.
  destruct (scroll_moves_region sample_grid 1 sample_grid_wf) as [(g' & Hg & _ & Hc) _].
  exists g'. split; [exact Hg|]. split.
  - rewrite (Hc 0 1) by (cbn; lia). reflexivity.
  - rewrite (Hc 2 0) by (cbn; lia). reflexivity.
Defined.

Lemma resize_keeps_overlap_witness :
  ∃ g', resize 2 3 sample_grid = Some g' ∧ cell g' 1 1 = with_ch 68 blank ∧ cell g' 1 2 = blank.
Proof.
  destruct (resize_keeps_overlap sample_grid 2 3 sample_grid_wf) as (g' & Hg & _ & Hr & Hcc & Hc).
  exists g'. split; [exact Hg|]. split.
  - rewrite (Hc 1 1) by (rewrite ?Hr, ?Hcc; cbn; lia). reflexivity.
  - rewrite (Hc 1 2) by (rewrite ?Hr, ?Hcc; cbn; lia). reflexivity.
Defined.

Lemma wide_glyph_needs_two_columns_witness :
  put_char sample_width 0x7e (grid_new 1 1) = None.
Proof. apply (wide_glyph_needs_two_columns sample_width 0x7e). reflexivity. Defined.
