(* ===== verification/Status.v ===== *)
(** * The connection-status overlay and the escape key ([src/status.rs])

    When the banner is shown, where it is painted, and which typed bytes reach
    the remote shell. *)

From S2P Require Import Prelude Cell Text Grid GridOps.

(** @ src/status.rs:23-23 ESCAPE_KEY *)
Definition ESCAPE_KEY : Z := 0x1e.

(** In nanoseconds. @ src/status.rs:29-29 SHOW_AFTER *)
Definition SHOW_AFTER : Z := 4 * 10 ^ 9.

(** "[noissh] last contact ", "s ago — reconnecting…  (Ctrl-^ . to quit)" *)
Definition BANNER_HEAD : list Z :=
  [91; 110; 111; 105; 115; 115; 104; 93; 32; 108; 97; 115; 116; 32; 99; 111; 110; 116; 97; 99; 116; 32].
Definition BANNER_TAIL : list Z :=
  [115; 32; 97; 103; 111; 32; 0x2014; 32; 114; 101; 99; 111; 110; 110; 101; 99; 116; 105; 110; 103; 0x2026;
   32; 32; 40; 67; 116; 114; 108; 45; 94; 32; 46; 32; 116; 111; 32; 113; 117; 105; 116; 41].

(** A [Duration] is its number of nanoseconds.
    @ src/status.rs:34-42 status_banner *)
Definition status_banner (since : Z) : option (list Z) :=
  if since <? SHOW_AFTER then None
  else Some (BANNER_HEAD ++ digits (since / 10 ^ 9) ++ BANNER_TAIL).

(** A banner cell. *)
Definition banner_cell (ch : Z) : Cell :=
  {| ch := ch; fg := Default; bg := Default; flags := Z.lor REVERSE BOLD |}.

Open Scope nat_scope.

(** Cell [start_col + i] for each character; a write out of range is a panic.
    @ src/status.rs:57-66 stamp_status *)
Fixpoint stamp_chars (idx : nat) (chars : list Z) (cells : list Cell) : option (list Cell) :=
  match chars with
  | [] => Some cells
  | c :: chars =>
    if idx <? length cells then stamp_chars (S idx) chars (<[idx := banner_cell c]> cells) else None
  end.

(** @ src/status.rs:49-67 stamp_status *)
Definition stamp_status (g : Grid) (text : list Z) : option Grid :=
  if (rows g =? 0) || (cols g =? 0) then Some g
  else
    let chars := take (cols g) text in
    let start_col := cols g - length chars in
    cells' ← stamp_chars start_col chars (cells g);
    Some (set_cells cells' g).

(** @ src/status.rs:70-76 InputOutcome *)
Record InputOutcome := mkInputOutcome { forward : list Z; quit : bool }.

(** One byte of the loop: the flag and what is added to the outcome.
    @ src/status.rs:91-102 process_input *)
Definition process_byte (pending : bool) (b : Z) (out : InputOutcome) : bool * InputOutcome :=
  if pending then
    if ((b =? 46) || (b =? 113))%Z then (false, mkInputOutcome (forward out) true)
    else if (b =? ESCAPE_KEY)%Z then (false, mkInputOutcome (forward out ++ [ESCAPE_KEY]) (quit out))
    else (false, out)
  else if (b =? ESCAPE_KEY)%Z then (true, out)
  else (false, mkInputOutcome (forward out ++ [b]) (quit out)).

Fixpoint process_bytes (pending : bool) (input : list Z) (out : InputOutcome) : bool * InputOutcome :=
  match input with
  | [] => (pending, out)
  | b :: input => let '(pending, out) := process_byte pending b out in process_bytes pending input out
  end.

(** @ src/status.rs:88-105 process_input *)
Definition process_input (pending : bool) (input : list Z) : bool * InputOutcome :=
  process_bytes pending input (mkInputOutcome [] false).

(** ** What the escape key does

    A stream of typed bytes is a sequence of keys, each an ordinary byte or the
    prefix with the byte after it, and perhaps a prefix at the end. *)

Inductive key := Plain (b : Z) | Escaped (b : Z).

Definition key_bytes (k : key) : list Z :=
  match k with Plain b => [b] | Escaped b => [ESCAPE_KEY; b] end.

Definition key_forward (k : key) : list Z :=
  match k with
  | Plain b => [b]
  | Escaped b => if (b =? ESCAPE_KEY)%Z then [ESCAPE_KEY] else []
  end.

Definition key_quits (k : key) : bool :=
  match k with Plain _ => false | Escaped b => (b =? 46)%Z || (b =? 113)%Z end.

Definition key_ok (k : key) : Prop := match k with Plain b => b ≠ ESCAPE_KEY | Escaped _ => True end.

(** Batches as they are read from the terminal. *)
Fixpoint process_batches (pending : bool) (batches : list (list Z)) : bool * InputOutcome :=
  match batches with
  | [] => (pending, mkInputOutcome [] false)
  | batch :: batches =>
    let '(pending, o1) := process_input pending batch in
    let '(pending, o2) := process_batches pending batches in
    (pending, mkInputOutcome (forward o1 ++ forward o2) (quit o1 || quit o2))
  end.

Lemma process_bytes_acc input : ∀ pending o,
  process_bytes pending input o =
    ((process_input pending input).1,
     mkInputOutcome (forward o ++ forward (process_input pending input).2)
       (quit o || quit (process_input pending input).2)).
Proof.
  unfold process_input. induction input as [|b input IH]; intros pending o; cbn [process_bytes].
  { cbn. rewrite app_nil_r, orb_false_r. by destruct o. }
  unfold process_byte. destruct pending; [destruct (_ || _); [|destruct (_ =? _)%Z]|destruct (_ =? _)%Z];
    rewrite IH; symmetry; rewrite IH; cbn [fst snd forward quit]; f_equal;
    rewrite ?app_nil_l, <- ?(assoc_L (++)), ?orb_false_l, ?orb_true_r; try done.
Qed.

Lemma process_input_app pending a b :
  process_input pending (a ++ b) =
    let '(p1, o1) := process_input pending a in
    let '(p2, o2) := process_input p1 b in
    (p2, mkInputOutcome (forward o1 ++ forward o2) (quit o1 || quit o2)).
Proof.
  assert (∀ p o, process_bytes p (a ++ b) o =
    let '(p1, o1) := process_bytes p a o in process_bytes p1 b o1) as Happ.
  { induction a as [|x a IH]; intros p o; [done|]. cbn [app process_bytes].
    destruct (process_byte p x o). apply IH. }
  unfold process_input at 1. rewrite Happ. fold (process_input pending a).
  destruct (process_input pending a) as [p1 o1]. rewrite process_bytes_acc.
  by destruct (process_input p1 b).
Qed.

Lemma process_batches_concat batches : ∀ pending,
  process_batches pending batches = process_input pending (concat batches).
Proof.
  induction batches as [|batch batches IH]; intros pending; [done|]. cbn [process_batches concat].
  rewrite process_input_app. destruct (process_input pending batch) as [p1 o1].
  by rewrite IH.
Qed.

Lemma process_key k input :
  key_ok k → process_input false (key_bytes k ++ input) =
    let '(p, o) := process_input false input in
    (p, mkInputOutcome (key_forward k ++ forward o) (key_quits k || quit o)).
Proof.
  intros Hk. rewrite process_input_app. destruct k as [b|b]; cbn [key_bytes key_ok] in *;
    unfold process_input at 1; cbn [process_bytes process_byte].
  - rewrite (proj2 (Z.eqb_neq _ _)) by done. cbn. by destruct (process_input false input).
  - rewrite Z.eqb_refl. cbn [key_forward key_quits process_bytes process_byte forward quit].
    destruct (_ || _) eqn:Hq.
    + assert ((b =? ESCAPE_KEY)%Z = false) as -> by (unfold ESCAPE_KEY; lia).
      by destruct (process_input false input).
    + destruct (b =? ESCAPE_KEY)%Z; by destruct (process_input false input).
Qed.

(** C37 The escape key is a filter on keys, however they are read: the bytes read
    in any batches are a sequence of keys with perhaps a last prefix, and what is
    forwarded is each ordinary byte and one prefix for each doubled prefix, in
    order; quitting is asked for exactly when the prefix is followed by a dot or
    a q; the flag is left set exactly for a last prefix. *)
Theorem escape_key_filters_keys batches :
  ∃ ks (dangling : bool),
    Forall key_ok ks ∧
    concat batches = concat (key_bytes <$> ks) ++ (if dangling then [ESCAPE_KEY] else []) ∧
    process_batches false batches =
      (dangling, mkInputOutcome (concat (key_forward <$> ks)) (existsb key_quits ks)).
Proof.
  rewrite process_batches_concat. generalize (concat batches). clear batches. intros input.
  induction input as [input IH] using (induction_ltof1 _ length). unfold ltof in IH.
  assert (∀ k rest, input = key_bytes k ++ rest → key_ok k → ∃ ks (dangling : bool),
    Forall key_ok ks ∧ input = concat (key_bytes <$> ks) ++ (if dangling then [ESCAPE_KEY] else []) ∧
    process_input false input =
      (dangling, mkInputOutcome (concat (key_forward <$> ks)) (existsb key_quits ks))) as Hkey.
  { intros k rest Hin Hk. destruct (IH rest) as (ks & d & Hks & Hrest & Hp).
    { rewrite Hin, length_app. destruct k; cbn; lia. }
    exists (k :: ks), d. split; [by constructor|]. rewrite Hin, process_key, Hp by done.
    split; [|done]. rewrite Hrest. cbn. by rewrite (assoc_L (++)). }
  destruct input as [|b rest].
  { exists [], false. split_and!; [constructor|done|done]. }
  destruct (decide (b = ESCAPE_KEY)) as [->|Hb]; [|by apply (Hkey (Plain b) rest)].
  destruct rest as [|c rest]; [|by apply (Hkey (Escaped c) rest)].
  exists [], true. split_and!; [constructor|done|done].
Qed.

(** ** Where the banner goes *)

Lemma stamp_chars_spec chars : ∀ i cells,
  i + length chars ≤ length cells →
  ∃ l, stamp_chars i chars cells = Some l ∧ length l = length cells ∧
    ∀ k, l !! k = match chars !! (k - i) with
                  | Some c => if i <=? k then Some (banner_cell c) else cells !! k
                  | None => cells !! k
                  end.
Proof.
  induction chars as [|c chars IH]; intros i cells Hlen; cbn [stamp_chars length] in *.
  { exists cells. by split_and!. }
  rewrite (proj2 (Nat.ltb_lt _ _)) by lia.
  destruct (IH (S i) (<[i := banner_cell c]> cells)) as (l & -> & Hl & Hk).
  { rewrite length_insert. lia. }
  exists l. rewrite length_insert in Hl. split_and!; [done|done|]. intros k. rewrite Hk.
  destruct (Nat.lt_trichotomy k i) as [Hlt|[->|Hgt]].
  - rewrite list_lookup_insert_ne by lia. rewrite !(proj2 (Nat.leb_gt _ k)) by lia.
    by repeat case_match.
  - rewrite list_lookup_insert_eq by lia. rewrite Nat.sub_diag, Nat.leb_refl, (proj2 (Nat.leb_gt _ _)) by lia.
    cbn. by case_match.
  - rewrite list_lookup_insert_ne by lia. rewrite !(proj2 (Nat.leb_le _ k)) by lia.
    replace (k - i) with (S (k - S i)) by lia. done.
Qed.

(** The banner's leftmost characters that fit end at the right edge of the top
    row, and no other cell changes. *)
Lemma stamp_status_spec g text :
  grid_wf g →
  ∃ g', stamp_status g text = Some g' ∧ rows g' = rows g ∧ cols g' = cols g ∧
    let n := Nat.min (cols g) (length text) in
    ∀ r c, r < rows g → c < cols g →
      cell g' r c =
        if bool_decide (r = 0) && (cols g - n <=? c)
        then banner_cell (text !!! (c - (cols g - n))) else cell g r c.
Proof.
  intros Hwf. pose proof (gw_rows _ Hwf). pose proof (gw_cols _ Hwf).
  destruct (gw_cells _ Hwf) as [Hlen _]. unfold stamp_status.
  rewrite !(proj2 (Nat.eqb_neq _ _)) by lia. cbn [orb].
  destruct (stamp_chars_spec (take (cols g) text) (cols g - length (take (cols g) text)) (cells g))
    as (l & -> & Hl & Hk).
  { rewrite length_take, Hlen. nia. }
  cbn [mbind option_bind]. eexists. split; [done|]. split; [done|]. split; [done|].
  cbn zeta. intros r c Hr Hc. rewrite length_take in Hk. unfold cell. cbn [rows cols set_cells cells].
  rewrite !(proj2 (Nat.ltb_lt _ _)) by done. cbn [andb]. unfold idx. cbn [cols set_cells].
  set (n := Nat.min (cols g) (length text)) in *.
  rewrite !list_lookup_total_alt, Hk.
  assert (n ≤ cols g) as Hn by (unfold n; lia).
  case_bool_decide as Hr0; cbn [andb].
  - subst r. cbn [Nat.mul Nat.add]. destruct (Nat.leb_spec (cols g - n) c) as [Hle|Hgt].
    + rewrite lookup_take_lt by lia.
      destruct (lookup_lt_is_Some_2 text (c - (cols g - n))) as [x Hx]; [unfold n in *; lia|].
      by rewrite Hx.
    + by case_match.
  - case_match eqn:Ht; [|done]. exfalso. apply lookup_lt_Some in Ht. rewrite length_take in Ht.
    fold n in Ht. destruct r; [done|]. nia.
Qed.
