(* ===== verification/Diff.v ===== *)
(** * Latest-wins screen diffs ([crates/term/src/diff.rs])

    The encoder, the decoder that patches a grid in place, and the contract of
    the crate: applying a diff renders the target. *)

From S2P Require Import Prelude Wire Cell Grid GridOps.

(** @ crates/term/src/diff.rs:14-26 DiffError *)
Inductive DiffError :=
| DWire (e : WireError)
| Eof
| BadTag (tag : Z)
| DimMismatch
| BadDimensions.

Definition TAG_FULL : Z := 0.
Definition TAG_DELTA : Z := 1.

(** @ crates/term/src/diff.rs:31-33 MAX_CELLS *)
Definition MAX_CELLS : Z := Z.shiftl 1 20.

(** @ crates/term/src/diff.rs:35-47 put_color *)
Definition put_color (c : Color) : list Z :=
  match c with
  | Default => [0]
  | Indexed n => [1; n]
  | Rgb r g b => [2; r; g; b]
  end.

(** @ crates/term/src/diff.rs:49-53 get_u8 *)
Definition get_u8 : reader DiffError Z := λ buf pos,
  Some (b ← ok_or (buf !! pos) Eof; Ok (b, S pos)).

(** @ crates/term/src/diff.rs:55-67 get_color *)
Definition get_color : reader DiffError Color :=
  tag ← get_u8;
  if tag =? 0 then mret Default
  else if tag =? 1 then n ← get_u8; mret (Indexed n)
  else if tag =? 2 then r ← get_u8; g ← get_u8; b ← get_u8; mret (Rgb r g b)
  else reader_fail (BadTag tag).

Definition get_vi : reader DiffError Z := reader_map_err DWire get_varint.

(** @ crates/term/src/diff.rs:69-74 put_cell *)
Definition put_cell (c : Cell) : list Z :=
  put_varint (ch c) ++ put_color (fg c) ++ put_color (bg c) ++ [flags c].

(** [char::from_u32(v).unwrap_or('\u{fffd}')]. *)
Definition from_u32 (v : Z) : Z := if bool_decide (is_char v) then v else 0xfffd.

(** @ crates/term/src/diff.rs:76-82 get_cell *)
Definition get_cell : reader DiffError Cell :=
  v ← get_vi;
  fg ← get_color;
  bg ← get_color;
  flags ← get_u8;
  mret {| ch := from_u32 (as_u32 v); fg := fg; bg := bg; flags := flags |}.

(** @ crates/term/src/diff.rs:84-90 put_header *)
Definition put_header (g : Grid) : list Z :=
  put_varint (Z.of_nat (rows g)) ++ put_varint (Z.of_nat (cols g)) ++
  put_varint (Z.of_nat (cursor_row g)) ++ put_varint (Z.of_nat (cursor_col g)) ++
  [if cursor_visible g then 1 else 0].

(** The indices where the two grids differ. *)
Definition changes (base target : Grid) : list nat :=
  filter (λ i, cells target !!! i ≠ cells base !!! i) (seq 0 (length (cells target))).

Definition put_change (target : Grid) (i : nat) : list Z :=
  put_varint (Z.of_nat i) ++ put_cell (cells target !!! i).

(** The comparison indexes both grids. *)
Fixpoint changes_checked (base target : Grid) (ks : list nat) : option (list nat) :=
  match ks with
  | [] => Some []
  | i :: ks =>
    t ← cells target !! i;
    b ← cells base !! i;
    rest ← changes_checked base target ks;
    Some (if bool_decide (t ≠ b) then i :: rest else rest)
  end.

(** @ crates/term/src/diff.rs:92-118 encode_diff *)
Definition encode_diff_checked (base : option Grid) (target : Grid) : option (list Z) :=
  match base with
  | Some b =>
    if (rows b =? rows target)%nat && (cols b =? cols target)%nat then
      changes ← changes_checked b target (seq 0 (length (cells target)));
      Some ([TAG_DELTA] ++ put_header target ++
        put_varint (zlen changes) ++ concat (put_change target <$> changes))
    else Some ([TAG_FULL] ++ put_header target ++ concat (put_cell <$> cells target))
  | None => Some ([TAG_FULL] ++ put_header target ++ concat (put_cell <$> cells target))
  end.

(** The same, on well-formed grids ([encode_diff_calm]).
    @ crates/term/src/diff.rs:92-118 encode_diff *)
Definition encode_diff (base : option Grid) (target : Grid) : list Z :=
  match base with
  | Some b =>
    if (rows b =? rows target)%nat && (cols b =? cols target)%nat then
      [TAG_DELTA] ++ put_header target ++
      put_varint (zlen (changes b target)) ++ concat (put_change target <$> changes b target)
    else [TAG_FULL] ++ put_header target ++ concat (put_cell <$> cells target)
  | None => [TAG_FULL] ++ put_header target ++ concat (put_cell <$> cells target)
  end.

(** @ crates/term/src/diff.rs:120-123 is_full *)
Definition is_full (bytes : list Z) : bool := bool_decide (head bytes = Some TAG_FULL).

(** The fields before the cells. *)
Record header := mkHeader {
  h_tag : Z; h_rows : Z; h_cols : Z; h_row : Z; h_col : Z; h_visible : bool }.

Definition get_header : reader DiffError header :=
  tag ← get_u8;
  rows ← get_vi;
  cols ← get_vi;
  row ← get_vi;
  col ← get_vi;
  v ← get_u8;
  mret (mkHeader tag rows cols row col (negb (v =? 0))).

(** [grid.cells[i] = get_cell(..)?] for [n] cells from [i]: the grid keeps what
    was written before an error. *)
Fixpoint full_loop (n : nat) (i : nat) (bytes : list Z) (pos : nat) (g : Grid) :
    option (result DiffError nat * Grid) :=
  match n with
  | O => Some (Ok pos, g)
  | S n =>
    r ← get_cell bytes pos;
    match r with
    | Err e => Some (Err e, g)
    | Ok (c, pos) =>
      _ ← cells g !! i;
      full_loop n (S i) bytes pos (set_cells (<[i := c]> (cells g)) g)
    end
  end.

(** [count] index-cell pairs; a round reads at least one byte, so one round per
    byte is enough fuel ([delta_loop_fuel]). *)
Fixpoint delta_loop (fuel : nat) (count : Z) (bytes : list Z) (pos : nat) (g : Grid) :
    option (result DiffError nat * Grid) :=
  if count <=? 0 then Some (Ok pos, g)
  else
    match fuel with
    | O => None
    | S fuel =>
      r ← get_vi bytes pos;
      match r with
      | Err e => Some (Err e, g)
      | Ok (i, pos) =>
        r ← get_cell bytes pos;
        match r with
        | Err e => Some (Err e, g)
        | Ok (c, pos) =>
          if i <? zlen (cells g) then
            _ ← cells g !! Z.to_nat i;
            delta_loop fuel (count - 1) bytes pos (set_cells (<[Z.to_nat i := c]> (cells g)) g)
          else delta_loop fuel (count - 1) bytes pos g
        end
      end
    end.

(** The cells, by tag, once the dimensions are accepted. *)
Definition apply_cells (g : Grid) (bytes : list Z) (h : header) (pos : nat) :
    option (result DiffError nat * Grid) :=
  let same := (Z.of_nat (rows g) =? h_rows h) && (Z.of_nat (cols g) =? h_cols h) in
  if h_tag h =? TAG_FULL then
    let g := if same then g else grid_new (Z.to_nat (h_rows h)) (Z.to_nat (h_cols h)) in
    full_loop (Z.to_nat (h_rows h * h_cols h)) 0 bytes pos g
  else if h_tag h =? TAG_DELTA then
    if negb same then Some (Err DimMismatch, g)
    else
      r ← get_vi bytes pos;
      match r with
      | Err e => Some (Err e, g)
      | Ok (count, pos) => delta_loop (S (length bytes)) count bytes pos g
      end
  else Some (Err (BadTag (h_tag h)), g).

(** [rows == 0 || cols == 0 || rows.checked_mul(cols).is_none_or(|n| n > MAX_CELLS)]. *)
Definition bad_dimensions (h : header) : bool :=
  (h_rows h =? 0) || (h_cols h =? 0) || (u64_max <? h_rows h * h_cols h)
  || (MAX_CELLS <? h_rows h * h_cols h).

(** @ crates/term/src/diff.rs:125-170 apply_diff *)
Definition apply_diff_checked (g : Grid) (bytes : list Z) : option (result DiffError () * Grid) :=
  r ← get_header bytes 0%nat;
  match r with
  | Err e => Some (Err e, g)
  | Ok (h, pos) =>
    if bad_dimensions h then Some (Err BadDimensions, g)
    else
      '(r, g) ← apply_cells g bytes h pos;
      Some match r with
      | Err e => (Err e, g)
      | Ok _ =>
        (Ok tt,
         set_cursor_visible (h_visible h)
           (set_cursor_col (Z.to_nat (Z.min (h_col h) (h_cols h - 1)))
             (set_cursor_row (Z.to_nat (Z.min (h_row h) (h_rows h - 1))) g)))
      end
  end.

(** On a well-formed grid it does not panic ([apply_diff_is_safe]), so the default is
    never taken. *)
Definition apply_diff (g : Grid) (bytes : list Z) : result DiffError () * Grid :=
  default (Err Eof, g) (apply_diff_checked g bytes).

(** ** Reading back one field *)

Lemma diff_u8_reads b : reads get_u8 [b] b.
Proof.
  intros pre post _. unfold get_u8. cbn [app]. rewrite list_lookup_middle by done.
  cbn. do 3 f_equal. lia.
Qed.

Lemma get_vi_reads v : is_u64 v → reads get_vi (put_varint v) v.
Proof. intros. by apply reads_map_err, get_put_varint. Qed.

#[export] Hint Resolve diff_u8_reads get_vi_reads : noissh.

Lemma get_color_reads c : reads get_color (put_color c) c.
Proof.
  unfold get_color. destruct c as [|n|r g b]; cbn [put_color].
  - change [0] with ([0] ++ []). eapply reads_bind; [apply diff_u8_reads|]. apply reads_ret.
  - change [1; n] with ([1] ++ [n]). eapply reads_bind; [apply diff_u8_reads|]. cbn.
    apply reads_fmap, diff_u8_reads.
  - change [2; r; g; b] with ([2] ++ [r] ++ [g] ++ [b]).
    eapply reads_bind; [apply diff_u8_reads|]. cbn -[app].
    do 2 (eapply reads_bind; [apply diff_u8_reads|]). apply reads_fmap, diff_u8_reads.
Qed.

Lemma from_u32_char c : is_char c → from_u32 (as_u32 c) = c.
Proof.
  intros Hc. pose proof Hc as [? _]. unfold from_u32.
  rewrite as_u32_id by lia_ints. by rewrite bool_decide_eq_true_2.
Qed.

Lemma get_cell_reads c : cell_wf c → reads get_cell (put_cell c) c.
Proof.
  intros (Hc & _). unfold get_cell, put_cell. pose proof Hc as [? _].
  eapply reads_bind; [apply get_vi_reads; lia_ints|].
  do 2 (eapply reads_bind; [apply get_color_reads|]).
  rewrite from_u32_char by done. destruct c as [c fg0 bg0 fl]. cbn.
  apply (reads_fmap get_u8 (λ flags, mkCell c fg0 bg0 flags)), diff_u8_reads.
Qed.

Lemma get_header_reads tag g :
  is_u64 (Z.of_nat (rows g)) → is_u64 (Z.of_nat (cols g)) →
  (cursor_row g ≤ rows g)%nat → (cursor_col g ≤ cols g)%nat →
  reads get_header ([tag] ++ put_header g)
    (mkHeader tag (Z.of_nat (rows g)) (Z.of_nat (cols g)) (Z.of_nat (cursor_row g))
       (Z.of_nat (cursor_col g)) (cursor_visible g)).
Proof.
  intros Hr Hc ??. unfold get_header, put_header.
  eapply reads_bind; [apply diff_u8_reads|].
  do 4 (eapply reads_bind; [apply get_vi_reads; unfold is_u64 in *; lia|]).
  replace (cursor_visible g) with (negb ((if cursor_visible g then 1 else 0) =? 0))
    by by destruct (cursor_visible g).
  destruct (cursor_visible g);
    apply (reads_fmap get_u8 (λ v, mkHeader tag _ _ _ _ (negb (v =? 0)))), diff_u8_reads.
Qed.

(** ** Staying in the buffer *)

Lemma diff_u8_advances : advances 1 get_u8.
Proof.
  intros buf pos v pos' _. unfold get_u8. destruct (buf !! pos) eqn:Hb; [|done].
  intros [= <- <-]. apply lookup_lt_Some in Hb. lia.
Qed.

Lemma get_vi_advances : advances 1 get_vi.
Proof. apply advances_map_err, get_varint_advances. Qed.

Lemma diff_u8_calm : calm get_u8.
Proof. by intros buf pos _. Qed.

Lemma get_vi_calm : calm get_vi.
Proof. apply calm_map_err, get_varint_calm. Qed.

#[export] Hint Resolve diff_u8_advances get_vi_advances diff_u8_calm get_vi_calm : noissh.

Lemma get_color_advances : advances 0 get_color.
Proof. unfold get_color. advance_fields. Qed.
Lemma get_color_calm : calm get_color.
Proof. unfold get_color. calm_fields. Qed.
#[export] Hint Resolve get_color_advances get_color_calm : noissh.

Lemma get_cell_advances : advances 1 get_cell.
Proof. unfold get_cell. apply advances_bind_0; [auto with noissh|]. advance_fields. Qed.

Lemma get_cell_calm : calm get_cell.
Proof. unfold get_cell. calm_fields. Qed.

Lemma get_header_calm : calm get_header.
Proof. unfold get_header. calm_fields. Qed.

(** ** The loops, on an encoding *)

Lemma full_loop_encoded cs : ∀ i pre post g,
  Forall cell_wf cs → vec_fits (pre ++ concat (put_cell <$> cs) ++ post) →
  (i + length cs = length (cells g))%nat →
  full_loop (length cs) i (pre ++ concat (put_cell <$> cs) ++ post) (length pre) g =
    Some (Ok (length pre + length (concat (put_cell <$> cs)))%nat,
      set_cells (take i (cells g) ++ cs) g).
Proof.
  induction cs as [|c cs IH]; intros i pre post g Hwf Hfit Hi.
  { cbn in *. rewrite app_nil_r, take_ge, set_cells_id by lia. do 4 f_equal. lia. }
  apply Forall_cons_1 in Hwf as [Hc Hwf]. cbn [length fmap list_fmap concat full_loop] in *.
  rewrite <- (assoc_L (++)) in Hfit |- *.
  rewrite (get_cell_reads c Hc pre _ Hfit). cbn [mbind option_bind].
  destruct (lookup_lt_is_Some_2 (cells g) i) as [old ->]; [lia|]. cbn [mbind option_bind].
  specialize (IH (S i) (pre ++ put_cell c) post (set_cells (<[i:=c]> (cells g)) g) Hwf).
  rewrite <- !(assoc_L (++)), !length_app in IH. rewrite IH; cbn [cells set_cells];
    [|done|by rewrite length_insert; lia].
  do 2 f_equal; [f_equal; rewrite length_app; lia|].
  rewrite set_cells_twice. f_equal.
  assert (take (S i) (<[i:=c]> (cells g)) = take i (cells g) ++ [c]) as ->.
  { rewrite (take_S_r _ _ c) by (apply list_lookup_insert_eq; lia).
    by rewrite take_insert_ge by lia. }
  by rewrite <- (assoc_L (++)).
Qed.

(** The cells after writing [target]'s cells at the indices [ks]. *)
Definition patched (target : list Cell) (ks : list nat) (l : list Cell) : Prop :=
  ∀ i, (i < length target)%nat → i ∈ ks → l !! i = target !! i.

Lemma delta_loop_encoded target ks : ∀ fuel pre post g,
  Forall cell_wf (cells target) → length (cells g) = length (cells target) →
  is_u64 (zlen (cells target)) →
  Forall (λ i, (i < length (cells target))%nat) ks → (length ks ≤ fuel)%nat →
  vec_fits (pre ++ concat (put_change target <$> ks) ++ post) →
  ∃ l pos,
    delta_loop fuel (zlen ks) (pre ++ concat (put_change target <$> ks) ++ post) (length pre) g =
      Some (Ok pos, set_cells l g) ∧
    length l = length (cells g) ∧
    ∀ i, l !! i = if decide (i ∈ ks) then cells target !! i else cells g !! i.
Proof.
  induction ks as [|k ks IH]; intros fuel pre post g Hwf Hlen Hu Hks Hfuel Hfit.
  { exists (cells g), (length pre). rewrite set_cells_id. destruct fuel; cbn;
      (split_and!; [done|done|]); intros i; by rewrite decide_False by apply not_elem_of_nil. }
  apply Forall_cons_1 in Hks as [Hk Hks]. destruct fuel as [|fuel]; [cbn in *; lia|].
  change (concat (put_change target <$> k :: ks)) with
    ((put_varint (Z.of_nat k) ++ put_cell (cells target !!! k)) ++
     concat (put_change target <$> ks)) in Hfit |- *.
  cbn [delta_loop]. rewrite (proj2 (Z.leb_gt _ _)) by (cbn; lia).
  rewrite <- !(assoc_L (++)) in Hfit |- *.
  rewrite (get_vi_reads (Z.of_nat k)) by (done || unfold is_u64 in *; lia). cbn [mbind option_bind].
  assert (cell_wf (cells target !!! k)) as Hc.
  { eapply Forall_lookup_1; [exact Hwf|]. apply list_lookup_lookup_total_lt. done. }
  pose proof (get_cell_reads _ Hc (pre ++ put_varint (Z.of_nat k))) as Hr.
  rewrite length_app in Hr. setoid_rewrite <- (assoc_L (++)) in Hr. rewrite Hr by done.
  cbn [mbind option_bind]. rewrite (proj2 (Z.ltb_lt _ _)) by lia. rewrite Nat2Z.id.
  destruct (lookup_lt_is_Some_2 (cells g) k) as [old ->]; [lia|]. cbn [mbind option_bind].
  set (g1 := set_cells _ g).
  destruct (IH fuel (pre ++ put_varint (Z.of_nat k) ++ put_cell (cells target !!! k)) post g1)
    as (l & pos & Hl & Hll & Hi); try done.
  { unfold g1. cbn. by rewrite length_insert. }
  { cbn in Hfuel. lia. }
  { by rewrite <- !(assoc_L (++)). }
  exists l, pos. rewrite <- !(assoc_L (++)), !length_app in Hl.
  rewrite length_cons, Nat2Z.inj_succ. replace (Z.succ (zlen ks) - 1) with (zlen ks) by lia.
  rewrite <- Nat.add_assoc. split_and!; [exact Hl| |].
  { rewrite Hll. unfold g1. cbn. by rewrite length_insert. }
  intros i. rewrite Hi. unfold g1. cbn [cells set_cells].
  destruct (decide (i = k)) as [->|Hne].
  - rewrite (decide_True (P := k ∈ k :: ks)) by by left. case_decide; [done|].
    rewrite list_lookup_insert_eq by lia. symmetry. by apply list_lookup_lookup_total_lt.
  - rewrite list_lookup_insert_ne by done.
    destruct (decide (i ∈ ks)); [by rewrite decide_True by by right|].
    by rewrite decide_False by by intros [?|?]%elem_of_cons.
Qed.

(** ** Sizes *)

Lemma length_put_varint v : (length (put_varint v) ≤ 10)%nat.
Proof.
  unfold put_varint. generalize 10%nat. intros n. revert v.
  induction n as [|n IH]; intros v; [done|]. cbn [put_varint_loop length].
  specialize (IH (Z.shiftr v 7)). destruct (Z.shiftr v 7 =? 0); cbn [length]; lia.
Qed.

Lemma length_put_cell c : (length (put_cell c) ≤ 19)%nat.
Proof.
  unfold put_cell. rewrite !length_app. pose proof (length_put_varint (ch c)).
  destruct (fg c), (bg c); cbn [put_color length]; lia.
Qed.

Lemma length_put_header g : (length (put_header g) ≤ 41)%nat.
Proof.
  unfold put_header. rewrite !length_app. cbn [length].
  pose proof (length_put_varint (Z.of_nat (rows g))).
  pose proof (length_put_varint (Z.of_nat (cols g))).
  pose proof (length_put_varint (Z.of_nat (cursor_row g))).
  pose proof (length_put_varint (Z.of_nat (cursor_col g))). lia.
Qed.

Lemma length_concat_le {A} (f : A → list Z) (k : nat) (l : list A) :
  (∀ a, (length (f a) ≤ k)%nat) → (length (concat (f <$> l)) ≤ k * length l)%nat.
Proof.
  intros Hf. induction l as [|a l IH]; cbn; [lia|]. rewrite length_app. specialize (Hf a). lia.
Qed.

Lemma length_concat_ge {A} (f : A → list Z) (l : list A) :
  (∀ a, (1 ≤ length (f a))%nat) → (length l ≤ length (concat (f <$> l)))%nat.
Proof.
  intros Hf. induction l as [|a l IH]; cbn; [lia|]. rewrite length_app. specialize (Hf a). lia.
Qed.

(** ** Applying an encoded diff *)

(** A screen small enough to be sent. *)
Definition sendable (g : Grid) : Prop := Z.of_nat (rows g * cols g) ≤ MAX_CELLS.

Lemma render_eq_spec g g' :
  render_eq g g' = true ↔
    rows g = rows g' ∧ cols g = cols g' ∧ cells g = cells g' ∧
    cursor_row g = cursor_row g' ∧ cursor_col g = cursor_col g' ∧
    cursor_visible g = cursor_visible g'.
Proof.
  unfold render_eq. rewrite !andb_true_iff, !Nat.eqb_eq, bool_decide_eq_true, eqb_true_iff. tauto.
Qed.

(** Writing the decoded cursor onto the decoded cells gives the target. *)
Lemma apply_cursor g target l :
  grid_wf target → rows g = rows target → cols g = cols target → l = cells target →
  render_eq
    (set_cursor_visible (cursor_visible target)
      (set_cursor_col (Z.to_nat (Z.min (Z.of_nat (cursor_col target)) (Z.of_nat (cols target) - 1)))
        (set_cursor_row (Z.to_nat (Z.min (Z.of_nat (cursor_row target)) (Z.of_nat (rows target) - 1)))
          (set_cells l g)))) target = true.
Proof.
  intros Hwf Hr Hc ->. apply render_eq_spec. cbn. pose proof (gw_row _ Hwf).
  pose proof (gw_col _ Hwf). split_and!; [done|done|done|lia|lia|done].
Qed.

Lemma applied_wf g target v c r l :
  grid_wf g → grid_wf target → rows g = rows target → cols g = cols target →
  render_eq (set_cursor_visible v (set_cursor_col c (set_cursor_row r (set_cells l g)))) target
    = true →
  grid_wf (set_cursor_visible v (set_cursor_col c (set_cursor_row r (set_cells l g)))).
Proof.
  intros Hg Ht Hr Hc (_ & _ & Hl & Hrow & Hcol & _)%render_eq_spec. cbn in Hl, Hrow, Hcol. subst.
  pose proof (gw_cells _ Ht) as Hcells. rewrite <- Hr, <- Hc in Hcells.
  pose proof (gw_row _ Ht). pose proof (gw_col _ Ht).
  destruct Hg. split; cbn; try done; lia.
Qed.

(** The header, and the checks on it, on an encoding. *)
Lemma apply_diff_header tag target rest g :
  grid_wf target → sendable target → vec_fits (([tag] ++ put_header target) ++ rest) →
  let h := mkHeader tag (Z.of_nat (rows target)) (Z.of_nat (cols target))
    (Z.of_nat (cursor_row target)) (Z.of_nat (cursor_col target)) (cursor_visible target) in
  let bytes := ([tag] ++ put_header target) ++ rest in
  apply_diff_checked g bytes =
    '(r, g) ← apply_cells g bytes h (length ([tag] ++ put_header target));
    Some match r with
    | Err e => (Err e, g)
    | Ok _ =>
      (Ok tt,
       set_cursor_visible (cursor_visible target)
         (set_cursor_col (Z.to_nat (Z.min (Z.of_nat (cursor_col target)) (Z.of_nat (cols target) - 1)))
           (set_cursor_row (Z.to_nat (Z.min (Z.of_nat (cursor_row target)) (Z.of_nat (rows target) - 1)))
             g)))
    end.
Proof.
  intros Hwf Hsend Hfit h bytes. unfold sendable in Hsend. change MAX_CELLS with 1048576 in Hsend.
  pose proof (gw_rows _ Hwf). pose proof (gw_cols _ Hwf).
  pose proof (gw_row _ Hwf). pose proof (gw_col _ Hwf).
  assert ((rows target ≤ rows target * cols target)%nat ∧
    (cols target ≤ rows target * cols target)%nat) as [? ?] by nia.
  pose proof (get_header_reads tag target ltac:(lia_ints) ltac:(lia_ints) ltac:(lia) ltac:(lia)
    [] rest Hfit) as Hh.
  change (get_header bytes 0%nat = Some (Ok (h, length ([tag] ++ put_header target)))) in Hh.
  unfold apply_diff_checked. rewrite Hh. cbn [mbind option_bind].
  assert (bad_dimensions h = false) as ->; [|done].
  unfold bad_dimensions. change MAX_CELLS with 1048576. cbn [h h_rows h_cols].
  rewrite <- Nat2Z.inj_mul. rewrite !orb_false_iff, !Z.eqb_neq, !Z.ltb_ge. unfold_ints. lia.
Qed.

Lemma full_encoding_fits target :
  grid_wf target → sendable target →
  vec_fits (([TAG_FULL] ++ put_header target) ++ concat (put_cell <$> cells target)).
Proof.
  intros Hwf Hsend. destruct (gw_cells _ Hwf) as [Hlen _]. unfold sendable in Hsend.
  change MAX_CELLS with 1048576 in Hsend.
  pose proof (length_put_header target).
  pose proof (length_concat_le put_cell 19 (cells target) length_put_cell).
  unfold vec_fits. rewrite !length_app. cbn [length]. lia_ints.
Qed.

(** A full snapshot renders the target on any grid. *)
Lemma apply_full g target :
  grid_wf g → grid_wf target → sendable target →
  ∃ g', apply_diff g (encode_diff None target) = (Ok tt, g') ∧ render_eq g' target = true ∧
    grid_wf g'.
Proof.
  intros Hg Hwf Hsend. destruct (gw_cells _ Hwf) as [Hlen Hcells].
  pose proof (full_encoding_fits target Hwf Hsend) as Hfit.
  cbn [encode_diff]. rewrite (assoc_L (++)). unfold apply_diff. rewrite apply_diff_header by done.
  unfold apply_cells. cbn [h_tag h_rows h_cols]. change (TAG_FULL =? TAG_FULL) with true. cbn match.
  rewrite <- Nat2Z.inj_mul, !Nat2Z.id.
  set (g1 := if _ && _ then g else grid_new (rows target) (cols target)).
  assert (rows g1 = rows target ∧ cols g1 = cols target ∧ length (cells g1) = length (cells target))
    as (Hr & Hc & Hl).
  { unfold g1. destruct (_ && _) eqn:Hs.
    - apply andb_true_iff in Hs as [H1%Z.eqb_eq H2%Z.eqb_eq]. apply Nat2Z.inj in H1, H2.
      destruct (gw_cells _ Hg) as [Hlg _]. rewrite Hlg, Hlen, H1, H2. done.
    - pose proof (gw_rows _ Hwf). pose proof (gw_cols _ Hwf). unfold grid_new. cbn [rows cols cells].
      rewrite length_replicate, Hlen. replace (Nat.max (rows target) 1) with (rows target) by lia.
      by replace (Nat.max (cols target) 1) with (cols target) by lia. }
  rewrite <- Hlen.
  pose proof (full_loop_encoded (cells target) 0 ([TAG_FULL] ++ put_header target) [] g1 Hcells) as Hf.
  rewrite app_nil_r in Hf. rewrite Hf by (done || lia). cbn [take app mbind option_bind default].
  assert (grid_wf g1) as Hg1 by (unfold g1; destruct (_ && _); [done|apply grid_new_wf]).
  pose proof (apply_cursor g1 target (cells target) Hwf Hr Hc eq_refl) as Hcur.
  eexists. split; [done|]. split; [exact Hcur|by apply (applied_wf _ target)].
Qed.

Lemma changes_spec base target i :
  length (cells base) = length (cells target) → (i < length (cells target))%nat →
  i ∉ changes base target → cells base !! i = cells target !! i.
Proof.
  intros Hl Hi Hno. destruct (decide (cells target !!! i = cells base !!! i)) as [Heq|Hne].
  - rewrite !list_lookup_lookup_total_lt by lia. by rewrite Heq.
  - destruct Hno. apply list_elem_of_filter. split; [done|]. apply elem_of_seq. lia.
Qed.

(** A delta renders the target on a grid that renders its base. *)
Lemma apply_delta g base target :
  grid_wf g → grid_wf base → grid_wf target → sendable target →
  render_eq g base = true → rows base = rows target → cols base = cols target →
  ∃ g', apply_diff g (encode_diff (Some base) target) = (Ok tt, g') ∧
    render_eq g' target = true ∧ grid_wf g'.
Proof.
  intros Hg Hb Hwf Hsend (Hgr & Hgc & Hgcells & _)%render_eq_spec Hr Hc.
  destruct (gw_cells _ Hwf) as [Hlen Hcells]. destruct (gw_cells _ Hb) as [Hlb _].
  assert (length (cells base) = length (cells target)) as Hlbt by congruence.
  cbn [encode_diff]. rewrite Hr, Hc, !Nat.eqb_refl. cbn [andb].
  set (ks := changes base target).
  assert (length ks ≤ length (cells target))%nat as Hks.
  { unfold ks, changes. etrans; [apply sublist_length, sublist_filter|]. by rewrite length_seq. }
  assert (Forall (λ i, (i < length (cells target))%nat) ks) as Hlt.
  { apply Forall_forall. intros i [_ Hi%elem_of_seq]%list_elem_of_filter. lia. }
  assert (∀ i, (length (put_change target i) ≤ 29)%nat) as Hpc.
  { intros i. unfold put_change. rewrite length_app. pose proof (length_put_varint (Z.of_nat i)).
    pose proof (length_put_cell (cells target !!! i)). lia. }
  assert (∀ i, (1 ≤ length (put_change target i))%nat) as Hpc1.
  { intros i. unfold put_change, put_cell. rewrite !length_app. cbn. lia. }
  pose proof (length_concat_le (put_change target) 29 ks Hpc).
  pose proof (length_concat_ge (put_change target) ks Hpc1).
  pose proof Hsend as Hsend'. unfold sendable in Hsend'. change MAX_CELLS with 1048576 in Hsend'.
  pose proof (length_put_header target). pose proof (length_put_varint (zlen ks)).
  set (hdr := [TAG_DELTA] ++ put_header target).
  assert (length hdr ≤ 42)%nat by (unfold hdr; rewrite length_app; cbn [length]; lia).
  rewrite (assoc_L (++) [TAG_DELTA]).
  unfold apply_diff. rewrite apply_diff_header; [|done|done|unfold vec_fits; fold hdr; rewrite !length_app; lia].
  fold hdr. unfold apply_cells. cbn [h_tag h_rows h_cols].
  change (TAG_DELTA =? TAG_FULL) with false.
  change (TAG_DELTA =? TAG_DELTA) with true. cbn match.
  rewrite Hgr, Hgc, Hr, Hc, !Z.eqb_refl. cbn [andb negb].
  assert (is_u64 (zlen ks)) by (unfold is_u64; lia).
  rewrite (get_vi_reads (zlen ks)) by (done || unfold vec_fits; rewrite !length_app; lia).
  cbn [mbind option_bind].
  destruct (delta_loop_encoded target ks
    (S (length (hdr ++ put_varint (zlen ks) ++ concat (put_change target <$> ks))))
    (hdr ++ put_varint (zlen ks)) [] g) as (l & pos & Hl & Hll & Hi).
  - done.
  - by rewrite Hgcells.
  - unfold is_u64; lia.
  - done.
  - rewrite !length_app. lia.
  - unfold vec_fits. rewrite !length_app. cbn [length]. lia.
  - rewrite app_nil_r, <- (assoc_L (++)) in Hl. rewrite <- length_app, Hl. cbn [mbind option_bind default].
    assert (l = cells target) as Hlt'.
    { apply list_eq. intros i. rewrite Hi. case_decide as Hin; [done|]. rewrite Hgcells.
      destruct (decide (i < length (cells target))%nat); [by apply changes_spec|].
      by rewrite !lookup_ge_None_2 by lia. }
    pose proof (apply_cursor g target l Hwf ltac:(congruence) ltac:(congruence) Hlt') as Hcur.
    eexists. split; [done|]. split; [exact Hcur|]. apply (applied_wf g target); congruence.
Qed.

(** ** Arbitrary bytes *)

Lemma get_u8_range buf pos v p : Forall is_u8 buf → get_u8 buf pos = Some (Ok (v, p)) → is_u8 v.
Proof.
  intros Hb. unfold get_u8. destruct (buf !! pos) as [b|] eqn:Hl; [|done]. intros [= <- _].
  by eapply Forall_lookup_1.
Qed.

(** Take a chain of reads apart. *)
Lemma reader_bind_ok {E A B} (m : reader E A) (f : A → reader E B) buf pos v p :
  (m ≫= f) buf pos = Some (Ok (v, p)) →
  ∃ a p1, m buf pos = Some (Ok (a, p1)) ∧ f a buf p1 = Some (Ok (v, p)).
Proof.
  unfold mbind, reader_bind. destruct (m buf pos) as [[[a p1]|]|]; [|done..]. eauto.
Qed.

Lemma get_color_range buf pos c p : Forall is_u8 buf → get_color buf pos = Some (Ok (c, p)) → color_wf c.
Proof.
  intros Hb. unfold get_color. intros (tag & p1 & _ & H)%reader_bind_ok.
  destruct (tag =? 0); [by injection H as <- _|]. destruct (tag =? 1).
  { apply reader_bind_ok in H as (n & p2 & Hn & [= <- _]). by eapply get_u8_range. }
  destruct (tag =? 2); [|done].
  apply reader_bind_ok in H as (r & p2 & Hr & H).
  apply reader_bind_ok in H as (g & p3 & Hg & H).
  apply reader_bind_ok in H as (b & p4 & Hbb & [= <- _]).
  cbn. split_and!; try by eapply get_u8_range.
Qed.

Lemma from_u32_is_char v : is_char (from_u32 v).
Proof. unfold from_u32. case_bool_decide; [done|]. unfold is_char. lia. Qed.

Lemma get_cell_range buf pos c p : Forall is_u8 buf → get_cell buf pos = Some (Ok (c, p)) → cell_wf c.
Proof.
  intros Hb. unfold get_cell. intros (v & p1 & _ & H)%reader_bind_ok.
  apply reader_bind_ok in H as (fg & p2 & Hfg & H).
  apply reader_bind_ok in H as (bg & p3 & Hbg & H).
  apply reader_bind_ok in H as (fl & p4 & Hfl & [= <- _]).
  split_and!; cbn; [apply from_u32_is_char|by eapply get_color_range..|by eapply get_u8_range].
Qed.

(** A decoder loop writes well-formed cells inside the buffer. *)
Lemma put_cell_wf g i c : grid_wf g → cell_wf c → grid_wf (set_cells (<[i := c]> (cells g)) g).
Proof.
  intros Hwf Hc. apply set_cells_wf; [done|]. destruct (gw_cells _ Hwf) as [Hl Hf].
  split; [by rewrite length_insert|by apply Forall_insert].
Qed.

Lemma full_loop_wf n bytes : Forall is_u8 bytes → ∀ i pos g,
  grid_wf g → (i + n ≤ length (cells g))%nat → (pos ≤ length bytes)%nat →
  ∃ r g', full_loop n i bytes pos g = Some (r, g') ∧
    grid_wf g' ∧ rows g' = rows g ∧ cols g' = cols g.
Proof.
  intros Hb. induction n as [|n IH]; intros i pos g Hwf Hi Hp; cbn [full_loop]; [by eexists _, _|].
  destruct (get_cell_calm bytes pos Hp) as [[[c p]|e] Hc]; rewrite Hc; cbn [mbind option_bind];
    [|by eexists _, _].
  destruct (lookup_lt_is_Some_2 (cells g) i) as [old ->]; [lia|]. cbn [mbind option_bind].
  pose proof (get_cell_advances _ _ _ _ Hp Hc). apply get_cell_range in Hc; [|done].
  destruct (IH (S i) p (set_cells (<[i:=c]> (cells g)) g)) as (r & g' & -> & Hg').
  - by apply put_cell_wf.
  - cbn. rewrite length_insert. lia.
  - lia.
  - by exists r, g'.
Qed.

(** One round per byte is enough, and no write is out of range. *)
Lemma delta_loop_wf bytes : Forall is_u8 bytes → ∀ fuel count pos g,
  grid_wf g → (pos ≤ length bytes)%nat → (length bytes - pos < fuel)%nat →
  ∃ r g', delta_loop fuel count bytes pos g = Some (r, g') ∧
    grid_wf g' ∧ rows g' = rows g ∧ cols g' = cols g.
Proof.
  intros Hb. induction fuel as [|fuel IH]; intros count pos g Hwf Hp Hf; [lia|]. cbn [delta_loop].
  destruct (count <=? 0); [by eexists _, _|].
  destruct (get_vi_calm bytes pos Hp) as [[[i p]|e] Hi]; rewrite Hi; cbn [mbind option_bind];
    [|by eexists _, _].
  apply get_vi_advances in Hi; [|done].
  assert (p ≤ length bytes)%nat as Hp1 by lia.
  destruct (get_cell_calm bytes p Hp1) as [[[c p']|e] Hc]; rewrite Hc; cbn [mbind option_bind];
    [|by eexists _, _].
  pose proof (get_cell_advances _ _ _ _ Hp1 Hc). apply get_cell_range in Hc; [|done].
  destruct (Z.ltb_spec i (zlen (cells g))); [|apply IH; [done|lia..]].
  destruct (gw_cells _ Hwf) as [Hl _]. pose proof (gw_rows _ Hwf). pose proof (gw_cols _ Hwf).
  destruct (lookup_lt_is_Some_2 (cells g) (Z.to_nat i)) as [old ->]; [nia|]. cbn [mbind option_bind].
  destruct (IH (count - 1) p' (set_cells (<[Z.to_nat i:=c]> (cells g)) g)) as (r & g' & -> & Hg');
    [by apply put_cell_wf|lia|lia|by exists r, g'].
Qed.

(** More fuel never changes the outcome. *)
Lemma delta_loop_fuel bytes n : ∀ m count pos g,
  (pos ≤ length bytes)%nat → (length bytes - pos < n)%nat → (length bytes - pos < m)%nat →
  delta_loop n count bytes pos g = delta_loop m count bytes pos g.
Proof.
  induction n as [|n IH]; intros m count pos g Hpos Hn Hm; [lia|]. destruct m as [|m]; [lia|].
  cbn [delta_loop]. destruct (count <=? 0); [done|].
  destruct (get_vi bytes pos) as [[[i p]|]|] eqn:Hi; [|done..]. apply get_vi_advances in Hi; [|done].
  cbn [mbind option_bind].
  destruct (get_cell bytes p) as [[[c p']|]|] eqn:Hc; [|done..]. apply get_cell_advances in Hc; [|lia].
  cbn [mbind option_bind]. destruct (_ <? _); [destruct (cells g !! _); [|done]; cbn|]; apply IH; lia.
Qed.

Lemma get_header_advances : advances 1 get_header.
Proof. unfold get_header. apply advances_bind_0; [auto with noissh|]. advance_fields. Qed.

(** ** Properties *)

(** C8 State synchronisation is exact: the diff from any base to a target that
    fits the wire limit, applied to any grid that renders the base (any grid at
    all for a full snapshot), succeeds and renders the target. *)
Theorem apply_encode_renders g base target :
  grid_wf g → grid_wf target → sendable target →
  (∀ b, base = Some b → grid_wf b ∧ render_eq g b = true) →
  ∃ g', apply_diff g (encode_diff base target) = (Ok tt, g') ∧ render_eq g' target = true.
Proof.
  intros Hg Hwf Hsend Hbase. destruct base as [b|].
  - destruct (Hbase b eq_refl) as [Hb Hr].
    destruct (decide (rows b = rows target ∧ cols b = cols target)) as [[??]|Hd].
    + destruct (apply_delta g b target) as (g' & ? & ? & _); [done..|]. by exists g'.
    + assert (encode_diff (Some b) target = encode_diff None target) as ->.
      { cbn [encode_diff].
        destruct (Nat.eqb_spec (rows b) (rows target)), (Nat.eqb_spec (cols b) (cols target));
          try done. by destruct Hd. }
      destruct (apply_full g target) as (g' & ? & ? & _); [done..|]. by exists g'.
  - destruct (apply_full g target) as (g' & ? & ? & _); [done..|]. by exists g'.
Qed.

(** What a header has after the checks. *)
Lemma get_header_range bytes pos h p :
  get_header bytes pos = Some (Ok (h, p)) →
  0 ≤ h_rows h ∧ 0 ≤ h_cols h ∧ 0 ≤ h_row h ∧ 0 ≤ h_col h.
Proof.
  assert (∀ pos v p, get_vi bytes pos = Some (Ok (v, p)) → 0 ≤ v) as Hv.
  { intros pos0 v p0 H. unfold get_vi, reader_map_err in H.
    destruct (get_varint bytes pos0) as [[[v' p']|]|] eqn:Hg; [|done..].
    injection H as <- _. apply get_varint_range in Hg. apply Hg. }
  unfold get_header. intros (tag & p1 & _ & H)%reader_bind_ok.
  apply reader_bind_ok in H as (r & p2 & Hr & H).
  apply reader_bind_ok in H as (c & p3 & Hc & H).
  apply reader_bind_ok in H as (row & p4 & Hrow & H).
  apply reader_bind_ok in H as (col & p5 & Hcol & H).
  apply reader_bind_ok in H as (v & p6 & _ & [= <- _]).
  cbn. split_and!; by eapply Hv.
Qed.

Lemma apply_cells_wf g bytes h pos :
  grid_wf g → Forall is_u8 bytes → bad_dimensions h = false → 0 ≤ h_rows h → 0 ≤ h_cols h →
  (pos ≤ length bytes)%nat →
  ∃ r g', apply_cells g bytes h pos = Some (r, g') ∧
  grid_wf g' ∧ ((rows g' = rows g ∧ cols g' = cols g) ∨ sendable g') ∧
  (is_ok r = true → Z.of_nat (rows g') = h_rows h ∧ Z.of_nat (cols g') = h_cols h).
Proof.
  intros Hwf Hb Hdim Hr0 Hc0 Hp. unfold bad_dimensions in Hdim.
  apply orb_false_iff in Hdim as [[[Hr%Z.eqb_neq Hc%Z.eqb_neq]%orb_false_iff _]%orb_false_iff
    Hmax%Z.ltb_ge].
  unfold apply_cells. set (same := (_ =? h_rows h) && _).
  assert (same = true → Z.of_nat (rows g) = h_rows h ∧ Z.of_nat (cols g) = h_cols h) as Hsame
    by (unfold same; by rewrite andb_true_iff, !Z.eqb_eq).
  destruct (h_tag h =? TAG_FULL); [|destruct (h_tag h =? TAG_DELTA)].
  - set (g1 := if same then g else _).
    assert (grid_wf g1 ∧ Z.of_nat (rows g1) = h_rows h ∧ Z.of_nat (cols g1) = h_cols h) as
      (Hwf1 & Hr1 & Hc1).
    { unfold g1. destruct same; [by destruct Hsame|]. split; [apply grid_new_wf|].
      cbn -[Nat.max]. lia. }
    assert (sendable g1) as Hs1 by (unfold sendable; rewrite Nat2Z.inj_mul, Hr1, Hc1; lia).
    destruct (gw_cells _ Hwf1) as [Hl1 _].
    destruct (full_loop_wf (Z.to_nat (h_rows h * h_cols h)) bytes Hb 0 pos g1 Hwf1)
      as (r & g' & -> & Hw & Hr2 & Hc2); [rewrite Hl1, <- Hr1, <- Hc1; lia|done|].
    exists r, g'. split_and!; [done|done| |intros _; split; congruence].
    right. unfold sendable. by rewrite Hr2, Hc2.
  - destruct same; [|by eexists _, _; split_and!; [|..|left|]]. cbn [negb]. destruct Hsame as [Hs1 Hs2]; [done|].
    destruct (get_vi_calm bytes pos Hp) as [[[count p]|e] Hv]; rewrite Hv; cbn [mbind option_bind];
      [|by eexists _, _; split_and!; [|..|left|]].
    apply get_vi_advances in Hv; [|done].
    destruct (delta_loop_wf bytes Hb (S (length bytes)) count p g Hwf) as (r & g' & -> & Hw & Hr2 & Hc2);
      [lia..|].
    exists r, g'. split_and!; [done|done|by left|intros _; split; congruence].
  - by eexists _, _; split_and!; [|..|left|].
Qed.

(** C39 Hostile diffs: whatever bytes a diff has, applying it to a well-formed grid
    does not panic, and leaves a well-formed grid, of the old dimensions or of at most
    [MAX_CELLS] cells — also when it fails half way. *)
Theorem apply_diff_is_safe g bytes :
  grid_wf g → Forall is_u8 bytes →
  let '(r, g') := apply_diff g bytes in
  apply_diff_checked g bytes = Some (r, g') ∧
  grid_wf g' ∧ ((rows g' = rows g ∧ cols g' = cols g) ∨ sendable g').
Proof.
  intros Hwf Hb. unfold apply_diff, apply_diff_checked.
  destruct (get_header_calm bytes 0%nat ltac:(lia)) as [[[h pos]|e] Hh]; rewrite Hh;
    cbn [mbind option_bind default]; [|by split_and!; [| |left]].
  pose proof (get_header_advances bytes 0%nat _ _ ltac:(lia) Hh).
  apply get_header_range in Hh as (Hr & Hc & Hrow & Hcol).
  destruct (bad_dimensions h) eqn:Hd; [by split_and!; [| |left]|].
  destruct (apply_cells_wf g bytes h pos Hwf Hb Hd Hr Hc) as ([p|e] & g' & -> & Hwf' & Hdims & Hok);
    [lia| |by split].
  cbn [mbind option_bind default]. destruct Hok as [Hr' Hc']; [done|]. split_and!; [done| |done].
  pose proof (gw_rows _ Hwf'). pose proof (gw_cols _ Hwf').
  destruct Hwf'. split; cbn; try done; lia.
Qed.

(** Two well-formed grids of the same size can be compared cell by cell. *)
Lemma changes_calm base target ks :
  Forall (λ i, (i < length (cells base))%nat ∧ (i < length (cells target))%nat) ks →
  changes_checked base target ks =
    Some (filter (λ i, cells target !!! i ≠ cells base !!! i) ks).
Proof.
  induction 1 as [|i ks [Hb Ht] _ IH]; cbn [changes_checked]; [done|].
  rewrite (list_lookup_lookup_total_lt (cells target) i), (list_lookup_lookup_total_lt (cells base) i) by done.
  cbn [mbind option_bind]. rewrite IH. cbn [mbind option_bind]. rewrite filter_cons.
  by destruct (decide (cells target !!! i ≠ cells base !!! i)) as [Hd|Hd]; case_bool_decide.
Qed.

Lemma encode_diff_calm base target :
  grid_wf target → (∀ b, base = Some b → grid_wf b) →
  encode_diff_checked base target = Some (encode_diff base target).
Proof.
  intros Ht Hb. destruct base as [b|]; [|done]. cbn [encode_diff_checked encode_diff].
  destruct (Nat.eqb_spec (rows b) (rows target)) as [Hr|]; [|done].
  destruct (Nat.eqb_spec (cols b) (cols target)) as [Hc|]; [|done]. cbn [andb].
  destruct (gw_cells _ Ht) as [Hlt _], (gw_cells _ (Hb b eq_refl)) as [Hlb _].
  rewrite changes_calm; [done|]. apply Forall_forall. intros i Hi%elem_of_seq.
  rewrite Hlb, Hr, Hc, <- Hlt. lia.
Qed.

(** ** Witnesses *)

Lemma apply_encode_renders_witness :
  ∃ g', apply_diff sample_grid (encode_diff (Some sample_grid)
      (set_cells (<[3%nat := with_ch 90 blank]> (cells sample_grid)) sample_grid)) = (Ok tt, g') ∧
    cell g' 1 1 = with_ch 90 blank.
Proof.
  destruct (apply_encode_renders sample_grid (Some sample_grid)
    (set_cells (<[3%nat := with_ch 90 blank]> (cells sample_grid)) sample_grid))
    as (g' & Ha & Hr).
  - exact sample_grid_wf.
  - apply put_cell_wf; [exact sample_grid_wf|].
    apply with_ch_wf; [unfold is_char; lia|apply blank_wf].
  - unfold sendable. vm_compute. congruence.
  - intros b [= <-]. split; [exact sample_grid_wf|reflexivity].
  - exists g'. split; [exact Ha|]. apply render_eq_spec in Hr as (Hr & Hc & Hcells & _).
    unfold cell, idx. rewrite Hr, Hc, Hcells. reflexivity.
Defined.

Lemma apply_diff_is_safe_witness :
  grid_wf (apply_diff sample_grid [1; 3; 2; 9; 9; 1; 200; 1; 2; 3]).2.
Proof.
  pose proof (apply_diff_is_safe sample_grid [1; 3; 2; 9; 9; 1; 200; 1; 2; 3] sample_grid_wf
    ltac:(apply is_u8_all; reflexivity)) as H.
  destruct (apply_diff sample_grid [1; 3; 2; 9; 9; 1; 200; 1; 2; 3]) as [r g'].
  exact (proj1 (proj2 H)).
Defined.
