(* ===== verification/Predict.v ===== *)
(** * Predictive echo ([crates/predict/src/lib.rs])

    The predictor keeps the last authoritative screen and the guesses made on
    top of it. Positions are compared by their index in reading order. *)

From S2P Require Import Prelude Cell Grid GridOps.

(** @ crates/predict/src/lib.rs:15-25 DisplayMode *)
Inductive DisplayMode :=
| Always
| Never
| Adaptive.

(** @ crates/predict/src/lib.rs:27-32 Prediction *)
Record Prediction := mkPrediction { p_row : nat; p_col : nat; p_ch : Z }.

(** @ crates/predict/src/lib.rs:36-43 Predictor *)
Record Predictor := mkPredictor {
  base : Grid;
  preds : list Prediction;
  cursor : nat * nat;
  mode : DisplayMode;
  confirmed_echo : bool;
  glitch : bool;
}.

Definition set_preds (v : list Prediction) (p : Predictor) : Predictor :=
  mkPredictor (base p) v (cursor p) (mode p) (confirmed_echo p) (glitch p).
Definition set_cursor (v : nat * nat) (p : Predictor) : Predictor :=
  mkPredictor (base p) (preds p) v (mode p) (confirmed_echo p) (glitch p).

(** @ crates/predict/src/lib.rs:47-57 Predictor::new *)
Definition predictor_new (base : Grid) : Predictor :=
  {| base := base; preds := []; cursor := (cursor_row base, cursor_col base);
     mode := Adaptive; confirmed_echo := false; glitch := false |}.

(** [with_mode] and [set_mode].
    @ crates/predict/src/lib.rs:64-66 Predictor::set_mode *)
Definition set_mode (v : DisplayMode) (p : Predictor) : Predictor :=
  mkPredictor (base p) (preds p) (cursor p) v (confirmed_echo p) (glitch p).

(** @ crates/predict/src/lib.rs:69-71 Predictor::outstanding *)
Definition outstanding (p : Predictor) : nat := length (preds p).

(** @ crates/predict/src/lib.rs:74-80 Predictor::displaying *)
Definition displaying (p : Predictor) : bool :=
  match mode p with
  | Always => true
  | Never => false
  | Adaptive => confirmed_echo p && negb (glitch p)
  end.

(** @ crates/predict/src/lib.rs:84-95 Predictor::advance_cursor *)
Definition advance_cursor (p : Predictor) : bool * Predictor :=
  let '(r, c) := cursor p in
  if (c + 1 <? cols (base p))%nat then (true, set_cursor (r, c + 1)%nat p)
  else if (r + 1 <? rows (base p))%nat then (true, set_cursor (r + 1, 0)%nat p)
  else (false, p).

(** [self.preds.clear(); self.cursor = (base.cursor_row, base.cursor_col)]. *)
Definition abandon (p : Predictor) : Predictor :=
  set_cursor (cursor_row (base p), cursor_col (base p)) (set_preds [] p).

Definition printable (b : Z) : bool := (0x20 <=? b) && (b <=? 0x7e).

(** @ crates/predict/src/lib.rs:101-115 Predictor::predict_input *)
Definition predict_printable (b : Z) (p : Predictor) : Predictor :=
  let '(row, col) := cursor p in
  let at_end := (cols (base p) <=? col + 1)%nat && (rows (base p) <=? row + 1)%nat in
  if at_end then p
  else snd (advance_cursor (set_preds (preds p ++ [mkPrediction row col b]) p)).

(** Backspace: [Vec::pop] and one step back, over the line's end.
    @ crates/predict/src/lib.rs:122-132 Predictor::predict_input *)
Definition predict_backspace (p : Predictor) : Predictor :=
  match preds p with
  | [] => p
  | _ =>
    let p := set_preds (take (length (preds p) - 1) (preds p)) p in
    let '(r, c) := cursor p in
    if (0 <? c)%nat then set_cursor (r, c - 1)%nat p
    else if (0 <? r)%nat then set_cursor (r - 1, cols (base p) - 1)%nat p
    else p
  end.

(** One byte of the loop. @ crates/predict/src/lib.rs:100-138 Predictor::predict_input *)
Definition predict_byte (p : Predictor) (b : Z) : Predictor :=
  if printable b then predict_printable b p
  else if (b =? 13) || (b =? 10) then abandon p
  else if (b =? 0x08) || (b =? 0x7f) then predict_backspace p
  else abandon p.

(** @ crates/predict/src/lib.rs:98-140 Predictor::predict_input *)
Definition predict_input (p : Predictor) (bytes : list Z) : Predictor :=
  foldl predict_byte p bytes.

(** What a guess looks like. *)
Definition predicted_cell (c : Z) : Cell :=
  {| ch := c; fg := Default; bg := Default; flags := Z.lor PREDICTED UNDERLINE |}.

Definition paint (p : Prediction) (g : Grid) : option Grid :=
  if (p_row p <? rows g)%nat && (p_col p <? cols g)%nat
  then put_cell_at (p_row p * cols g + p_col p) (predicted_cell (p_ch p)) g
  else Some g.

(** [None] where an index would panic.
    @ crates/predict/src/lib.rs:143-162 Predictor::overlay *)
Definition overlay (p : Predictor) : option Grid :=
  if negb (displaying p) then Some (base p)
  else
    g ← for_each (preds p) paint (base p);
    Some (set_cursor_col (Nat.min (snd (cursor p)) (cols g - 1))
           (set_cursor_row (Nat.min (fst (cursor p)) (rows g - 1)) g)).

(** The authoritative cursor has moved past the prediction. *)
Definition reached (new_base : Grid) (p : Prediction) : bool :=
  (p_row p <? cursor_row new_base)%nat
  || ((cursor_row new_base =? p_row p)%nat && (p_col p <? cursor_col new_base)%nat).

Definition echoed (new_base : Grid) (p : Prediction) : bool :=
  ch (cell new_base (p_row p) (p_col p)) =? p_ch p.

(** One round of the loop: [(abandoned, confirmed_any, kept)].
    @ crates/predict/src/lib.rs:169-181 Predictor::reconcile *)
Definition judge (new_base : Grid) (st : bool * bool * list Prediction) (p : Prediction) :
    bool * bool * list Prediction :=
  let '(abandoned, confirmed_any, kept) := st in
  if reached new_base p then
    if echoed new_base p then (abandoned, true, kept) else (true, confirmed_any, kept)
  else (abandoned, confirmed_any, kept ++ [p]).

Definition inside (g : Grid) (p : Prediction) : bool :=
  (p_row p <? rows g)%nat && (p_col p <? cols g)%nat.

(** @ crates/predict/src/lib.rs:165-202 Predictor::reconcile *)
Definition reconcile (p : Predictor) (new_base : Grid) : Predictor :=
  let '(abandoned, confirmed_any, kept) :=
    foldl (judge new_base) (false, false, []) (preds p) in
  let kept := if abandoned then [] else kept in
  let glitch' := if abandoned then true else if confirmed_any then false else glitch p in
  let confirmed' := if abandoned then confirmed_echo p else confirmed_any || confirmed_echo p in
  let preds' := filter (λ q, inside new_base q = true) kept in
  {| base := new_base; preds := preds';
     cursor := match preds' with
               | [] => (cursor_row new_base, cursor_col new_base)
               | _ => (Nat.min (fst (cursor p)) (rows new_base - 1),
                       Nat.min (snd (cursor p)) (cols new_base - 1))
               end;
     mode := mode p; confirmed_echo := confirmed'; glitch := glitch' |}.

(** ** The loops *)

Definition mispredicted (nb : Grid) (p : Prediction) : bool := reached nb p && negb (echoed nb p).
Definition confirmed (nb : Grid) (p : Prediction) : bool := reached nb p && echoed nb p.

Lemma judge_spec nb ps : ∀ a c k,
  foldl (judge nb) (a, c, k) ps =
    (a || existsb (mispredicted nb) ps, c || existsb (confirmed nb) ps,
     k ++ filter (λ q, reached nb q = false) ps).
Proof.
  induction ps as [|q ps IH]; intros a c k.
  { cbn. by rewrite !orb_false_r, app_nil_r. }
  cbn [foldl existsb]. rewrite filter_cons.
  change (mispredicted nb q) with (reached nb q && negb (echoed nb q)).
  change (confirmed nb q) with (reached nb q && echoed nb q).
  unfold judge at 2. destruct (reached nb q) eqn:Hr.
  - rewrite decide_False by done. destruct (echoed nb q); rewrite IH; cbn [negb orb andb];
      by rewrite ?orb_true_r.
  - rewrite decide_True by done. cbn [negb orb andb]. by rewrite IH, <- (assoc_L (++)).
Qed.

(** The last guess at a cell. *)
Definition painted (ps : list Prediction) (r c : nat) : option Z :=
  p_ch <$> last (filter (λ q, p_row q = r ∧ p_col q = c) ps).

Lemma painted_snoc ps q r c :
  painted (ps ++ [q]) r c = if decide (p_row q = r ∧ p_col q = c) then Some (p_ch q) else painted ps r c.
Proof.
  unfold painted. rewrite filter_app, filter_cons, filter_nil.
  case_decide; [by rewrite last_snoc|by rewrite app_nil_r].
Qed.

Lemma cell_lookup g r c :
  (r < rows g)%nat → (c < cols g)%nat → cell g r c = cells g !!! (r * cols g + c)%nat.
Proof.
  intros Hr Hc. unfold cell, idx.
  by rewrite (proj2 (Nat.ltb_lt _ _) Hr), (proj2 (Nat.ltb_lt _ _) Hc).
Qed.

Lemma predicted_cell_wf c : is_char c → cell_wf (predicted_cell c).
Proof. intros. unfold predicted_cell, cell_wf. cbn. split_and!; [done..|change (is_u8 130); lia_ints]. Qed.

Definition pred_ok (g : Grid) (q : Prediction) : Prop := inside g q = true ∧ is_char (p_ch q).

Lemma inside_lt g q : inside g q = true ↔ (p_row q < rows g)%nat ∧ (p_col q < cols g)%nat.
Proof. unfold inside. by rewrite andb_true_iff, !Nat.ltb_lt. Qed.

Lemma paint_all ps g :
  grid_wf g → Forall (pred_ok g) ps →
  ∃ l, for_each ps paint g = Some (set_cells l g) ∧ buffer_wf (rows g * cols g) l ∧
    ∀ r c, (r < rows g)%nat → (c < cols g)%nat →
      l !!! (r * cols g + c)%nat =
        match painted ps r c with Some x => predicted_cell x | None => cell g r c end.
Proof.
  intros Hwf Hps.
  destruct (for_each_inv (λ done g', ∃ l, g' = set_cells l g ∧ buffer_wf (rows g * cols g) l ∧
    ∀ r c, (r < rows g)%nat → (c < cols g)%nat →
      l !!! (r * cols g + c)%nat =
        match painted done r c with Some x => predicted_cell x | None => cell g r c end)
    paint ps g) as (g' & Hg' & l & -> & Hl).
  - exists (cells g). rewrite set_cells_id. split_and!; [done|apply (gw_cells _ Hwf)|].
    intros r c Hr Hc. cbn. by rewrite cell_lookup.
  - intros done0 q rest g' Hsplit (l & -> & [Hlen Hf] & Hl).
    rewrite Hsplit in Hps. apply Forall_app in Hps as [_ [[Hin Hch] _]%Forall_cons_1].
    apply inside_lt in Hin as [Hr Hc].
    unfold paint. cbn [rows cols set_cells]. rewrite (proj2 (Nat.ltb_lt _ _) Hr),
      (proj2 (Nat.ltb_lt _ _) Hc). cbn [andb].
    pose proof (index_lt _ _ _ _ Hr Hc) as Hi.
    rewrite put_cell_at_spec by (cbn; lia). rewrite set_cells_twice. cbn [cells set_cells].
    eexists. split; [done|]. eexists. split; [done|]. split.
    { split; [by rewrite length_insert|]. apply Forall_insert; [done|]. by apply predicted_cell_wf. }
    intros r c Hr' Hc'. rewrite painted_snoc. case_decide as Hd.
    + destruct Hd as [<- <-]. apply list_lookup_total_insert_eq. by rewrite Hlen.
    + rewrite list_lookup_total_insert_ne; [by apply Hl|]. intros Heq. apply Hd.
      assert (p_row q = r) as Hrow by nia. rewrite Hrow in Heq. split; [done|lia].
  - exists l. done.
Qed.

(** ** The invariant: everything is on the screen *)

Record pred_wf (p : Predictor) : Prop := {
  pw_base : grid_wf (base p);
  pw_row : (fst (cursor p) < rows (base p))%nat;
  pw_col : (snd (cursor p) < cols (base p))%nat;
  pw_preds : Forall (pred_ok (base p)) (preds p);
}.

Lemma predictor_new_wf g : grid_wf g → pred_wf (predictor_new g).
Proof. intros H. split; cbn; try done; by destruct H. Qed.

Lemma abandon_wf p : pred_wf p → pred_wf (abandon p).
Proof. intros [H _ _ _]. split; cbn; try done; by destruct H. Qed.

Lemma printable_char b : printable b = true → is_char b.
Proof. unfold printable, is_char. lia. Qed.

Lemma predict_printable_wf b p : printable b = true → pred_wf p → pred_wf (predict_printable b p).
Proof.
  intros Hb Hp. pose proof Hp as [Hwf Hr Hc Hps]. unfold predict_printable, advance_cursor.
  destruct p as [g ps [row col] m ce gl]. cbn [cursor base preds fst snd set_preds] in *.
  destruct (_ && _); [done|].
  assert (Forall (pred_ok g) (ps ++ [mkPrediction row col b])).
  { apply Forall_app; split; [done|]. constructor; [|done]. split; [by apply inside_lt|].
    by apply printable_char. }
  destruct (Nat.ltb_spec (col + 1) (cols g)); [|destruct (Nat.ltb_spec (row + 1) (rows g))];
    split; cbn [cursor base preds fst snd set_cursor set_preds]; try done; lia.
Qed.

Lemma predict_backspace_wf p : pred_wf p → pred_wf (predict_backspace p).
Proof.
  intros Hp. pose proof Hp as [Hwf Hr Hc Hps]. unfold predict_backspace.
  destruct p as [g ps [row col] m ce gl]. cbn [preds base cursor set_preds] in *.
  destruct ps as [|q ps]; [done|].
  assert (Forall (pred_ok g) (take (length (q :: ps) - 1) (q :: ps))) by by apply Forall_take.
  destruct (Nat.ltb_spec 0 col); [|destruct (Nat.ltb_spec 0 row)];
    split; try done; cbn [cursor base preds fst snd set_cursor set_preds] in *; lia.
Qed.

Lemma predict_byte_wf p b : pred_wf p → pred_wf (predict_byte p b).
Proof.
  intros. unfold predict_byte. destruct (printable b) eqn:?; [by apply predict_printable_wf|].
  destruct (_ || _); [by apply abandon_wf|].
  destruct (_ || _); [by apply predict_backspace_wf|by apply abandon_wf].
Qed.

Lemma predict_input_wf bytes : ∀ p, pred_wf p → pred_wf (predict_input p bytes).
Proof.
  induction bytes as [|b bytes IH]; intros p Hp; [done|]. cbn. apply IH. by apply predict_byte_wf.
Qed.

Lemma reconcile_preds_ok p nb :
  pred_wf p → Forall (pred_ok nb) (preds (reconcile p nb)).
Proof.
  intros [_ _ _ Hps]. unfold reconcile. rewrite judge_spec. cbn [preds].
  apply Forall_forall. intros q [Hin Hq]%list_elem_of_filter.
  split; [done|]. cbn in Hq. destruct (existsb _ _); [by apply not_elem_of_nil in Hq|].
  apply list_elem_of_filter in Hq as [_ Hq]. rewrite Forall_forall in Hps. by apply Hps.
Qed.

Lemma reconcile_wf p nb : pred_wf p → grid_wf nb → pred_wf (reconcile p nb).
Proof.
  intros Hp Hnb. pose proof (reconcile_preds_ok p nb Hp) as Hps. revert Hps.
  unfold reconcile. rewrite judge_spec. cbn [preds]. intros Hps.
  pose proof (gw_rows _ Hnb). pose proof (gw_cols _ Hnb). pose proof (gw_row _ Hnb).
  pose proof (gw_col _ Hnb).
  split; cbn [base cursor preds]; [done| | |done];
    (destruct (filter _ _); cbn [fst snd]; lia).
Qed.

(** The overlay, cell by cell. *)
Lemma overlay_spec p :
  pred_wf p →
  ∃ g, overlay p = Some g ∧ grid_wf g ∧
    rows g = rows (base p) ∧ cols g = cols (base p) ∧
    (cursor_row g, cursor_col g) =
      (if displaying p then cursor p else (cursor_row (base p), cursor_col (base p))) ∧
    ∀ r c, (r < rows g)%nat → (c < cols g)%nat →
      cell g r c = match (if displaying p then painted (preds p) r c else None) with
                   | Some x => predicted_cell x | None => cell (base p) r c end.
Proof.
  intros [Hwf Hr Hc Hps]. unfold overlay. destruct (displaying p); cbn [negb].
  - destruct (paint_all _ _ Hwf Hps) as (l & -> & Hl & Hcells). cbn [mbind option_bind].
    eexists. split; [done|]. cbn [rows cols set_cursor_col set_cursor_row set_cells].
    split_and!; [|done|done| |].
    + pose proof (set_cells_wf l _ Hwf Hl) as Hwf'. destruct Hwf'. split; cbn in *; try done; lia.
    + cbn. destruct (cursor p) as [cr cc]; cbn in *. f_equal; lia.
    + intros r c Hr' Hc'. rewrite cell_lookup by done. cbn. by apply Hcells.
  - by exists (base p).
Qed.

(** ** Properties *)

(** What the client does with its predictor. *)
Inductive predictor_op :=
| TypeBytes (bytes : list Z)
| Reconcile (g : Grid)
| SetMode (m : DisplayMode).

Definition predictor_step (p : Predictor) (o : predictor_op) : Predictor :=
  match o with
  | TypeBytes bytes => predict_input p bytes
  | Reconcile g => reconcile p g
  | SetMode m => set_mode m p
  end.

Definition op_wf (o : predictor_op) : Prop :=
  match o with Reconcile g => grid_wf g | _ => True end.

Lemma predictor_run_wf ops : ∀ p,
  pred_wf p → Forall op_wf ops → pred_wf (foldl predictor_step p ops).
Proof.
  induction ops as [|o ops IH]; intros p Hp Ho; [done|]. apply Forall_cons_1 in Ho as [Ho ?].
  cbn. apply IH; [|done]. destruct o; cbn; [by apply predict_input_wf|by apply reconcile_wf|].
  by destruct Hp.
Qed.

(** Overlay safety: whatever is typed, whatever screens arrive (of any size)
    and whatever modes are chosen, painting the overlay never indexes out of
    range; it keeps the authoritative screen's dimensions, shows the last guess
    at a guessed cell and the authoritative cell everywhere else. *)
Theorem overlay_paints_guesses g ops :
  grid_wf g → Forall op_wf ops →
  let p := foldl predictor_step (predictor_new g) ops in
  ∃ o, overlay p = Some o ∧ grid_wf o ∧ rows o = rows (base p) ∧ cols o = cols (base p) ∧
    ∀ r c, (r < rows o)%nat → (c < cols o)%nat →
      cell o r c = match (if displaying p then painted (preds p) r c else None) with
                   | Some x => predicted_cell x | None => cell (base p) r c end.
Proof.
  intros Hg Hops p. assert (pred_wf p) as Hp
    by (apply predictor_run_wf; [by apply predictor_new_wf|done]).
  destruct (overlay_spec p Hp) as (o & ? & ? & ? & ? & _ & ?). by exists o.
Qed.

(** ** Guesses trail the cursor *)

(** The place of a cell in reading order, on lines of [C] columns. *)
Definition pos (C : nat) (q : Prediction) : nat := p_row q * C + p_col q.
Definition cursor_pos (p : Predictor) : nat := fst (cursor p) * cols (base p) + snd (cursor p).

Lemma reached_pos nb q :
  (p_col q < cols nb)%nat → (cursor_col nb < cols nb)%nat →
  reached nb q = (pos (cols nb) q <? cursor_row nb * cols nb + cursor_col nb)%nat.
Proof.
  intros Hq Hc. unfold reached, pos. apply eq_true_iff_eq.
  rewrite orb_true_iff, andb_true_iff, !Nat.ltb_lt, Nat.eqb_eq.
  split; [intros [?|[-> ?]]; nia|]. intros Hlt.
  destruct (Nat.lt_trichotomy (p_row q) (cursor_row nb)) as [?|[He|?]]; [by left| |nia].
  right. rewrite He in Hlt. lia.
Qed.

(** One printable byte with room after the cursor. *)
Lemma predict_printable_spec b p :
  pred_wf p → (cursor_pos p + 1 < rows (base p) * cols (base p))%nat →
  let p' := predict_printable b p in
  preds p' = preds p ++ [mkPrediction (fst (cursor p)) (snd (cursor p)) b] ∧
  cursor_pos p' = (cursor_pos p + 1)%nat ∧
  base p' = base p ∧ mode p' = mode p ∧ confirmed_echo p' = confirmed_echo p ∧
  glitch p' = glitch p.
Proof.
  intros [_ Hr Hc _]. unfold predict_printable, cursor_pos, advance_cursor.
  destruct p as [g ps [row col] m ce gl]. cbn [cursor base preds fst snd set_preds] in *.
  intros Hroom.
  destruct (Nat.leb_spec (cols g) (col + 1)), (Nat.leb_spec (rows g) (row + 1)); cbn [andb];
    try nia;
    destruct (Nat.ltb_spec (col + 1) (cols g)); try lia;
    try (destruct (Nat.ltb_spec (row + 1) (rows g)); [|lia]);
    cbn [cursor base preds fst snd set_preds set_cursor mode confirmed_echo glitch];
    split_and!; try done; nia.
Qed.

Lemma predict_input_printable s : ∀ p,
  pred_wf p → forallb printable s = true →
  (cursor_pos p + length s < rows (base p) * cols (base p))%nat →
  let p' := predict_input p s in
  ∃ l, preds p' = preds p ++ l ∧ p_ch <$> l = s ∧
    pos (cols (base p)) <$> l = seq (cursor_pos p) (length s) ∧
    base p' = base p ∧ mode p' = mode p ∧ confirmed_echo p' = confirmed_echo p ∧
    glitch p' = glitch p.
Proof.
  induction s as [|b s IH]; intros p Hp Hs Hroom; cbn [predict_input foldl].
  { exists []. by rewrite app_nil_r. }
  cbn [forallb length] in *. apply andb_true_iff in Hs as [Hb Hs].
  assert (predict_byte p b = predict_printable b p) as -> by (unfold predict_byte; by rewrite Hb).
  fold (predict_input (predict_printable b p) s).
  destruct (predict_printable_spec b p Hp ltac:(lia)) as (Hps & Hc & Hbase & Hm & Hce & Hgl).
  destruct (IH (predict_printable b p)) as (l & Hl & Hch & Hpos & ? & ? & ? & ?).
  - by apply predict_printable_wf.
  - done.
  - rewrite Hc, Hbase. lia.
  - eexists. rewrite Hps, <- (assoc_L (++)) in Hl. split; [exact Hl|].
    rewrite Hbase, Hc in Hpos. cbn [app fmap list_fmap]. rewrite Hch, Hpos. cbn [seq].
    rewrite (Nat.add_1_r (cursor_pos p)). split_and!; [done|reflexivity|congruence..].
Qed.

Definition trails (p : Predictor) : Prop :=
  ∃ start, pos (cols (base p)) <$> preds p = seq start (outstanding p) ∧
    (start + outstanding p)%nat = cursor_pos p.

Lemma trails_nil p : preds p = [] → trails p.
Proof. intros H. exists (cursor_pos p). unfold outstanding. rewrite H. cbn. split; [done|lia]. Qed.

Lemma predict_printable_full b p :
  pred_wf p → (rows (base p) * cols (base p) ≤ cursor_pos p + 1)%nat → predict_printable b p = p.
Proof.
  intros [_ Hr Hc _]. unfold predict_printable, cursor_pos.
  destruct p as [g ps [row col] m ce gl]. cbn [cursor base fst snd] in *. intros Hfull.
  by rewrite (proj2 (Nat.leb_le _ _)), (proj2 (Nat.leb_le _ _)) by nia.
Qed.

Lemma predict_printable_trails b p : pred_wf p → trails p → trails (predict_printable b p).
Proof.
  intros Hp (start & Hpos & Hstart).
  destruct (decide (cursor_pos p + 1 < rows (base p) * cols (base p))%nat) as [Hroom|Hfull];
    [|rewrite predict_printable_full by (done || lia); by exists start].
  destruct (predict_printable_spec b p Hp Hroom) as (Hps & Hc & Hbase & _).
  exists start. unfold outstanding. rewrite Hps, Hc, Hbase, fmap_app, Hpos, length_app.
  cbn [length fmap list_fmap]. rewrite Nat.add_1_r, seq_S. unfold outstanding in *.
  split; [|lia]. by rewrite Hstart.
Qed.

Lemma predict_backspace_trails p : pred_wf p → trails p → trails (predict_backspace p).
Proof.
  intros [_ Hr Hc _] (start & Hpos & Hstart). unfold predict_backspace, trails, outstanding in *.
  destruct (preds p) as [|q ps] eqn:Hps; [exists start; by rewrite Hps|].
  destruct p as [g ps0 [row col] m ce gl].
  unfold cursor_pos in *. cbn [cursor base fst snd preds set_preds] in *. subst ps0.
  set (n := (length (q :: ps) - 1)%nat). assert (length (q :: ps) = S n) as Hn by (cbn in *; lia).
  rewrite Hn in *. exists start.
  assert (pos (cols g) <$> take n (q :: ps) = seq start (length (take n (q :: ps)))) as Htake.
  { rewrite fmap_take, Hpos, take_seq, length_take, Hn. by f_equal. }
  destruct (Nat.ltb_spec 0 col); [|destruct (Nat.ltb_spec 0 row)];
    cbn [cursor base fst snd preds set_preds set_cursor];
    (split; [exact Htake|rewrite length_take, Hn; nia]).
Qed.

Lemma filter_reached nb ps : ∀ start,
  grid_wf nb → Forall (λ q, inside nb q = true) ps →
  pos (cols nb) <$> ps = seq start (length ps) →
  let k := (cursor_row nb * cols nb + cursor_col nb)%nat in
  let kept := filter (λ q, reached nb q = false) ps in
  pos (cols nb) <$> kept = seq (Nat.max start k) (length kept) ∧
  length kept = (start + length ps - Nat.max start k)%nat.
Proof.
  intros start Hnb. revert start. induction ps as [|q ps IH]; intros start Hin Hpos; cbn zeta.
  { cbn. split; [done|lia]. }
  apply Forall_cons_1 in Hin as [Hq Hin]. apply inside_lt in Hq as [_ Hq].
  cbn [length fmap list_fmap seq] in Hpos. injection Hpos as Hpq Hpos.
  destruct (IH (S start) Hin Hpos) as [IHp IHl]. rewrite filter_cons.
  rewrite (reached_pos nb q Hq (gw_col _ Hnb)), Hpq.
  destruct (Nat.ltb_spec start (cursor_row nb * cols nb + cursor_col nb)).
  - rewrite decide_False by done. cbn [length].
    replace (Nat.max start _) with
      (Nat.max (S start) (cursor_row nb * cols nb + cursor_col nb)) by lia. split; [done|lia].
  - rewrite decide_True by done. cbn [length fmap list_fmap seq].
    replace (Nat.max (S start) (cursor_row nb * cols nb + cursor_col nb)) with (S start) in * by lia.
    replace (Nat.max start (cursor_row nb * cols nb + cursor_col nb)) with start by lia.
    rewrite IHp, Hpq. split; [done|lia].
Qed.

Lemma filter_all {A} (P : A → Prop) `{∀ x, Decision (P x)} l : Forall P l → filter P l = l.
Proof. induction 1; [done|]. rewrite filter_cons, decide_True by done. by f_equal. Qed.

Lemma reconcile_trails p nb :
  pred_wf p → grid_wf nb → rows nb = rows (base p) → cols nb = cols (base p) →
  trails p → trails (reconcile p nb).
Proof.
  intros [_ Hr Hc Hps] Hnb Hrows Hcols (start & Hpos & Hstart). unfold reconcile.
  rewrite judge_spec. cbn [orb app]. destruct (existsb (mispredicted nb) (preds p)).
  { by apply trails_nil. }
  assert (Forall (λ q, inside nb q = true) (preds p)) as Hin.
  { eapply Forall_impl; [exact Hps|]. intros q [Hq _]. unfold inside in *. by rewrite Hrows, Hcols. }
  set (kept := filter (λ q, reached nb q = false) (preds p)).
  rewrite (filter_all _ kept) by (apply Forall_forall; intros q [_ Hq]%list_elem_of_filter;
      by eapply (proj1 (Forall_forall _ _) Hin)).
  unfold outstanding in *. rewrite <- Hcols in Hpos.
  destruct (filter_reached nb (preds p) start Hnb Hin Hpos) as [Hk Hl]. fold kept in Hk, Hl.
  clearbody kept. destruct kept as [|q kept]; [by apply trails_nil|].
  unfold trails, outstanding, cursor_pos. cbn [base preds cursor fst snd].
  eexists. split; [exact Hk|]. rewrite Hl. unfold cursor_pos in Hstart.
  cbn [length] in Hl. rewrite Hrows, Hcols in *. rewrite !Nat.min_l by lia. lia.
Qed.

Lemma predict_byte_trails p b : pred_wf p → trails p → trails (predict_byte p b).
Proof.
  intros Hp Ht. unfold predict_byte. destruct (printable b); [by apply predict_printable_trails|].
  destruct (_ || _); [by apply trails_nil|].
  destruct (_ || _); [by apply predict_backspace_trails|by apply trails_nil].
Qed.

Lemma predict_byte_base p b : base (predict_byte p b) = base p.
Proof.
  unfold predict_byte, predict_printable, predict_backspace, advance_cursor, abandon.
  destruct p as [g ps [row col] m ce gl]. cbn [cursor preds base set_preds].
  destruct ps; repeat case_match; simplify_eq; done.
Qed.

Lemma predict_input_trails bytes : ∀ p, pred_wf p → trails p → trails (predict_input p bytes).
Proof.
  induction bytes as [|b bytes IH]; intros p Hp Ht; [done|]. cbn.
  apply IH; [by apply predict_byte_wf|by apply predict_byte_trails].
Qed.

Lemma predict_input_base bytes : ∀ p, base (predict_input p bytes) = base p.
Proof.
  induction bytes as [|b bytes IH]; intros p; [done|]. cbn. fold (predict_input (predict_byte p b) bytes).
  by rewrite IH, predict_byte_base.
Qed.

(** ** Echo and misprediction *)

(** The authoritative screen shows the text [s] from the place [k] on, with the
    cursor after it. *)
Definition shows_text (nb : Grid) (k : nat) (s : list Z) : Prop :=
  (cursor_row nb * cols nb + cursor_col nb = k + length s)%nat ∧
  ∀ i b, s !! i = Some b → ch (cells nb !!! (k + i)%nat) = b.

Lemma existsb_false {A} (f : A → bool) l : Forall (λ a, f a = false) l → existsb f l = false.
Proof. induction 1 as [|a l Ha _ IH]; [done|]. cbn. by rewrite Ha. Qed.

(** Guesses over text the server shows are all confirmed. *)
Lemma guesses_confirmed nb ps k s :
  grid_wf nb → Forall (λ q, inside nb q = true) ps → shows_text nb k s →
  p_ch <$> ps = s → pos (cols nb) <$> ps = seq k (length s) →
  Forall (λ q, confirmed nb q = true ∧ mispredicted nb q = false ∧ reached nb q = true) ps.
Proof.
  intros Hnb Hin [Hcur Hs] Hch Hpos. apply Forall_lookup. intros i q Hi.
  assert (s !! i = Some (p_ch q)) as Hb by (rewrite <- Hch, list_lookup_fmap, Hi; done).
  assert (seq k (length s) !! i = Some (pos (cols nb) q)) as Hp
    by (rewrite <- Hpos, list_lookup_fmap, Hi; done).
  apply lookup_seq in Hp as [Hp Hlt].
  pose proof (proj1 (Forall_lookup _ _) Hin _ _ Hi) as [Hrow Hcol]%inside_lt.
  assert (reached nb q = true) as Hr.
  { rewrite reached_pos by (done || apply (gw_col _ Hnb)). apply Nat.ltb_lt. lia. }
  assert (echoed nb q = true) as He.
  { unfold echoed. rewrite cell_lookup by done. fold (pos (cols nb) q). rewrite Hp.
    apply Z.eqb_eq. by apply Hs. }
  unfold confirmed, mispredicted. by rewrite Hr, He.
Qed.

Lemma overlay_no_guess p :
  grid_wf (base p) → preds p = [] → cursor p = (cursor_row (base p), cursor_col (base p)) →
  overlay p = Some (base p).
Proof.
  intros Hwf Hps Hc. unfold overlay. destruct (displaying p); [|done]. cbn [negb].
  rewrite Hps, Hc. cbn [for_each mbind option_bind fst snd].
  pose proof (gw_row _ Hwf). pose proof (gw_col _ Hwf).
  rewrite !Nat.min_l by lia. by destruct (base p).
Qed.

(** Echo round trip: text typed on a fresh prompt is guessed to appear from
    the cursor on, one cell per character; when the server's screen shows that
    text with the cursor after it, every guess is confirmed: none is left, the
    echo is trusted, and the user sees exactly the server's screen. *)
Theorem echo_is_confirmed p s nb :
  pred_wf p → preds p = [] → (1 ≤ length s)%nat → forallb printable s = true →
  (cursor_pos p + length s < rows (base p) * cols (base p))%nat →
  grid_wf nb → rows nb = rows (base p) → cols nb = cols (base p) →
  shows_text nb (cursor_pos p) s →
  let typed := predict_input p s in
  p_ch <$> preds typed = s ∧
  pos (cols (base p)) <$> preds typed = seq (cursor_pos p) (length s) ∧
  preds (reconcile typed nb) = [] ∧
  confirmed_echo (reconcile typed nb) = true ∧ glitch (reconcile typed nb) = false ∧
  overlay (reconcile typed nb) = Some nb.
Proof.
  intros Hp Hps Hlen Hs Hroom Hnb Hrows Hcols Hshow typed.
  destruct (predict_input_printable s p Hp Hs Hroom) as (l & Hl & Hch & Hpos & Hbase & _).
  fold typed in Hl, Hbase. rewrite Hps in Hl. cbn [app] in Hl. rewrite Hl.
  split; [done|]. split; [done|].
  pose proof (predict_input_wf s p Hp) as Htyped. fold typed in Htyped.
  assert (Forall (λ q, inside nb q = true) l) as Hin.
  { pose proof (pw_preds _ Htyped) as Hf. rewrite Hl, Hbase in Hf.
    eapply Forall_impl; [exact Hf|]. intros q [Hq _]. unfold inside in *. by rewrite Hrows, Hcols. }
  rewrite <- Hcols in Hpos.
  pose proof (guesses_confirmed nb l _ s Hnb Hin Hshow Hch Hpos) as Hall.
  assert (existsb (mispredicted nb) l = false) as Hmis
    by (apply existsb_false; eapply Forall_impl; [exact Hall|]; by intros q (_ & ? & _)).
  assert (existsb (confirmed nb) l = true) as Hconf.
  { apply existsb_exists. destruct l as [|q l]; [subst s; cbn in Hlen; lia|]. exists q.
    split; [by left|]. by apply Forall_cons_1 in Hall as [(? & _ & _) _]. }
  assert (filter (λ q, reached nb q = false) l = []) as Hkept.
  { destruct (filter _ l) as [|q k] eqn:Hf; [done|].
    assert (q ∈ filter (λ q, reached nb q = false) l) as [Hq Hq']%list_elem_of_filter
      by (rewrite Hf; by left).
    destruct (proj1 (Forall_forall _ _) Hall q Hq') as (_ & _ & Hr). congruence. }
  assert (reconcile typed nb = mkPredictor nb [] (cursor_row nb, cursor_col nb) (mode typed)
    true false) as ->.
  { unfold reconcile. rewrite judge_spec, Hl, Hmis, Hconf. cbn [orb app]. by rewrite Hkept. }
  split_and!; try done. by apply overlay_no_guess.
Qed.

(** Misprediction: when the server's cursor has passed a guess and its screen
    shows another character there, every guess is dropped, the user sees exactly
    the server's screen, and in adaptive mode guesses are hidden. *)
Theorem misprediction_abandons p nb q :
  grid_wf nb → q ∈ preds p → mispredicted nb q = true →
  let p' := reconcile p nb in
  preds p' = [] ∧ overlay p' = Some nb ∧ (mode p = Adaptive → displaying p' = false).
Proof.
  intros Hnb Hq Hm p'.
  assert (p' = mkPredictor nb [] (cursor_row nb, cursor_col nb) (mode p) (confirmed_echo p) true)
    as ->.
  { unfold p', reconcile. rewrite judge_spec. replace (existsb (mispredicted nb) (preds p)) with true;
      [done|]. symmetry. apply existsb_exists. exists q. by rewrite <- list_elem_of_In. }
  split; [done|]. split; [by apply overlay_no_guess|].
  intros Ha. unfold displaying. cbn. rewrite Ha. apply andb_false_r.
Qed.

(** Guesses never stack: while the screen keeps its size, the outstanding
    guesses occupy consecutive cells, in typing order, that end just before the
    predicted cursor. *)
Theorem guesses_trail_cursor g ops :
  grid_wf g →
  Forall (λ o, op_wf o ∧ match o with Reconcile g' => rows g' = rows g ∧ cols g' = cols g
                         | _ => True end) ops →
  let p := foldl predictor_step (predictor_new g) ops in
  ∃ start, pos (cols g) <$> preds p = seq start (outstanding p) ∧
    (start + outstanding p)%nat = cursor_pos p.
Proof.
  intros Hg Hops p.
  assert (∀ ops p, pred_wf p → trails p → rows (base p) = rows g → cols (base p) = cols g →
    Forall (λ o, op_wf o ∧ match o with Reconcile g' => rows g' = rows g ∧ cols g' = cols g
                         | _ => True end) ops →
    let p' := foldl predictor_step p ops in trails p' ∧ cols (base p') = cols g) as Hrun.
  { clear. induction ops as [|o ops IH]; intros p Hp Ht Hr Hc Ho; [done|].
    apply Forall_cons_1 in Ho as [[Hwf Hd] Ho]. cbn [foldl].
    apply IH; [..|done]; destruct o; cbn [predictor_step].
    - by apply predict_input_wf.
    - by apply reconcile_wf.
    - by destruct Hp.
    - by apply predict_input_trails.
    - destruct Hd. apply reconcile_trails; [done..|congruence|congruence|done].
    - done.
    - by rewrite predict_input_base.
    - unfold reconcile. rewrite judge_spec. apply Hd.
    - done.
    - by rewrite predict_input_base.
    - unfold reconcile. rewrite judge_spec. apply Hd.
    - done. }
  destruct (Hrun ops (predictor_new g)) as [Ht Hc]; [by apply predictor_new_wf|by apply trails_nil|done..|].
  unfold trails in Ht. fold p in Ht, Hc. by rewrite Hc in Ht.
Qed.

(** What a screen says about the guesses: [Some false] for a misprediction,
    [Some true] for an echo, [None] for neither. *)
Definition verdict (p : Predictor) (nb : Grid) : option bool :=
  if existsb (mispredicted nb) (preds p) then Some false
  else if existsb (confirmed nb) (preds p) then Some true else None.

Fixpoint verdicts (p : Predictor) (ops : list predictor_op) : list bool :=
  match ops with
  | [] => []
  | o :: ops =>
    match o with
    | Reconcile g => match verdict p g with Some v => [v] | None => [] end
    | _ => []
    end ++ verdicts (predictor_step p o) ops
  end.

(** The trust flags record the last verdict. *)
Definition trust (p : Predictor) : bool := confirmed_echo p && negb (glitch p).

Lemma predict_byte_trust p b : trust (predict_byte p b) = trust p.
Proof.
  unfold predict_byte, predict_printable, predict_backspace, advance_cursor, abandon, trust.
  destruct p as [g ps [row col] m ce gl]. cbn [cursor preds base set_preds].
  destruct ps; repeat case_match; simplify_eq; done.
Qed.

Lemma predict_input_trust bytes : ∀ p, trust (predict_input p bytes) = trust p.
Proof.
  induction bytes as [|b bytes IH]; intros p; [done|]. cbn. fold (predict_input (predict_byte p b) bytes).
  by rewrite IH, predict_byte_trust.
Qed.

Lemma reconcile_trust p nb : trust (reconcile p nb) = default (trust p) (verdict p nb).
Proof.
  unfold reconcile, verdict, trust. rewrite judge_spec. cbn [orb].
  destruct (existsb (mispredicted nb) _); cbn; [apply andb_false_r|].
  by destruct (existsb (confirmed nb) _).
Qed.

Lemma run_trust ops : ∀ p,
  trust (foldl predictor_step p ops) = default (trust p) (last (verdicts p ops)).
Proof.
  induction ops as [|o ops IH]; intros p; [done|]. cbn [foldl verdicts]. rewrite IH, last_app.
  destruct (last (verdicts _ ops)) as [v|]; [done|].
  destruct o as [bytes|nb|m]; cbn [predictor_step default].
  - apply predict_input_trust.
  - rewrite reconcile_trust. by destruct (verdict p nb).
  - done.
Qed.

(** Adaptive display: whatever was typed and received, guesses are shown
    exactly when the last screen that decided about a guess confirmed it; so a
    prompt that never echoes (a password) never shows one. *)
Theorem adaptive_follows_last_verdict g ops :
  let p := foldl predictor_step (predictor_new g) ops in
  mode p = Adaptive →
  displaying p = default false (last (verdicts (predictor_new g) ops)) ∧
  (displaying p = false → overlay p = Some (base p)).
Proof.
  intros p Ha. split; [|unfold overlay; by intros ->].
  pose proof (run_trust ops (predictor_new g)) as Ht. fold p in Ht.
  unfold displaying. by rewrite Ha.
Qed.

(** A shrinking resize clamps the predicted cursor onto a kept guess, and the
    next one is stacked on the same cell. *)
Lemma resize_stacks_guesses :
  let p := predict_input (predictor_new (grid_new 2 8)) [97; 98; 99] in
  let p := predict_input (reconcile p (grid_new 2 3)) [100] in
  preds p = [mkPrediction 0 0 97; mkPrediction 0 1 98; mkPrediction 0 2 99; mkPrediction 0 2 100].
Proof. reflexivity. Qed.

(** ** Witnesses *)

(** A prompt of two characters, and the screen after the echo of ["ls"]. *)
Definition sample_prompt : Grid :=
  move_to 0 2 (set_cells (<[0%nat := with_ch 36 blank]> (replicate 20 blank)) (grid_new 2 10)).
Definition sample_echoed : Grid :=
  move_to 0 4 (set_cells (<[2%nat := with_ch 108 blank]> (<[3%nat := with_ch 115 blank]>
    (cells sample_prompt))) sample_prompt).

Lemma sample_cell_wf c : printable c = true → cell_wf (with_ch c blank).
Proof. intros. apply with_ch_wf; [by apply printable_char|apply blank_wf]. Qed.

Lemma sample_prompt_wf : grid_wf sample_prompt.
Proof.
  apply move_to_wf, set_cells_wf; [apply grid_new_wf|]. split; [reflexivity|].
  apply Forall_insert; [apply Forall_replicate, blank_wf|by apply sample_cell_wf].
Qed.

Lemma sample_echoed_wf : grid_wf sample_echoed.
Proof.
  pose proof sample_prompt_wf as Hwf. apply move_to_wf, set_cells_wf; [exact Hwf|].
  destruct (gw_cells _ Hwf) as [_ Hf]. split; [reflexivity|].
  apply Forall_insert; [|by apply sample_cell_wf]. apply Forall_insert; [exact Hf|by apply sample_cell_wf].
Qed.

Definition sample_ops : list predictor_op :=
  [TypeBytes [108; 115]; Reconcile sample_echoed; TypeBytes [32; 45]].

Lemma sample_ops_wf : Forall op_wf sample_ops.
Proof.
  apply Forall_cons_2; [exact I|]. apply Forall_cons_2; [exact sample_echoed_wf|].
  apply Forall_cons_2; [exact I|apply Forall_nil_2].
Qed.

Lemma overlay_paints_guesses_witness :
  ∃ o, overlay (foldl predictor_step (predictor_new sample_prompt) sample_ops) = Some o ∧
    cell o 0 5 = predicted_cell 45 ∧ cell o 0 3 = with_ch 115 blank.
Proof.
  destruct (overlay_paints_guesses sample_prompt sample_ops sample_prompt_wf sample_ops_wf)
    as (o & Ho & _ & Hr & Hc & Hcells).
  exists o. split; [exact Ho|].
  split; rewrite Hcells; try reflexivity; rewrite ?Hr, ?Hc; vm_compute; lia.
Defined.

Lemma echo_is_confirmed_witness :
  overlay (reconcile (predict_input (predictor_new sample_prompt) [108; 115]) sample_echoed) =
    Some sample_echoed.
Proof.
  refine (proj2 (proj2 (proj2 (proj2 (proj2
    (echo_is_confirmed (predictor_new sample_prompt) [108; 115] sample_echoed
      (predictor_new_wf _ sample_prompt_wf) eq_refl _ eq_refl _ sample_echoed_wf eq_refl eq_refl _)))))).
  - cbn. lia.
  - vm_compute. lia.
  - split; [reflexivity|]. intros [|[|i]] b Hb; vm_compute in Hb; simplify_eq; reflexivity.
Defined.

Lemma misprediction_abandons_witness :
  overlay (reconcile (predict_input (predictor_new sample_prompt) [120]) sample_echoed) =
    Some sample_echoed.
Proof.
  refine (proj1 (proj2 (misprediction_abandons (predict_input (predictor_new sample_prompt) [120])
    sample_echoed (mkPrediction 0 2 120) sample_echoed_wf _ eq_refl))).
  apply list_elem_of_singleton. reflexivity.
Defined.

Lemma guesses_trail_cursor_witness :
  ∃ start, pos 10 <$> preds (foldl predictor_step (predictor_new sample_prompt) sample_ops) =
    seq start 2.
Proof.
  destruct (guesses_trail_cursor sample_prompt sample_ops sample_prompt_wf) as (start & Hs & _).
  - apply Forall_cons_2; [done|]. apply Forall_cons_2; [split; [exact sample_echoed_wf|done]|].
    apply Forall_cons_2; [done|apply Forall_nil_2].
  - exists start. exact Hs.
Defined.

Lemma adaptive_follows_last_verdict_witness :
  displaying (foldl predictor_step (predictor_new sample_prompt) sample_ops) = true.
Proof.
  rewrite (proj1 (adaptive_follows_last_verdict sample_prompt sample_ops eq_refl)). reflexivity.
Defined.
