(* ===== verification/Shell.v ===== *)
(** * The interactive shell's data plane ([crates/proto/src/shell.rs])

    The server's authoritative screen with its diff history, the client's
    screen with prediction and input, and the two connected by a network that
    loses, duplicates and reorders frames. *)

From stdpp Require Import gmap.
From S2P Require Import Prelude Wire Input Cell Grid GridOps Diff Predict.

Section shell.
Context (char_width : Z → nat) {V : Vte}.

(** ** The server *)

(** @ crates/proto/src/shell.rs:19-27 ServerShell *)
Record ServerShell := mkServerShell {
  term : Terminal;
  seq : Z;
  acked_seq : Z;
  history : gmap Z Grid;
  last_sent : Grid;
  input_rx : InputReceiver;
  force_full : bool;
}.

Definition set_term (v : Terminal) (s : ServerShell) : ServerShell :=
  mkServerShell v (seq s) (acked_seq s) (history s) (last_sent s) (input_rx s) (force_full s).
Definition set_acked (a : Z) (h : gmap Z Grid) (s : ServerShell) : ServerShell :=
  mkServerShell (term s) (seq s) a h (last_sent s) (input_rx s) (force_full s).
Definition set_input_rx (v : InputReceiver) (s : ServerShell) : ServerShell :=
  mkServerShell (term s) (seq s) (acked_seq s) (history s) (last_sent s) v (force_full s).
Definition set_force_full (v : bool) (s : ServerShell) : ServerShell :=
  mkServerShell (term s) (seq s) (acked_seq s) (history s) (last_sent s) (input_rx s) v.

(** @ crates/proto/src/shell.rs:30-43 ServerShell::new *)
Definition server_new (rows cols : nat) : ServerShell :=
  let blank := grid_new rows cols in
  {| term := terminal_new rows cols; seq := 0; acked_seq := 0; history := {[0 := blank]};
     last_sent := blank; input_rx := receiver_new; force_full := false |}.

(** @ crates/proto/src/shell.rs:49-58 ServerShell::rebind_to_new_client *)
Definition rebind_to_new_client (s : ServerShell) : ServerShell :=
  let blank := grid_new (rows (screen (term s))) (cols (screen (term s))) in
  {| term := term s; seq := seq s; acked_seq := 0; history := {[0 := blank]};
     last_sent := blank; input_rx := receiver_new; force_full := true |}.

(** @ crates/proto/src/shell.rs:61-63 ServerShell::feed_output *)
Definition feed_output (s : ServerShell) (bytes : list Z) : option ServerShell :=
  t ← advance char_width (term s) bytes; Some (set_term t s).

(** @ crates/proto/src/shell.rs:69-71 ServerShell::take_responses *)
Definition shell_take_responses (s : ServerShell) : list Z * ServerShell :=
  let '(r, t) := terminal_take_responses (term s) in (r, set_term t s).

(** @ crates/proto/src/shell.rs:73-75 ServerShell::resize *)
Definition shell_resize (s : ServerShell) (rows cols : nat) : option ServerShell :=
  t ← terminal_resize (term s) rows cols; Some (set_term t s).

(** @ crates/proto/src/shell.rs:77-79 ServerShell::screen *)
Definition server_screen (s : ServerShell) : Grid := screen (term s).

(** @ crates/proto/src/shell.rs:82-88 ServerShell::on_state_ack *)
Definition on_state_ack (s : ServerShell) (q : Z) : ServerShell :=
  if (acked_seq s <? q) && bool_decide (is_Some (history s !! q))
  then set_acked q (filter (λ '(k, _), q ≤ k) (history s)) s
  else s.

(** @ crates/proto/src/shell.rs:92-100 ServerShell::ingest_input *)
Definition ingest_input_checked (s : ServerShell) (offset : Z) (data : list Z) :
    option (list Z * Frame * ServerShell) :=
  '(fresh, rx) ← ingest_checked (input_rx s) offset data;
  Some (fresh, Ack (ack rx), set_input_rx rx s).

(** The same, since a decoded offset is not negative ([ingest_calm]).
    @ crates/proto/src/shell.rs:92-100 ServerShell::ingest_input *)
Definition ingest_input (s : ServerShell) (offset : Z) (data : list Z) :
    list Z * Frame * ServerShell :=
  let '(fresh, rx) := ingest (input_rx s) offset data in
  (fresh, Ack (ack rx), set_input_rx rx s).

(** Take a new numbered snapshot of a changed screen.
    @ crates/proto/src/shell.rs:105-110 ServerShell::poll_diff *)
Definition snapshot (s : ServerShell) : ServerShell :=
  let current := screen (term s) in
  if render_eq current (last_sent s) then s
  else
    let q := as_u64 (seq s + 1) in
    mkServerShell (term s) q (acked_seq s) (<[q := current]> (history s)) current (input_rx s)
      (force_full s).

(** @ crates/proto/src/shell.rs:104-131 ServerShell::poll_diff *)
Definition poll_diff_checked (s : ServerShell) : option (option Frame * ServerShell) :=
  let s := snapshot s in
  if seq s =? acked_seq s then Some (None, s)
  else if force_full s then
    diff ← encode_diff_checked None (last_sent s);
    Some (Some (StateDiff (seq s) 0 diff), set_force_full false s)
  else
    diff ← encode_diff_checked (history s !! acked_seq s) (last_sent s);
    Some (Some (StateDiff (seq s) (acked_seq s) diff), s).

(** The same, where the snapshots are well formed ([poll_diff_calm]).
    @ crates/proto/src/shell.rs:104-131 ServerShell::poll_diff *)
Definition poll_diff (s : ServerShell) : option Frame * ServerShell :=
  let s := snapshot s in
  if seq s =? acked_seq s then (None, s)
  else if force_full s then
    (Some (StateDiff (seq s) 0 (encode_diff None (last_sent s))), set_force_full false s)
  else
    (Some (StateDiff (seq s) (acked_seq s)
       (encode_diff (history s !! acked_seq s) (last_sent s))), s).

(** ** The client *)

(** @ crates/proto/src/shell.rs:135-140 ClientShell *)
Record ClientShell := mkClientShell {
  c_grid : Grid;
  current_seq : Z;
  input_tx : InputSender;
  predictor : Predictor;
}.

(** @ crates/proto/src/shell.rs:143-151 ClientShell::new *)
Definition client_new (rows cols : nat) : ClientShell :=
  let g := grid_new rows cols in
  {| c_grid := g; current_seq := 0; input_tx := sender_new; predictor := predictor_new g |}.

(** @ crates/proto/src/shell.rs:153-156 ClientShell::with_prediction *)
Definition with_prediction (m : DisplayMode) (c : ClientShell) : ClientShell :=
  mkClientShell (c_grid c) (current_seq c) (input_tx c) (set_mode m (predictor c)).

(** @ crates/proto/src/shell.rs:159-162 ClientShell::type_input *)
Definition type_input (c : ClientShell) (bytes : list Z) : ClientShell :=
  mkClientShell (c_grid c) (current_seq c) (push (input_tx c) bytes)
    (predict_input (predictor c) bytes).

(** @ crates/proto/src/shell.rs:165-167 ClientShell::has_pending_input *)
Definition has_pending_input (c : ClientShell) : bool :=
  match pending (input_tx c) with Some _ => true | None => false end.

(** @ crates/proto/src/shell.rs:170-179 ClientShell::poll_frames *)
Definition poll_frames (c : ClientShell) : list Frame :=
  match pending (input_tx c) with Some input => [input] | None => [] end
  ++ [Ack (current_seq c)].

(** [apply_diff] patches the grid in place, also when it fails.
    @ crates/proto/src/shell.rs:183-193 ClientShell::apply_state_diff *)
Definition apply_state_diff (c : ClientShell) (q b : Z) (data : list Z) : bool * ClientShell :=
  let applicable := is_full data || ((b =? current_seq c) && (current_seq c <? q)) in
  if applicable then
    let '(r, g) := apply_diff (c_grid c) data in
    if is_ok r
    then (true, mkClientShell g q (input_tx c) (reconcile (predictor c) g))
    else (false, mkClientShell g (current_seq c) (input_tx c) (predictor c))
  else (false, c).

(** @ crates/proto/src/shell.rs:196-198 ClientShell::on_input_ack *)
Definition on_input_ack (c : ClientShell) (q : Z) : ClientShell :=
  mkClientShell (c_grid c) (current_seq c) (on_ack (input_tx c) q) (predictor c).

(** @ crates/proto/src/shell.rs:210-212 ClientShell::overlay *)
Definition client_overlay (c : ClientShell) : option Grid := overlay (predictor c).

(** ** The network

    Frames are kept forever once sent: a step may deliver any of them, any
    number of times, in any order. [log] remembers every snapshot by number. *)
Record net := mkNet {
  srv : ServerShell;
  cli : ClientShell;
  log : gmap Z Grid;
  diffs : list (Z * Z * list Z);   (** sent to the client: number, base, bytes *)
  state_acks : list Z;             (** sent to the server *)
  typed : list Z;                  (** everything typed *)
  delivered : list Z;              (** everything written to the pty *)
  inputs : list Frame;             (** input frames sent to the server *)
  input_acks : list Z;             (** sent to the client *)
}.

Definition net_new (rows cols : nat) : net :=
  {| srv := server_new rows cols; cli := client_new rows cols; log := {[0 := grid_new rows cols]};
     diffs := []; state_acks := []; typed := []; delivered := []; inputs := []; input_acks := [] |}.

Definition set_srv (v : ServerShell) (n : net) : net :=
  mkNet v (cli n) (log n) (diffs n) (state_acks n) (typed n) (delivered n) (inputs n) (input_acks n).
Definition set_cli (v : ClientShell) (n : net) : net :=
  mkNet (srv n) v (log n) (diffs n) (state_acks n) (typed n) (delivered n) (inputs n) (input_acks n).

(** The server polls: the snapshot is logged, the frame is sent. *)
Definition server_poll (n : net) : net :=
  let '(f, s) := poll_diff (srv n) in
  mkNet s (cli n) (<[seq s := last_sent s]> (log n))
    (match f with Some (StateDiff q b data) => [(q, b, data)] | _ => [] end ++ diffs n)
    (state_acks n) (typed n) (delivered n) (inputs n) (input_acks n).

Definition is_input (f : Frame) : bool := match f with Input _ _ => true | _ => false end.
Definition ack_of (f : Frame) : option Z := match f with Ack q => Some q | _ => None end.

(** The client polls: pending input and the state ack are sent. *)
Definition client_poll (n : net) : net :=
  mkNet (srv n) (cli n) (log n) (diffs n)
    (omap ack_of (poll_frames (cli n)) ++ state_acks n)
    (typed n) (delivered n)
    (filter is_input (poll_frames (cli n)) ++ inputs n)
    (input_acks n).

Definition server_input (offset : Z) (data : list Z) (n : net) : net :=
  let '(fresh, f, s) := ingest_input (srv n) offset data in
  mkNet s (cli n) (log n) (diffs n) (state_acks n) (typed n) (delivered n ++ fresh) (inputs n)
    (match f with Ack q => [q] | _ => [] end ++ input_acks n).

Definition client_type (bytes : list Z) (n : net) : net :=
  mkNet (srv n) (type_input (cli n) bytes) (log n) (diffs n) (state_acks n) (typed n ++ bytes)
    (delivered n) (inputs n) (input_acks n).

(** [resizes] says whether the window may change. Snapshot numbers and the
    typed stream stay below 2^64, and a resize asks for a screen that may be
    sent ([MAX_CELLS]) and is two columns wide. *)
Inductive shell_step (resizes : bool) (n : net) : net → Prop :=
| step_output bytes s :
    feed_output (srv n) bytes = Some s → shell_step resizes n (set_srv s n)
| step_responses :
    shell_step resizes n (set_srv (shell_take_responses (srv n)).2 n)
| step_resize r c s :
    resizes = true → (2 ≤ c)%nat → Z.of_nat (Nat.max r 1 * c) ≤ MAX_CELLS →
    shell_resize (srv n) r c = Some s → shell_step resizes n (set_srv s n)
| step_poll :
    seq (srv n) + 1 < 2 ^ 64 → shell_step resizes n (server_poll n)
| step_diff q b data :
    (q, b, data) ∈ diffs n →
    shell_step resizes n (set_cli (apply_state_diff (cli n) q b data).2 n)
| step_client_poll : shell_step resizes n (client_poll n)
| step_state_ack q :
    q ∈ state_acks n → shell_step resizes n (set_srv (on_state_ack (srv n) q) n)
| step_input offset data :
    Input offset data ∈ inputs n → shell_step resizes n (server_input offset data n)
| step_input_ack q :
    q ∈ input_acks n → shell_step resizes n (set_cli (on_input_ack (cli n) q) n)
| step_type bytes :
    zlen (typed n ++ bytes) < 2 ^ 64 → shell_step resizes n (client_type bytes n)
| step_mode m :
    shell_step resizes n (set_cli (with_prediction m (cli n)) n).

Definition shell_reachable (resizes : bool) (R C : nat) (n : net) : Prop :=
  rtc (shell_step resizes) (net_new R C) n.

(** ** What every reachable state satisfies *)

Lemma render_eq_refl g : render_eq g g = true.
Proof. by apply render_eq_spec. Qed.

Lemma render_eq_trans g1 g2 g3 :
  render_eq g1 g2 = true → render_eq g2 g3 = true → render_eq g1 g3 = true.
Proof.
  rewrite !render_eq_spec. intros (?&?&?&?&?&?) (?&?&?&?&?&?). split_and!; congruence.
Qed.

Lemma render_eq_sym g1 g2 : render_eq g1 g2 = true → render_eq g2 g1 = true.
Proof. rewrite !render_eq_spec. intros (?&?&?&?&?&?). split_and!; congruence. Qed.

Definition screen_ok (g : Grid) : Prop := grid_wf g ∧ (2 ≤ cols g)%nat ∧ sendable g.

Record sync_inv (n : net) : Prop := {
  si_screen : screen_ok (server_screen (srv n));
  si_seq : 0 ≤ acked_seq (srv n) ≤ seq (srv n) ∧ seq (srv n) < 2 ^ 64;
  si_log k g : log n !! k = Some g → 0 ≤ k ≤ seq (srv n) ∧ grid_wf g ∧ sendable g;
  si_history k :
    history (srv n) !! k = if decide (acked_seq (srv n) ≤ k) then log n !! k else None;
  si_acked : is_Some (log n !! acked_seq (srv n));
  si_last : log n !! seq (srv n) = Some (last_sent (srv n));
  si_full : force_full (srv n) = false;
  si_diffs q b data :
    (q, b, data) ∈ diffs n →
    ∃ B T, log n !! b = Some B ∧ log n !! q = Some T ∧ b < q ∧ data = encode_diff (Some B) T;
  si_client : grid_wf (c_grid (cli n));
  si_current : ∃ g, log n !! current_seq (cli n) = Some g ∧ render_eq (c_grid (cli n)) g = true;
  si_pred : pred_wf (predictor (cli n)) ∧ Predict.base (predictor (cli n)) = c_grid (cli n);
}.

(** A window no larger than one that may be sent. *)
Definition window_ok (r c : nat) : Prop :=
  (2 ≤ c)%nat ∧ Z.of_nat (Nat.max r 1 * c) ≤ MAX_CELLS.

Lemma grid_new_ok r c : window_ok r c → screen_ok (grid_new r c).
Proof.
  intros [Hc Hs]. split_and!; [apply grid_new_wf|cbn -[Nat.max]; lia|].
  unfold sendable. cbn [rows cols grid_new]. by replace (Nat.max c 1) with c by lia.
Qed.

Lemma sync_inv_new R C : window_ok R C → sync_inv (net_new R C).
Proof.
  intros Hok. pose proof (grid_new_ok R C Hok) as Hg. pose proof Hg as (Hwf & _ & Hs).
  split; cbn [srv cli log diffs net_new server_new client_new seq acked_seq history last_sent
    force_full c_grid current_seq predictor].
  - done.
  - lia.
  - intros k g [<- <-]%lookup_singleton_Some. split_and!; [lia|lia|done|done].
  - intros k. case_decide; [done|]. rewrite lookup_singleton_ne by lia. done.
  - rewrite lookup_singleton_eq. by eexists.
  - by rewrite lookup_singleton_eq.
  - done.
  - intros q b data []%not_elem_of_nil.
  - done.
  - exists (grid_new R C). rewrite lookup_singleton_eq. split; [done|apply render_eq_refl].
  - split; [by apply predictor_new_wf|done].
Qed.

(** A new terminal state changes nothing else. *)
Lemma set_term_inv t n :
  sync_inv n → screen_ok (screen t) → sync_inv (set_srv (set_term t (srv n)) n).
Proof. intros [] Ht. by split. Qed.

(** *** Freedom from panics: the snapshots that are compared are well formed *)

Definition snapshots_ok (s : ServerShell) : Prop :=
  grid_wf (last_sent s) ∧ map_Forall (λ _, grid_wf) (history s).

Lemma server_new_snapshots r c : snapshots_ok (server_new r c).
Proof.
  split; [apply grid_new_wf|]. cbn. intros k g [_ <-]%lookup_singleton_Some. apply grid_new_wf.
Qed.

Lemma rebind_snapshots s : snapshots_ok (rebind_to_new_client s).
Proof.
  split; [apply grid_new_wf|]. cbn. intros k g [_ <-]%lookup_singleton_Some. apply grid_new_wf.
Qed.

Lemma on_state_ack_snapshots s q : snapshots_ok s → snapshots_ok (on_state_ack s q).
Proof.
  intros [Hl Hh]. unfold on_state_ack. destruct (_ && _); [|done]. split; [done|].
  intros k g [Hg _]%map_lookup_filter_Some. by eapply Hh.
Qed.

Lemma snapshot_snapshots s : grid_wf (screen (term s)) → snapshots_ok s → snapshots_ok (snapshot s).
Proof.
  intros Hs [Hl Hh]. unfold snapshot. destruct (render_eq _ _); [done|]. split; [done|].
  by apply map_Forall_insert_2.
Qed.

Lemma poll_diff_snapshots s :
  grid_wf (screen (term s)) → snapshots_ok s → snapshots_ok (poll_diff s).2.
Proof.
  intros Ht Hs. pose proof (snapshot_snapshots s Ht Hs) as H. unfold poll_diff.
  destruct (_ =? _); [done|]. by destruct (force_full _).
Qed.

Lemma poll_diff_calm s :
  grid_wf (screen (term s)) → snapshots_ok s → poll_diff_checked s = Some (poll_diff s).
Proof.
  intros Ht Hs. destruct (snapshot_snapshots s Ht Hs) as [Hl Hh].
  unfold poll_diff_checked, poll_diff. destruct (_ =? _); [done|].
  destruct (force_full _); rewrite encode_diff_calm; try done. intros b Hb. by eapply Hh.
Qed.

Lemma ingest_input_calm s offset data :
  0 ≤ offset → ingest_input_checked s offset data = Some (ingest_input s offset data).
Proof.
  intros Ho. unfold ingest_input_checked, ingest_input. rewrite ingest_calm by done.
  by destruct (ingest _ _ _).
Qed.

Lemma ingest_input_agrees s offset data r :
  ingest_input_checked s offset data = Some r → ingest_input s offset data = r.
Proof.
  unfold ingest_input_checked, ingest_input, ingest.
  destruct (ingest_checked _ _ _) as [[fresh rx]|]; [|done]. by intros [= <-].
Qed.

Lemma encode_diff_agrees base target bytes :
  encode_diff_checked base target = Some bytes → encode_diff base target = bytes.
Proof.
  unfold encode_diff_checked, encode_diff. destruct base as [b|]; [|exact (inj Some _ _)].
  destruct (_ && _); [|exact (inj Some _ _)].
  assert (∀ ks r, changes_checked b target ks = Some r →
    filter (λ i, cells target !!! i ≠ cells b !!! i) ks = r) as H.
  { induction ks as [|k ks IH]; intros r; cbn [changes_checked]; [by intros [= <-]|].
    destruct (cells target !! k) as [x|] eqn:Hx; [|done].
    destruct (cells b !! k) as [y|] eqn:Hy; [|done]. cbn [mbind option_bind].
    destruct (changes_checked b target ks) as [r'|]; [|done]. cbn [mbind option_bind].
    intros [= <-]. rewrite filter_cons, (IH r') by done.
    rewrite (list_lookup_total_correct _ _ _ Hx), (list_lookup_total_correct _ _ _ Hy).
    by destruct (decide (x ≠ y)) as [Hd|Hd]; case_bool_decide. }
  destruct (changes_checked _ _ _) as [r|] eqn:Hc; [|done]. apply H in Hc.
  cbn [mbind option_bind]. unfold changes. rewrite Hc. exact (inj Some _ _).
Qed.

Lemma poll_diff_agrees s r : poll_diff_checked s = Some r → poll_diff s = r.
Proof.
  unfold poll_diff_checked, poll_diff. destruct (_ =? _); [by intros [= <-]|].
  destruct (force_full _); (destruct (encode_diff_checked _ _) as [d|] eqn:Hd; [|done]);
    apply encode_diff_agrees in Hd; rewrite Hd; by intros [= <-].
Qed.

(** The sender's diffs apply: full ones anywhere, deltas on their base. *)
Lemma apply_authentic g B T :
  grid_wf g → grid_wf B → grid_wf T → sendable T →
  is_full (encode_diff (Some B) T) = true ∨ render_eq g B = true →
  ∃ g', apply_diff g (encode_diff (Some B) T) = (Ok tt, g') ∧ render_eq g' T = true ∧ grid_wf g'.
Proof.
  intros Hg HB HT Hs H.
  destruct (decide (rows B = rows T ∧ cols B = cols T)) as [[Hr Hc]|Hd].
  - apply apply_delta; try done. destruct H as [H|H]; [|done].
    cbn [encode_diff] in H. by rewrite Hr, Hc, !Nat.eqb_refl in H.
  - assert (encode_diff (Some B) T = encode_diff None T) as ->; [|by apply apply_full].
    cbn [encode_diff]. destruct (Nat.eqb_spec (rows B) (rows T)), (Nat.eqb_spec (cols B) (cols T));
      try done. by destruct Hd.
Qed.

(** Receiving a frame that was sent: it is ignored, or it moves the client to
    the screen of its number. *)
Lemma apply_state_diff_spec n q b data :
  sync_inv n → (q, b, data) ∈ diffs n →
  (apply_state_diff (cli n) q b data = (false, cli n) ∧
   ¬ (b = current_seq (cli n) ∧ current_seq (cli n) < q)) ∨
  ∃ g T, apply_state_diff (cli n) q b data =
      (true, mkClientShell g q (input_tx (cli n)) (reconcile (predictor (cli n)) g)) ∧
    grid_wf g ∧ log n !! q = Some T ∧ render_eq g T = true ∧
    (is_full data = false → current_seq (cli n) < q).
Proof.
  intros Hn Hin. destruct (si_diffs _ Hn _ _ _ Hin) as (B & T & HB & HT & Hlt & ->).
  unfold apply_state_diff. destruct (is_full _ || _) eqn:Happ.
  2:{ left. split; [done|]. intros [-> Hq%Z.ltb_lt]. apply orb_false_iff in Happ as [_ Happ].
      by rewrite Z.eqb_refl, Hq in Happ. }
  right.
  destruct (si_log _ Hn _ _ HB) as (_ & HBwf & _). destruct (si_log _ Hn _ _ HT) as (_ & HTwf & HTs).
  destruct (apply_authentic (c_grid (cli n)) B T) as (g & -> & Hg & Hwf).
  - apply (si_client _ Hn).
  - done.
  - done.
  - done.
  - apply orb_true_iff in Happ as [?|[->%Z.eqb_eq _]%andb_true_iff]; [by left|right].
    destruct (si_current _ Hn) as (g & Hg & Hr). congruence.
  - exists g, T. split_and!; [done..|]. intros Hfull. rewrite Hfull in Happ. cbn [orb] in Happ.
    apply andb_true_iff in Happ as [_ ?%Z.ltb_lt]. done.
Qed.

Lemma step_diff_inv n q b data :
  sync_inv n → (q, b, data) ∈ diffs n →
  sync_inv (set_cli (apply_state_diff (cli n) q b data).2 n).
Proof.
  intros Hn Hin. destruct (apply_state_diff_spec n q b data Hn Hin) as [[-> _]|(g & T & -> & Hg & HT & Hr & _)].
  - by destruct Hn.
  - destruct Hn as [????????? _ [Hp _]]. split; try done; cbn [snd cli set_cli c_grid current_seq predictor].
    + by exists T.
    + split; [by apply reconcile_wf|]. unfold reconcile. by rewrite judge_spec.
Qed.

Lemma step_state_ack_inv n q : sync_inv n → sync_inv (set_srv (on_state_ack (srv n) q) n).
Proof.
  intros Hn. unfold on_state_ack. destruct (_ && _) eqn:Hq; [|by destruct Hn].
  apply andb_true_iff in Hq as [Hlt%Z.ltb_lt [g Hg]%bool_decide_eq_true].
  rewrite (si_history _ Hn) in Hg. rewrite decide_True in Hg by lia.
  pose proof (si_log _ Hn _ _ Hg) as [Hq _].
  split; cbn [srv set_srv set_acked seq acked_seq history last_sent force_full log diffs cli];
    try by destruct Hn.
  - pose proof (si_seq _ Hn). lia.
  - intros k. rewrite map_lookup_filter, (si_history _ Hn).
    destruct (decide (acked_seq (srv n) ≤ k)).
    + destruct (log n !! k) as [g'|]; cbn [mbind option_bind];
        repeat (case_guard || case_decide); try done; lia.
    + rewrite decide_False by lia. done.
Qed.

(** The snapshot, with what its number stands for. *)
Lemma snapshot_spec n :
  sync_inv n → seq (srv n) + 1 < 2 ^ 64 →
  let s := snapshot (srv n) in
  let log' := <[seq s := last_sent s]> (log n) in
  term s = term (srv n) ∧ acked_seq s = acked_seq (srv n) ∧ force_full s = false ∧
  input_rx s = input_rx (srv n) ∧
  seq (srv n) ≤ seq s ≤ seq (srv n) + 1 ∧
  render_eq (last_sent s) (screen (term s)) = true ∧
  (∀ k g, log n !! k = Some g → log' !! k = Some g) ∧
  (∀ k, log' !! k = if decide (k = seq s) then Some (last_sent s) else log n !! k) ∧
  (∀ k, history s !! k = if decide (acked_seq s ≤ k) then log' !! k else None) ∧
  (last_sent s = last_sent (srv n) ∨ last_sent s = server_screen (srv n)).
Proof.
  intros Hn Hseq s log'. pose proof (si_seq _ Hn) as [Ha _].
  assert (∀ k, log' !! k = if decide (k = seq s) then Some (last_sent s) else log n !! k) as Hl.
  { intros k. unfold log'. case_decide; [subst; by rewrite lookup_insert_eq|].
    by rewrite lookup_insert_ne. }
  unfold snapshot in s. destruct (render_eq (screen (term (srv n))) (last_sent (srv n))) eqn:Hr.
  - assert (log' = log n) as Heq.
    { apply map_eq. intros k. rewrite Hl. case_decide; [|done]. subst. symmetry.
      apply (si_last _ Hn). }
    unfold s in *. split_and!; try done; try lia.
    + apply (si_full _ Hn).
    + by apply render_eq_sym.
    + by rewrite Heq.
    + rewrite Heq. apply (si_history _ Hn).
    + by left.
  - subst s. rewrite as_u64_id in * by (unfold is_u64; lia).
    cbn [seq term acked_seq force_full last_sent history input_rx] in *.
    split_and!; try done; try lia.
    + apply (si_full _ Hn).
    + apply render_eq_refl.
    + intros k g Hk. rewrite Hl. pose proof (si_log _ Hn _ _ Hk). by rewrite decide_False by lia.
    + intros k. rewrite Hl. destruct (decide (k = seq (srv n) + 1)) as [->|Hk].
      * rewrite lookup_insert_eq. by rewrite decide_True by lia.
      * rewrite lookup_insert_ne by done. apply (si_history _ Hn).
    + by right.
Qed.

(** What a poll sends, and to what number. *)
Lemma poll_diff_spec s :
  force_full s = false →
  poll_diff s =
    (if seq (snapshot s) =? acked_seq s then None
     else Some (StateDiff (seq (snapshot s)) (acked_seq s)
       (encode_diff (history (snapshot s) !! acked_seq s) (last_sent (snapshot s)))), snapshot s).
Proof.
  intros Hf. unfold poll_diff.
  assert (acked_seq (snapshot s) = acked_seq s ∧ force_full (snapshot s) = false) as [-> ->].
  { unfold snapshot. destruct (render_eq _ _); done. }
  by destruct (_ =? _).
Qed.

Lemma step_poll_inv n :
  sync_inv n → seq (srv n) + 1 < 2 ^ 64 → sync_inv (server_poll n).
Proof.
  intros Hn Hseq. unfold server_poll. rewrite (poll_diff_spec _ (si_full _ Hn)).
  destruct (snapshot_spec n Hn Hseq) as (Ht & Ha & Hf & _ & Hs & Hr & Hmono & Hl & Hh & Hlast).
  set (s := snapshot (srv n)) in *. set (log' := <[seq s := last_sent s]> (log n)) in *.
  destruct (si_acked _ Hn) as [B HB]. pose proof (si_seq _ Hn) as [Haq _].
  assert (grid_wf (last_sent s) ∧ sendable (last_sent s)) as [Hlwf Hlsend].
  { destruct Hlast as [->| ->]; [apply (si_log _ Hn _ _ (si_last _ Hn))|].
    destruct (si_screen _ Hn) as (? & _ & ?). done. }
  split; cbn [srv cli log diffs].
  - unfold server_screen. rewrite Ht. apply (si_screen _ Hn).
  - rewrite Ha. lia.
  - intros k g. rewrite Hl. case_decide; [intros [= <-]; subst; split_and!; [lia|lia|done|done]|].
    intros Hk. destruct (si_log _ Hn _ _ Hk) as (? & ? & ?). split_and!; [lia|lia|done|done].
  - done.
  - rewrite Ha. exists B. by apply Hmono.
  - by rewrite Hl, decide_True.
  - done.
  - intros q b data Hin. apply elem_of_app in Hin as [Hin|Hin].
    + destruct (Z.eqb_spec (seq s) (acked_seq (srv n))); [by apply not_elem_of_nil in Hin|].
      apply list_elem_of_singleton in Hin as [= -> -> ->].
      exists B, (last_sent s). rewrite Hh, Ha, decide_True by lia.
      rewrite (Hmono _ _ HB), Hl, decide_True by done. split_and!; [done|done|lia|done].
    + destruct (si_diffs _ Hn _ _ _ Hin) as (B' & T & ? & ? & ? & ?).
      exists B', T. split_and!; [by apply Hmono|by apply Hmono|done|done].
  - apply (si_client _ Hn).
  - destruct (si_current _ Hn) as (g & Hg & ?). exists g. split; [by apply Hmono|done].
  - apply (si_pred _ Hn).
Qed.

Context (Hwidth : ∀ c, (char_width c ≤ 2)%nat).
Context (Hparse : ∀ p bytes, Forall action_wf (parse p bytes).1).

Lemma sync_inv_step b n n' : sync_inv n → shell_step b n n' → sync_inv n'.
Proof.
  intros Hn Hstep. pose proof (si_screen _ Hn) as (Hwf & Hc & Hs).
  unfold server_screen, screen in Hwf, Hc, Hs.
  destruct Hstep as [bytes s Hfeed| |r c s _ Hc' Hrc Hres|Hseq|q b' data Hin| |q Hq|offset data Hi|q Hq|bytes Hb|m].
  - unfold feed_output in Hfeed.
    destruct (advance_safe char_width (term (srv n)) bytes Hwidth Hparse Hwf Hc)
      as (t & Ht & Htwf & Htr & Htc). rewrite Ht in Hfeed. injection Hfeed as <-.
    apply set_term_inv; [done|]. split_and!; [done|unfold screen; lia|].
    unfold sendable, screen in *. by rewrite Htr, Htc.
  - unfold shell_take_responses. cbn [snd terminal_take_responses].
    apply set_term_inv; [done|]. split_and!; [|done|done]. by destruct Hwf.
  - unfold shell_resize, terminal_resize in Hres.
    destruct (resize_spec r c (grid (term (srv n))) Hwf) as (g & Hg & Hgwf & Hgr & Hgc & _).
    rewrite Hg in Hres. cbn in Hres. injection Hres as <-.
    apply set_term_inv; [done|]. unfold screen. cbn [grid]. split_and!; [done|lia|].
    unfold sendable. rewrite Hgr, Hgc. by replace (Nat.max c 1) with c by lia.
  - by apply step_poll_inv.
  - by apply step_diff_inv.
  - by destruct Hn.
  - by apply step_state_ack_inv.
  - unfold server_input, ingest_input. destruct (ingest _ _ _) as [fresh rx]. by destruct Hn.
  - by destruct Hn.
  - destruct Hn as [?????????? [Hp Hb']]. split; try done; cbn.
    split; [by apply predict_input_wf|]. by rewrite predict_input_base.
  - destruct Hn as [?????????? [[] ?]]. by split.
Qed.

Lemma shell_reachable_inv b R C n : window_ok R C → shell_reachable b R C n → sync_inv n.
Proof.
  intros Hok. apply rtc_invariant; [by apply sync_inv_new|]. intros ????. by eapply sync_inv_step.
Qed.

(** ** A window that keeps its size *)

Record fixed_inv (R C : nat) (n : net) : Prop := {
  fx_screen : rows (server_screen (srv n)) = R ∧ cols (server_screen (srv n)) = C;
  fx_log k g : log n !! k = Some g → rows g = R ∧ cols g = C;
  fx_acks : Forall (λ a, a ≤ current_seq (cli n)) (state_acks n);
  fx_acked : acked_seq (srv n) ≤ current_seq (cli n);
}.

Lemma fixed_inv_new R C : fixed_inv (Nat.max R 1) (Nat.max C 1) (net_new R C).
Proof.
  split; cbn [srv cli log state_acks net_new]; try done.
  by intros k g [_ <-]%lookup_singleton_Some.
Qed.

(** No frame is a full snapshot. *)
Lemma fixed_not_full R C n q b data :
  sync_inv n → fixed_inv R C n → (q, b, data) ∈ diffs n → is_full data = false.
Proof.
  intros Hn Hf Hin. destruct (si_diffs _ Hn _ _ _ Hin) as (B & T & HB & HT & _ & ->).
  destruct (fx_log _ _ _ Hf _ _ HB) as [Hr Hc]. destruct (fx_log _ _ _ Hf _ _ HT) as [Hr' Hc'].
  cbn [encode_diff]. by rewrite Hr, Hc, Hr', Hc', !Nat.eqb_refl.
Qed.

Lemma fixed_inv_step R C n n' :
  sync_inv n → fixed_inv R C n → shell_step false n n' → fixed_inv R C n'.
Proof.
  intros Hn Hf Hstep. pose proof (si_screen _ Hn) as (Hwf & Hcols & _).
  unfold server_screen, screen in Hwf, Hcols.
  destruct Hstep as [bytes s Hfeed| |r c s ?|Hseq|q b' data Hin| |q Hq|offset data Hi|q Hq|bytes Hb|m];
    try by destruct Hf.
  - unfold feed_output in Hfeed.
    destruct (advance_safe char_width (term (srv n)) bytes Hwidth Hparse Hwf Hcols)
      as (t & Ht & _ & Htr & Htc). rewrite Ht in Hfeed. injection Hfeed as <-.
    destruct Hf as [[??] ???]. split; try done.
    unfold server_screen, screen in *. cbn in *. split; congruence.
  - unfold server_poll. rewrite (poll_diff_spec _ (si_full _ Hn)).
    destruct (snapshot_spec n Hn Hseq) as (Ht & Ha & _ & _ & _ & _ & _ & Hl & _ & Hlast).
    split; cbn [srv cli log state_acks].
    + unfold server_screen. rewrite Ht. apply (fx_screen _ _ _ Hf).
    + intros k g. rewrite Hl. case_decide; [|apply (fx_log _ _ _ Hf)]. intros [= <-].
      destruct Hlast as [->| ->]; [|apply (fx_screen _ _ _ Hf)].
      apply (fx_log _ _ _ Hf _ _ (si_last _ Hn)).
    + apply (fx_acks _ _ _ Hf).
    + rewrite Ha. apply (fx_acked _ _ _ Hf).
  - destruct (apply_state_diff_spec n q b' data Hn Hin) as [[-> _]|(g & T & -> & _ & _ & _ & Hlt)];
      [by destruct Hf|].
    specialize (Hlt (fixed_not_full R C n q b' data Hn Hf Hin)).
    destruct Hf as [? ? Hacks Hacked]. split; cbn [srv cli log state_acks set_cli snd current_seq];
      try done; [|lia]. eapply Forall_impl; [exact Hacks|]. cbn. lia.
  - destruct Hf as [? ? Hacks Hacked]. split; try done. cbn [state_acks client_poll cli].
    apply Forall_app. split; [|done]. unfold poll_frames.
    destruct (pending (input_tx (cli n))) as [f|] eqn:Hp; [apply pending_spec in Hp as ->|];
      (apply Forall_cons_2; [cbn; lia|apply Forall_nil_2]).
  - unfold on_state_ack. destruct (_ && _); [|by destruct Hf].
    destruct Hf as [? ? Hacks Hacked]. split; try done. cbn [srv cli set_srv set_acked acked_seq].
    by eapply (proj1 (Forall_forall _ _) Hacks).
  - unfold server_input, ingest_input. destruct (ingest _ _ _) as [fresh rx]. by destruct Hf.
Qed.

Lemma fixed_reachable_inv R C n :
  window_ok R C → shell_reachable false R C n →
  sync_inv n ∧ fixed_inv (Nat.max R 1) (Nat.max C 1) n.
Proof.
  intros Hok. apply (rtc_invariant (shell_step false)
    (λ n, sync_inv n ∧ fixed_inv (Nat.max R 1) (Nat.max C 1) n)).
  - split; [by apply sync_inv_new|apply fixed_inv_new].
  - intros n1 n2 [Hn Hf] Hstep. split; [by eapply sync_inv_step|by eapply fixed_inv_step].
Qed.

(** ** Properties *)

(** C4 Screen safety: however frames and acks are lost, duplicated or reordered,
    and however the window is resized, the client always shows exactly the
    snapshot the server numbered [current_seq] — never a mixture — and can paint
    its overlay; a poll numbers the server's screen, and a number never changes
    its meaning. *)
Theorem client_shows_numbered_snapshot b R C n :
  window_ok R C → shell_reachable b R C n →
  (∃ g, log n !! current_seq (cli n) = Some g ∧ render_eq (c_grid (cli n)) g = true) ∧
  (∃ o, client_overlay (cli n) = Some o ∧ rows o = rows (c_grid (cli n)) ∧
    cols o = cols (c_grid (cli n))) ∧
  (seq (srv n) + 1 < 2 ^ 64 →
    let n' := server_poll n in
    (∃ g, log n' !! seq (srv n') = Some g ∧ render_eq g (server_screen (srv n)) = true) ∧
    (∀ k g, log n !! k = Some g → log n' !! k = Some g)).
Proof.
  intros Hok Hn. pose proof (shell_reachable_inv b R C n Hok Hn) as Hi.
  split; [apply (si_current _ Hi)|]. split.
  - destruct (si_pred _ Hi) as [Hp Hb].
    destruct (overlay_spec _ Hp) as (o & Ho & _ & Hr & Hc & _). exists o. by rewrite Hr, Hc, Hb.
  - intros Hseq. unfold server_poll. rewrite (poll_diff_spec _ (si_full _ Hi)).
    destruct (snapshot_spec n Hi Hseq) as (Ht & _ & _ & _ & _ & Hr & Hmono & Hl & _).
    split; [|exact Hmono]. cbn [log srv]. exists (last_sent (snapshot (srv n))).
    split; [by rewrite Hl, decide_True|]. unfold server_screen. by rewrite <- Ht.
Qed.

(** The server polls and its frame arrives. *)
Definition poll_round (n : net) : net :=
  match fst (poll_diff (srv n)) with
  | Some (StateDiff q b data) =>
    set_cli (apply_state_diff (cli n) q b data).2 (server_poll n)
  | _ => server_poll n
  end.

(** One round trip without loss: the client's ack arrives first. *)
Definition sync_round (n : net) : net :=
  poll_round (set_srv (on_state_ack (srv n) (current_seq (cli n))) n).

(** An ack the client may send brings the server to the client's snapshot. *)
Lemma ack_current n :
  sync_inv n → acked_seq (srv n) ≤ current_seq (cli n) →
  acked_seq (on_state_ack (srv n) (current_seq (cli n))) = current_seq (cli n) ∧
  term (on_state_ack (srv n) (current_seq (cli n))) = term (srv n) ∧
  seq (on_state_ack (srv n) (current_seq (cli n))) = seq (srv n).
Proof.
  intros Hn Hle. unfold on_state_ack. destruct (si_current _ Hn) as (g & Hg & _).
  rewrite (si_history _ Hn), decide_True, Hg by done. rewrite bool_decide_eq_true_2 by by eexists.
  destruct (Z.ltb_spec (acked_seq (srv n)) (current_seq (cli n))); cbn; split_and!; try done; lia.
Qed.

(** Nothing is sent only when the last snapshot still is the screen. *)
Lemma caught_up n :
  sync_inv n → seq (srv n) + 1 < 2 ^ 64 →
  seq (snapshot (srv n)) = acked_seq (srv n) → last_sent (snapshot (srv n)) = last_sent (srv n).
Proof.
  intros Hn Hseq Heq. pose proof (si_seq _ Hn). unfold snapshot in *.
  destruct (render_eq _ _); [done|]. cbn [seq] in Heq.
  rewrite as_u64_id in Heq by (unfold is_u64; lia). lia.
Qed.

Lemma poll_round_renders n :
  sync_inv n → seq (srv n) + 1 < 2 ^ 64 → acked_seq (srv n) = current_seq (cli n) →
  render_eq (c_grid (cli (poll_round n))) (server_screen (srv n)) = true ∧
  term (srv (poll_round n)) = term (srv n).
Proof.
  intros Hn Hseq Ha. pose proof (step_poll_inv n Hn Hseq) as Hn'. revert Hn'.
  unfold poll_round, server_poll. rewrite (poll_diff_spec _ (si_full _ Hn)). cbn [fst].
  destruct (snapshot_spec n Hn Hseq) as (Ht & _ & _ & _ & Hsq & Hr & _ & Hl & _).
  rewrite Ht in Hr. fold (server_screen (srv n)) in Hr. pose proof (si_seq _ Hn) as [Haq _].
  destruct (Z.eqb_spec (seq (snapshot (srv n))) (acked_seq (srv n))) as [Heq|Hne]; intros Hn'.
  - cbn [cli srv]. split; [|done]. destruct (si_current _ Hn) as (g & Hg & Hgr).
    eapply render_eq_trans; [exact Hgr|].
    assert (g = last_sent (srv n)) as ->.
    { pose proof (si_last _ Hn) as Hlast. replace (seq (srv n)) with (acked_seq (srv n)) in Hlast by lia.
      congruence. }
    by rewrite <- (caught_up n Hn Hseq Heq).
  - cbn [cli srv set_cli]. split; [|done].
    match type of Hn' with sync_inv ?n2 =>
      destruct (apply_state_diff_spec n2 (seq (snapshot (srv n))) (acked_seq (srv n))
        (encode_diff (history (snapshot (srv n)) !! acked_seq (srv n)) (last_sent (snapshot (srv n)))) Hn')
        as [[_ []]|(g' & T & Happ & _ & HT & HgT & _)] end.
    + by left.
    + cbn [cli]. lia.
    + cbn [cli] in Happ. rewrite Happ. cbn [snd c_grid log] in *.
      eapply render_eq_trans; [exact HgT|]. rewrite Hl, decide_True in HT by done.
      by injection HT as <-.
Qed.

(** C25 Convergence: one round trip without loss makes the client show the server's
    screen, whatever was lost before, provided that the client has not been moved back
    behind the snapshot that the server holds acknowledged. That is so in every state
    if the window keeps its size; with resizes, which start the client at snapshot
    zero, it is a condition ([stale_snapshot_wedges] is a state without it). *)
Theorem sync_converges b R C n :
  window_ok R C → shell_reachable b R C n → seq (srv n) + 1 < 2 ^ 64 →
  b = false ∨ acked_seq (srv n) ≤ current_seq (cli n) →
  render_eq (c_grid (cli (sync_round n))) (server_screen (srv n)) = true ∧
  server_screen (srv (sync_round n)) = server_screen (srv n).
Proof.
  intros Hok Hreach Hseq Hb.
  assert (sync_inv n ∧ acked_seq (srv n) ≤ current_seq (cli n)) as [Hn Hle].
  { split; [by eapply shell_reachable_inv|]. destruct Hb as [->|?]; [|done].
    apply (fx_acked _ _ _ (proj2 (fixed_reachable_inv R C n Hok Hreach))). }
  destruct (ack_current n Hn Hle) as (Ha & Ht & Hs).
  destruct (poll_round_renders (set_srv (on_state_ack (srv n) (current_seq (cli n))) n)) as [Hr Ht'].
  - by apply step_state_ack_inv.
  - cbn [srv set_srv]. by rewrite Hs.
  - done.
  - unfold sync_round, server_screen in *. cbn [srv set_srv] in *. rewrite Ht in Hr.
    split; [exact Hr|]. by rewrite Ht', Ht.
Qed.

(** The input channel inside the shells. *)
Definition chan_of (n : net) : channel :=
  mkChannel (input_tx (cli n)) (input_rx (srv n)) (typed n) (delivered n) (inputs n) (input_acks n).

Lemma apply_state_diff_tx c q b data : input_tx (apply_state_diff c q b data).2 = input_tx c.
Proof.
  unfold apply_state_diff. destruct (_ || _); [|done]. destruct (apply_diff _ _) as [r g].
  by destruct (is_ok r).
Qed.

Lemma poll_diff_rx s : input_rx (poll_diff s).2 = input_rx s.
Proof. unfold poll_diff, snapshot. repeat case_match; done. Qed.

Lemma chan_of_step b n n' : shell_step b n n' → rtc chan_step (chan_of n) (chan_of n').
Proof.
  destruct 1 as [bytes s Hfeed| |r c s _ _ _ Hres|_|q b' data _| |q Hq|offset data Hi|q Hq|bytes Hb|m];
    try apply rtc_refl.
  - unfold feed_output in Hfeed. destruct (advance _ _ _); [|done]. injection Hfeed as <-. apply rtc_refl.
  - unfold shell_resize in Hres. destruct (terminal_resize _ _ _); [|done]. injection Hres as <-.
    apply rtc_refl.
  - unfold chan_of, server_poll. pose proof (poll_diff_rx (srv n)) as Hrx.
    destruct (poll_diff (srv n)) as [f s]. cbn in *. rewrite Hrx. apply rtc_refl.
  - unfold chan_of. cbn [cli set_cli]. rewrite apply_state_diff_tx. apply rtc_refl.
  - unfold chan_of, client_poll. cbn [cli srv typed delivered inputs input_acks]. unfold poll_frames.
    destruct (pending (input_tx (cli n))) as [f|] eqn:Hp; [|apply rtc_refl].
    apply rtc_once. pose proof (chan_send (chan_of n) f Hp) as Hsend.
    apply pending_spec in Hp as ->. exact Hsend.
  - unfold on_state_ack. destruct (_ && _); apply rtc_refl.
  - apply rtc_once. pose proof (chan_receive (chan_of n) offset data Hi) as Hr.
    unfold server_input, ingest_input. unfold chan_of in *. cbn [rx] in Hr.
    destruct (ingest (input_rx (srv n)) offset data) as [fresh rx']. exact Hr.
  - apply rtc_once. exact (chan_ack (chan_of n) q Hq).
  - apply rtc_once. exact (chan_type (chan_of n) bytes Hb).
Qed.

(** C15 The shells refine the input channel: every run of the two shells is, seen
    from the keyboard and the pty, a run of the input channel; so the bytes
    written to the pty are a prefix of what was typed. *)
Theorem shell_refines_channel b R C n :
  shell_reachable b R C n →
  Input.reachable (chan_of n) ∧
  delivered n = take (Z.to_nat (received (input_rx (srv n)))) (typed n).
Proof.
  intros Hreach. assert (Input.reachable (chan_of n)) as Hc.
  { revert Hreach. apply (rtc_invariant _ (λ n, Input.reachable (chan_of n))); [apply rtc_refl|].
    intros n1 n2 H1 Hstep. unfold Input.reachable in *. etrans; [exact H1|]. by eapply chan_of_step. }
  split; [exact Hc|]. apply (inv_delivered _ (reachable_inv _ Hc)).
Qed.

(** Reattachment: after the shell is rebound to a new client, the first poll
    is a full snapshot that any client, whatever it shows and whatever its size,
    applies to show the server's screen; the input channel starts again at 0. *)
Theorem rebind_resends_screen s c :
  screen_ok (server_screen s) → grid_wf (c_grid c) →
  0 < seq s → seq s + 1 < 2 ^ 64 →
  ∃ q data s', poll_diff (rebind_to_new_client s) = (Some (StateDiff q 0 data), s') ∧
    (apply_state_diff c q 0 data).1 = true ∧
    render_eq (c_grid (apply_state_diff c q 0 data).2) (server_screen s) = true ∧
    current_seq (apply_state_diff c q 0 data).2 = q ∧
    force_full s' = false ∧ input_rx s' = receiver_new.
Proof.
  intros (Hwf & _ & Hs) Hc Hpos Hseq. unfold poll_diff.
  set (s1 := snapshot (rebind_to_new_client s)).
  assert (grid_wf (last_sent s1) ∧ sendable (last_sent s1) ∧
    render_eq (last_sent s1) (server_screen s) = true ∧ 0 < seq s1 ∧ acked_seq s1 = 0 ∧
    force_full s1 = true ∧ input_rx s1 = receiver_new) as (Hl & Hls & Hr & Hq & Ha & Hf & Hrx).
  { unfold s1, snapshot, rebind_to_new_client, server_screen, screen in *. cbn [term last_sent seq].
    pose proof (gw_rows _ Hwf). pose proof (gw_cols _ Hwf).
    destruct (render_eq (grid (term s)) _) eqn:Hre; cbn [last_sent seq acked_seq force_full input_rx].
    - split_and!; try done; [apply grid_new_wf| |by apply render_eq_sym].
      unfold sendable in *. cbn [rows cols grid_new]. by rewrite !Nat.max_l by lia.
    - rewrite as_u64_id by (unfold is_u64; lia). split_and!; try done; [apply render_eq_refl|lia]. }
  rewrite Ha, Hf. rewrite (proj2 (Z.eqb_neq _ _)) by lia.
  destruct (apply_full (c_grid c) (last_sent s1) Hc Hl Hls) as (g & Hg & Hgr & _).
  eexists _, _, _. split; [reflexivity|]. unfold apply_state_diff.
  assert (is_full (encode_diff None (last_sent s1)) = true) as -> by done. cbn [orb].
  rewrite Hg. cbn [is_ok fst snd c_grid current_seq].
  split_and!; try done. by eapply render_eq_trans.
Qed.

(** ** Playing a schedule

    An event that is not possible in a state leaves it as it is, so that every
    schedule is a run. *)
Inductive event :=
| EvOutput (bytes : list Z)
| EvResize (r c : nat)
| EvPoll
| EvDiff (i : nat)        (** deliver the [i]-th of the frames sent, newest first *)
| EvClientPoll
| EvStateAck (i : nat)
| EvInput (i : nat)
| EvInputAck (i : nat)
| EvType (bytes : list Z).

Definition play_event (resizes : bool) (n : net) (e : event) : net :=
  match e with
  | EvOutput bytes => match feed_output (srv n) bytes with Some s => set_srv s n | None => n end
  | EvResize r c =>
    if resizes && (2 <=? c)%nat && (Z.of_nat (Nat.max r 1 * c) <=? MAX_CELLS)
    then match shell_resize (srv n) r c with Some s => set_srv s n | None => n end else n
  | EvPoll => if seq (srv n) + 1 <? 2 ^ 64 then server_poll n else n
  | EvDiff i =>
    match diffs n !! i with
    | Some (q, b, data) => set_cli (apply_state_diff (cli n) q b data).2 n
    | None => n
    end
  | EvClientPoll => client_poll n
  | EvStateAck i =>
    match state_acks n !! i with Some q => set_srv (on_state_ack (srv n) q) n | None => n end
  | EvInput i =>
    match inputs n !! i with Some (Input offset data) => server_input offset data n | _ => n end
  | EvInputAck i =>
    match input_acks n !! i with Some q => set_cli (on_input_ack (cli n) q) n | None => n end
  | EvType bytes => if zlen (typed n ++ bytes) <? 2 ^ 64 then client_type bytes n else n
  end.

Definition play (resizes : bool) (R C : nat) (es : list event) : net :=
  foldl (play_event resizes) (net_new R C) es.

Lemma play_event_runs b n e : rtc (shell_step b) n (play_event b n e).
Proof.
  destruct e as [bytes|r c| |i| |i|i|i|bytes]; cbn [play_event].
  - destruct (feed_output _ _) as [s|] eqn:Hs; [|apply rtc_refl].
    apply rtc_once. by apply (step_output _ _ bytes).
  - destruct (_ && _) eqn:Hg; [|apply rtc_refl].
    apply andb_true_iff in Hg as [[-> Hc%Nat.leb_le]%andb_true_iff Hs%Z.leb_le].
    destruct (shell_resize _ _ _) as [s|] eqn:Hr; [|apply rtc_refl].
    apply rtc_once. by apply (step_resize _ _ r c).
  - destruct (Z.ltb_spec (seq (srv n) + 1) (2 ^ 64)); [|apply rtc_refl].
    apply rtc_once. by apply step_poll.
  - destruct (diffs n !! i) as [[[q b'] data]|] eqn:Hi; [|apply rtc_refl].
    apply rtc_once. apply step_diff. by eapply list_elem_of_lookup_2.
  - apply rtc_once, step_client_poll.
  - destruct (state_acks n !! i) as [q|] eqn:Hi; [|apply rtc_refl].
    apply rtc_once, step_state_ack. by eapply list_elem_of_lookup_2.
  - destruct (inputs n !! i) as [[]|] eqn:Hi; try apply rtc_refl.
    apply rtc_once, step_input. by eapply list_elem_of_lookup_2.
  - destruct (input_acks n !! i) as [q|] eqn:Hi; [|apply rtc_refl].
    apply rtc_once, step_input_ack. by eapply list_elem_of_lookup_2.
  - destruct (Z.ltb_spec (zlen (typed n ++ bytes)) (2 ^ 64)); [|apply rtc_refl].
    apply rtc_once. by apply step_type.
Qed.

Lemma play_reachable b R C es : shell_reachable b R C (play b R C es).
Proof.
  unfold play, shell_reachable. generalize (net_new R C) as n.
  induction es as [|e es IH]; intros n; [apply rtc_refl|]. cbn [foldl].
  etrans; [apply play_event_runs|apply IH].
Qed.

(** A round trip that changes neither side, for ever. *)
Lemma stuck_rounds n k :
  on_state_ack (srv n) (current_seq (cli n)) = srv n → (poll_diff (srv n)).2 = srv n →
  match (poll_diff (srv n)).1 with
  | Some (StateDiff q b data) => (apply_state_diff (cli n) q b data).2 = cli n
  | _ => True
  end →
  srv (Nat.iter k sync_round n) = srv n ∧ cli (Nat.iter k sync_round n) = cli n.
Proof.
  intros Hack Hpoll Hdiff. induction k as [|k [IHs IHc]]; [done|]. cbn [Nat.iter nat_rect].
  set (m := Nat.iter k sync_round n) in *. change (nat_rect _ _ _ k) with m.
  unfold sync_round, poll_round, server_poll. cbn [srv cli set_srv].
  rewrite IHs, IHc, Hack. destruct (poll_diff (srv n)) as [f s]. cbn [fst snd] in *. subst s.
  destruct f as [[]|]; by cbn.
Qed.
End shell.

(** ** Two runs that do not converge *)

(** The window shrinks, its full snapshot is sent twice and applied once; the
    client and the server go on; then the second copy arrives. *)
Definition rollback_schedule : list event :=
  [EvResize 2 2; EvPoll; EvPoll; EvDiff 1; EvClientPoll; EvStateAck 0;
   EvOutput [65]; EvPoll; EvDiff 0; EvClientPoll; EvStateAck 0; EvDiff 1].

Definition rolled_back : @net sample_vte := @play sample_width sample_vte true 2 3 rollback_schedule.

Definition out_of_sync (n : @net sample_vte) : bool :=
  negb (render_eq (c_grid (cli n)) (server_screen (srv n))).

(** A stale full snapshot wedges the screen: the protocol promises convergence
    under reordering, but a full snapshot is applied even when it is older than
    the client's screen, and then the server, which has that screen acknowledged,
    never sends what is missing: after any number of loss-free round trips the
    client still shows the old screen. *)
Theorem stale_snapshot_wedges :
  shell_reachable sample_width true 2 3 rolled_back ∧
  ∀ k, out_of_sync (Nat.iter k sync_round rolled_back) = true.
Proof.
  split; [apply play_reachable|]. intros k.
  destruct (stuck_rounds rolled_back k) as [Hs Hc].
  - vm_compute. reflexivity.
  - vm_compute. reflexivity.
  - vm_compute. exact I.
  - unfold out_of_sync. rewrite Hs, Hc. vm_compute. reflexivity.
Qed.

(** A client of another size reattaches and loses the one full snapshot: it gets
    deltas of the server's size from then on and rejects them all. *)
Definition lost_rebind : @net sample_vte :=
  let n := @play sample_width sample_vte false 2 3 [EvOutput [65]; EvPoll] in
  set_cli (client_new 3 4) (set_srv (poll_diff (rebind_to_new_client (srv n))).2 n).

Lemma lost_rebind_wedges k : out_of_sync (Nat.iter k sync_round lost_rebind) = true.
Proof.
  destruct (stuck_rounds lost_rebind k) as [Hs Hc].
  - vm_compute. reflexivity.
  - vm_compute. reflexivity.
  - vm_compute. reflexivity.
  - unfold out_of_sync. rewrite Hs, Hc. vm_compute. reflexivity.
Qed.

(** ** Witnesses *)

Definition sample_run : list event :=
  [EvType [108; 115]; EvClientPoll; EvInput 0; EvInputAck 0; EvOutput [108; 115]; EvPoll; EvPoll;
   EvDiff 0; EvClientPoll; EvStateAck 0; EvOutput [10; 66]; EvPoll].

Definition sample_net : @net sample_vte := @play sample_width sample_vte false 2 3 sample_run.

Lemma sample_window : window_ok 2 3.
Proof. split; [lia|]. vm_compute. discriminate. Qed.

Lemma client_shows_numbered_snapshot_witness :
  ∃ g, log sample_net !! 1 = Some g ∧ render_eq (c_grid (cli sample_net)) g = true ∧
    cell g 0 1 = with_ch 115 blank.
Proof.
  destruct (client_shows_numbered_snapshot sample_width sample_width_le sample_vte_wf false 2 3
    sample_net sample_window (play_reachable sample_width false 2 3 sample_run)) as [(g & Hg & Hr) _].
  exists g. split; [exact Hg|]. split; [exact Hr|].
  apply render_eq_spec in Hr as (Hr & Hc & Hcells & _). unfold cell, idx.
  rewrite <- Hr, <- Hc, <- Hcells. vm_compute. reflexivity.
Defined.

Lemma sync_converges_witness :
  render_eq (c_grid (cli (sync_round sample_net))) (server_screen (srv sample_net)) = true.
Proof.
  refine (proj1 (sync_converges sample_width sample_width_le sample_vte_wf false 2 3 sample_net
    sample_window (play_reachable sample_width false 2 3 sample_run) _ (or_introl eq_refl))).
  vm_compute. reflexivity.
Defined.

Lemma shell_refines_channel_witness : delivered sample_net = [108; 115].
Proof.
  rewrite (proj2 (shell_refines_channel sample_width false 2 3 sample_net
    (play_reachable sample_width false 2 3 sample_run))).
  vm_compute. reflexivity.
Defined.

Lemma rebind_resends_screen_witness :
  ∃ q data, (apply_state_diff (client_new 5 7) q 0 data).1 = true ∧
    render_eq (c_grid (apply_state_diff (client_new 5 7) q 0 data).2)
      (server_screen (srv sample_net)) = true.
Proof.
  destruct (rebind_resends_screen (srv sample_net) (client_new 5 7)) as (q & data & s' & _ & Ha & Hr & _).
  - exact (si_screen _ (shell_reachable_inv sample_width sample_width_le sample_vte_wf false 2 3
      sample_net sample_window (play_reachable sample_width false 2 3 sample_run))).
  - apply grid_new_wf.
  - vm_compute. reflexivity.
  - vm_compute. reflexivity.
  - exists q, data. split; [exact Ha|exact Hr].
Defined.
