(* ===== verification/Control.v ===== *)
(** * Control messages and transfer requests
    ([crates/proto/src/control.rs], [crates/proto/src/xfer.rs])

    The two small codecs of the session layer: binary control messages and the
    textual header of a file transfer. *)

From S2P Require Import Prelude Wire Cell Text.

(** ** Control messages *)

(** @ crates/proto/src/control.rs:9-19 ControlError *)
Inductive ControlError :=
| CWire (e : WireError)
| Unknown (tag : Z)
| CEof
| CBadUtf8.

(** @ crates/proto/src/control.rs:22-49 ControlMsg *)
Inductive ControlMsg :=
| OpenShell (cols rows : Z) (term : list Z) (agent : bool)
| MResize (cols rows : Z)
| Exit (status : Z)
| RemoteForward (bind_port : Z) (target : list Z)
| Bye
| ServerVersion (v : list Z).

Definition M_OPEN_SHELL : Z := 1.
Definition M_RESIZE : Z := 2.
Definition M_EXIT : Z := 3.
Definition M_REMOTE_FORWARD : Z := 6.
Definition M_BYE : Z := 7.
Definition M_SERVER_VERSION : Z := 8.

(** @ crates/proto/src/control.rs:59-62 put_str *)
Definition put_str (s : list Z) : list Z := put_varint (zlen (as_bytes s)) ++ as_bytes s.

Definition get_vi : reader ControlError Z := reader_map_err CWire get_varint.

(** The bytes [pos..pos + len], as a string; the end offset is checked.
    @ crates/proto/src/control.rs:66-74 get_str *)
Definition take_str (len : Z) : reader ControlError (list Z) := λ buf pos,
  match checked_add_u64 (Z.of_nat pos) len with
  | None => Some (Err CEof)
  | Some endp =>
    if zlen buf <? endp then Some (Err CEof)
    else
      bytes ← slice_checked buf pos (Z.to_nat endp);
      Some (s ← ok_or (from_utf8 bytes) CBadUtf8; Ok (s, Z.to_nat endp))
  end.

(** @ crates/proto/src/control.rs:64-75 get_str *)
Definition get_str : reader ControlError (list Z) :=
  len ← get_vi; take_str len.

(** @ crates/proto/src/control.rs:77-79 zigzag *)
Definition zigzag (v : Z) : Z := as_u64 (Z.lxor (as_i64 (Z.shiftl v 1)) (Z.shiftr v 63)).

(** @ crates/proto/src/control.rs:80-82 unzigzag *)
Definition unzigzag (v : Z) : Z := Z.lxor (as_i64 (Z.shiftr v 1)) (- as_i64 (Z.land v 1)).

(** @ crates/proto/src/control.rs:85-121 ControlMsg::encode *)
Definition encode_msg (m : ControlMsg) : list Z :=
  match m with
  | OpenShell cols rows term agent =>
    [M_OPEN_SHELL] ++ put_varint cols ++ put_varint rows ++ put_str term ++
    [if agent then 1 else 0]
  | MResize cols rows => [M_RESIZE] ++ put_varint cols ++ put_varint rows
  | Exit status => [M_EXIT] ++ put_varint (zigzag status)
  | RemoteForward bind_port target =>
    [M_REMOTE_FORWARD] ++ put_varint bind_port ++ put_str target
  | Bye => [M_BYE]
  | ServerVersion v => [M_SERVER_VERSION] ++ put_str v
  end.

(** [*buf.get(pos).ok_or(ControlError::Eof)?]. *)
Definition get_byte : reader ControlError Z := λ buf pos,
  Some (b ← ok_or (buf !! pos) CEof; Ok (b, S pos)).

(** The fields after the tag. *)
Definition decode_fields (tag : Z) : reader ControlError ControlMsg :=
  if tag =? M_OPEN_SHELL then
    cols ← get_vi; rows ← get_vi; term ← get_str; agent ← get_byte;
    mret (OpenShell (as_u16 cols) (as_u16 rows) term (negb (agent =? 0)))
  else if tag =? M_RESIZE then
    cols ← get_vi; rows ← get_vi; mret (MResize (as_u16 cols) (as_u16 rows))
  else if tag =? M_EXIT then
    v ← get_vi; mret (Exit (as_i32 (unzigzag v)))
  else if tag =? M_REMOTE_FORWARD then
    bind_port ← get_vi; target ← get_str; mret (RemoteForward (as_u16 bind_port) target)
  else if tag =? M_BYE then mret Bye
  else if tag =? M_SERVER_VERSION then v ← get_str; mret (ServerVersion v)
  else reader_fail (Unknown tag).

(** @ crates/proto/src/control.rs:123-158 ControlMsg::decode *)
Definition decode_msg_checked (buf : list Z) : option (result ControlError ControlMsg) :=
  r ← (tag ← get_byte; decode_fields tag) buf 0%nat;
  Some ('(m, _) ← r; Ok m).

(** It never panics ([decode_msg_calm]), so the default is never taken. *)
Definition decode_msg (buf : list Z) : result ControlError ControlMsg :=
  default (Err CEof) (decode_msg_checked buf).

(** The field types of the enum. *)
Definition msg_wf (m : ControlMsg) : Prop :=
  match m with
  | OpenShell cols rows term _ => is_u16 cols ∧ is_u16 rows ∧ Forall is_char term
  | MResize cols rows => is_u16 cols ∧ is_u16 rows
  | Exit status => is_i32 status
  | RemoteForward bind_port target => is_u16 bind_port ∧ Forall is_char target
  | Bye => True
  | ServerVersion v => Forall is_char v
  end.

Lemma control_vi_reads v : is_u64 v → reads get_vi (put_varint v) v.
Proof. intros. by apply reads_map_err, get_put_varint. Qed.

Lemma get_byte_reads b : reads get_byte [b] b.
Proof.
  intros pre post _. unfold get_byte. cbn [app]. rewrite list_lookup_middle by done.
  cbn. do 3 f_equal. lia.
Qed.

Lemma control_vi_advances : advances 1 get_vi.
Proof. apply advances_map_err, get_varint_advances. Qed.

Lemma control_vi_calm : calm get_vi.
Proof. apply calm_map_err, get_varint_calm. Qed.

Lemma get_byte_advances : advances 1 get_byte.
Proof.
  intros buf pos v pos' _. unfold get_byte. destruct (buf !! pos) eqn:Hb; [|done].
  apply lookup_lt_Some in Hb. intros [= _ <-]. lia.
Qed.

Lemma get_byte_calm : calm get_byte.
Proof. by intros buf pos _. Qed.

(** As for the wire's byte strings, the checks keep the slice in range. *)
Lemma get_str_calm : calm get_str.
Proof.
  intros buf pos Hp. unfold get_str, mbind, reader_bind.
  destruct (control_vi_calm buf pos Hp) as [[[len p]|e] Hv]; rewrite Hv; [|done].
  pose proof (control_vi_advances _ _ _ _ Hp Hv) as Hadv.
  assert (is_u64 len) as Hlen.
  { unfold get_vi, reader_map_err in Hv. destruct (get_varint buf pos) as [[[v q]|]|] eqn:Hg; [|done..].
    apply get_varint_range in Hg. by injection Hv as <- _. }
  unfold take_str, checked_add_u64. destruct (_ <=? _); [|done].
  destruct (Z.ltb_spec (zlen buf) (Z.of_nat p + len)); [done|].
  rewrite slice_checked_ok by (unfold is_u64 in Hlen; lia). by eexists.
Qed.

Lemma get_str_advances : advances 1 get_str.
Proof.
  intros buf pos v pos' Hp. unfold get_str, mbind, reader_bind.
  destruct (get_vi buf pos) as [[[len p]|e]|] eqn:Hv; [|done..].
  pose proof (control_vi_advances _ _ _ _ Hp Hv) as Hadv.
  assert (is_u64 len) as Hlen.
  { unfold get_vi, reader_map_err in Hv. destruct (get_varint buf pos) as [[[w q]|]|] eqn:Hg; [|done..].
    apply get_varint_range in Hg. by injection Hv as <- _. }
  unfold take_str, checked_add_u64. destruct (_ <=? _); [|done].
  destruct (Z.ltb_spec (zlen buf) (Z.of_nat p + len)); [done|].
  destruct (slice_checked _ _ _); [|done]. cbn. destruct (from_utf8 _); [|done].
  intros [= _ <-]. unfold is_u64 in Hlen. lia.
Qed.

#[export] Hint Resolve control_vi_advances get_byte_advances get_str_advances
  control_vi_calm get_byte_calm get_str_calm : noissh.

Lemma decode_msg_calm buf : decode_msg_checked buf = Some (decode_msg buf).
Proof.
  unfold decode_msg, decode_msg_checked.
  assert (calm (tag ← get_byte; decode_fields tag)) as Hc by (unfold decode_fields; calm_fields).
  by destruct (Hc buf 0%nat) as [r ->]; [lia|].
Qed.

Lemma take_str_reads s : Forall is_char s → reads (take_str (zlen (as_bytes s))) (as_bytes s) s.
Proof.
  intros Hs pre post Hfit. unfold take_str, checked_add_u64.
  unfold vec_fits in Hfit. rewrite !length_app in Hfit.
  rewrite (proj2 (Z.leb_le _ _)) by lia_ints.
  rewrite (proj2 (Z.ltb_ge _ _)) by (rewrite !length_app; lia).
  replace (Z.to_nat (Z.of_nat (length pre) + zlen (as_bytes s))) with
    (length pre + length (as_bytes s))%nat by lia.
  rewrite slice_checked_ok by (rewrite !length_app; lia). cbn [mbind option_bind].
  by rewrite slice_mid, from_utf8_as_bytes.
Qed.

Lemma get_str_reads s : Forall is_char s → reads get_str (put_str s) s.
Proof.
  intros Hs pre post Hfit. unfold get_str, put_str in *.
  assert (is_u64 (zlen (as_bytes s))).
  { unfold vec_fits in Hfit. rewrite !length_app in Hfit. lia_ints. }
  eapply (reads_bind get_vi take_str); [by apply control_vi_reads|by apply take_str_reads|done].
Qed.

Lemma exit_reads s : is_i32 s →
  reads (v ← get_vi; mret (Exit (as_i32 (unzigzag v)))) (put_varint (zigzag s)) (Exit s).
Proof.
  intros Hs. eapply reads_eq.
  - apply (reads_fmap get_vi (λ v, Exit (as_i32 (unzigzag v)))), control_vi_reads.
    apply (Wire.zigzag_range s). lia_ints.
  - cbn beta. change (unzigzag (zigzag s)) with (Wire.unzigzag (Wire.zigzag s)).
    rewrite unzigzag_zigzag_id by lia_ints. by rewrite as_i32_id.
Qed.

Lemma decode_fields_reads m :
  msg_wf m → reads (tag ← get_byte; decode_fields tag) (encode_msg m) m.
Proof.
  intros Hm. destruct m as [cols rows term agent|cols rows|status|port target| |v];
    cbn [encode_msg msg_wf] in *.
  - destruct Hm as (Hc & Hr & Ht).
    eapply reads_bind; [apply get_byte_reads|].
    change (decode_fields M_OPEN_SHELL) with
      (cols ← get_vi; rows ← get_vi; term ← get_str; agent ← get_byte;
       mret (M:=reader ControlError) (OpenShell (as_u16 cols) (as_u16 rows) term (negb (agent =? 0)))).
    do 2 (eapply reads_bind; [apply control_vi_reads; auto with noissh|]).
    eapply reads_bind; [by apply get_str_reads|]. rewrite !as_u16_id by done.
    replace agent with (negb ((if agent then 1 else 0) =? 0)) at 2 by by destruct agent.
    apply (reads_fmap get_byte (λ a, OpenShell cols rows term (negb (a =? 0)))), get_byte_reads.
  - destruct Hm as (Hc & Hr). eapply reads_bind; [apply get_byte_reads|].
    change (decode_fields M_RESIZE) with
      (cols ← get_vi; rows ← get_vi; mret (M:=reader ControlError) (MResize (as_u16 cols) (as_u16 rows))).
    eapply reads_bind; [apply control_vi_reads; auto with noissh|]. cbn beta.
    eapply reads_eq; [apply (reads_fmap get_vi (λ r, MResize (as_u16 cols) (as_u16 r))),
      control_vi_reads; auto with noissh|]. cbn beta. by rewrite !as_u16_id.
  - eapply reads_bind; [apply get_byte_reads|]. by apply exit_reads.
  - destruct Hm as (Hp & Ht). eapply reads_bind; [apply get_byte_reads|].
    change (decode_fields M_REMOTE_FORWARD) with
      (p ← get_vi; t ← get_str; mret (M:=reader ControlError) (RemoteForward (as_u16 p) t)).
    eapply reads_bind; [apply control_vi_reads; auto with noissh|]. cbn beta.
    rewrite as_u16_id by done.
    apply (reads_fmap get_str (λ t, RemoteForward port t)). by apply get_str_reads.
  - change [M_BYE] with ([M_BYE] ++ []). eapply reads_bind; [apply get_byte_reads|]. apply reads_ret.
  - eapply reads_bind; [apply get_byte_reads|].
    apply (reads_fmap get_str (λ v, ServerVersion v)). by apply get_str_reads.
Qed.

(** ** File-transfer requests *)

(** @ crates/proto/src/xfer.rs:7-13 XferRequest *)
Inductive XferRequest :=
| Put (path : list Z) (size : Z)
| Get (path : list Z).

Definition PUT_ : list Z := [80; 85; 84; 32].
Definition GET_ : list Z := [71; 69; 84; 32].

(** @ crates/proto/src/xfer.rs:18-23 XferRequest::encode *)
Definition encode_xfer (r : XferRequest) : list Z :=
  match r with
  | Put path size => as_bytes (PUT_ ++ digits size ++ [32] ++ path)
  | Get path => as_bytes (GET_ ++ path)
  end.

Definition is_empty (s : list Z) : bool := match s with [] => true | _ => false end.

(** @ crates/proto/src/xfer.rs:25-47 XferRequest::parse *)
Definition parse_xfer (meta : list Z) : option XferRequest :=
  s ← from_utf8 meta;
  match strip_prefix PUT_ s with
  | Some rest =>
    '(size, path) ← split_once (Z.eqb 32) rest;
    size ← parse_uint u64_max size;
    if is_empty path then None else Some (Put path size)
  | None =>
    match strip_prefix GET_ s with
    | Some path => if is_empty path then None else Some (Get path)
    | None => None
    end
  end.

(** A request for some path. *)
Definition xfer_wf (r : XferRequest) : Prop :=
  match r with
  | Put path size => Forall is_char path ∧ path ≠ [] ∧ is_u64 size
  | Get path => Forall is_char path ∧ path ≠ []
  end.

Lemma is_char_ascii l : forallb (λ c, (0 <=? c) && (c <? 128)) l = true → Forall is_char l.
Proof.
  induction l as [|c l IH]; cbn; [by constructor|]. intros H.
  apply andb_true_iff in H as [[H1 H2]%andb_true_iff H3].
  constructor; [unfold is_char; lia|auto].
Qed.

(** Control messages: every message the type admits — any geometry, terminal
    name, exit status (negative ones too) or version — decodes to itself. *)
Lemma control_roundtrip m :
  msg_wf m → vec_fits (encode_msg m) → decode_msg (encode_msg m) = Ok m.
Proof.
  intros Hm Hfit. unfold decode_msg, decode_msg_checked.
  pose proof (decode_fields_reads m Hm [] []) as H. cbn [app length] in H.
  rewrite app_nil_r in H. by rewrite H.
Qed.

(** ** Properties *)

(** Transfer requests: a request parses back to itself — a path may hold
    spaces, a size may be any 64-bit number. *)
Theorem xfer_roundtrip r : xfer_wf r → parse_xfer (encode_xfer r) = Some r.
Proof.
  destruct r as [path size|path]; cbn [xfer_wf encode_xfer].
  - intros (Hp & Hne & Hs). unfold parse_xfer.
    destruct (digits_spec size Hs) as (_ & Hds & Hparse).
    rewrite from_utf8_as_bytes.
    2:{ apply Forall_app; split; [by apply is_char_ascii|]. apply Forall_app; split.
        - eapply Forall_impl; [exact Hds|]. intros c Hc. unfold is_digit in Hc. unfold is_char. lia.
        - apply Forall_cons; split; [unfold is_char; lia|done]. }
    cbn [mbind option_bind]. rewrite (proj2 (strip_prefix_spec _ _ _) eq_refl). cbn [app].
    rewrite split_once_app; [|eapply Forall_impl; [exact Hds|]; intros c Hc|done].
    + cbn. rewrite Hparse by (unfold is_u64, u64_max in *; lia). cbn. by destruct path.
    + unfold is_digit in Hc. apply Z.eqb_neq. lia.
  - intros (Hp & Hne). unfold parse_xfer.
    rewrite from_utf8_as_bytes by by (apply Forall_app; split; [apply is_char_ascii|]).
    cbn. by destruct path.
Qed.

(** ** Witnesses *)

Lemma control_roundtrip_witness :
  decode_msg (encode_msg (OpenShell 80 24 [120; 116; 0xe9; 0x20ac; 0x1f600] true)) =
    Ok (OpenShell 80 24 [120; 116; 0xe9; 0x20ac; 0x1f600] true) ∧
  decode_msg (encode_msg (Exit (-1))) = Ok (Exit (-1)).
Proof.
  split.
  - apply (control_roundtrip (OpenShell 80 24 [120; 116; 0xe9; 0x20ac; 0x1f600] true)).
    + cbn. split_and!; [lia_ints..|]. repeat (apply Forall_cons_2; [unfold is_char; lia|]).
      apply Forall_nil_2.
    + vm_compute. reflexivity.
  - apply (control_roundtrip (Exit (-1))); [cbn; lia_ints|vm_compute; reflexivity].
Defined.

Lemma xfer_roundtrip_witness :
  parse_xfer (encode_xfer (Put [97; 32; 98] 1234)) = Some (Put [97; 32; 98] 1234).
Proof.
  apply (xfer_roundtrip (Put [97; 32; 98] 1234)). cbn.
  split_and!; [apply is_char_ascii; reflexivity|discriminate|lia_ints..].
Defined.
