(* ===== verification/Auth.v ===== *)
(** * Keys and trust ([crates/auth/src/lib.rs], [crates/proto/src/lib.rs])

    Public keys in text form, the authorized keys of a server user, and the
    client's pinned host keys with trust on first use. Base64 is third-party code
    ([Base64], [Base64Laws]). *)

From stdpp Require Import gmap sorting.
From S2P Require Import Prelude Cell Text.

(** The standard alphabet's engine, on code points and bytes. *)
Class Base64 := {
  b64_encode : list Z → list Z;
  b64_decode : list Z → option (list Z);
}.

(** What the code relies on: decoding inverts encoding, and an encoding is ASCII
    text without white space and is not empty unless the bytes are. *)
Class Base64Laws `{!Base64} : Prop := {
  b64_decode_encode bytes : Forall is_u8 bytes → b64_decode (b64_encode bytes) = Some bytes;
  b64_solid bytes : Forall is_u8 bytes → solid (b64_encode bytes);
  b64_ascii bytes : Forall is_u8 bytes → Forall (λ c, 0 ≤ c < 128) (b64_encode bytes);
  b64_nonempty bytes : bytes ≠ [] → b64_encode bytes ≠ [];
}.

(** The characters of ["noissh-x25519"]. @ crates/auth/src/lib.rs:19-19 KEY_TYPE *)
Definition KEY_TYPE : list Z := [110; 111; 105; 115; 115; 104; 45; 120; 50; 53; 53; 49; 57].

(** @ crates/auth/src/lib.rs:22-22 KEY_LEN *)
Definition KEY_LEN : nat := 32.

(** @ crates/auth/src/lib.rs:24-34 AuthError *)
Inductive AuthError :=
| MalformedLine
| BadKeyType (ty : list Z)
| BadBase64
| BadKeyLen (n : nat).

(** The 32 bytes. @ crates/auth/src/lib.rs:37-38 PublicKey *)
Definition PublicKey : Type := list Z.
Definition key_wf (k : PublicKey) : Prop := length k = KEY_LEN ∧ Forall is_u8 k.

Section auth.
Context {B64 : Base64}.

(** @ crates/auth/src/lib.rs:41-48 PublicKey::from_bytes *)
Definition from_bytes (bytes : list Z) : result AuthError PublicKey :=
  if (length bytes =? KEY_LEN)%nat then Ok bytes else Err (BadKeyLen (length bytes)).

(** @ crates/auth/src/lib.rs:51-56 PublicKey::from_base64 *)
Definition from_base64 (b64 : list Z) : result AuthError PublicKey :=
  raw ← ok_or (b64_decode (trim b64)) BadBase64; from_bytes raw.

(** @ crates/auth/src/lib.rs:58-60 PublicKey::to_base64 *)
Definition to_base64 (k : PublicKey) : list Z := b64_encode k.

(** @ crates/auth/src/lib.rs:63-65 PublicKey::to_text *)
Definition key_to_text (k : PublicKey) : list Z := KEY_TYPE ++ [32] ++ to_base64 k.

(** @ crates/auth/src/lib.rs:68-76 PublicKey::from_text *)
Definition from_text (line : list Z) : result AuthError PublicKey :=
  let it := split_whitespace line in
  ty ← ok_or (head it) MalformedLine;
  if negb (bool_decide (ty = KEY_TYPE)) then Err (BadKeyType ty)
  else b64 ← ok_or (it !! 1%nat) MalformedLine; from_base64 b64.

(** ** Authorized keys *)

(** @ crates/auth/src/lib.rs:80-83 AuthorizedKeys *)
Definition AuthorizedKeys : Type := list (PublicKey * list Z).

(** Blank or a [#] comment. *)
Definition skipped (line : list Z) : bool :=
  match line with [] => true | c :: _ => c =? 35 end.

Definition comment_of (line : list Z) : list Z := default [] (split_whitespace line !! 2%nat).

(** @ crates/auth/src/lib.rs:93-106 AuthorizedKeys::parse *)
Definition authorized_parse (contents : list Z) : AuthorizedKeys :=
  foldl (λ keys line,
    let line := trim line in
    if skipped line then keys
    else match from_text line with
         | Ok key => keys ++ [(key, comment_of line)]
         | Err _ => keys
         end) [] (lines contents).

(** @ crates/auth/src/lib.rs:110-120 AuthorizedKeys::parse_strict *)
Fixpoint parse_strict_lines (keys : AuthorizedKeys) (ls : list (list Z)) :
    result AuthError AuthorizedKeys :=
  match ls with
  | [] => Ok keys
  | line :: ls =>
    let line := trim line in
    if skipped line then parse_strict_lines keys ls
    else key ← from_text line; parse_strict_lines (keys ++ [(key, comment_of line)]) ls
  end.
(** @ crates/auth/src/lib.rs:109-121 AuthorizedKeys::parse_strict *)
Definition parse_strict (contents : list Z) : result AuthError AuthorizedKeys :=
  parse_strict_lines [] (lines contents).

(** @ crates/auth/src/lib.rs:123-125 AuthorizedKeys::add *)
Definition authorized_add (keys : AuthorizedKeys) (key : PublicKey) (comment : list Z) :
    AuthorizedKeys := keys ++ [(key, comment)].

(** @ crates/auth/src/lib.rs:128-130 AuthorizedKeys::contains *)
Definition authorized_contains (keys : AuthorizedKeys) (key : PublicKey) : bool :=
  existsb (λ '(k, _), bool_decide (k = key)) keys.

(** @ crates/proto/src/lib.rs:23-28 authorize_client *)
Definition authorize_client (keys : AuthorizedKeys) (client_static : list Z) : bool :=
  match from_bytes client_static with
  | Ok key => authorized_contains keys key
  | Err _ => false
  end.

(** ** Known hosts *)

(** @ crates/auth/src/lib.rs:142-150 Tofu *)
Inductive Tofu := New | Match | Mismatch.

(** A [BTreeMap]: a finite map, listed in the order of its keys.
    @ crates/auth/src/lib.rs:153-156 KnownHosts *)
Definition KnownHosts : Type := gmap (list Z) PublicKey.

(** The order of [String]s: UTF-8 keeps the order of code points. *)
Fixpoint str_leb (a b : list Z) : bool :=
  match a, b with
  | [], _ => true
  | _ :: _, [] => false
  | x :: a, y :: b => (x <? y) || ((x =? y) && str_leb a b)
  end.
Definition str_le (a b : list Z) : Prop := str_leb a b = true.

#[local] Instance str_le_dec : RelDecision str_le := λ a b, decide (str_leb a b = true).

(** [self.hosts.keys()] and [&self.hosts]. *)
Definition host_labels (m : KnownHosts) : list (list Z) := merge_sort str_le (map_to_list m).*1.

(** @ crates/auth/src/lib.rs:170-181 KnownHosts::parse *)
Definition known_parse_line (m : KnownHosts) (line : list Z) : KnownHosts :=
  let line := trim line in
  if skipped line then m
  else
    match split_once is_whitespace line with
    | None => m
    | Some (host, rest) =>
      match from_text (trim rest) with
      | Ok key => <[host := key]> m
      | Err _ => m
      end
    end.
(** @ crates/auth/src/lib.rs:168-183 KnownHosts::parse *)
Definition known_parse (contents : list Z) : KnownHosts :=
  foldl known_parse_line ∅ (lines contents).

(** @ crates/auth/src/lib.rs:186-195 KnownHosts::to_text *)
Definition known_to_text (m : KnownHosts) : list Z :=
  concat ((λ host, host ++ [32] ++ key_to_text (m !!! host) ++ [10]) <$> host_labels m).

(** @ crates/auth/src/lib.rs:198-200 KnownHosts::get *)
Definition known_get (m : KnownHosts) (host : list Z) : option PublicKey := m !! host.

(** @ crates/auth/src/lib.rs:220-222 KnownHosts::remove *)
Definition known_remove (m : KnownHosts) (host : list Z) : option PublicKey * KnownHosts :=
  (m !! host, delete host m).

(** [label == host || label.starts_with("{host}:")]. *)
Definition label_matches (host label : list Z) : bool :=
  bool_decide (label = host)
  || match strip_prefix (host ++ [58]) label with Some _ => true | None => false end.

(** @ crates/auth/src/lib.rs:227-239 KnownHosts::remove_matching *)
Definition remove_matching (m : KnownHosts) (host : list Z) : list (list Z) * KnownHosts :=
  let to_remove := filter (label_matches host) (host_labels m) in
  (to_remove, foldl (λ m label, delete label m) m to_remove).

(** @ crates/auth/src/lib.rs:243-252 KnownHosts::check_or_add *)
Definition check_or_add (m : KnownHosts) (host : list Z) (key : PublicKey) : Tofu * KnownHosts :=
  match m !! host with
  | None => (New, <[host := key]> m)
  | Some pinned => if bool_decide (pinned = key) then (Match, m) else (Mismatch, m)
  end.

(** @ crates/proto/src/lib.rs:32-37 verify_server *)
Definition verify_server (m : KnownHosts) (host server_static : list Z) : Tofu * KnownHosts :=
  match from_bytes server_static with
  | Ok key => check_or_add m host key
  | Err _ => (Mismatch, m)
  end.

(** A history of contacts: each verdict and the final store. *)
Fixpoint contacts (m : KnownHosts) (cs : list (list Z * list Z)) : list Tofu * KnownHosts :=
  match cs with
  | [] => ([], m)
  | (host, key) :: cs =>
    let '(t, m) := verify_server m host key in
    let '(ts, m) := contacts m cs in (t :: ts, m)
  end.

(** What should be pinned: the stored key, or the first valid key seen. *)
Definition pin (m : KnownHosts) (cs : list (list Z * list Z)) (host : list Z) : option PublicKey :=
  match m !! host with
  | Some k => Some k
  | None => snd <$> head (filter (λ c, c.1 = host ∧ length c.2 = KEY_LEN) cs)
  end.

Definition tofu_verdict (pinned : option PublicKey) (key : list Z) : Tofu :=
  if negb (length key =? KEY_LEN)%nat then Mismatch
  else match pinned with
       | None => New
       | Some k => if bool_decide (k = key) then Match else Mismatch
       end.

(** ** Lemmas *)

Lemma from_bytes_ok bytes key : from_bytes bytes = Ok key ↔ key = bytes ∧ length bytes = KEY_LEN.
Proof. unfold from_bytes. destruct (Nat.eqb_spec (length bytes) KEY_LEN); naive_solver. Qed.

Lemma verify_server_spec m host key :
  (verify_server m host key).1 = tofu_verdict (m !! host) key ∧
  ∀ h, (verify_server m host key).2 !! h = pin m [(host, key)] h.
Proof.
  unfold verify_server, tofu_verdict, pin, from_bytes, check_or_add, KnownHosts, PublicKey in *.
  destruct (Nat.eqb_spec (length key) KEY_LEN) as [Hl|Hl]; cbn [negb].
  - destruct (m !! host) as [k|] eqn:Hk.
    + destruct (bool_decide (k = key)); (split; [done|]); intros h; cbn [fst snd];
        destruct (m !! h) eqn:Hh; try done; rewrite filter_cons;
        rewrite decide_False by (cbn; intros [-> _]; congruence); done.
    + split; [done|]. intros h. cbn [snd]. destruct (decide (h = host)) as [->|Hne].
      * by rewrite lookup_insert_eq, Hk, filter_cons, decide_True.
      * rewrite lookup_insert_ne by done. destruct (m !! h); [done|].
        rewrite filter_cons, decide_False by (cbn; naive_solver). done.
  - split; [done|]. intros h. cbn [snd]. destruct (m !! h); [done|].
    rewrite filter_cons, decide_False by (cbn; naive_solver). done.
Qed.

(** The three outcomes for a server's key. *)
Lemma verify_server_cases m host key :
  verify_server m host key = (Mismatch, m) ∨
  length key = KEY_LEN ∧ m !! host = None ∧ verify_server m host key = (New, <[host := key]> m) ∨
  length key = KEY_LEN ∧ m !! host = Some key ∧ verify_server m host key = (Match, m).
Proof.
  unfold verify_server, from_bytes, check_or_add, KnownHosts, PublicKey in *.
  destruct (Nat.eqb_spec (length key) KEY_LEN) as [Hl|]; [|by left].
  destruct (m !! host) as [k|]; [|by auto]. case_bool_decide; subst; auto.
Qed.

Lemma pin_cons m c cs h :
  pin m (c :: cs) h = match pin m [c] h with Some k => Some k | None => pin m cs h end.
Proof.
  unfold pin. destruct (m !! h); [done|]. rewrite !filter_cons.
  destruct (decide (c.1 = h ∧ length c.2 = KEY_LEN)); done.
Qed.

Lemma pin_step m m' c cs h : (∀ h, m' !! h = pin m [c] h) → pin m' cs h = pin m (c :: cs) h.
Proof.
  intros Hm. rewrite pin_cons, <- Hm. unfold pin. destruct (m' !! h) eqn:Hh; [done|].
  rewrite Hm in Hh. unfold pin in Hh. by destruct (m !! h).
Qed.

(** ** Text forms *)

Context {B64L : Base64Laws}.

Lemma solid_trim s : solid s → trim s = s.
Proof.
  intros Hs. destruct s as [|a s]; [done|]. destruct (last (a :: s)) as [b|] eqn:Hb.
  - apply (trim_id _ a b); [done|done|by apply Forall_cons_1 in Hs as []|].
    apply (proj1 (Forall_forall _ _) Hs). rewrite last_lookup in Hb.
    by eapply list_elem_of_lookup_2.
  - by apply last_None in Hb.
Qed.

Lemma key_type_solid : solid KEY_TYPE.
Proof. repeat constructor. Qed.

Lemma from_text_to_text k : key_wf k → from_text (key_to_text k) = Ok k.
Proof.
  intros [Hl Hb]. unfold from_text, key_to_text, to_base64. cbn [app].
  assert (b64_encode k ≠ []) by (apply b64_nonempty; by destruct k).
  rewrite split_whitespace_two by (done || apply key_type_solid || by apply b64_solid).
  cbn [head hd_error ok_or mbind result_bind]. rewrite bool_decide_eq_true_2 by done.
  cbn [negb lookup list_lookup ok_or mbind result_bind].
  unfold from_base64. rewrite solid_trim by by apply b64_solid. rewrite b64_decode_encode by done.
  cbn [ok_or mbind result_bind]. by apply from_bytes_ok.
Qed.

(** A label that stands for itself in the file. *)
Definition label_wf (host : list Z) : Prop := solid host ∧ skipped host = false.

Lemma split_once_solid host rest :
  solid host → split_once is_whitespace (host ++ 32 :: rest) = Some (host, rest).
Proof. intros. by apply split_once_app. Qed.

Lemma last_app_solid (a b : list Z) c : last b = Some c → last (a ++ b) = Some c.
Proof. intros H. rewrite last_app. by rewrite H. Qed.

Lemma key_to_text_last k : key_wf k → ∃ c, last (key_to_text k) = Some c ∧ is_whitespace c = false.
Proof.
  intros [Hl Hu]. unfold key_to_text, to_base64.
  assert (b64_encode k ≠ []) as Hne by (apply b64_nonempty; by destruct k).
  destruct (last (b64_encode k)) as [c|] eqn:Hc; [|by apply last_None in Hc].
  exists c. split; [by do 2 apply last_app_solid|].
  apply (proj1 (Forall_forall _ _) (b64_solid k Hu)). rewrite last_lookup in Hc.
  by eapply list_elem_of_lookup_2.
Qed.

(** One line of the store, read back. *)
Lemma known_parse_line_text m host k :
  label_wf host → key_wf k →
  known_parse_line m (host ++ 32 :: key_to_text k) = <[host := k]> m.
Proof.
  intros [Hs Hsk] Hk. unfold known_parse_line.
  destruct (key_to_text_last k Hk) as (c & Hc & Hcw).
  destruct host as [|a host]; [done|].
  pose proof (Forall_cons_1 _ _ _ Hs) as [Ha _].
  rewrite (trim_id _ a c); [|done| |done|done].
  2:{ rewrite cons_middle, (assoc_L (++)). by apply last_app_solid. }
  assert (skipped ((a :: host) ++ 32 :: key_to_text k) = false) as -> by exact Hsk.
  rewrite split_once_solid by done.
  rewrite (trim_id _ 110 c); [|done|done|done|done].
  by rewrite from_text_to_text.
Qed.

Lemma elem_of_labels (m : KnownHosts) h : h ∈ host_labels m ↔ is_Some (m !! h).
Proof.
  unfold host_labels, KnownHosts in *. rewrite merge_sort_Permutation, list_elem_of_fmap.
  split.
  - intros ([h' k] & -> & Hk%elem_of_map_to_list). by eexists.
  - intros [k Hk]. exists (h, k). split; [done|]. by apply elem_of_map_to_list.
Qed.

Definition pins_wf (m : KnownHosts) : Prop := ∀ h k, m !! h = Some k → label_wf h ∧ key_wf k.

(** The store's text, line by line. *)
Definition known_line (m : KnownHosts) (h : list Z) : list Z := h ++ 32 :: key_to_text (m !!! h).

Lemma lines_known (m : KnownHosts) ls :
  Forall (λ h, label_wf h ∧ key_wf (m !!! h)) ls →
  lines (concat ((λ h, h ++ [32] ++ key_to_text (m !!! h) ++ [10]) <$> ls)) = known_line m <$> ls.
Proof.
  unfold lines. induction 1 as [|h ls [[Hs _] Hk] _ IH]; [done|].
  cbn [fmap list_fmap concat].
  assert (∀ rest, (h ++ [32] ++ key_to_text (m !!! h) ++ [10]) ++ rest =
    known_line m h ++ 10 :: rest) as ->.
  { intros rest. unfold known_line. cbn [app]. rewrite <- !(assoc_L (++)). cbn [app].
    by rewrite <- (assoc_L (++)). }
  rewrite lines_from_app.
  - cbn [app]. destruct (key_to_text_last _ Hk) as (c & Hc & Hw).
    rewrite (strip_cr_id (known_line m h) c).
    + f_equal. exact IH.
    + unfold known_line. rewrite cons_middle, (assoc_L (++)). by apply last_app_solid.
    + intros ->. done.
  - unfold known_line, key_to_text, to_base64.
    rewrite elem_of_app, elem_of_cons, !elem_of_app. intros [Hin|[Hin|[Hin|[Hin|Hin]]]].
    + by apply (solid_not_in 10 h).
    + done.
    + by apply (solid_not_in 10 KEY_TYPE); [|apply key_type_solid|].
    + by apply list_elem_of_singleton in Hin.
    + by apply (solid_not_in 10 (b64_encode (m !!! h))); [|apply b64_solid, Hk|].
Qed.

Lemma parse_known_lines (m : KnownHosts) ls :
  Forall (λ h, label_wf h ∧ key_wf (m !!! h)) ls →
  ∀ m0 h, foldl known_parse_line m0 (known_line m <$> ls) !! h =
    if decide (h ∈ ls) then Some (m !!! h) else m0 !! h.
Proof.
  induction 1 as [|h' ls [Hw Hk] _ IH]; intros m0 h.
  { cbn. by rewrite decide_False by apply not_elem_of_nil. }
  cbn [fmap list_fmap foldl]. rewrite IH. unfold known_line. rewrite known_parse_line_text by done.
  unfold KnownHosts, PublicKey in *.
  destruct (decide (h ∈ ls)); [by rewrite decide_True by by right|].
  destruct (decide (h = h')) as [->|Hne].
  - rewrite lookup_insert_eq. by rewrite decide_True by by left.
  - rewrite lookup_insert_ne by done. by rewrite decide_False by (rewrite elem_of_cons; tauto).
Qed.

(** ** Properties *)

(** C11 Trust on first use: over any history of contacts, from any store, the key
    pinned for a host is the stored one or else the first valid key it showed,
    and never changes; a contact is [New] once, [Match] with the pinned key only,
    and [Mismatch] with every other key. *)
Theorem tofu_pins_first_key m cs :
  (∀ host, (contacts m cs).2 !! host = pin m cs host) ∧
  ∀ i host key, cs !! i = Some (host, key) →
    (contacts m cs).1 !! i = Some (tofu_verdict (pin m (take i cs) host) key).
Proof.
  revert m. induction cs as [|[host0 key0] cs IH]; intros m.
  { split; [|done]. intros host. unfold pin. cbn. by destruct (m !! host). }
  cbn [contacts]. destruct (verify_server_spec m host0 key0) as [Hv Hm].
  destruct (verify_server m host0 key0) as [t m1]. cbn [fst snd] in Hv, Hm.
  destruct (IH m1) as [IHm IHt]. destruct (contacts m1 cs) as [ts m2]. cbn [fst snd] in *.
  split.
  - intros host. rewrite IHm. by apply pin_step.
  - intros [|i] host key Hi.
    + injection Hi as <- <-. cbn. rewrite Hv. unfold pin. cbn. by destruct (m !! host0).
    + change ((t :: ts) !! S i) with (ts !! i). rewrite (IHt i host key Hi).
      do 2 f_equal. cbn [take]. by apply pin_step.
Qed.

(** The store survives its file: writing the pinned keys out and reading the
    text back gives exactly the same pins. *)
Theorem known_hosts_roundtrip (m : KnownHosts) :
  pins_wf m → known_parse (known_to_text m) = m.
Proof.
  intros Hm. assert (Forall (λ h, label_wf h ∧ key_wf (m !!! h)) (host_labels m)) as Hl.
  { apply Forall_forall. intros h [k Hk]%elem_of_labels. unfold KnownHosts in *.
    rewrite (lookup_total_correct m h k Hk). by apply Hm. }
  unfold known_parse, known_to_text. rewrite (lines_known m _ Hl).
  apply map_eq. intros h. rewrite (parse_known_lines m _ Hl). unfold KnownHosts in *.
  case_decide as Hin.
  - apply elem_of_labels in Hin as [k Hk]. unfold KnownHosts in *.
    by rewrite (lookup_total_correct m h k Hk), Hk.
  - rewrite lookup_empty. destruct (m !! h) as [k|] eqn:Hk; [|done].
    destruct Hin. apply elem_of_labels. by eexists.
Qed.

Lemma authorized_parse_keys ls : ∀ keys key,
  authorized_contains (foldl (λ keys line,
    let line := trim line in
    if skipped line then keys
    else match from_text line with
         | Ok key => keys ++ [(key, comment_of line)]
         | Err _ => keys
         end) keys ls) key = true ↔
  authorized_contains keys key = true ∨
  ∃ line, line ∈ ls ∧ skipped (trim line) = false ∧ from_text (trim line) = Ok key.
Proof.
  induction ls as [|line ls IH]; intros keys key; cbn [foldl].
  { split; [by left|]. intros [?|(? & []%not_elem_of_nil & _)]. done. }
  rewrite IH. cbn zeta.
  assert (∀ P, (∃ line', line' ∈ line :: ls ∧ P line') ↔
    P line ∨ ∃ line', line' ∈ ls ∧ P line') as Hex.
  { intros P. split.
    - intros (l & [->|?]%elem_of_cons & ?); [by left|right; eauto].
    - intros [?|(l & ? & ?)]; [exists line; split; [by left|done]|exists l; split; [by right|done]]. }
  rewrite Hex. destruct (skipped (trim line)) eqn:Hsk.
  { split; [tauto|]. intros [?|[[? _]|?]]; [tauto|done|tauto]. }
  destruct (from_text (trim line)) as [k|e] eqn:Hf.
  2:{ split; [tauto|]. intros [?|[[_ ?]|?]]; [tauto|done|tauto]. }
  unfold authorized_contains. rewrite existsb_app, orb_true_iff. cbn [existsb].
  rewrite orb_false_r, bool_decide_eq_true. split; intros Hc.
  - destruct Hc as [[?| ->]|?]; [by left|right; left; by split|by right; right].
  - destruct Hc as [?|[[_ [= ->]]|?]]; [by left; left|by left; right|by right].
Qed.

(** Authorization: with an [authorized_keys] file, a client is let in exactly
    when its 32-byte static key is that of some line that is neither blank nor a
    comment and parses; a malformed line grants nothing and hides nothing. *)
Theorem authorized_iff_listed contents client_static :
  authorize_client (authorized_parse contents) client_static = true ↔
  length client_static = KEY_LEN ∧
  ∃ line, line ∈ lines contents ∧ skipped (trim line) = false ∧
    from_text (trim line) = Ok client_static.
Proof.
  unfold authorize_client, from_bytes. destruct (Nat.eqb_spec (length client_static) KEY_LEN).
  - unfold authorized_parse. rewrite authorized_parse_keys. cbn [authorized_contains existsb].
    split; [intros [?|?]; [done|by split]|intros [_ ?]; by right].
  - split; [done|]. by intros [? _].
Qed.

Lemma foldl_delete (ls : list (list Z)) : ∀ (m : KnownHosts) h,
  foldl (λ m label, delete label m) m ls !! h = if decide (h ∈ ls) then None else m !! h.
Proof.
  unfold KnownHosts. induction ls as [|l ls IH]; intros m h; cbn [foldl].
  { by rewrite decide_False by apply not_elem_of_nil. }
  rewrite IH. destruct (decide (h ∈ ls)); [by rewrite decide_True by by right|].
  destruct (decide (h = l)) as [->|Hne].
  - rewrite lookup_delete_eq. by rewrite decide_True by by left.
  - rewrite lookup_delete_ne by done. by rewrite decide_False by (rewrite elem_of_cons; tauto).
Qed.

Lemma label_matches_spec host label :
  label_matches host label = true ↔ label = host ∨ ∃ port, label = host ++ [58] ++ port.
Proof.
  unfold label_matches. rewrite orb_true_iff, bool_decide_eq_true.
  destruct (strip_prefix (host ++ [58]) label) as [p|] eqn:Hp.
  - apply strip_prefix_spec in Hp. rewrite <- (assoc_L (++)) in Hp. split; [eauto|tauto].
  - split; [intros [?|?]; [tauto|done]|]. intros [?|[port Hl]]; [tauto|].
    rewrite (assoc_L (++)) in Hl. apply strip_prefix_spec in Hl. congruence.
Qed.

(** Forgetting a host removes its pins, under every port, and no other. *)
Lemma remove_matching_exact m host h :
  (h ∈ (remove_matching m host).1 ↔
    is_Some (m !! h) ∧ (h = host ∨ ∃ port, h = host ++ [58] ++ port)) ∧
  (remove_matching m host).2 !! h =
    if label_matches host h then None else m !! h.
Proof.
  unfold remove_matching. cbn [fst snd]. rewrite foldl_delete.
  assert (h ∈ filter (label_matches host) (host_labels m) ↔
    is_Some (m !! h) ∧ label_matches host h = true) as Hin.
  { rewrite list_elem_of_filter, elem_of_labels, Is_true_true. tauto. }
  split; [by rewrite Hin, label_matches_spec|].
  case_decide as Hd; rewrite Hin in Hd; [by destruct Hd as [_ ->]|].
  destruct (label_matches host h); [|done]. destruct (m !! h) eqn:Hh; [|done].
  destruct Hd. by split; [eexists|].
Qed.
End auth.

(** ** Witnesses *)

Section chars.
Context {B64 : Base64} `{!Base64Laws}.

(** The text is text. *)
Lemma key_to_text_chars k : key_wf k → Forall is_char (key_to_text k).
Proof.
  intros [_ Hu]. unfold key_to_text, to_base64. apply Forall_app_2;
    [apply (bool_decide_unpack _); vm_compute; exact I|].
  apply (Forall_app_2 _ [32]); [apply (bool_decide_unpack _); vm_compute; exact I|]. eapply Forall_impl; [by apply b64_ascii|]. unfold is_char. intros. lia.
Qed.

Lemma known_to_text_chars (m : KnownHosts) :
  pins_wf m → (∀ h k, m !! h = Some k → Forall is_char h) → Forall is_char (known_to_text m).
Proof.
  intros Hm Hc. unfold known_to_text. apply Forall_concat, Forall_fmap, Forall_forall.
  intros h [k Hk]%elem_of_labels. unfold compose, KnownHosts in *. rewrite (lookup_total_correct m h k Hk).
  apply Forall_app_2; [by eapply Hc|]. apply (Forall_app_2 _ [32]);
    [apply (bool_decide_unpack _); vm_compute; exact I|].
  apply Forall_app_2; [|apply (bool_decide_unpack _); vm_compute; exact I]. by apply key_to_text_chars, (Hm h).
Qed.

End chars.

(** A stand-in for the base64 engine: two letters per byte. *)
Definition sample_encode (bytes : list Z) : list Z :=
  concat ((λ b, [65 + b / 16; 65 + b mod 16]) <$> bytes).
Fixpoint sample_decode (s : list Z) : option (list Z) :=
  match s with
  | [] => Some []
  | a :: b :: s => cons ((a - 65) * 16 + (b - 65)) <$> sample_decode s
  | _ => None
  end.

Definition sample_base64 : Base64 := {| b64_encode := sample_encode; b64_decode := sample_decode |}.

Lemma letter_solid n : 0 ≤ n < 26 → is_whitespace (65 + n) = false.
Proof. unfold is_whitespace. lia. Qed.

Lemma sample_base64_laws : @Base64Laws sample_base64.
Proof.
  assert (∀ b, is_u8 b → 0 ≤ b / 16 < 26 ∧ 0 ≤ b mod 16 < 26) as Hb.
  { intros b Hb. unfold is_u8 in Hb. pose proof (Z.div_mod b 16 ltac:(lia)).
    pose proof (Z.mod_pos_bound b 16 ltac:(lia)).
    assert (b / 16 < 16) by (apply Z.div_lt_upper_bound; lia).
    assert (0 ≤ b / 16) by (apply Z.div_pos; lia). lia. }
  split; cbn.
  - induction 1 as [|b bytes Hu _ IH]; [done|]. cbn. unfold sample_encode in IH. rewrite IH. cbn.
    do 2 f_equal. pose proof (Z.div_mod b 16). lia.
  - induction 1 as [|b bytes Hu _ IH]; [by constructor|]. destruct (Hb b Hu).
    apply Forall_cons_2; [by apply letter_solid|]. apply Forall_cons_2; [by apply letter_solid|exact IH].
  - induction 1 as [|b bytes Hu _ IH]; [by constructor|]. destruct (Hb b Hu).
    do 2 (apply Forall_cons_2; [lia|]). exact IH.
  - intros [|b bytes]; [done|]. by intros _.
Qed.

Definition sample_key (b : Z) : PublicKey := replicate 32 b.

(** ["host:1"] and ["é"]. *)
Definition sample_hosts : KnownHosts :=
  {[ [104; 111; 115; 116; 58; 49] := sample_key 7; [0xe9] := sample_key 200 ]}.

Lemma known_hosts_roundtrip_witness :
  @known_parse sample_base64 (@known_to_text sample_base64 sample_hosts) = sample_hosts.
Proof.
  apply (@known_hosts_roundtrip sample_base64 sample_base64_laws). intros h k Hk.
  unfold sample_hosts, KnownHosts, PublicKey in Hk. apply lookup_insert_Some in Hk as [[<- <-]|[_ Hk]]; [|apply lookup_singleton_Some in Hk as [<- <-]];
    (split; [split; [repeat constructor|reflexivity]|split; [reflexivity|]]);
    apply Forall_replicate; lia_ints.
Defined.

Lemma tofu_pins_first_key_witness :
  (contacts sample_hosts [([97], sample_key 1); ([97], sample_key 2); ([97], sample_key 1)]).1 !!
    1%nat = Some Mismatch.
Proof.
  rewrite (proj2 (tofu_pins_first_key sample_hosts
    [([97], sample_key 1); ([97], sample_key 2); ([97], sample_key 1)]) 1%nat [97] (sample_key 2) eq_refl).
  vm_compute. reflexivity.
Defined.
