(* ===== verification/SshConfig.v ===== *)
(** * The [~/.ssh/config] subset ([src/sshconfig.rs])

    Glob patterns, [Host] lines and first-value-wins resolution. Reading the file
    and finding it are not modelled. *)

From S2P Require Import Prelude Text.

(** @ src/sshconfig.rs:20-28 HostConfig *)
Record HostConfig := mkHostConfig {
  hostname : option (list Z);
  user : option (list Z);
  port : option Z;
}.

(** The asterisk, the question mark and the exclamation mark. *)
Definition STAR : Z := 42.
Definition ANY : Z := 63.
Definition BANG : Z := 33.

(** The main loop: [Some (true, pi)] when the text is used up, [Some (false, _)]
    for [return false]; [None] only without fuel ([glob_loop_total]).
    @ src/sshconfig.rs:113-130 glob_match *)
Fixpoint glob_loop (fuel : nat) (p t : list Z) (pi ti : nat) (star : option nat) (mark : nat) :
    option (bool * nat) :=
  if negb (ti <? length t)%nat then Some (true, pi)
  else
    match fuel with
    | O => None
    | S fuel =>
      let pc := p !! pi in
      if match pc with Some c => (c =? ANY) || bool_decide (Some c = t !! ti) | None => false end
      then glob_loop fuel p t (S pi) (S ti) star mark
      else if bool_decide (pc = Some STAR) then glob_loop fuel p t (S pi) ti (Some pi) ti
      else
        match star with
        | Some s => glob_loop fuel p t (S s) (S mark) star (S mark)
        | None => Some (false, pi)
        end
    end.

(** The trailing stars: the loop that ends [glob_match]. *)
Fixpoint skip_stars (p : list Z) : list Z :=
  match p with
  | c :: p' => if c =? STAR then skip_stars p' else p
  | [] => []
  end.

(** Rounds enough for every input ([glob_loop_total]). *)
Definition glob_fuel (p t : list Z) : nat := (length t + 2) * (length p + 1).

(** @ src/sshconfig.rs:109-135 glob_match *)
Definition glob_match (p t : list Z) : option bool :=
  '(ended, pi) ← glob_loop (glob_fuel p t) p t 0 0 None 0;
  Some (ended && match skip_stars (drop pi p) with [] => true | _ => false end).

(** @ src/sshconfig.rs:95-105 host_patterns_match *)
Fixpoint patterns_loop (pats : list (list Z)) (alias : list Z) (matched : bool) : option bool :=
  match pats with
  | [] => Some matched
  | pat :: pats =>
    match strip_prefix [BANG] pat with
    | Some neg => m ← glob_match neg alias; if m : bool then Some false else patterns_loop pats alias matched
    | None => m ← glob_match pat alias; patterns_loop pats alias (if m : bool then true else matched)
    end
  end.
(** @ src/sshconfig.rs:94-106 host_patterns_match *)
Definition host_patterns_match (patterns alias : list Z) : option bool :=
  patterns_loop (split_whitespace patterns) alias false.

(** [to_ascii_lowercase] and [eq_ignore_ascii_case]. *)
Definition lower (s : list Z) : list Z :=
  (λ c, if (65 <=? c) && (c <=? 90) then c + 32 else c) <$> s.
Definition eq_ignore_case (a b : list Z) : bool := bool_decide (lower a = lower b).

Definition K_HOST : list Z := [72; 111; 115; 116].
Definition K_HOSTNAME : list Z := [104; 111; 115; 116; 110; 97; 109; 101].
Definition K_USER : list Z := [117; 115; 101; 114].
Definition K_PORT : list Z := [112; 111; 114; 116].

(** [raw.split('#').next().unwrap_or("").trim()]. *)
Definition uncomment (raw : list Z) : list Z :=
  trim (match split_once (Z.eqb 35) raw with Some (a, _) => a | None => raw end).

(** The keyword and the value of a line. @ src/sshconfig.rs:58-69 resolve *)
Definition key_value (raw : list Z) : option (list Z * list Z) :=
  let line := uncomment raw in
  match line with
  | [] => None
  | _ =>
    '(k, v) ← split_once (λ c, is_whitespace c || (c =? 61)) line;
    let value := trim (trim_start (λ c, (c =? 61) || (c =? 32) || (c =? 9)) v) in
    match value with [] => None | _ => Some (trim k, value) end
  end.

(** A setting of an active block: the first value of each key wins.
    @ src/sshconfig.rs:77-86 resolve *)
Definition set_option (out : HostConfig) (key value : list Z) : HostConfig :=
  let key := lower key in
  if bool_decide (key = K_HOSTNAME) && bool_decide (hostname out = None)
  then mkHostConfig (Some value) (user out) (port out)
  else if bool_decide (key = K_USER) && bool_decide (user out = None)
  then mkHostConfig (hostname out) (Some value) (port out)
  else if bool_decide (key = K_PORT) && bool_decide (port out = None)
  then match parse_uint 65535 value with
       | Some p => mkHostConfig (hostname out) (user out) (Some p)
       | None => out
       end
  else out.

(** @ src/sshconfig.rs:55-88 resolve *)
Fixpoint resolve_loop (raws : list (list Z)) (alias : list Z) (active : bool) (out : HostConfig) :
    option HostConfig :=
  match raws with
  | [] => Some out
  | raw :: raws =>
    match key_value raw with
    | None => resolve_loop raws alias active out
    | Some (key, value) =>
      if eq_ignore_case key K_HOST
      then a ← host_patterns_match value alias; resolve_loop raws alias a out
      else resolve_loop raws alias active (if active then set_option out key value else out)
    end
  end.
(** @ src/sshconfig.rs:51-89 resolve *)
Definition resolve (config_text alias : list Z) : option HostConfig :=
  resolve_loop (lines config_text) alias false (mkHostConfig None None None).

(** ** What a pattern means *)

Inductive globs : list Z → list Z → Prop :=
| globs_nil : globs [] []
| globs_any p c t : globs p t → globs (ANY :: p) (c :: t)
| globs_char c p t : c ≠ STAR → globs p t → globs (c :: p) (c :: t)
| globs_star_stop p t : globs p t → globs (STAR :: p) t
| globs_star_more p c t : globs (STAR :: p) t → globs (STAR :: p) (c :: t).

Lemma globs_star p t : globs (STAR :: p) t ↔ ∃ k, (k ≤ length t)%nat ∧ globs p (drop k t).
Proof.
  split.
  - intros H. remember (STAR :: p) as q eqn:Hq. induction H as [| |c q t Hc| |]; simplify_eq.
    + exists 0%nat. split; [lia|done].
    + destruct (IHglobs eq_refl) as (k & Hk & Hg). exists (S k). cbn. split; [lia|done].
  - intros (k & Hk & Hg). revert t Hk Hg. induction k as [|k IH]; intros t Hk Hg.
    + by apply globs_star_stop.
    + destruct t as [|c t]; cbn in *; [lia|]. apply globs_star_more, IH; [lia|done].
Qed.

(** A character that is not a star uses up exactly one of the text. *)
Lemma globs_cons_inv c p t :
  c ≠ STAR → globs (c :: p) t → ∃ d t', t = d :: t' ∧ (c = ANY ∨ c = d) ∧ globs p t'.
Proof. intros Hc H. inversion H; subst; try done; eauto 6. Qed.

Lemma globs_nil_inv t : globs [] t → t = [].
Proof. by inversion 1. Qed.

Lemma globs_prefix k : ∀ p t,
  (∀ j c, (j < k)%nat → p !! j = Some c → c ≠ STAR) → (k ≤ length p)%nat → globs p t →
  (k ≤ length t)%nat ∧ globs (drop k p) (drop k t).
Proof.
  induction k as [|k IH]; intros p t Hns Hk Hg; [split; [lia|done]|].
  destruct p as [|c p]; cbn in Hk; [lia|].
  apply globs_cons_inv in Hg as (d & t' & -> & _ & Hg); [|by apply (Hns 0%nat); [lia|]].
  destruct (IH p t') as [Hl Hg']; [|lia|done|cbn; split; [lia|done]].
  intros j c' Hj Hc'. apply (Hns (S j)); [lia|done].
Qed.

Lemma globs_empty p : globs p [] ↔ skip_stars p = [].
Proof.
  induction p as [|c p IH]; cbn; [by split; [|constructor]|].
  destruct (Z.eqb_spec c STAR) as [->|Hne].
  - rewrite <- IH. split; [|apply globs_star_stop]. by inversion 1.
  - split; [|done]. by inversion 1.
Qed.

(** ** The two-pointer loop *)

Section glob.
Context (p t : list Z) (Ht : STAR ∉ t).

(** The loop invariant: between the last star and [pi] there is no star, and as
    much text as pattern was used since. *)
Definition glob_good (pi ti : nat) (star : option nat) (mark : nat) : Prop :=
  (pi ≤ length p)%nat ∧ (mark ≤ ti ≤ length t)%nat ∧
  match star with
  | None => True
  | Some s => (s < pi)%nat ∧ (pi - S s = ti - mark)%nat ∧
      ∀ j c, (s < j < pi)%nat → p !! j = Some c → c ≠ STAR
  end.

(** What is left to try: go on from here, or let the last star take more. *)
Definition glob_alive (pi ti : nat) (star : option nat) (mark : nat) : Prop :=
  globs (drop pi p) (drop ti t) ∨
  ∃ s m, star = Some s ∧ (mark < m ≤ length t)%nat ∧ globs (drop (S s) p) (drop m t).

(** If the star takes more, what follows it is matched further on. *)
Lemma glob_later pi ti s mark m :
  glob_good pi ti (Some s) mark → (mark < m ≤ length t)%nat → globs (drop (S s) p) (drop m t) →
  (m + (ti - mark) ≤ length t)%nat ∧ globs (drop pi p) (drop (m + (ti - mark)) t).
Proof.
  intros (Hpi & Hti & Hs & Hk & Hns) Hm Hg.
  pose proof (globs_prefix (pi - S s) (drop (S s) p) (drop m t)) as Hp.
  destruct Hp as [Hl Hg'].
  - intros j c Hj Hc. rewrite lookup_drop in Hc. apply (Hns (S s + j)%nat); [lia|done].
  - rewrite length_drop. lia.
  - done.
  - rewrite length_drop in Hl. rewrite !drop_drop in Hg'.
    replace (S s + (pi - S s))%nat with pi in Hg' by lia.
    rewrite Hk in Hg', Hl. split; [lia|done].
Qed.

Lemma globs_star_earlier r n u : globs (STAR :: r) (drop n u) → globs (STAR :: r) u.
Proof.
  rewrite !globs_star. intros (k & Hk & Hg). rewrite length_drop in Hk.
  destruct (decide (n ≤ length u)%nat).
  - exists (n + k)%nat. split; [lia|]. by rewrite drop_drop in Hg.
  - exists (length u). split; [lia|]. rewrite drop_drop in Hg.
    rewrite drop_ge in Hg by lia. by rewrite drop_ge by lia.
Qed.

Lemma text_not_star ti d : t !! ti = Some d → d ≠ STAR.
Proof. intros Hd ->. apply Ht. by eapply list_elem_of_lookup_2. Qed.

(** The test of the first branch. *)
Definition char_matches (pc : option Z) (ti : nat) : bool :=
  match pc with Some c => (c =? ANY) || bool_decide (Some c = t !! ti) | None => false end.

Lemma char_matches_spec pi ti d :
  t !! ti = Some d →
  char_matches (p !! pi) ti = true ↔ ∃ c, p !! pi = Some c ∧ c ≠ STAR ∧ (c = ANY ∨ c = d).
Proof.
  intros Hd. pose proof (text_not_star ti d Hd). unfold char_matches. rewrite Hd.
  destruct (p !! pi) as [c|]; [|naive_solver].
  rewrite orb_true_iff, Z.eqb_eq, bool_decide_eq_true. split.
  - intros Hc. exists c. split; [done|]. destruct Hc as [->|[= ->]]; split; auto; done.
  - intros (c' & [= <-] & _ & [-> | ->]); auto.
Qed.

Lemma step_char pi ti star mark c d :
  p !! pi = Some c → t !! ti = Some d → c ≠ STAR → c = ANY ∨ c = d →
  glob_good pi ti star mark →
  glob_good (S pi) (S ti) star mark ∧
  (glob_alive (S pi) (S ti) star mark ↔ glob_alive pi ti star mark).
Proof.
  intros Hc Hd Hcn Hcd (Hpi & Hti & Hstar).
  pose proof (lookup_lt_Some _ _ _ Hc). pose proof (lookup_lt_Some _ _ _ Hd). split.
  - split; [lia|]. split; [lia|]. destruct star as [s|]; [|done].
    destruct Hstar as (Hs & Hk & Hns). split_and!; [lia|lia|]. intros j c' Hj Hc'.
    destruct (decide (j = pi)) as [->|]; [congruence|]. apply (Hns j); [lia|done].
  - unfold glob_alive. rewrite (drop_S p c pi Hc), (drop_S t d ti Hd).
    split; (intros [Hg|?]; [left|by right]).
    + destruct Hcd as [->| ->]; [by apply globs_any|by apply globs_char].
    + apply globs_cons_inv in Hg as (d' & t' & [= <- <-] & _ & Hg); done.
Qed.

(** A new star makes the earlier one useless. *)
Lemma step_star pi ti star mark :
  p !! pi = Some STAR → glob_good pi ti star mark →
  glob_good (S pi) ti (Some pi) ti ∧
  (glob_alive (S pi) ti (Some pi) ti ↔ glob_alive pi ti star mark).
Proof.
  intros Hc Hgood. pose proof Hgood as (Hpi & Hti & _). pose proof (lookup_lt_Some _ _ _ Hc) as Hlt.
  pose proof (drop_S p STAR pi Hc) as Hdp.
  split. { split; [lia|]. split; [lia|]. split_and!; [lia|lia|]. intros j c' Hj. lia. }
  unfold glob_alive. rewrite Hdp. split.
  - intros H. left. apply globs_star. destruct H as [Hg|(s & m & [= <-] & Hm & Hg)].
    + exists 0%nat. split; [lia|done].
    + exists (m - ti)%nat. rewrite length_drop, drop_drop. split; [lia|].
      by replace (ti + (m - ti))%nat with m by lia.
  - intros H. assert (globs (STAR :: drop (S pi) p) (drop ti t)) as Hg.
    { destruct H as [Hg|(s & m & -> & Hm & Hg)]; [done|].
      apply (glob_later pi ti s mark) in Hg as [Hl Hg]; [|done|done]. rewrite Hdp in Hg.
      apply (globs_star_earlier _ (m + (ti - mark) - ti)). rewrite drop_drop.
      by replace (ti + (m + (ti - mark) - ti))%nat with (m + (ti - mark))%nat by lia. }
    apply globs_star in Hg as (k & Hk & Hg). rewrite length_drop in Hk. rewrite drop_drop in Hg.
    destruct k as [|k]; [left; by rewrite Nat.add_0_r in Hg|right].
    exists pi, (ti + S k)%nat. split_and!; [done|lia|lia|done].
Qed.

(** Nothing matches here: only the last star can help. *)
Lemma no_match pi ti d :
  t !! ti = Some d → char_matches (p !! pi) ti = false → p !! pi ≠ Some STAR →
  ¬ globs (drop pi p) (drop ti t).
Proof.
  intros Hd Hm Hstar. rewrite (drop_S t d ti Hd). destruct (p !! pi) as [c|] eqn:Hc.
  - rewrite (drop_S p c pi Hc). intros (d' & t' & [= <- <-] & Hcd & _)%globs_cons_inv; [|congruence].
    rewrite <- not_true_iff_false, <- Hc, (char_matches_spec pi ti d Hd) in Hm. apply Hm.
    exists c. split_and!; [done|congruence|done].
  - apply lookup_ge_None_1 in Hc. rewrite drop_ge by lia. by intros ?%globs_nil_inv.
Qed.

Lemma step_back pi ti s mark :
  glob_good pi ti (Some s) mark → (ti < length t)%nat → ¬ globs (drop pi p) (drop ti t) →
  glob_good (S s) (S mark) (Some s) (S mark) ∧
  (glob_alive (S s) (S mark) (Some s) (S mark) ↔ glob_alive pi ti (Some s) mark).
Proof.
  intros (Hpi & Hti & Hs & Hk & Hns) Hlt Hno.
  split. { split; [lia|]. split; [lia|]. split_and!; [lia|lia|]. intros j c' Hj. lia. }
  unfold glob_alive. split.
  - intros [Hg|(s' & m & [= <-] & Hm & Hg)]; right.
    + exists s, (S mark). split_and!; [done|lia|lia|done].
    + exists s, m. split_and!; [done|lia|lia|done].
  - intros [?|(s' & m & [= <-] & Hm & Hg)]; [done|].
    destruct (decide (m = S mark)) as [->|]; [by left|right].
    exists s, m. split_and!; [done|lia|lia|done].
Qed.

Lemma glob_end pi star mark :
  glob_good pi (length t) star mark →
  globs (drop pi p) [] ↔ glob_alive pi (length t) star mark.
Proof.
  intros Hgood. unfold glob_alive. rewrite drop_all. split; [by left|].
  intros [?|(s & m & -> & Hm & Hg)]; [done|]. pose proof Hgood as (_ & Hti & _).
  apply (glob_later pi (length t) s mark) in Hg as [Hl _]; [lia|done|done].
Qed.

(** Enough rounds decide whether something is left to try. *)
Lemma glob_loop_spec fuel : ∀ pi ti star mark,
  glob_good pi ti star mark →
  ((length t + 1 - mark) * (length p + 1) + (length p - pi) ≤ fuel)%nat →
  ∃ ended pi', glob_loop fuel p t pi ti star mark = Some (ended, pi') ∧
    ((ended = true ∧ globs (drop pi' p) []) ↔ glob_alive pi ti star mark).
Proof.
  induction fuel as [|fuel IH]; intros pi ti star mark Hgood Hfuel;
    pose proof Hgood as (Hpi & Hti & _); [nia|].
  cbn [glob_loop]. destruct (Nat.ltb_spec ti (length t)) as [Hlt|Hge]; cbn [negb].
  2:{ exists true, pi. split; [done|]. assert (ti = length t) as -> by lia.
      rewrite <- (glob_end pi star mark Hgood). naive_solver. }
  destruct (lookup_lt_is_Some_2 t ti Hlt) as [d Hd].
  assert ((length t + 1 - mark) * (length p + 1) =
    (length t - mark) * (length p + 1) + (length p + 1))%nat as Hmul by nia.
  fold (char_matches (p !! pi) ti). destruct (char_matches (p !! pi) ti) eqn:Hm.
  { apply (char_matches_spec pi ti d Hd) in Hm as (c & Hc & Hcn & Hcd).
    pose proof (lookup_lt_Some _ _ _ Hc).
    destruct (step_char pi ti star mark c d Hc Hd Hcn Hcd Hgood) as [Hg Hal].
    setoid_rewrite <- Hal. apply IH; [done|lia]. }
  destruct (decide (p !! pi = Some STAR)) as [Hs|Hs];
    [rewrite bool_decide_eq_true_2 by done|rewrite bool_decide_eq_false_2 by done].
  { pose proof (lookup_lt_Some _ _ _ Hs). destruct (step_star pi ti star mark Hs Hgood) as [Hg Hal].
    setoid_rewrite <- Hal. apply IH; [done|nia]. }
  pose proof (no_match pi ti d Hd Hm Hs) as Hno. destruct star as [s|].
  - destruct (step_back pi ti s mark Hgood Hlt Hno) as [Hg Hal]. setoid_rewrite <- Hal.
    apply IH; [done|nia].
  - exists false, pi. split; [done|]. unfold glob_alive. naive_solver.
Qed.

(** The loop with its fuel decides the reference relation. *)
Lemma glob_match_spec : ∃ b, glob_match p t = Some b ∧ (b = true ↔ globs p t).
Proof.
  unfold glob_match.
  destruct (glob_loop_spec (glob_fuel p t) 0 0 None 0) as (e & pi & -> & Hiff).
  { split; [lia|]. split; [lia|done]. }
  { unfold glob_fuel. lia. }
  cbn [mbind option_bind]. eexists. split; [done|].
  assert (globs p t ↔ e = true ∧ globs (drop pi p) []) as ->.
  { rewrite Hiff. unfold glob_alive. cbn [drop]. naive_solver. }
  rewrite globs_empty, andb_true_iff. destruct (skip_stars _); naive_solver.
Qed.
End glob.

(** ** Properties *)

Lemma patterns_loop_spec alias pats : ∀ matched,
  STAR ∉ alias →
  ∃ b, patterns_loop pats alias matched = Some b ∧
    (b = true ↔
      (matched = true ∨ ∃ pat, pat ∈ pats ∧ strip_prefix [BANG] pat = None ∧ globs pat alias) ∧
      ∀ pat neg, pat ∈ pats → strip_prefix [BANG] pat = Some neg → ¬ globs neg alias).
Proof.
  intros matched Ha. revert matched. induction pats as [|pat pats IH]; intros matched.
  { exists matched. split; [done|]. split; [intros ->|].
    - split; [by left|]. by intros ? ? []%not_elem_of_nil.
    - by intros [[?|(? & []%not_elem_of_nil & _)] _]. }
  cbn [patterns_loop]. setoid_rewrite elem_of_cons.
  destruct (strip_prefix [BANG] pat) as [neg|] eqn:Hneg.
  - destruct (glob_match_spec neg alias Ha) as (m & -> & Hm). cbn [mbind option_bind]. destruct m.
    + exists false. split; [done|]. split; [done|]. intros [_ Hno].
      exfalso. by eapply (Hno pat neg); [left|..|apply Hm].
    + destruct (IH matched) as (b & -> & Hb). exists b. split; [done|]. rewrite Hb.
      assert (¬ globs neg alias) by (rewrite <- Hm; done). naive_solver.
  - destruct (glob_match_spec pat alias Ha) as (m & -> & Hm). cbn [mbind option_bind].
    destruct (IH (if m then true else matched)) as (b & -> & Hb). exists b. split; [done|].
    rewrite Hb. destruct m; naive_solver.
Qed.

(** C33 [Host] lines: for an alias that contains no asterisk the two-pointer matcher
    always ends, and the line applies exactly when some plain pattern matches the
    alias and no negated one does, by the inductive meaning of [*] and [?]. (For an
    alias with one it does not: [star_in_alias_mismatch].) *)
Theorem host_line_applies patterns alias :
  STAR ∉ alias →
  ∃ b, host_patterns_match patterns alias = Some b ∧
    (b = true ↔
      (∃ pat, pat ∈ split_whitespace patterns ∧ strip_prefix [BANG] pat = None ∧ globs pat alias) ∧
      ∀ pat neg, pat ∈ split_whitespace patterns → strip_prefix [BANG] pat = Some neg →
        ¬ globs neg alias).
Proof.
  intros Ha. unfold host_patterns_match.
  destruct (patterns_loop_spec alias (split_whitespace patterns) false Ha) as (b & -> & Hb).
  exists b. split; [done|]. rewrite Hb. naive_solver.
Qed.

(** An asterisk in the text meets an asterisk of the pattern as a plain
    character: [*] does not match ["*a"]. *)
Lemma star_in_alias_mismatch : glob_match [STAR] [STAR; 97] = Some false ∧ globs [STAR] [STAR; 97].
Proof. split; [reflexivity|]. repeat first [apply globs_star_more | apply globs_star_stop | constructor]. Qed.

(** ** Witnesses *)

(** The line [*.example.com !bad.*] for [web.example.com]. *)
Lemma host_line_applies_witness :
  host_patterns_match [42; 46; 101; 120; 32; 33; 98; 97; 100; 46; 42] [119; 101; 98; 46; 101; 120] =
    Some true ∧
  ¬ globs [98; 97; 100; 46; 42] [119; 101; 98; 46; 101; 120].
Proof.
  destruct (host_line_applies [42; 46; 101; 120; 32; 33; 98; 97; 100; 46; 42]
    [119; 101; 98; 46; 101; 120]) as (b & Hb & Hiff).
  - vm_compute. intros Hin. repeat (apply elem_of_cons in Hin as [Hin|Hin]; [discriminate|]).
    by apply not_elem_of_nil in Hin.
  - assert (b = true) as -> by (vm_compute in Hb; congruence). split; [exact Hb|].
    destruct (proj1 Hiff eq_refl) as [_ Hno].
    apply (Hno [33; 98; 97; 100; 46; 42]); [|reflexivity]. vm_compute.
    apply elem_of_cons. right. apply list_elem_of_singleton. reflexivity.
Defined.
