(* ===== verification/Pty.v ===== *)
(** * Pseudo-terminals ([crates/pty/src/lib.rs])

    A handle owns a pty and its child process; what the operating system answers
    is an argument of each operation, and what the operations do to it is a list
    of effects. *)

From S2P Require Import Prelude Text.

(** @ crates/pty/src/lib.rs:25-37 PtyError *)
Inductive PtyError :=
| PtyIo
| PtyPty
| WouldBlock
| UnknownUser
| PtyNix.

(** @ crates/pty/src/lib.rs:46-58 SpawnRequest *)
Record SpawnRequest := mkSpawnRequest {
  sr_user : option (list Z);
  sr_command : option (list (list Z));
  sr_env : list (list Z * list Z);
  sr_term : list Z;
  sr_rows : Z;
  sr_cols : Z;
}.

(** The pty and the child process are the operating system's, known by a number.
    @ crates/pty/src/lib.rs:74-78 PtyHandle *)
Record PtyHandle := mkPtyHandle { child : Z; status : option Z }.

(** What is done to a child and its terminal. *)
Inductive PtyEffect :=
| PtySpawned (child : Z) (req : SpawnRequest)
| PtyNonblocking (child : Z)
| PtyWritten (child : Z) (data : list Z)
| PtyWinsize (child rows cols : Z)
| PtyKilled (child : Z)
| PtyWaited (child : Z).

(** The answers that one call consumes, and those that are left; a script that is
    exhausted blocks.
    @ crates/pty/src/lib.rs:94-107 PtyHandle::read *)
Fixpoint pty_read (answers : list ReadAnswer) : result PtyError (list Z) * list ReadAnswer :=
  match answers with
  | [] => (Err WouldBlock, [])
  | RdData data :: rest => (Ok data, rest)
  | RdInterrupted :: rest => pty_read rest
  | RdWouldBlock :: rest => (Err WouldBlock, rest)
  | RdFailed :: rest => (Ok [], rest)
  end.

(** How a child ended. *)
Record ExitStatus := mkExitStatus { es_code : option Z; es_signal : option Z }.

(** @ crates/pty/src/lib.rs:163-166 status_code *)
Definition status_code (es : ExitStatus) : Z :=
  match es_code es with
  | Some c => c
  | None => 128 + default 0 (es_signal es)
  end.

(** @ crates/pty/src/lib.rs:121-133 PtyHandle::try_wait *)
Definition pty_try_wait (h : PtyHandle) (waited : result PtyError (option ExitStatus)) :
    result PtyError (option Z) * PtyHandle :=
  match status h with
  | Some s => (Ok (Some s), h)
  | None =>
    match waited with
    | Err e => (Err e, h)
    | Ok None => (Ok None, h)
    | Ok (Some es) => (Ok (Some (status_code es)), mkPtyHandle (child h) (Some (status_code es)))
    end
  end.

(** @ crates/pty/src/lib.rs:147-150 PtyHandle::kill *)
Definition pty_kill (h : PtyHandle) : list PtyEffect := [PtyKilled (child h)].

(** A handle that goes away kills and reaps its child, unless its status has been
    collected. @ crates/pty/src/lib.rs:154-159 PtyHandle::drop *)
Definition pty_drop (h : PtyHandle) : list PtyEffect :=
  match status h with
  | None => [PtyKilled (child h); PtyWaited (child h)]
  | Some _ => []
  end.

(** ** What is executed *)

(** The account database's entry of a user. *)
Record User := mkUser { user_name : list Z; user_dir : list Z; user_shell : list Z;
                        user_uid : Z; user_gid : Z }.

(** The command that is executed under the new pty. *)
Record Command := mkCommand {
  cmd_program : list Z;
  cmd_arg0 : option (list Z);
  cmd_args : list (list Z);
  cmd_dir : list Z;
  cmd_env : list (list Z * list Z);
  cmd_ids : option (Z * Z);
}.

(** [s.rsplit('/').next()]: what follows the last slash. *)
Fixpoint base_name (s : list Z) : list Z :=
  match s with
  | [] => []
  | c :: rest =>
    if bool_decide (47 ∈ rest) then base_name rest else if c =? 47 then rest else c :: rest
  end.

Definition TERM : list Z := [84; 69; 82; 77].
Definition HOME : list Z := [72; 79; 77; 69].
Definition USER : list Z := [85; 83; 69; 82].
Definition LOGNAME : list Z := [76; 79; 71; 78; 65; 77; 69].
Definition SHELL : list Z := [83; 72; 69; 76; 76].

(** The target user: [by_name] and [by_uid] are the account database's answers.
    @ crates/pty/src/lib.rs:172-177 spawn *)
Definition spawn_user (req : SpawnRequest) (by_name : list Z → result PtyError (option User))
    (by_uid : result PtyError (option User)) : result PtyError User :=
  u ← match sr_user req with Some name => by_name name | None => by_uid end;
  ok_or u UnknownUser.

(** [shell_var] is the variable [SHELL] of the server's environment.
    @ crates/pty/src/lib.rs:179-215 spawn *)
Definition spawn_command (req : SpawnRequest) (target : User) (shell_var : option (list Z)) :
    Command :=
  let shell := default (user_shell target) shell_var in
  let '(program, arg0, args) :=
    match sr_command req with
    | Some (c :: cs) => (c, None, cs)
    | _ => (shell, Some (45 :: base_name shell), [])
    end in
  {| cmd_program := program; cmd_arg0 := arg0; cmd_args := args; cmd_dir := user_dir target;
     cmd_env := [(TERM, sr_term req); (HOME, user_dir target); (USER, user_name target);
                 (LOGNAME, user_name target); (SHELL, shell)] ++ sr_env req;
     cmd_ids := match sr_user req with
                | Some _ => Some (user_uid target, user_gid target)
                | None => None
                end |}.

(** A login shell is the server's own [SHELL] where that is set, whoever the
    target user is. *)
Lemma login_shell_of_server req target sh :
  sr_command req = None → cmd_program (spawn_command req target (Some sh)) = sh.
Proof. intros Hc. unfold spawn_command. by rewrite Hc. Qed.
