(* ===== verification/Runtime.v ===== *)
(** * Runtime errors ([src/lib.rs])

    The errors of the socket-free cores, and the conversions that [?] inserts. *)

From S2P Require Import Prelude NoiseCore Session Handshake Auth.

Section runtime.
Context {N : Snow}.

(** @ src/lib.rs:26-67 RuntimeError *)
Inductive RuntimeError :=
| RtIo
| RtNoise (e : NoiseError)
| RtTransport (e : TransportError)
| RtHandshakeDriver (e : HandshakeError)
| RtAuth (e : AuthError)
| RtHandshake
| HostKeyMismatch (host : list Z)
| BadKeyFile
| Timeout
| BadAddress (why : list Z)
| SshFailed (why : list Z)
| Usage (why : list Z)
| Transfer (why : list Z)
| Exec (why : list Z).
End runtime.
