(* ===== verification/Server.v ===== *)
(** * The server core ([src/server.rs])

    [ServerCore]: the socket-free server.  It consumes packets and clock ticks and
    returns the packets to send; the pseudo-terminals it drives are reached
    through effects and answers ([Pty]).  A step that would panic, at a slice, copy
    or index of this file or of the components it calls, is [None].

    The two hash maps are finite maps; where the code iterates over one, the
    order is an argument. *)

From stdpp Require Import gmap.
From S2P Require Import Prelude Wire Input NoiseCore Session Handshake Stream Mux Cell Text Grid GridOps.
From S2P Require Import Shell Control Auth Pty Runtime.

(** @ src/server.rs:42-42 EXIT_RETRANSMIT_TICKS *)
Definition EXIT_RETRANSMIT_TICKS : Z := 50.
(** @ src/server.rs:48-48 IDLE_REAP_TICKS *)
Definition IDLE_REAP_TICKS : Z := 20000.
(** @ src/server.rs:52-52 MAX_PENDING_HANDSHAKES *)
Definition MAX_PENDING_HANDSHAKES : nat := 512.

(** ** The agent socket's path *)

(** [format!("{b:02x}")] *)
Definition hex_digit (v : Z) : Z := if v <? 10 then 48 + v else 87 + v.
Definition hex2 (b : Z) : list Z := [hex_digit (b / 16); hex_digit (b mod 16)].

(** [Path::join] of a relative name. *)
Definition path_join (dir name : list Z) : list Z :=
  match last dir with
  | None => name
  | Some c => if c =? 47 then dir ++ name else dir ++ [47] ++ name
  end.

Definition NOISSH_ : list Z := [110; 111; 105; 115; 115; 104; 45].
Definition AGENT_ : list Z := [97; 103; 101; 110; 116; 45].
Definition SOCK : list Z := [46; 115; 111; 99; 107].
Definition SSH_AUTH_SOCK : list Z := [83; 83; 72; 95; 65; 85; 84; 72; 95; 83; 79; 67; 75].

(** What the process learns from its environment: its version (fixed when it was
    built), its user and process ids and the directory of temporary files. *)
Record Process := mkProcess {
  p_version : list Z;
  p_uid : Z;
  p_id : Z;
  p_temp_dir : list Z;
}.

(** @ src/server.rs:56-59 agent_socket_dir *)
Definition agent_socket_dir (p : Process) : list Z :=
  path_join (p_temp_dir p) (NOISSH_ ++ digits (p_uid p)).

(** @ src/server.rs:65-71 agent_socket_path *)
Definition agent_socket_path (p : Process) (sid : SessionId) : list Z :=
  path_join (agent_socket_dir p) (AGENT_ ++ digits (p_id p) ++ [45] ++ concat (hex2 <$> sid) ++ SOCK).

Section server.
Context (char_width : Z → nat) {V : Vte} {N : Snow} {SocketAddr : Type} (p : Process).

(** ** State *)

(** @ src/server.rs:17-38 ServerSession *)
Record ServerSession := mkServerSession {
  session : Session (SocketAddr := SocketAddr);
  shell : option ServerShell;
  pty : option PtyHandle;
  s_rows : Z;
  s_cols : Z;
  client_key : list Z;
  idle_ticks : Z;
  exit_status : option Z;
  exit_ticks : Z;
  mux : StreamMux;
  version_sent : bool;
}.

Definition set_session v s := mkServerSession v (shell s) (pty s) (s_rows s) (s_cols s)
  (client_key s) (idle_ticks s) (exit_status s) (exit_ticks s) (mux s) (version_sent s).
Definition set_shell v s := mkServerSession (session s) v (pty s) (s_rows s) (s_cols s)
  (client_key s) (idle_ticks s) (exit_status s) (exit_ticks s) (mux s) (version_sent s).
Definition set_pty v s := mkServerSession (session s) (shell s) v (s_rows s) (s_cols s)
  (client_key s) (idle_ticks s) (exit_status s) (exit_ticks s) (mux s) (version_sent s).
Definition set_window r c s := mkServerSession (session s) (shell s) (pty s) r c
  (client_key s) (idle_ticks s) (exit_status s) (exit_ticks s) (mux s) (version_sent s).
Definition set_idle_ticks v s := mkServerSession (session s) (shell s) (pty s) (s_rows s) (s_cols s)
  (client_key s) v (exit_status s) (exit_ticks s) (mux s) (version_sent s).
Definition set_exit e t s := mkServerSession (session s) (shell s) (pty s) (s_rows s) (s_cols s)
  (client_key s) (idle_ticks s) e t (mux s) (version_sent s).
Definition set_mux v s := mkServerSession (session s) (shell s) (pty s) (s_rows s) (s_cols s)
  (client_key s) (idle_ticks s) (exit_status s) (exit_ticks s) v (version_sent s).
Definition set_version_sent v s := mkServerSession (session s) (shell s) (pty s) (s_rows s) (s_cols s)
  (client_key s) (idle_ticks s) (exit_status s) (exit_ticks s) (mux s) v.

(** [login] is the login backend: the answers of its [spawn] calls to come (a
    child, or an error), the pty effects so far being [pty_log].
    @ src/server.rs:75-93 ServerCore *)
Record ServerCore := mkServerCore {
  keypair : Keypair;
  authorized : AuthorizedKeys;
  login : list (result PtyError Z);
  command : option (list (list Z));
  user : option (list Z);
  pending : gmap SessionId (Handshaker (N := N));
  sessions : gmap SessionId ServerSession;
  ever_active : bool;
  stream_events : list (SessionId * StreamEvent);
  remote_forward_requests : list (SessionId * Z * list Z);
  agent_socket_requests : list (SessionId * list Z);
  pty_log : list PtyEffect;
}.

Definition set_login v c := mkServerCore (keypair c) (authorized c) v (command c) (user c)
  (pending c) (sessions c) (ever_active c) (stream_events c) (remote_forward_requests c)
  (agent_socket_requests c) (pty_log c).
Definition set_pending v c := mkServerCore (keypair c) (authorized c) (login c) (command c) (user c)
  v (sessions c) (ever_active c) (stream_events c) (remote_forward_requests c)
  (agent_socket_requests c) (pty_log c).
Definition set_sessions v c := mkServerCore (keypair c) (authorized c) (login c) (command c) (user c)
  (pending c) v (ever_active c) (stream_events c) (remote_forward_requests c)
  (agent_socket_requests c) (pty_log c).
Definition set_ever_active v c := mkServerCore (keypair c) (authorized c) (login c) (command c) (user c)
  (pending c) (sessions c) v (stream_events c) (remote_forward_requests c)
  (agent_socket_requests c) (pty_log c).
Definition set_stream_events v c := mkServerCore (keypair c) (authorized c) (login c) (command c) (user c)
  (pending c) (sessions c) (ever_active c) v (remote_forward_requests c)
  (agent_socket_requests c) (pty_log c).
Definition set_remote_forward_requests v c := mkServerCore (keypair c) (authorized c) (login c)
  (command c) (user c) (pending c) (sessions c) (ever_active c) (stream_events c) v
  (agent_socket_requests c) (pty_log c).
Definition set_agent_socket_requests v c := mkServerCore (keypair c) (authorized c) (login c)
  (command c) (user c) (pending c) (sessions c) (ever_active c) (stream_events c)
  (remote_forward_requests c) v (pty_log c).
Definition log (es : list PtyEffect) c := mkServerCore (keypair c) (authorized c) (login c)
  (command c) (user c) (pending c) (sessions c) (ever_active c) (stream_events c)
  (remote_forward_requests c) (agent_socket_requests c) (pty_log c ++ es).

(** Replace session [sid] ([self.sessions.get_mut(&sid)]). *)
Definition put_session (sid : SessionId) (s : ServerSession) (c : ServerCore) : ServerCore :=
  set_sessions (<[sid := s]> (sessions c)) c.

(** @ src/server.rs:98-117 ServerCore::new *)
Definition server_core_new (keypair : Keypair) (authorized : AuthorizedKeys)
    (login : list (result PtyError Z)) (command : option (list (list Z))) : ServerCore :=
  {| keypair := keypair; authorized := authorized; login := login; command := command;
     user := None; pending := ∅; sessions := ∅; ever_active := false; stream_events := [];
     remote_forward_requests := []; agent_socket_requests := []; pty_log := [] |}.

(** @ src/server.rs:120-123 ServerCore::with_user *)
Definition with_user (u : option (list Z)) (c : ServerCore) : ServerCore :=
  mkServerCore (keypair c) (authorized c) (login c) (command c) u (pending c) (sessions c)
    (ever_active c) (stream_events c) (remote_forward_requests c) (agent_socket_requests c) (pty_log c).

(** @ src/server.rs:132-134 ServerCore::privsep_active *)
Definition privsep_active (c : ServerCore) : bool := bool_decide (is_Some (user c)).

(** @ src/server.rs:138-140 ServerCore::all_done *)
Definition all_done (c : ServerCore) : bool :=
  ever_active c && forallb (λ x, bool_decide (is_Some (exit_status x.2))) (map_to_list (sessions c)).

(** @ src/server.rs:148-151 ServerCore::with_command *)
Definition with_command (cmd : list (list Z)) (c : ServerCore) : ServerCore :=
  mkServerCore (keypair c) (authorized c) (login c) (Some cmd) (user c) (pending c) (sessions c)
    (ever_active c) (stream_events c) (remote_forward_requests c) (agent_socket_requests c) (pty_log c).

(** @ src/server.rs:153-155 ServerCore::session_count *)
Definition session_count (c : ServerCore) : nat := size (sessions c).

(** @ src/server.rs:158-160 ServerCore::public_key *)
Definition public_key (c : ServerCore) : list Z := public (keypair c).

(** ** Control messages *)

(** A [spawn] call takes the next answer of the login backend; an exhausted
    script is an error. *)
Definition spawn_call (req : SpawnRequest) (c : ServerCore) : option PtyHandle * ServerCore :=
  match login c with
  | Ok n :: rest => (Some (mkPtyHandle n None), log [PtySpawned n req] (set_login rest c))
  | Err _ :: rest => (None, set_login rest c)
  | [] => (None, c)
  end.

(** @ src/server.rs:367-411 ServerCore::handle_control *)
Definition open_shell (sid : SessionId) (cols rows : Z) (term : list Z) (agent : bool)
    (c : ServerCore) : ServerCore :=
  match sessions c !! sid with
  | None => c
  | Some sess =>
    if bool_decide (is_Some (pty sess)) then c
    else
      let agent_path :=
        if agent && negb (privsep_active c) then Some (agent_socket_path p sid) else None in
      let env := match agent_path with Some path => [(SSH_AUTH_SOCK, path)] | None => [] end in
      let req := {| sr_user := user c; sr_command := command c; sr_env := env; sr_term := term;
                    sr_rows := rows; sr_cols := cols |} in
      match spawn_call req c with
      | (None, c) => c
      | (Some handle, c) =>
        let c := log [PtyNonblocking (child handle)] c in
        let sess := set_pty (Some handle)
          (set_shell (Some (server_new (Z.to_nat rows) (Z.to_nat cols))) (set_window rows cols sess)) in
        let c := put_session sid sess c in
        match agent_path with
        | Some path => set_agent_socket_requests (agent_socket_requests c ++ [(sid, path)]) c
        | None => c
        end
      end
  end.

(** @ src/server.rs:412-424 ServerCore::handle_control *)
Definition resize_session (sid : SessionId) (cols rows : Z) (c : ServerCore) : option ServerCore :=
  match sessions c !! sid with
  | None => Some c
  | Some sess =>
    let sess := set_window rows cols sess in
    let c := match pty sess with
             | Some h => log [PtyWinsize (child h) rows cols] c
             | None => c
             end in
    match shell sess with
    | None => Some (put_session sid sess c)
    | Some sh =>
      sh ← shell_resize sh (Z.to_nat rows) (Z.to_nat cols);
      Some (put_session sid (set_shell (Some sh) sess) c)
    end
  end.

(** The client is done; a status that is already there is kept.
    @ src/server.rs:428-436 ServerCore::handle_control *)
Definition finish_session (sid : SessionId) (c : ServerCore) : ServerCore :=
  match sessions c !! sid with
  | None => c
  | Some sess => put_session sid (set_exit (Some (default 0 (exit_status sess))) 0 sess) c
  end.

(** @ src/server.rs:365-439 ServerCore::handle_control *)
Definition handle_control (sid : SessionId) (msg : ControlMsg) (c : ServerCore) : option ServerCore :=
  match msg with
  | OpenShell cols rows term agent => Some (open_shell sid cols rows term agent c)
  | MResize cols rows => resize_session sid cols rows c
  | RemoteForward bind_port target =>
    Some (set_remote_forward_requests (remote_forward_requests c ++ [(sid, bind_port, target)]) c)
  | Bye => Some (finish_session sid c)
  | _ => Some c
  end.

(** ** Packets of an established session *)

(** New input: what is fresh is written to the pty, and all of it acknowledged.
    @ src/server.rs:306-316 ServerCore::handle_transport *)
Definition on_input (sid : SessionId) (offset : Z) (data : list Z) (c : ServerCore) :
    option (ServerCore * list Frame) :=
  match sessions c !! sid with
  | None => Some (c, [])
  | Some sess =>
    match shell sess with
    | None => Some (c, [])
    | Some sh =>
      '(fresh, ack, sh) ← ingest_input_checked sh offset data;
      let c := match pty sess with
               | Some h => log [PtyWritten (child h) fresh] c
               | None => c
               end in
      Some (put_session sid (set_shell (Some sh) sess) c, [ack])
    end
  end.

(** @ src/server.rs:317-323 ServerCore::handle_transport *)
Definition on_client_ack (sid : SessionId) (q : Z) (c : ServerCore) : ServerCore :=
  match sessions c !! sid with
  | None => c
  | Some sess =>
    match shell sess with
    | None => c
    | Some sh => put_session sid (set_shell (Some (on_state_ack sh q)) sess) c
    end
  end.

(** One frame of a packet: the new state and the replies.
    @ src/server.rs:305-340 ServerCore::handle_transport *)
Definition server_frame (sid : SessionId) (f : Frame) (c : ServerCore) :
    option (ServerCore * list Frame) :=
  match f with
  | Input offset data => on_input sid offset data c
  | Ack q => Some (on_client_ack sid q c, [])
  | Wire.Control data =>
    decoded ← decode_msg_checked data;
    match decoded with
    | Ok msg => c ← handle_control sid msg c; Some (c, [])
    | Err _ => Some (c, [])
    end
  | Ping stamp => Some (c, [Pong stamp])
  | StreamOpen _ _ _ | StreamData _ _ _ _ | StreamAck _ _ _ | StreamClose _ _ | StreamReset _ =>
    match sessions c !! sid with
    | None => Some (c, [])
    | Some sess =>
      m ← on_frame_checked (mux sess) f;
      Some (put_session sid (set_mux m sess) c, [])
    end
  | _ => Some (c, [])
  end.

Fixpoint server_frames (sid : SessionId) (fs : list Frame) (c : ServerCore) :
    option (ServerCore * list Frame) :=
  match fs with
  | [] => Some (c, [])
  | f :: fs =>
    '(c, r1) ← server_frame sid f c;
    '(c, r2) ← server_frames sid fs c;
    Some (c, r1 ++ r2)
  end.

(** Surface the events of the session's streams.
    @ src/server.rs:342-349 ServerCore::handle_transport *)
Definition surface_events (sid : SessionId) (c : ServerCore) : ServerCore :=
  match sessions c !! sid with
  | None => c
  | Some sess =>
    let '(evs, m) := take_events (mux sess) in
    let c := put_session sid (set_mux m sess) c in
    set_stream_events (stream_events c ++ (pair sid <$> evs)) c
  end.

(** Seal the replies, if there are any and the peer's address is known.
    @ src/server.rs:350-362 ServerCore::handle_transport *)
Definition send_replies (sid : SessionId) (replies : list Frame) (c : ServerCore) :
    result RuntimeError (list (SocketAddr * list Z)) * ServerCore :=
  match replies, sessions c !! sid with
  | [], _ | _, None => (Ok [], c)
  | _, Some sess =>
    match peer_addr (session sess) with
    | None => (Ok [], c)
    | Some addr =>
      let '(r, sn) := seal_many (session sess) replies MAX_DATAGRAM_PLAINTEXT in
      let c := put_session sid (set_session sn sess) c in
      match r with
      | Ok pkts => (Ok (pair addr <$> pkts), c)
      | Err e => (Err (RtTransport e), c)
      end
    end
  end.

(** @ src/server.rs:287-363 ServerCore::handle_transport *)
Definition handle_transport (src : SocketAddr) (sid : SessionId) (buf : list Z) (c : ServerCore) :
    option (result RuntimeError (list (SocketAddr * list Z)) * ServerCore) :=
  match sessions c !! sid with
  | None => Some (Ok [], c)
  | Some sess =>
    opened ← open_checked (session sess) src buf;
    match opened with
    | (Err e, sn) => Some (Err (RtTransport e), put_session sid (set_session sn sess) c)
    | (Ok frames, sn) =>
      let c := put_session sid (set_idle_ticks 0 (set_session sn sess)) c in
      '(c, replies) ← server_frames sid frames c;
      Some (send_replies sid replies (surface_events sid c))
    end
  end.

(** ** Handshakes *)

Definition reattachable (key : list Z) (s : ServerSession) : bool :=
  bool_decide (client_key s = key) && bool_decide (exit_status s = None)
  && (bool_decide (is_Some (shell s)) || bool_decide (is_Some (pty s))).

(** The first session, in the map's order, of this key whose shell still runs.
    @ src/server.rs:248-253 ServerCore::handle_handshake *)
Fixpoint find_existing (order : list SessionId) (key : list Z) (c : ServerCore) :
    option SessionId :=
  match order with
  | [] => None
  | k :: order =>
    match sessions c !! k with
    | Some s => if reattachable key s then Some k else find_existing order key c
    | None => find_existing order key c
    end
  end.

(** @ src/server.rs:255-267 ServerCore::handle_handshake *)
Definition fresh_session (sn : Session (SocketAddr := SocketAddr)) (key : list Z) : ServerSession :=
  {| session := sn; shell := None; pty := None; s_rows := 24; s_cols := 80; client_key := key;
     idle_ticks := 0; exit_status := None; exit_ticks := 0; mux := mux_new false;
     version_sent := false |}.

(** The shell and pty of the old session move onto the new one.
    @ src/server.rs:271-277 ServerCore::handle_handshake *)
Definition take_over (old : ServerSession) (s : ServerSession) : ServerSession :=
  set_window (s_rows old) (s_cols old)
    (set_pty (pty old) (set_shell (rebind_to_new_client <$> shell old) s)).

(** @ src/server.rs:242-280 ServerCore::handle_handshake *)
Definition establish (order : list SessionId) (sid : SessionId)
    (sn : Session (SocketAddr := SocketAddr)) (key : list Z) (c : ServerCore) : ServerCore :=
  let new_sess := fresh_session sn key in
  let '(new_sess, c) :=
    match find_existing order key c with
    | None => (new_sess, c)
    | Some old_sid =>
      match sessions c !! old_sid with
      | None => (new_sess, c)
      | Some old => (take_over old new_sess, set_sessions (delete old_sid (sessions c)) c)
      end
    end in
  set_ever_active true (put_session sid new_sess c).

(** @ src/server.rs:188-215 ServerCore::handle_handshake *)
Definition handshake_entry (sid : SessionId) (body : list Z) (c : ServerCore) :
    result RuntimeError (option (Handshaker * bool)) * ServerCore :=
  match pending c !! sid with
  | Some hs => (Ok (Some (hs, true)), set_pending (delete sid (pending c)) c)
  | None =>
    if (length body + 9 <? MIN_HANDSHAKE_INIT)%nat then (Ok None, c)
    else if (MAX_PENDING_HANDSHAKES <=? size (pending c))%nat then (Ok None, c)
    else
      match handshaker_server (private (keypair c)) sid (as_bytes (p_version p)) with
      | Ok hs => (Ok (Some (hs, false)), c)
      | Err e => (Err (RtHandshakeDriver e), c)
      end
  end.

(** @ src/server.rs:179-285 ServerCore::handle_handshake *)
Definition handle_handshake (order : list SessionId) (src : SocketAddr) (sid : SessionId)
    (body : list Z) (c : ServerCore) :
    result RuntimeError (list (SocketAddr * list Z)) * ServerCore :=
  if bool_decide (is_Some (sessions c !! sid)) then (Ok [], c)
  else
    match handshake_entry sid body c with
    | (Err e, c) => (Err e, c)
    | (Ok None, c) => (Ok [], c)
    | (Ok (Some (hs, was_pending)), c) =>
      match hs_step hs body with
      | (Err _, hs) =>
        (Ok [], if (was_pending : bool) then set_pending (<[sid := hs]> (pending c)) c else c)
      | (Ok outcome, hs) =>
        let out := match reply outcome with Some r => [(src, r)] | None => [] end in
        if hs_finished outcome then
          match hs_remote_static hs with
          | None => (Err RtHandshake, c)
          | Some key =>
            if negb (authorize_client (authorized c) key) then (Ok out, c)
            else
              match into_session hs (Some src) with
              | Err e => (Err (RtHandshakeDriver e), c)
              | Ok sn => (Ok out, establish order sid sn key c)
              end
          end
        else (Ok out, set_pending (<[sid := hs]> (pending c)) c)
      end
    end.

(** @ src/server.rs:168-177 ServerCore::try_handle_packet *)
Definition try_handle_packet (order : list SessionId) (src : SocketAddr) (buf : list Z)
    (c : ServerCore) : option (result RuntimeError (list (SocketAddr * list Z)) * ServerCore) :=
  parsed ← parse_packet_checked buf;
  match parsed with
  | Err e => Some (Err (RtTransport e), c)
  | Ok (PktHandshake sid body) => Some (handle_handshake order src sid body c)
  | Ok (PktTransport sid _ _) => handle_transport src sid buf c
  end.

(** Errors are dropped silently. @ src/server.rs:163-166 ServerCore::handle_packet *)
Definition handle_packet (order : list SessionId) (src : SocketAddr) (buf : list Z)
    (c : ServerCore) : option (list (SocketAddr * list Z) * ServerCore) :=
  '(r, c) ← try_handle_packet order src buf c;
  Some (match r with Ok out => out | Err _ => [] end, c).

(** ** Ticks *)

(** What the operating system answers during one tick: the results of the reads
    of each pty, and of the check whether its child has exited. *)
Record TickIo := mkTickIo {
  io_reads : SessionId → list (result PtyError (list Z));
  io_waits : SessionId → result PtyError (option ExitStatus);
}.

(** The part of a tick's result that one session adds. *)
Record TickOut := mkTickOut {
  t_out : list (SocketAddr * list Z);
  t_events : list (SessionId * StreamEvent);
  t_log : list PtyEffect;
  t_finished : list SessionId;
}.

(** Announce the version, once a seal succeeds.
    @ src/server.rs:466-474 ServerCore::tick *)
Definition announce (s : ServerSession) : ServerSession * list (SocketAddr * list Z) :=
  if version_sent s then (s, [])
  else
    match peer_addr (session s) with
    | None => (s, [])
    | Some addr =>
      match seal (session s) [Wire.Control (encode_msg (ServerVersion (p_version p)))] with
      | (Ok pkt, sn) => (set_version_sent true (set_session sn s), [(addr, pkt)])
      | (Err _, sn) => (set_session sn s, [])
      end
    end.

(** Feed the output that is there to the shell, and its answers to the child.
    @ src/server.rs:477-497 ServerCore::tick *)
Fixpoint drain_pty (h : PtyHandle) (reads : list (result PtyError (list Z)))
    (sh : option ServerShell) : option (option ServerShell * list PtyEffect) :=
  match reads with
  | [] | Ok [] :: _ | Err _ :: _ => Some (sh, [])
  | Ok chunk :: reads =>
    match sh with
    | None => drain_pty h reads None
    | Some sh =>
      sh ← feed_output char_width sh chunk;
      let '(reply, sh) := shell_take_responses sh in
      '(sh, es) ← drain_pty h reads (Some sh);
      Some (sh, match reply with [] => [] | _ => [PtyWritten (child h) reply] end ++ es)
    end
  end.

(** @ src/server.rs:476-498 ServerCore::tick *)
Definition drain (reads : list (result PtyError (list Z))) (s : ServerSession) :
    option (ServerSession * list PtyEffect) :=
  match pty s with
  | None => Some (s, [])
  | Some h => '(sh, es) ← drain_pty h reads (shell s); Some (set_shell sh s, es)
  end.

(** A state diff if the client is behind. @ src/server.rs:500-506 ServerCore::tick *)
Definition emit_diff (s : ServerSession) :
    option (ServerSession * list (SocketAddr * list Z)) :=
  match shell s, peer_addr (session s) with
  | Some sh, Some addr =>
    polled ← poll_diff_checked sh;
    Some match polled with
    | (None, sh) => (set_shell (Some sh) s, [])
    | (Some diff, sh) =>
      match seal (session s) [diff] with
      | (Ok pkt, sn) => (set_session sn (set_shell (Some sh) s), [(addr, pkt)])
      | (Err _, sn) => (set_session sn (set_shell (Some sh) s), [])
      end
    end
  | _, _ => Some (s, [])
  end.

(** @ src/server.rs:508-521 ServerCore::tick *)
Definition emit_streams (sid : SessionId) (s : ServerSession) :
    option (ServerSession * list (SocketAddr * list Z) * list (SessionId * StreamEvent)) :=
  '(stream_frames, m) ← poll_transmit_checked (mux s);
  let '(evs, m) := take_events m in
  let s := set_mux m s in
  let events := pair sid <$> evs in
  Some match stream_frames, peer_addr (session s) with
  | [], _ | _, None => (s, [], events)
  | _, Some addr =>
    match seal_many (session s) stream_frames MAX_DATAGRAM_PLAINTEXT with
    | (Ok pkts, sn) => (set_session sn s, pair addr <$> pkts, events)
    | (Err _, sn) => (set_session sn s, [], events)
    end
  end.

(** The child's exit releases the pty. @ src/server.rs:523-529 ServerCore::tick *)
Definition detect_exit (waited : result PtyError (option ExitStatus)) (s : ServerSession) :
    ServerSession * list PtyEffect :=
  match exit_status s, pty s with
  | None, Some h =>
    match pty_try_wait h waited with
    | (Ok (Some st), h) => (set_pty None (set_exit (Some st) (exit_ticks s) s), pty_drop h)
    | (_, h) => (set_pty (Some h) s, [])
    end
  | _, _ => (s, [])
  end.

(** @ src/server.rs:532-544 ServerCore::tick *)
Definition exit_notice (sid : SessionId) (s : ServerSession) :
    ServerSession * list (SocketAddr * list Z) * list SessionId :=
  match exit_status s with
  | None => (s, [], [])
  | Some st =>
    let '(s, out) :=
      match peer_addr (session s) with
      | None => (s, [])
      | Some addr =>
        match seal (session s) [Wire.Control (encode_msg (Exit st))] with
        | (Ok pkt, sn) => (set_session sn s, [(addr, pkt)])
        | (Err _, sn) => (set_session sn s, [])
        end
      end in
    let s := set_exit (exit_status s) (as_u32 (exit_ticks s + 1)) s in
    (s, out, if EXIT_RETRANSMIT_TICKS <=? exit_ticks s then [sid] else [])
  end.

(** The body of the loop over the sessions. @ src/server.rs:448-544 ServerCore::tick *)
Definition session_tick (io : TickIo) (sid : SessionId) (s : ServerSession) :
    option (ServerSession * TickOut) :=
  let s := set_idle_ticks (saturating_add_u32 (idle_ticks s) 1) s in
  if (IDLE_REAP_TICKS <=? idle_ticks s) && bool_decide (exit_status s = None) then
    Some (s, mkTickOut [] [] (match pty s with Some h => pty_kill h | None => [] end) [sid])
  else
    let '(s, out1) := announce s in
    '(s, log1) ← drain (io_reads io sid) s;
    '(s, out2) ← emit_diff s;
    '(s, out3, events) ← emit_streams sid s;
    let '(s, log2) := detect_exit (io_waits io sid) s in
    let '(s, out4, fin) := exit_notice sid s in
    Some (s, mkTickOut (out1 ++ out2 ++ out3 ++ out4) events (log1 ++ log2) fin).

(** Removing a session drops its pty. *)
Definition remove_session (sid : SessionId) (c : ServerCore) : ServerCore :=
  match sessions c !! sid with
  | None => c
  | Some s =>
    log (match pty s with Some h => pty_drop h | None => [] end)
      (set_sessions (delete sid (sessions c)) c)
  end.

Fixpoint tick_sessions (io : TickIo) (order : list SessionId) (c : ServerCore) :
    option (ServerCore * TickOut) :=
  match order with
  | [] => Some (c, mkTickOut [] [] [] [])
  | sid :: order =>
    match sessions c !! sid with
    | None => tick_sessions io order c
    | Some s =>
      '(s, t1) ← session_tick io sid s;
      '(c, t2) ← tick_sessions io order (log (t_log t1) (put_session sid s c));
      Some (c, mkTickOut (t_out t1 ++ t_out t2) (t_events t1 ++ t_events t2)
                 (t_log t1 ++ t_log t2) (t_finished t1 ++ t_finished t2))
    end
  end.

(** [order] is the order of the map's keys.
    @ src/server.rs:442-552 ServerCore::tick *)
Definition tick (order : list SessionId) (io : TickIo) (c : ServerCore) :
    option (list (SocketAddr * list Z) * ServerCore) :=
  '(c, t) ← tick_sessions io order c;
  let c := foldl (flip remove_session) c (t_finished t) in
  Some (t_out t, set_stream_events (stream_events c ++ t_events t) c).

(** ** Streams, for the driver *)

(** @ src/server.rs:557-559 ServerCore::take_stream_events *)
Definition take_stream_events (c : ServerCore) : list (SessionId * StreamEvent) * ServerCore :=
  (stream_events c, set_stream_events [] c).

(** @ src/server.rs:563-565 ServerCore::take_remote_forward_requests *)
Definition take_remote_forward_requests (c : ServerCore) : list (SessionId * Z * list Z) * ServerCore :=
  (remote_forward_requests c, set_remote_forward_requests [] c).

(** @ src/server.rs:569-571 ServerCore::take_agent_socket_requests *)
Definition take_agent_socket_requests (c : ServerCore) : list (SessionId * list Z) * ServerCore :=
  (agent_socket_requests c, set_agent_socket_requests [] c).

(** Run [f] on the streams of a session where it exists. *)
Definition with_mux (sid : SessionId) (f : StreamMux → StreamMux) (c : ServerCore) : ServerCore :=
  match sessions c !! sid with
  | Some s => put_session sid (set_mux (f (mux s)) s) c
  | None => c
  end.

Definition mux_open_in (sid : SessionId) (kind : StreamKind) (meta : list Z) (c : ServerCore) :
    option Z * ServerCore :=
  match sessions c !! sid with
  | Some s => let '(id, m) := mux_open (mux s) kind meta in (Some id, put_session sid (set_mux m s) c)
  | None => (None, c)
  end.

(** @ src/server.rs:574-578 ServerCore::open_agent *)
Definition open_agent (sid : SessionId) (c : ServerCore) : option Z * ServerCore :=
  mux_open_in sid Agent [] c.

(** @ src/server.rs:582-586 ServerCore::open_exec *)
Definition open_exec (sid : SessionId) (c : ServerCore) : option Z * ServerCore :=
  mux_open_in sid Wire.Exec [] c.

(** @ src/server.rs:589-593 ServerCore::stream_close_status *)
Definition stream_close_status (sid : SessionId) (id status : Z) (c : ServerCore) : ServerCore :=
  with_mux sid (λ m, mux_close m id status) c.

(** @ src/server.rs:596-601 ServerCore::stream_read *)
Definition stream_read (sid : SessionId) (id : Z) (c : ServerCore) : list Z * ServerCore :=
  match sessions c !! sid with
  | Some s => let '(d, m) := mux_read (mux s) id in (d, put_session sid (set_mux m s) c)
  | None => ([], c)
  end.

(** @ src/server.rs:604-608 ServerCore::stream_write *)
Definition stream_write (sid : SessionId) (id : Z) (data : list Z) (c : ServerCore) : ServerCore :=
  with_mux sid (λ m, mux_write m id data) c.

(** @ src/server.rs:611-615 ServerCore::stream_close *)
Definition stream_close (sid : SessionId) (id : Z) (c : ServerCore) : ServerCore :=
  with_mux sid (λ m, mux_close m id 0) c.

(** @ src/server.rs:618-622 ServerCore::stream_reset *)
Definition stream_reset (sid : SessionId) (id : Z) (c : ServerCore) : ServerCore :=
  with_mux sid (λ m, mux_reset m id) c.

(** @ src/server.rs:626-630 ServerCore::open_forward *)
Definition open_forward (sid : SessionId) (target : list Z) (c : ServerCore) : option Z * ServerCore :=
  mux_open_in sid Forward (as_bytes target) c.

(** @ src/server.rs:633-635 ServerCore::has_session *)
Definition has_session (c : ServerCore) (sid : SessionId) : bool :=
  bool_decide (is_Some (sessions c !! sid)).

(** @ src/server.rs:638-643 ServerCore::stream_in_flight *)
Definition stream_in_flight (c : ServerCore) (sid : SessionId) (id : Z) : Z :=
  match sessions c !! sid with Some s => in_flight (mux s) id | None => 0 end.

(** @ src/server.rs:646-651 ServerCore::stream_recv_finished *)
Definition stream_recv_finished (c : ServerCore) (sid : SessionId) (id : Z) : bool :=
  match sessions c !! sid with Some s => is_recv_finished (mux s) id | None => true end.
End server.
