(* ===== verification/ServerInv.v ===== *)
(** * What the server core keeps true

    The invariant of [Server]'s state over every sequence of packets, ticks and
    driver calls, and the theorems that follow from it: who gets a session, which
    datagrams are inert, what happens to a session that ends, falls silent or
    comes back. *)

From stdpp Require Import gmap.
From S2P Require Import Prelude Wire Input NoiseCore Session Handshake Stream Mux Cell Text Grid GridOps.
From S2P Require Import Diff Predict Shell Control Auth Pty Runtime Server.

Section inv.
Context (char_width : Z → nat) {V : Vte} {N : Snow} {SocketAddr : Type} (p : Process).

#[local] Abbreviation ServerCore := (ServerCore (SocketAddr := SocketAddr)).
#[local] Abbreviation ServerSession := (ServerSession (SocketAddr := SocketAddr)).

(** ** One session *)

(** Changes that leave the life of a session alone. *)
Record quiet (s s' : ServerSession) : Prop := {
  q_id : session_id (session s') = session_id (session s);
  q_peer : peer_addr (session s') = peer_addr (session s);
  q_pty : pty s' = pty s;
  q_key : client_key s' = client_key s;
  q_idle : idle_ticks s' = idle_ticks s;
  q_exit : exit_status s' = exit_status s;
  q_ticks : exit_ticks s' = exit_ticks s;
  q_shell : is_Some (shell s') ↔ is_Some (shell s);
}.

#[local] Instance quiet_preorder : PreOrder quiet.
Proof.
  split; [intros s; by split|]. intros s1 s2 s3 [] []. split; try congruence. tauto.
Qed.

Lemma quiet_session s sn :
  session_id sn = session_id (session s) → peer_addr sn = peer_addr (session s) →
  quiet s (set_session sn s).
Proof. by split. Qed.

Lemma quiet_shell s sh : is_Some (shell s) → quiet s (set_shell (Some sh) s).
Proof. intros H. split; done. Qed.

Lemma quiet_mux s m : quiet s (set_mux m s).
Proof. by split. Qed.

(** Sealing only moves the nonce. *)
Lemma seal_quiet s frames r sn : seal (session s) frames = (r, sn) → quiet s (set_session sn s).
Proof.
  intros H. pose proof (seal_same (session s) frames) as (Hi & _ & _ & Hp). rewrite H in *.
  by apply quiet_session.
Qed.

Lemma seal_many_quiet s frames max r sn :
  seal_many (session s) frames max = (r, sn) → quiet s (set_session sn s).
Proof. intros H. apply seal_loop_same in H as (? & _ & _ & ?). by apply quiet_session. Qed.

Lemma announce_quiet s : quiet s (announce p s).1.
Proof.
  unfold announce. destruct (version_sent s); [done|]. destruct (peer_addr _); [|done].
  destruct (seal _ _) as [[] sn] eqn:Hs; cbn [fst]; apply seal_quiet in Hs; [|done].
  etrans; [exact Hs|]. by split.
Qed.

Lemma drain_pty_shell h reads : ∀ sh sh' es,
  drain_pty char_width h reads sh = Some (sh', es) → is_Some sh' ↔ is_Some sh.
Proof.
  induction reads as [|[[|b chunk]|e] reads IH]; intros sh sh' es; cbn [drain_pty];
    try by intros [= <- _].
  destruct sh as [sh|]; [|apply IH].
  destruct (feed_output _ _ _) as [sh1|]; [|done]. cbn [mbind option_bind].
  destruct (shell_take_responses sh1) as [reply sh2].
  destruct (drain_pty _ _ _ _) as [[sh3 es']|] eqn:Hd; [|done]. cbn.
  intros [= <- _]. rewrite (IH _ _ _ Hd). by split; eexists.
Qed.

Lemma drain_quiet reads s s' es : drain char_width reads s = Some (s', es) → quiet s s'.
Proof.
  unfold drain. destruct (pty s) as [h|]; [|by intros [= <- _]].
  destruct (drain_pty _ _ _ _) as [[sh es']|] eqn:Hd; [|done]. intros [= <- _].
  apply drain_pty_shell in Hd. by split.
Qed.

Lemma emit_diff_quiet s s' out : emit_diff s = Some (s', out) → quiet s s'.
Proof.
  unfold emit_diff. destruct (shell s) as [sh|] eqn:Hsh; [|by intros [= <- _]].
  destruct (peer_addr _); [|by intros [= <- _]].
  destruct (poll_diff_checked sh) as [[[diff|] sh']|]; [| |done]; cbn [mbind option_bind];
    [|intros [= <- _]; by apply quiet_shell; rewrite Hsh].
  assert (quiet s (set_shell (Some sh') s)) as Hq by (by apply quiet_shell; rewrite Hsh).
  destruct (seal _ _) as [[] sn] eqn:Hs; intros [= <- _]; (etrans; [exact Hq|]);
    by apply (seal_quiet (set_shell (Some sh') s)) in Hs.
Qed.

Lemma emit_streams_quiet sid s s' out evs : emit_streams sid s = Some (s', out, evs) → quiet s s'.
Proof.
  unfold emit_streams. destruct (poll_transmit_checked (mux s)) as [[fs m1]|]; [|done].
  cbn [mbind option_bind]. destruct (take_events m1) as [evs1 m].
  assert (quiet s (set_mux m s)) as Hq by apply quiet_mux.
  destruct fs as [|f fs]; [by intros [= <- _ _]|]. cbn [session set_mux].
  destruct (peer_addr _); [|by intros [= <- _ _]].
  destruct (seal_many _ _ _) as [[] sn] eqn:Hs; intros [= <- _ _]; (etrans; [exact Hq|]);
    by apply (seal_many_quiet (set_mux m s)) in Hs.
Qed.

(** The notice of exit counts one tick. *)
Lemma exit_notice_spec sid s s' out fin :
  exit_notice sid s = (s', out, fin) →
  match exit_status s with
  | None => s' = s ∧ fin = []
  | Some st =>
    exit_ticks s' = as_u32 (exit_ticks s + 1) ∧
    fin = (if EXIT_RETRANSMIT_TICKS <=? as_u32 (exit_ticks s + 1) then [sid] else []) ∧
    quiet s (set_exit (exit_status s') (exit_ticks s) s') ∧ exit_status s' = Some st
  end.
Proof.
  unfold exit_notice. destruct (exit_status s) as [st|] eqn:He; [|by intros [= <- _ <-]].
  set (x := match peer_addr (session s) with Some _ => _ | None => _ end).
  assert (quiet s x.1) as Hq.
  { unfold x. destruct (peer_addr _); [|done].
    destruct (seal _ _) as [[] sn] eqn:Hs; by apply seal_quiet in Hs. }
  destruct x as [s1 out1]. cbn [fst] in Hq. intros [= <- _ <-].
  rewrite <- (q_ticks _ _ Hq). cbn [set_exit exit_ticks exit_status].
  split_and!; try done; [|by rewrite (q_exit _ _ Hq)].
  destruct Hq. by split.
Qed.

(** A spawn is not among the effects. *)
Definition no_spawn (es : list PtyEffect) : Prop :=
  Forall (λ e, match e with PtySpawned _ _ => False | _ => True end) es.

Lemma no_spawn_app es1 es2 : no_spawn es1 → no_spawn es2 → no_spawn (es1 ++ es2).
Proof. apply Forall_app_2. Qed.

Lemma pty_drop_no_spawn h : no_spawn (pty_drop h).
Proof. unfold pty_drop. destruct (status h); repeat constructor. Qed.

Lemma drain_no_spawn reads (s s' : ServerSession) es : drain char_width reads s = Some (s', es) → no_spawn es.
Proof.
  unfold drain. destruct (pty s) as [h|]; [|intros [= _ <-]; constructor].
  destruct (drain_pty _ _ _ _) as [[sh es']|] eqn:Hd; [|done]. intros [= _ <-].
  revert Hd. generalize (shell s) sh es'. induction reads as [|[[|b chunk]|e] reads IH];
    intros o sh' es1; cbn [drain_pty]; try (intros [= _ <-]; constructor).
  destruct o as [sh1|]; [|apply IH].
  destruct (feed_output _ _ _) as [sh2|]; [|done]. cbn [mbind option_bind].
  destruct (shell_take_responses sh2) as [reply sh3].
  destruct (drain_pty _ _ _ _) as [[sh4 es2]|] eqn:Hd; [|done]. cbn. intros [= _ <-].
  apply IH in Hd. apply no_spawn_app; [|done]. destruct reply; repeat constructor.
Qed.

Lemma detect_exit_spec waited (s s' : ServerSession) es :
  detect_exit waited s = (s', es) →
  no_spawn es ∧
  (quiet s s' ∨ exit_status s = None ∧
    ∃ st, s' = set_pty None (set_exit (Some st) (exit_ticks s) s)).
Proof.
  assert (∀ h, pty s = Some h → quiet s (set_pty (Some h) s)) as Hsame
    by (intros h Hh; split; try done; by rewrite Hh).
  assert (no_spawn []) as Hnil by constructor.
  assert (quiet s s) as Hrefl by reflexivity.
  unfold detect_exit, pty_try_wait. destruct (exit_status s); [intros [= <- <-]; by auto|].
  destruct (pty s) as [h|] eqn:Hp; [|intros [= <- <-]; by auto].
  destruct (status h) as [st|]; [|destruct waited as [[es0|]|e]]; intros [= <- <-];
    (split; [first [apply pty_drop_no_spawn|done]|]); eauto.
Qed.

(** What one tick does to a session, and whether it is finished with it. *)
Definition counted (sid : SessionId) (s s' : ServerSession) (fin : list SessionId) : Prop :=
  exit_ticks s' = as_u32 (exit_ticks s + 1) ∧
  fin = if EXIT_RETRANSMIT_TICKS <=? exit_ticks s' then [sid] else [].

Record ticked (sid : SessionId) (s s' : ServerSession) (fin : list SessionId) : Prop := {
  tk_id : session_id (session s') = session_id (session s);
  tk_peer : peer_addr (session s') = peer_addr (session s);
  tk_key : client_key s' = client_key s;
  tk_shell : is_Some (shell s') ↔ is_Some (shell s);
  tk_idle : idle_ticks s' = saturating_add_u32 (idle_ticks s) 1;
  tk_pty : pty s' = pty s ∨ pty s' = None;
  tk_end :
    match exit_status s with
    | Some st => exit_status s' = Some st ∧ counted sid s s' fin
    | None =>
      if IDLE_REAP_TICKS <=? idle_ticks s'
      then exit_status s' = None ∧ exit_ticks s' = exit_ticks s ∧ fin = [sid]
      else exit_status s' = None ∧ exit_ticks s' = exit_ticks s ∧ fin = []
           ∨ is_Some (exit_status s') ∧ counted sid s s' fin
    end;
}.

Lemma session_tick_spec io sid (s s' : ServerSession) t :
  session_tick char_width p io sid s = Some (s', t) →
  ticked sid s s' (t_finished t) ∧ no_spawn (t_log t).
Proof.
  unfold session_tick. set (s0 := set_idle_ticks _ s). cbv zeta.
  destruct ((IDLE_REAP_TICKS <=? idle_ticks s0) && bool_decide (exit_status s0 = None)) eqn:Hreap.
  { apply andb_true_iff in Hreap as [Hi He%bool_decide_eq_true].
    intros [= <- <-]. cbn [t_finished t_log]. split; [|change (pty s0) with (pty s); destruct (pty s); repeat constructor].
    change (exit_status s0) with (exit_status s) in He.
    split; [done..|by left|]. by rewrite He, Hi. }
  pose proof (announce_quiet s0) as H1. destruct (announce p s0) as [s1 o1].
  destruct (drain char_width _ s1) as [[s2 l1]|] eqn:H2; [|done]. cbn [mbind option_bind].
  pose proof (drain_no_spawn _ _ _ _ H2) as Hl1. apply drain_quiet in H2.
  destruct (emit_diff s2) as [[s3 o2]|] eqn:H3; [|done]. cbn [mbind option_bind].
  apply emit_diff_quiet in H3.
  destruct (emit_streams sid s3) as [[[s4 o3] evs]|] eqn:H4; [|done]. cbn [mbind option_bind].
  apply emit_streams_quiet in H4.
  cbn [fst] in *. assert (quiet s0 s4) as Hq by (etrans; [exact H1|]; etrans; [exact H2|]; by etrans).
  clear H1 H2 H3 H4.
  destruct (detect_exit _ s4) as [s5 l2] eqn:H5. apply detect_exit_spec in H5 as [Hl2 H5].
  destruct (exit_notice sid s5) as [[s6 o4] fin] eqn:H6. apply exit_notice_spec in H6.
  intros [= <- <-]. cbn [t_finished t_log]. split; [|by apply no_spawn_app].
  destruct Hq as [Hid Hpeer Hpty Hkey Hidle Hexit Hticks Hshell].
  change (exit_status s0) with (exit_status s) in *. change (exit_ticks s0) with (exit_ticks s) in *.
  change (pty s0) with (pty s) in *. change (shell s0) with (shell s) in *.
  change (client_key s0) with (client_key s) in *.
  change (session s0) with (session s) in *.
  change (idle_ticks s0) with (saturating_add_u32 (idle_ticks s) 1) in *.
  destruct H5 as [[]|(He & st & ->)].
  - rewrite q_exit0, Hexit in H6. destruct (exit_status s) as [st|] eqn:Hes.
    + destruct H6 as (Ht & -> & [] & Hst). cbn in *. split; try congruence; try tauto.
      * left. congruence.
      * rewrite Hes. unfold counted. rewrite Ht, q_ticks0, Hticks. done.
    + destruct H6 as [-> ->]. split; try congruence; try tauto.
      * left. congruence.
      * rewrite Hes, andb_true_r in *. rewrite q_idle0, Hidle, Hreap. left. split_and!; congruence.
  - cbn [exit_status set_pty set_exit] in H6. destruct H6 as (Ht & -> & [] & Hst). cbn in *.
    rewrite Hexit in He. split; try congruence; try tauto.
    + rewrite He in *. rewrite andb_true_r in Hreap. rewrite q_idle0, Hidle, Hreap. right.
      unfold counted. rewrite Ht, Hticks, Hst. split; [by eexists|]. done.
Qed.

Lemma ticked_finished sid s s' fin : ticked sid s s' fin → fin = [] ∨ fin = [sid].
Proof.
  intros H. pose proof (tk_end _ _ _ _ H) as He. unfold counted in He.
  destruct (exit_status s); [|destruct (_ <=? _) in He];
    destruct_or?; destruct_and?; subst; repeat case_match; auto.
Qed.

(** ** A tick of the whole server *)

(** The fields that a tick leaves alone. *)
Definition rest (c : ServerCore) :=
  (keypair c, authorized c, login c, command c, user c, pending c, ever_active c,
   remote_forward_requests c, agent_socket_requests c).

(** The keys of the session map, in any order. *)
Definition session_order (order : list SessionId) (c : ServerCore) : Prop :=
  NoDup order ∧ ∀ sid, is_Some (sessions c !! sid) ↔ sid ∈ order.

Definition keys_of (c : ServerCore) : list SessionId := (map_to_list (sessions c)).*1.

Lemma keys_of_order c : session_order (keys_of c) c.
Proof.
  split; [apply NoDup_fst_map_to_list|]. intros sid. unfold keys_of. rewrite list_elem_of_fmap. split.
  - intros [s Hs]. exists (sid, s). split; [done|]. by apply elem_of_map_to_list.
  - intros ([k s] & -> & Hs%elem_of_map_to_list). by eexists.
Qed.

Lemma tick_sessions_spec io order : ∀ (c c' : ServerCore) t,
  NoDup order → tick_sessions char_width p io order c = Some (c', t) →
  rest c' = rest c ∧ stream_events c' = stream_events c ∧
  (∃ es, pty_log c' = pty_log c ++ es ∧ no_spawn es) ∧
  ∀ sid,
    match sessions c !! sid with
    | Some s =>
      if decide (sid ∈ order) then
        ∃ s' t1, session_tick char_width p io sid s = Some (s', t1) ∧
          sessions c' !! sid = Some s' ∧ (sid ∈ t_finished t ↔ t_finished t1 = [sid])
      else sessions c' !! sid = Some s ∧ sid ∉ t_finished t
    | None => sessions c' !! sid = None ∧ sid ∉ t_finished t
    end.
Proof.
  induction order as [|k order IH]; intros c c' t Hnd; cbn [tick_sessions].
  { intros [= <- <-]. split_and!; [done|done|exists []; split; [by rewrite app_nil_r|constructor]|].
    intros sid. cbn. destruct (sessions c !! sid); split; try done; by apply not_elem_of_nil. }
  apply NoDup_cons in Hnd as [Hk Hnd].
  destruct (sessions c !! k) as [s|] eqn:Hs.
  2:{ intros H. destruct (IH _ _ _ Hnd H) as (Hr & He & Hl & Hall). split_and!; try done.
      intros sid. specialize (Hall sid). destruct (sessions c !! sid) eqn:Hsid; [|done].
      rewrite (decide_ext _ (sid ∈ order)); [done|]. rewrite elem_of_cons.
      split; [intros [->|?]; congruence|by right]. }
  destruct (session_tick _ _ _ _ _) as [[s' t1]|] eqn:Ht1; [|done]. cbn [mbind option_bind].
  destruct (tick_sessions _ _ _ _ _) as [[c2 t2]|] eqn:Ht2; [|done]. cbn. intros [= <- <-].
  destruct (session_tick_spec _ _ _ _ _ Ht1) as [Htk Hns]. cbn [t_finished].
  destruct (IH _ _ _ Hnd Ht2) as (Hr & He & (es & Hl & Hes) & Hall).
  split_and!; [done|done| |].
  { exists (t_log t1 ++ es). split; [rewrite Hl; by rewrite (assoc_L (++))|by apply no_spawn_app]. }
  intros sid. specialize (Hall sid). cbn [sessions log put_session set_sessions] in Hall.
  destruct (decide (sid = k)) as [->|Hne].
  - rewrite lookup_insert_eq in Hall. rewrite Hs. rewrite decide_False in Hall by done.
    rewrite decide_True by (by left). destruct Hall as [Hc Hf].
    exists s', t1. split_and!; [done|done|]. rewrite elem_of_app.
    destruct (ticked_finished _ _ _ _ Htk) as [-> | ->].
    + split; [|done]. by intros [[]%not_elem_of_nil|?].
    + split; [done|]. left. by left.
  - rewrite lookup_insert_ne in Hall by done.
    assert (sid ∉ t_finished t1) as Hn1.
    { destruct (ticked_finished _ _ _ _ Htk) as [-> | ->]; [by apply not_elem_of_nil|].
      by intros ?%list_elem_of_singleton. }
    destruct (sessions c !! sid) eqn:Hsid; [|rewrite not_elem_of_app; tauto].
    rewrite (decide_ext _ (sid ∈ order)) by (rewrite elem_of_cons; naive_solver).
    case_decide; [|rewrite not_elem_of_app; tauto].
    destruct Hall as (s1 & t3 & ? & ? & Hf). exists s1, t3. split_and!; [done|done|].
    rewrite elem_of_app. tauto.
Qed.

Lemma remove_session_spec sid (c : ServerCore) :
  rest (remove_session sid c) = rest c ∧ stream_events (remove_session sid c) = stream_events c ∧
  sessions (remove_session sid c) = delete sid (sessions c) ∧
  ∃ es, pty_log (remove_session sid c) = pty_log c ++ es ∧ no_spawn es.
Proof.
  unfold remove_session. destruct (sessions c !! sid) as [s|] eqn:Hs.
  - split_and!; try done. eexists. split; [done|]. destruct (pty s); [apply pty_drop_no_spawn|constructor].
  - rewrite delete_id by done. split_and!; try done. exists []. split; [by rewrite app_nil_r|constructor].
Qed.

Lemma remove_sessions_spec fin : ∀ (c : ServerCore),
  let c' := foldl (flip remove_session) c fin in
  rest c' = rest c ∧ stream_events c' = stream_events c ∧
  (∃ es, pty_log c' = pty_log c ++ es ∧ no_spawn es) ∧
  ∀ sid, sessions c' !! sid = if decide (sid ∈ fin) then None else sessions c !! sid.
Proof.
  induction fin as [|k fin IH]; intros c; cbn [foldl flip].
  { split_and!; try done. exists []. split; [by rewrite app_nil_r|constructor]. }
  destruct (remove_session_spec k c) as (Hr & He & Hs & es & Hl & Hes).
  destruct (IH (remove_session k c)) as (Hr' & He' & (es' & Hl' & Hes') & Hs').
  split_and!; [by rewrite Hr'|by rewrite He'| |].
  { exists (es ++ es'). rewrite Hl', Hl, (assoc_L (++)). split; [done|by apply no_spawn_app]. }
  intros sid. rewrite Hs', Hs. destruct (decide (sid = k)) as [->|Hne].
  - rewrite lookup_delete_eq, (decide_True (P := k ∈ k :: fin)) by (by left). by case_decide.
  - rewrite lookup_delete_ne by done.
    rewrite (decide_ext (sid ∈ k :: fin) (sid ∈ fin)); [done|]. rewrite elem_of_cons. naive_solver.
Qed.

(** Every branch of a tick at once. *)
Lemma tick_spec order io (c c' : ServerCore) out :
  session_order order c → tick char_width p order io c = Some (out, c') →
  rest c' = rest c ∧ (∃ es, pty_log c' = pty_log c ++ es ∧ no_spawn es) ∧
  ∀ sid,
    match sessions c !! sid with
    | Some s => ∃ s' fin, ticked sid s s' fin ∧
        sessions c' !! sid = match fin with [] => Some s' | _ => None end
    | None => sessions c' !! sid = None
    end.
Proof.
  intros [Hnd Hord]. unfold tick. destruct (tick_sessions _ _ _ _ _) as [[c1 t]|] eqn:Ht; [|done].
  cbn [mbind option_bind]. intros [= _ <-].
  destruct (tick_sessions_spec _ _ _ _ _ Hnd Ht) as (Hr & _ & (es & Hl & Hes) & Hall).
  destruct (remove_sessions_spec (t_finished t) c1) as (Hr' & _ & (es' & Hl' & Hes') & Hs').
  split_and!.
  - by rewrite <- Hr, <- Hr'.
  - exists (es ++ es'). cbn [pty_log set_stream_events]. rewrite Hl', Hl, (assoc_L (++)).
    split; [done|by apply no_spawn_app].
  - intros sid. cbn [sessions set_stream_events]. rewrite Hs'. specialize (Hall sid).
    destruct (sessions c !! sid) as [s|] eqn:Hs.
    + rewrite decide_True in Hall by (apply Hord; by eexists).
      destruct Hall as (s' & t1 & Ht1 & Hc1 & Hf).
      destruct (session_tick_spec _ _ _ _ _ Ht1) as [Htk _].
      exists s', (t_finished t1). split; [done|].
      destruct (ticked_finished _ _ _ _ Htk) as [Hfin|Hfin]; rewrite Hfin in *.
      * rewrite decide_False by (rewrite Hf; done). done.
      * by rewrite decide_True by (by apply Hf).
    + destruct Hall as [Hc1 Hf]. by rewrite decide_False.
Qed.

(** ** The invariant *)

(** The children that the login backend is still to hand out. *)
Definition children (l : list (result PtyError Z)) : list Z :=
  omap (λ r, match r with Ok n => Some n | Err _ => None end) l.

(** A spawn runs the configured command as the configured user; where that user
    is another than the server's, no agent socket is announced to it. *)
Definition spawn_ok (u : option (list Z)) (cmd : option (list (list Z))) (e : PtyEffect) : Prop :=
  match e with
  | PtySpawned _ req =>
    sr_user req = u ∧ sr_command req = cmd ∧ (is_Some u → sr_env req = [])
  | _ => True
  end.

Record session_ok (keys : AuthorizedKeys) (sid : SessionId) (s : ServerSession) : Prop := {
  so_id : session_id (session s) = sid;
  so_key : authorize_client keys (client_key s) = true;
  so_peer : is_Some (peer_addr (session s));
  so_shell : is_Some (pty s) → is_Some (shell s);
  so_exit : 0 ≤ exit_ticks s < EXIT_RETRANSMIT_TICKS;
  so_idle : 0 ≤ idle_ticks s ≤ u32_max;
}.

Record server_wf (c : ServerCore) : Prop := {
  wf_pending : (size (pending c) ≤ MAX_PENDING_HANDSHAKES)%nat;
  wf_disjoint : ∀ sid, is_Some (pending c !! sid) → sessions c !! sid = None;
  wf_pending_id : ∀ sid k, pending c !! sid = Some k → hs_session_id k = sid;
  wf_sessions : ∀ sid s, sessions c !! sid = Some s → session_ok (authorized c) sid s;
  wf_active : ∀ sid, is_Some (sessions c !! sid) → ever_active c = true;
  wf_agents : is_Some (user c) → agent_socket_requests c = [];
  wf_spawned : Forall (spawn_ok (user c) (command c)) (pty_log c);
  wf_login : NoDup (children (login c));
  wf_own sid s h : sessions c !! sid = Some s → pty s = Some h → child h ∉ children (login c);
  wf_unshared sid1 sid2 s1 s2 h1 h2 :
    sessions c !! sid1 = Some s1 → sessions c !! sid2 = Some s2 →
    pty s1 = Some h1 → pty s2 = Some h2 → child h1 = child h2 → sid1 = sid2;
}.

(** What a packet does to the session it is for. *)
Record lives (s s' : ServerSession) : Prop := {
  lv_id : session_id (session s') = session_id (session s);
  lv_key : client_key s' = client_key s;
  lv_peer : is_Some (peer_addr (session s)) → is_Some (peer_addr (session s'));
  lv_pty : pty s' = pty s;
  lv_shell : is_Some (shell s) → is_Some (shell s');
  lv_idle : idle_ticks s' = idle_ticks s ∨ idle_ticks s' = 0;
  lv_exit : exit_ticks s' = exit_ticks s ∨ exit_ticks s' = 0;
}.

Lemma quiet_lives s s' : quiet s s' → lives s s'.
Proof. intros []. split; try congruence; tauto. Qed.

Lemma lives_ok keys sid s s' : lives s s' → session_ok keys sid s → session_ok keys sid s'.
Proof.
  intros [] []. split; try congruence; auto.
  - rewrite lv_pty0. tauto.
  - unfold EXIT_RETRANSMIT_TICKS in *. destruct lv_exit0; lia.
  - unfold u32_max in *. destruct lv_idle0; lia.
Qed.

Lemma put_session_wf sid s s' (c : ServerCore) :
  server_wf c → sessions c !! sid = Some s → lives s s' → server_wf (put_session sid s' c).
Proof.
  intros [] Hs Hl.
  assert (∀ k x, sessions (put_session sid s' c) !! k = Some x →
    ∃ y, sessions c !! k = Some y ∧ pty x = pty y ∧ (session_ok (authorized c) k y →
      session_ok (authorized c) k x)) as Hk.
  { intros k x. cbn [sessions put_session set_sessions]. destruct (decide (k = sid)) as [->|Hne].
    - rewrite lookup_insert_eq. intros [= <-]. exists s.
      split_and!; [done|apply Hl|by apply lives_ok].
    - rewrite lookup_insert_ne by done. intros Hx. by exists x. }
  split; try done.
  - intros k Hp. pose proof (wf_disjoint0 k Hp). cbn [sessions put_session set_sessions].
    rewrite lookup_insert_ne; congruence.
  - intros k x Hx. destruct (Hk k x Hx) as (y & Hy & _ & Hok). by apply Hok, wf_sessions0.
  - intros k [x Hx]. destruct (Hk k x Hx) as (y & Hy & _). cbn. eapply wf_active0. by eexists.
  - intros k x h Hx Hh. destruct (Hk k x Hx) as (y & Hy & Hp & _). eapply wf_own0; [done|congruence].
  - intros k1 k2 x1 x2 h1 h2 H1 H2 Hp1 Hp2 Hc.
    destruct (Hk k1 x1 H1) as (y1 & Hy1 & He1 & _), (Hk k2 x2 H2) as (y2 & Hy2 & He2 & _).
    eapply wf_unshared0; [exact Hy1|exact Hy2| | |exact Hc]; congruence.
Qed.

Lemma no_spawn_ok u cmd es : no_spawn es → Forall (spawn_ok u cmd) es.
Proof. intros H. eapply Forall_impl; [exact H|]. by intros []. Qed.

Lemma log_wf es (c : ServerCore) : server_wf c → no_spawn es → server_wf (log es c).
Proof. intros [] Hes. split; try done. apply Forall_app_2; [done|by apply no_spawn_ok]. Qed.

Lemma stream_events_wf v (c : ServerCore) : server_wf c → server_wf (set_stream_events v c).
Proof. by intros []. Qed.

Lemma remote_forward_wf v (c : ServerCore) :
  server_wf c → server_wf (set_remote_forward_requests v c).
Proof. by intros []. Qed.

Lemma with_mux_wf sid f (c : ServerCore) : server_wf c → server_wf (with_mux sid f c).
Proof.
  intros Hc. unfold with_mux. destruct (sessions c !! sid) as [s|] eqn:Hs; [|done].
  eapply put_session_wf; [done..|]. apply quiet_lives, quiet_mux.
Qed.

Lemma new_wf kp keys login cmd : NoDup (children login) → server_wf (server_core_new kp keys login cmd).
Proof.
  intros Hnd. split; try done; cbn.
  - rewrite map_size_empty. unfold MAX_PENDING_HANDSHAKES. lia.
  - intros sid [x Hx]. by rewrite lookup_empty in Hx.
Qed.

(** ** Packets *)

Lemma open_shell_wf sid cols rows term agent (c : ServerCore) :
  server_wf c → server_wf (open_shell p sid cols rows term agent c).
Proof.
  intros Hc. pose proof Hc as []. unfold open_shell.
  destruct (sessions c !! sid) as [s|] eqn:Hs; [|done].
  destruct (bool_decide_reflect (is_Some (pty s))) as [|Hpty]; [done|].
  set (path := agent_socket_path p sid). set (agent_path := if _ && _ then Some path else None).
  set (req := mkSpawnRequest _ _ _ _ _ _). unfold spawn_call.
  assert (is_Some (user c) → agent_path = None) as Hno.
  { intros Hu. unfold agent_path, privsep_active. by rewrite bool_decide_true, andb_false_r. }
  assert (spawn_ok (user c) (command c) (PtySpawned 0 req)) as Hreq.
  { split_and!; [done..|]. intros Hu. cbn. by rewrite (Hno Hu). }
  destruct (login c) as [|[n|e] login'] eqn:Hl; [done| |by split].
  set (h := mkPtyHandle n None).
  set (s' := set_pty (Some h) (set_shell _ (set_window rows cols s))).
  cbn [log set_login login sessions]. cbn [children omap list_omap] in wf_login0, wf_own0.
  apply NoDup_cons in wf_login0 as [Hn Hnd].
  set (c1 := put_session sid s' _).
  assert (server_wf c1) as Hc1.
  { assert (∀ k x, sessions c1 !! k = Some x → k = sid ∧ x = s' ∨ k ≠ sid ∧ sessions c !! k = Some x)
      as Hk.
    { intros k x. unfold c1. cbn [sessions put_session set_sessions log set_login].
      destruct (decide (k = sid)) as [->|Hne].
      - rewrite lookup_insert_eq. intros [= <-]. by left.
      - rewrite lookup_insert_ne by done. by right. }
    split; try done.
    - intros k Hp. pose proof (wf_disjoint0 k Hp). destruct (sessions c1 !! k) eqn:Hk1; [|done].
      destruct (Hk _ _ Hk1) as [[-> _]|[_ ?]]; congruence.
    - intros k x Hx. destruct (Hk _ _ Hx) as [[-> ->]|[_ Hx']]; [|by apply wf_sessions0].
      destruct (wf_sessions0 _ _ Hs). by split.
    - intros k [x Hx]. destruct (Hk _ _ Hx) as [[-> _]|[_ ?]]; eapply wf_active0; by eexists.
    - apply Forall_app_2; [apply Forall_app_2; [done|]|]; apply Forall_cons_2; done.
    - intros k x h' Hx Hh. destruct (Hk _ _ Hx) as [[-> ->]|[_ Hx']].
      + injection Hh as <-. done.
      + specialize (wf_own0 _ _ _ Hx' Hh). by intros Hin; apply wf_own0; right.
    - assert (∀ k x h', sessions c !! k = Some x → pty x = Some h' → child h' ≠ n) as Hfresh.
      { intros k x h' Hx Hh Heq. eapply wf_own0; [exact Hx|exact Hh|]. rewrite Heq. by left. }
      intros k1 k2 x1 x2 h1 h2 H1 H2 Hp1 Hp2 Hch.
      destruct (Hk _ _ H1) as [[-> ->]|[_ H1']], (Hk _ _ H2) as [[-> ->]|[_ H2']]; [done| | |].
      + injection Hp1 as <-. by destruct (Hfresh _ _ _ H2' Hp2).
      + injection Hp2 as <-. by destruct (Hfresh _ _ _ H1' Hp1).
      + by eapply wf_unshared0. }
  destruct agent_path as [path'|] eqn:Ha; [|done].
  destruct Hc1. split; try done. intros Hu. by specialize (Hno Hu).
Qed.

Lemma resize_session_wf sid cols rows (c c' : ServerCore) :
  server_wf c → resize_session sid cols rows c = Some c' → server_wf c'.
Proof.
  intros Hc. unfold resize_session. destruct (sessions c !! sid) as [s|] eqn:Hs; [|by intros [= <-]].
  assert (∀ s', lives s s' → server_wf (put_session sid s' match pty (set_window rows cols s) with
    | Some h => log [PtyWinsize (child h) rows cols] c | None => c end)) as Hput.
  { intros s' Hl. apply put_session_wf with s; [|by destruct (pty _)|done].
    destruct (pty _); [|done]. apply log_wf; [done|repeat constructor]. }
  destruct (shell (set_window rows cols s)) as [sh|] eqn:Hsh.
  - destruct (shell_resize _ _ _) as [sh'|]; [|done]. cbn [mbind option_bind]. intros [= <-].
    apply Hput. split; try done; by left.
  - intros [= <-]. apply Hput. split; try done; by left.
Qed.

Lemma handle_control_wf sid msg (c c' : ServerCore) :
  server_wf c → handle_control p sid msg c = Some c' → server_wf c'.
Proof.
  intros Hc. destruct msg; cbn [handle_control]; try by intros [= <-].
  - intros [= <-]. by apply open_shell_wf.
  - by apply resize_session_wf.
  - intros [= <-]. by apply remote_forward_wf.
  - intros [= <-]. unfold finish_session. destruct (sessions c !! sid) as [s|] eqn:Hs; [|done].
    eapply put_session_wf; [done..|]. split; try done; [by left|by right].
Qed.

(** What a frame that goes through has done, on the total operations. *)
Inductive frame_effect (sid : SessionId) (c : ServerCore) :
    Frame → ServerCore → list Frame → Prop :=
| effect_none f r : frame_effect sid c f c r
| effect_input offset data s sh fresh ack sh' :
  sessions c !! sid = Some s → shell s = Some sh → ingest_input sh offset data = (fresh, ack, sh') →
  frame_effect sid c (Input offset data)
    (put_session sid (set_shell (Some sh') s)
       match pty s with Some h => log [PtyWritten (child h) fresh] c | None => c end) [ack]
| effect_ack q s sh :
  sessions c !! sid = Some s → shell s = Some sh →
  frame_effect sid c (Ack q) (put_session sid (set_shell (Some (on_state_ack sh q)) s) c) []
| effect_control data msg c' :
  decode_msg data = Ok msg → handle_control p sid msg c = Some c' →
  frame_effect sid c (Wire.Control data) c' []
| effect_stream f s m :
  sessions c !! sid = Some s → on_frame_checked (mux s) f = Some m → on_frame (mux s) f = m →
  frame_effect sid c f (put_session sid (set_mux m s) c) [].

Lemma server_frame_effect sid f (c c' : ServerCore) r :
  server_frame p sid f c = Some (c', r) → frame_effect sid c f c' r.
Proof.
  assert (∀ g, match sessions c !! sid with
      | None => Some (c, [])
      | Some s => m ← on_frame_checked (mux s) g; Some (put_session sid (set_mux m s) c, [])
      end = Some (c', r) → frame_effect sid c g c' r) as Hstream.
  { intros g. destruct (sessions c !! sid) as [s|] eqn:Hs; [|intros [= <- <-]; constructor].
    destruct (on_frame_checked _ _) as [m|] eqn:Hm; [|done]. cbn. intros [= <- <-].
    econstructor; [done..|]. by apply on_frame_agrees. }
  destruct f; cbn [server_frame]; try exact (Hstream _); try (intros [= <- <-]; constructor).
  - intros [= <- <-]. unfold on_client_ack. destruct (sessions c !! sid) as [s|] eqn:Hs; [|constructor].
    destruct (shell s) as [sh|] eqn:Hsh; [|constructor]. by econstructor.
  - unfold on_input. destruct (sessions c !! sid) as [s|] eqn:Hs; [|intros [= <- <-]; constructor].
    destruct (shell s) as [sh|] eqn:Hsh; [|intros [= <- <-]; constructor].
    destruct (ingest_input_checked _ _ _) as [[[fresh ack] sh']|] eqn:Hi; [|done].
    apply ingest_input_agrees in Hi. cbn. intros [= <- <-]. by econstructor.
  - rewrite decode_msg_calm. cbn [mbind option_bind].
    destruct (decode_msg data) as [msg|] eqn:Hd; [|intros [= <- <-]; constructor].
    destruct (handle_control _ _ _ _) as [c1|] eqn:H; [|done]. intros [= <- <-]. by econstructor.
Qed.

Lemma server_frame_wf sid f (c c' : ServerCore) replies :
  server_wf c → server_frame p sid f c = Some (c', replies) → server_wf c'.
Proof.
  intros Hc H. destruct (server_frame_effect _ _ _ _ _ H)
    as [|offset data s sh fresh ack sh' Hs Hsh _|q s sh Hs Hsh|data msg c' _ Hm|f s m Hs _ _].
  - done.
  - apply put_session_wf with s; [|by destruct (pty s)|apply quiet_lives, quiet_shell; by rewrite Hsh].
    destruct (pty s); [|done]. apply log_wf; [done|repeat constructor].
  - eapply put_session_wf; [done..|]. apply quiet_lives, quiet_shell. by rewrite Hsh.
  - by eapply handle_control_wf.
  - eapply put_session_wf; [done..|]. by apply quiet_lives, quiet_mux.
Qed.

Lemma server_frames_wf sid fs : ∀ (c c' : ServerCore) replies,
  server_wf c → server_frames p sid fs c = Some (c', replies) → server_wf c'.
Proof.
  induction fs as [|f fs IH]; intros c c' replies Hc; cbn [server_frames]; [by intros [= <- _]|].
  destruct (server_frame _ _ _ _) as [[c1 r1]|] eqn:H1; [|done]. cbn [mbind option_bind].
  destruct (server_frames _ _ _ _) as [[c2 r2]|] eqn:H2; [|done]. cbn. intros [= <- _].
  eapply IH; [|exact H2]. by eapply server_frame_wf.
Qed.

Lemma open_lives s src buf r sn : open (session s) src buf = (r, sn) → lives s (set_session sn s).
Proof.
  intros H. destruct (open_spec _ _ _ _ _ H) as [[-> _]|(nonce & pt & _ & _ & Hid & _ & _ & Hp)].
  - by split; try done; left.
  - split; try done; [|by left|by left]. cbn. intros Hs.
    destruct (fst _); destruct Hp as [_ ->]; [by eexists|done].
Qed.

Lemma surface_events_wf sid (c : ServerCore) : server_wf c → server_wf (surface_events sid c).
Proof.
  intros Hc. unfold surface_events. destruct (sessions c !! sid) as [s|] eqn:Hs; [|done].
  destruct (take_events _) as [evs m]. apply stream_events_wf.
  eapply put_session_wf; [done..|]. apply quiet_lives, quiet_mux.
Qed.

Lemma send_replies_wf sid replies (c : ServerCore) :
  server_wf c → server_wf (send_replies sid replies c).2.
Proof.
  intros Hc. unfold send_replies. destruct replies as [|f fs]; [done|].
  destruct (sessions c !! sid) as [s|] eqn:Hs; [|done]. destruct (peer_addr _); [|done].
  destruct (seal_many _ _ _) as [r sn] eqn:Hseal.
  assert (server_wf (put_session sid (set_session sn s) c)) as H.
  { eapply put_session_wf; [done..|]. by eapply quiet_lives, seal_many_quiet. }
  by destruct r.
Qed.

Lemma handle_transport_wf src sid buf (c c' : ServerCore) r :
  server_wf c → handle_transport p src sid buf c = Some (r, c') → server_wf c'.
Proof.
  intros Hc. unfold handle_transport. destruct (sessions c !! sid) as [s|] eqn:Hs; [|by intros [= _ <-]].
  rewrite open_calm. cbn [mbind option_bind].
  destruct (open (session s) src buf) as [[frames|e] sn] eqn:Ho; apply open_lives in Ho.
  - assert (server_wf (put_session sid (set_idle_ticks 0 (set_session sn s)) c)) as Hc1.
    { eapply put_session_wf; [done..|]. destruct Ho. split; try done; by right. }
    destruct (server_frames _ _ _ _) as [[c2 replies]|] eqn:Hf; [|done]. cbn. intros [= H].
    apply (f_equal snd) in H. cbn [snd] in H. rewrite <- H.
    apply send_replies_wf, surface_events_wf. by eapply server_frames_wf.
  - intros [= _ <-]. by eapply put_session_wf.
Qed.

(** ** Handshakes *)

Lemma find_existing_spec order key (c : ServerCore) k :
  find_existing order key c = Some k →
  ∃ s, sessions c !! k = Some s ∧ reattachable key s = true ∧ k ∈ order.
Proof.
  induction order as [|k' order IH]; [done|]. cbn [find_existing].
  destruct (sessions c !! k') as [s|] eqn:Hs; [destruct (reattachable key s) eqn:Hr|].
  1: intros [= <-]; exists s; split_and!; [done|done|by left].
  all: intros H; destruct (IH H) as (s' & ? & ? & ?); exists s'; split_and!; [done|done|by right].
Qed.

Lemma handshake_entry_spec sid body (c c' : ServerCore) r :
  server_wf c → sessions c !! sid = None → handshake_entry p sid body c = (r, c') →
  server_wf c' ∧ sessions c' = sessions c ∧ authorized c' = authorized c ∧
  match r with
  | Ok (Some (k, _)) =>
    hs_session_id k = sid ∧ pending c' !! sid = None ∧
    (size (pending c') < MAX_PENDING_HANDSHAKES)%nat
  | _ => c' = c
  end.
Proof.
  intros Hc Hsid. pose proof Hc as []. unfold handshake_entry.
  destruct (pending c !! sid) as [k|] eqn:Hk.
  - intros [= <- <-].
    assert (size (delete sid (pending c)) < MAX_PENDING_HANDSHAKES)%nat as Hsz.
    { rewrite map_size_delete, Hk. pose proof (map_size_ne_0_lookup_2 (pending c) sid (mk_is_Some _ _ Hk)). lia. }
    split_and!; try done; [|by apply wf_pending_id0|by apply lookup_delete_eq].
    split; try done; cbn.
    + lia.
    + intros sid' [x Hx]. apply lookup_delete_Some in Hx as [_ Hx]. apply wf_disjoint0. by eexists.
    + intros sid' x Hx. apply lookup_delete_Some in Hx as [_ Hx]. by apply wf_pending_id0.
  - destruct (_ <? _)%nat; [by intros [= <- <-]|].
    destruct (Nat.leb_spec MAX_PENDING_HANDSHAKES (size (pending c))); [by intros [= <- <-]|].
    destruct (handshaker_server _ _ _) as [k|e] eqn:Hs; intros [= <- <-]; split_and!; try done.
    unfold handshaker_server in Hs. destruct (handshake_new _ _); cbn in Hs; [|done].
    by injection Hs as <-.
Qed.

Lemma put_pending_wf sid k (c : ServerCore) :
  server_wf c → sessions c !! sid = None → hs_session_id k = sid → pending c !! sid = None →
  (size (pending c) < MAX_PENDING_HANDSHAKES)%nat →
  server_wf (set_pending (<[sid := k]> (pending c)) c).
Proof.
  intros [] Hs Hk Hp Hsz. split; try done; cbn.
  - rewrite map_size_insert_None by done. lia.
  - intros sid' [x Hx]. destruct (decide (sid' = sid)) as [->|]; [done|].
    rewrite lookup_insert_ne in Hx by done. apply wf_disjoint0. by eexists.
  - intros sid' x. destruct (decide (sid' = sid)) as [->|].
    + rewrite lookup_insert_eq. by intros [= <-].
    + rewrite lookup_insert_ne by done. apply wf_pending_id0.
Qed.

(** The sessions after a session is established: the new one, which may have taken
    over the pty of one that is gone, and the others. *)
Lemma establish_sessions order sid sn key (c : ServerCore) :
  ∃ old s', sessions (establish order sid sn key c) = <[sid := s']> (sessions c ∖ old) ∧
    session s' = sn ∧ client_key s' = key ∧ exit_ticks s' = 0 ∧ idle_ticks s' = 0 ∧
    exit_status s' = None ∧
    match find_existing order key c with
    | None => old = ∅ ∧ s' = fresh_session sn key
    | Some k => ∃ s, sessions c !! k = Some s ∧ old = {[k := s]} ∧
        s' = take_over s (fresh_session sn key)
    end.
Proof.
  unfold establish. destruct (find_existing order key c) as [k|] eqn:Hf.
  - destruct (find_existing_spec _ _ _ _ Hf) as (s & Hs & _). rewrite Hs.
    exists {[k := s]}, (take_over s (fresh_session sn key)). split_and!; try done; [|by eexists].
    cbn. f_equal. apply map_eq. intros i. rewrite lookup_difference.
    destruct (decide (i = k)) as [->|].
    + by rewrite lookup_singleton_eq, lookup_delete_eq.
    + by rewrite lookup_singleton_ne, lookup_delete_ne by done.
  - exists ∅, (fresh_session sn key). split_and!; try done. cbn. f_equal.
    by rewrite map_difference_empty.
Qed.

Lemma establish_rest order sid sn key (c : ServerCore) :
  rest (establish order sid sn key c) = rest (set_ever_active true c) ∧
  pty_log (establish order sid sn key c) = pty_log c ∧
  stream_events (establish order sid sn key c) = stream_events c.
Proof. unfold establish. repeat case_match; simplify_eq; done. Qed.

Lemma establish_wf order sid sn key (c : ServerCore) :
  server_wf c → sessions c !! sid = None → pending c !! sid = None →
  session_id sn = sid → is_Some (peer_addr sn) → authorize_client (authorized c) key = true →
  server_wf (establish order sid sn key c).
Proof.
  intros Hc Hsid Hpend Hid Hpeer Hkey. pose proof Hc as [].
  destruct (establish_sessions order sid sn key c) as
    (old & s' & Hs & Hsn & Hk & Ht & Hi & He & Hold).
  destruct (establish_rest order sid sn key c) as (Hr & Hl & _).
  set (c' := establish order sid sn key c) in *. injection Hr as _ Ha Hlog Hcmd Hu Hp Hev _ Hag.
  assert (∀ k x, sessions c' !! k = Some x →
    k = sid ∧ x = s' ∨ k ≠ sid ∧ sessions c !! k = Some x ∧ old !! k = None) as Hlook.
  { intros k x. rewrite Hs. destruct (decide (k = sid)) as [->|Hne].
    - rewrite lookup_insert_eq. intros [= <-]. by left.
    - rewrite lookup_insert_ne by done. intros [? ?]%lookup_difference_Some. by right. }
  assert (∀ h, pty s' = Some h → ∃ k s, sessions c !! k = Some s ∧ pty s = Some h ∧
    old !! k = Some s ∧ is_Some (shell s')) as Hpty.
  { intros h Hh. destruct (find_existing order key c) as [k|].
    - destruct Hold as (s & Hks & -> & ->). exists k, s. cbn in Hh.
      split_and!; [done|done|by apply lookup_singleton_eq|]. cbn. apply fmap_is_Some.
      destruct (wf_sessions0 _ _ Hks). apply so_shell0. by eexists.
    - by destruct Hold as [-> ->]. }
  split.
  - by rewrite Hp.
  - rewrite Hp. intros k Hk'. destruct (sessions c' !! k) as [x|] eqn:Hx; [|done].
    destruct (Hlook _ _ Hx) as [[-> _]|(_ & Hx' & _)].
    + rewrite Hpend in Hk'. by destruct Hk'.
    + rewrite (wf_disjoint0 k Hk') in Hx'. done.
  - by rewrite Hp.
  - rewrite Ha. intros k x Hx. destruct (Hlook _ _ Hx) as [[-> ->]|(_ & Hx' & _)].
    + split; [by rewrite Hsn|by rewrite Hk|by rewrite Hsn| | |].
      * intros [h Hh]. by destruct (Hpty h Hh) as (? & ? & _ & _ & _ & ?).
      * rewrite Ht. unfold EXIT_RETRANSMIT_TICKS. lia.
      * rewrite Hi. unfold u32_max. lia.
    + by apply wf_sessions0.
  - intros k _. done.
  - rewrite Hu, Hag. done.
  - rewrite Hu, Hcmd, Hl. done.
  - by rewrite Hlog.
  - rewrite Hlog. intros k x h Hx Hh. destruct (Hlook _ _ Hx) as [[-> ->]|(_ & Hx' & _)].
    + destruct (Hpty h Hh) as (k' & s & Hks & Hsh & _). by eapply wf_own0.
    + by eapply wf_own0.
  - intros k1 k2 x1 x2 h1 h2 H1 H2 Hh1 Hh2 Hch.
    assert (∀ k x h h', pty s' = Some h → k ≠ sid → sessions c !! k = Some x → old !! k = None →
      pty x = Some h' → child h ≠ child h') as Hdiff.
    { intros k x h h' Hh _ Hx Ho Hh' Heq. destruct (Hpty h Hh) as (k' & s & Hks & Hsh & Hok & _).
      assert (k' = k) as -> by (by eapply wf_unshared0). congruence. }
    destruct (Hlook _ _ H1) as [[-> ->]|(Hn1 & H1' & Ho1)], (Hlook _ _ H2) as [[-> ->]|(Hn2 & H2' & Ho2)];
      [done| | |].
    + by destruct (Hdiff k2 x2 h1 h2).
    + by destruct (Hdiff k1 x1 h2 h1).
    + by eapply wf_unshared0.
Qed.

Lemma handle_handshake_wf order src sid body (c c' : ServerCore) r :
  server_wf c → handle_handshake p order src sid body c = (r, c') → server_wf c'.
Proof.
  intros Hc. unfold handle_handshake. case_bool_decide as Hsid; [by intros [= _ <-]|].
  apply eq_None_not_Some in Hsid.
  destruct (handshake_entry p sid body c) as [r1 c1] eqn:He.
  destruct (handshake_entry_spec _ _ _ _ _ Hc Hsid He) as (Hc1 & Hs1 & Ha & Hr).
  rewrite <- Hs1 in Hsid.
  destruct r1 as [[[k was]|]|e]; [|by intros [= _ <-]..].
  destruct Hr as (Hk & Hp & Hsz).
  destruct (hs_step k body) as [[outcome|e] k'] eqn:Hstep; apply hs_step_sid in Hstep; rewrite Hk in Hstep.
  - destruct (hs_finished outcome).
    + destruct (hs_remote_static k') as [key|]; [|by intros [= _ <-]].
      destruct (authorize_client (authorized c1) key) eqn:Hauth; [|by intros [= _ <-]]. cbn [negb].
      destruct (into_session k' (Some src)) as [sn|e] eqn:Hi; intros [= _ <-]; [|done].
      unfold into_session in Hi. destruct (negb (finished k')); [done|].
      destruct (ok_or (hs k') _) as [h|]; [|done]. cbn in Hi.
      destruct (map_err _ (into_transport h)) as [n|]; [|done]. cbn in Hi. injection Hi as <-.
      by apply establish_wf.
    + intros [= _ <-]. by apply put_pending_wf.
  - intros [= _ <-]. destruct was; [|done]. by apply put_pending_wf.
Qed.

Lemma handle_packet_wf order src buf (c c' : ServerCore) out :
  server_wf c → handle_packet p order src buf c = Some (out, c') → server_wf c'.
Proof.
  intros Hc. unfold handle_packet, try_handle_packet.
  rewrite parse_packet_calm. cbn [mbind option_bind].
  destruct (parse_packet buf) as [[sid body|sid nonce body]|e]; cbn [mbind option_bind].
  - destruct (handle_handshake _ _ _ _ _ _) as [r c1] eqn:H. intros [= _ <-].
    by eapply handle_handshake_wf.
  - destruct (handle_transport _ _ _ _ _) as [[r c1]|] eqn:H; [|done]. cbn. intros [= _ <-].
    by eapply handle_transport_wf.
  - by intros [= _ <-].
Qed.

(** ** Ticks *)

Lemma ticked_ok keys sid s s' fin :
  ticked sid s s' fin → session_ok keys sid s → fin = [] → session_ok keys sid s'.
Proof.
  intros [] [] ->. split; try congruence.
  - intros [h Hh]. apply tk_shell0, so_shell0. destruct tk_pty0; [|congruence].
    exists h. congruence.
  - unfold counted, EXIT_RETRANSMIT_TICKS in *.
    assert (as_u32 (exit_ticks s + 1) = exit_ticks s + 1) as Hu by (apply as_u32_id; lia_ints).
    rewrite Hu in *. destruct (exit_status s); [|destruct (_ <=? idle_ticks s')];
      destruct_or?; destruct_and?; try done; try lia;
      destruct (Z.leb_spec 50 (exit_ticks s')); try done; lia.
  - rewrite tk_idle0. unfold saturating_add_u32, u32_max in *. lia.
Qed.

Lemma tick_wf order io (c c' : ServerCore) out :
  server_wf c → session_order order c → tick char_width p order io c = Some (out, c') →
  server_wf c'.
Proof.
  intros [] Hord Ht. destruct (tick_spec _ _ _ _ _ Hord Ht) as (Hr & (es & Hl & Hes) & Hall).
  injection Hr as _ Ha Hlog Hcmd Hu Hp Hev _ Hag.
  assert (∀ k x, sessions c' !! k = Some x →
    ∃ s, sessions c !! k = Some s ∧ ticked k s x []) as Hlook.
  { intros k x Hx. specialize (Hall k). destruct (sessions c !! k) as [s|]; [|congruence].
    destruct Hall as (s' & [|] & Htk & Hs'); [|congruence]. exists s. split; [done|]. congruence. }
  assert (∀ k x h, sessions c' !! k = Some x → pty x = Some h →
    ∃ s, sessions c !! k = Some s ∧ pty s = Some h) as Hpty.
  { intros k x h Hx Hh. destruct (Hlook k x Hx) as (s & Hs & []). exists s. split; [done|].
    destruct tk_pty0; congruence. }
  split.
  - by rewrite Hp.
  - rewrite Hp. intros k Hk. specialize (Hall k). by rewrite (wf_disjoint0 k Hk) in Hall.
  - by rewrite Hp.
  - rewrite Ha. intros k x Hx. destruct (Hlook k x Hx) as (s & Hs & Htk).
    eapply ticked_ok; [done| |done]. by apply wf_sessions0.
  - rewrite Hev. intros k [x Hx]. destruct (Hlook k x Hx) as (s & Hs & _).
    eapply wf_active0. by eexists.
  - by rewrite Hu, Hag.
  - rewrite Hu, Hcmd, Hl. apply Forall_app_2; [done|by apply no_spawn_ok].
  - by rewrite Hlog.
  - rewrite Hlog. intros k x h Hx Hh. destruct (Hpty k x h Hx Hh) as (s & Hs & Hh').
    by eapply wf_own0.
  - intros k1 k2 x1 x2 h1 h2 H1 H2 Hh1 Hh2 Hch.
    destruct (Hpty _ _ _ H1 Hh1) as (s1 & Hs1 & Hh1'), (Hpty _ _ _ H2 Hh2) as (s2 & Hs2 & Hh2').
    by eapply wf_unshared0.
Qed.

(** ** Runs of the server *)

(** The configuration, fixed when the server starts. *)
Definition config (c : ServerCore) := (keypair c, authorized c, command c, user c).

Lemma rest_config (c c' : ServerCore) : rest c = rest c' → config c = config c'.
Proof. unfold rest, config. congruence. Qed.

(** What only handshakes change. *)
Definition fixed (c : ServerCore) := (config c, pending c, ever_active c).

Lemma server_frame_fixed sid f (c c' : ServerCore) replies :
  server_frame p sid f c = Some (c', replies) → fixed c' = fixed c.
Proof.
  intros H. destruct (server_frame_effect _ _ _ _ _ H)
    as [|? ? s|? s|data msg c' _ Hm|? s]; try done; [by destruct (pty s)|].
  revert Hm. destruct msg; cbn [handle_control mbind option_bind]; try by intros [= <-].
  - intros [= <-]. unfold open_shell, spawn_call. repeat case_match; simplify_eq; done.
  - unfold resize_session. destruct (sessions c !! sid); [|by intros [= <-]].
    destruct (shell _); [destruct (shell_resize _ _ _); [|done]|]; cbn; intros [= <-];
      by destruct (pty _).
  - intros [= <-]. unfold finish_session. by destruct (sessions c !! sid).
Qed.

Lemma server_frames_fixed sid fs : ∀ (c c' : ServerCore) replies,
  server_frames p sid fs c = Some (c', replies) → fixed c' = fixed c.
Proof.
  induction fs as [|f fs IH]; intros c c' replies; cbn [server_frames]; [by intros [= <- _]|].
  destruct (server_frame _ _ _ _) as [[c1 r1]|] eqn:H1; [|done]. cbn [mbind option_bind].
  destruct (server_frames _ _ _ _) as [[c2 r2]|] eqn:H2; [|done]. cbn. intros [= <- _].
  rewrite (IH _ _ _ H2). by eapply server_frame_fixed.
Qed.

Lemma handle_transport_fixed src sid buf (c c' : ServerCore) r :
  handle_transport p src sid buf c = Some (r, c') → fixed c' = fixed c.
Proof.
  unfold handle_transport. destruct (sessions c !! sid) as [s|]; [|by intros [= _ <-]].
  rewrite open_calm. cbn [mbind option_bind].
  destruct (open _ _ _) as [[frames|e] sn]; [|by intros [= _ <-]].
  set (c1 := put_session _ _ _). change (fixed c) with (fixed c1). clearbody c1.
  destruct (server_frames _ _ _ _) as [[c2 replies]|] eqn:Hf; [|done]. cbn [mbind option_bind].
  destruct (send_replies _ _ _) as [r1 c3] eqn:Hsend. intros [= _ <-].
  rewrite <- (server_frames_fixed _ _ _ _ _ Hf).
  assert (fixed (surface_events sid c2) = fixed c2) as <-.
  { unfold surface_events. destruct (sessions c2 !! sid) as [s2|]; [|done]. by destruct (take_events _). }
  revert Hsend. unfold send_replies. repeat case_match; intros; simplify_eq; done.
Qed.

Lemma handle_packet_config order src buf (c c' : ServerCore) out :
  handle_packet p order src buf c = Some (out, c') → config c' = config c.
Proof.
  unfold handle_packet, try_handle_packet.
  rewrite parse_packet_calm. cbn [mbind option_bind].
  destruct (parse_packet buf) as [[sid body|sid nonce body]|e]; cbn [mbind option_bind].
  - unfold handle_handshake. case_bool_decide; [by intros [= _ <-]|].
    unfold handshake_entry. repeat case_match; intros; simplify_eq; try done;
      by rewrite (rest_config _ _ (proj1 (establish_rest _ _ _ _ _))).
  - destruct (handle_transport _ _ _ _ _) as [[r c1]|] eqn:H; [|done]. cbn. intros [= _ <-].
    apply handle_transport_fixed in H. exact (f_equal (λ x, x.1.1) H).
  - by intros [= _ <-].
Qed.

(** The calls of the driver: streams are opened, read, written and closed, and the
    queues for it are taken. *)
Inductive driver_call (c : ServerCore) : ServerCore → Prop :=
| call_open_agent sid : driver_call c (open_agent sid c).2
| call_open_exec sid : driver_call c (open_exec sid c).2
| call_open_forward sid target : driver_call c (open_forward sid target c).2
| call_read sid id : driver_call c (stream_read sid id c).2
| call_write sid id data : driver_call c (stream_write sid id data c)
| call_close sid id : driver_call c (stream_close sid id c)
| call_close_status sid id st : driver_call c (stream_close_status sid id st c)
| call_reset sid id : driver_call c (stream_reset sid id c)
| call_events : driver_call c (take_stream_events c).2
| call_forwards : driver_call c (take_remote_forward_requests c).2
| call_agents : driver_call c (take_agent_socket_requests c).2.

(** The steps of a server; [P] says which packets arrive. *)
Definition traffic : Type := ServerCore → SocketAddr → list Z → Prop.
Definition any_traffic : traffic := λ _ _ _, True.

Inductive server_step (P : traffic) (c : ServerCore) : ServerCore → Prop :=
| step_packet order src buf out c' :
  session_order order c → P c src buf → handle_packet p order src buf c = Some (out, c') →
  server_step P c c'
| step_tick order io out c' :
  session_order order c → tick char_width p order io c = Some (out, c') → server_step P c c'
| step_driver c' : driver_call c c' → server_step P c c'.

Lemma put_mux_wf sid s m (c : ServerCore) :
  server_wf c → sessions c !! sid = Some s → server_wf (put_session sid (set_mux m s) c).
Proof. intros Hc Hs. eapply put_session_wf; [done..|]. apply quiet_lives, quiet_mux. Qed.

Lemma driver_call_wf (c c' : ServerCore) :
  server_wf c → driver_call c c' → server_wf c' ∧ fixed c' = fixed c.
Proof.
  intros Hc. assert (∀ sid kind meta, server_wf (mux_open_in sid kind meta c).2 ∧
    fixed (mux_open_in sid kind meta c).2 = fixed c) as Hopen.
  { intros sid kind meta. unfold mux_open_in. destruct (sessions c !! sid) eqn:Hs; [|done].
    destruct (mux_open _ _ _). split; [by eapply put_mux_wf|done]. }
  assert (∀ sid f, server_wf (with_mux sid f c) ∧ fixed (with_mux sid f c) = fixed c) as Hmux.
  { intros sid f. split; [by apply with_mux_wf|]. unfold with_mux. by destruct (sessions c !! sid). }
  destruct 1; try apply Hopen; try apply Hmux.
  - unfold stream_read. destruct (sessions c !! sid) eqn:Hs; [|done].
    destruct (mux_read _ _). split; [by eapply put_mux_wf|done].
  - split; [by apply stream_events_wf|done].
  - split; [by apply remote_forward_wf|done].
  - split; [|done]. by destruct Hc.
Qed.

Lemma server_step_wf P (c c' : ServerCore) :
  server_wf c → server_step P c c' → server_wf c' ∧ config c' = config c.
Proof.
  intros Hc [order src buf out c1 _ _ H|order io out c1 Hord H|c1 H].
  - split; [by eapply handle_packet_wf|by eapply handle_packet_config].
  - split; [by eapply tick_wf|]. destruct (tick_spec _ _ _ _ _ Hord H) as (Hr & _).
    by apply rest_config.
  - destruct (driver_call_wf _ _ Hc H) as [? Hf]. split; [done|]. exact (f_equal (λ x, x.1.1) Hf).
Qed.

(** A server that starts with these keys, this login backend, this forced command
    and this target user, and runs. *)
Definition server_start kp keys login cmd u : ServerCore :=
  with_user u (server_core_new kp keys login cmd).

Lemma server_reachable_wf P kp keys login cmd u (c : ServerCore) :
  NoDup (children login) → rtc (server_step P) (server_start kp keys login cmd u) c →
  server_wf c ∧ config c = (kp, keys, cmd, u).
Proof.
  intros Hnd. apply (rtc_invariant _ (λ c, server_wf c ∧ config c = (kp, keys, cmd, u))).
  - split; [|done]. destruct (new_wf kp keys login cmd Hnd). split; try done.
  - intros c1 c2 [Hc Hcfg] Hstep. destruct (server_step_wf _ _ _ Hc Hstep) as [? ->]. done.
Qed.
End inv.
