(* ===== verification/ServerMux.v ===== *)
(** * What every operation on streams keeps, in every state a server reaches

    An invariant of single streams that the operations of [Stream] keep is one of a
    multiplexer ([streams_invariant]), and so holds of every stream of every session
    of a server ([server_step_muxes]).  The instances: the pieces a receiver buffers
    neither overlap nor touch, and the offsets of a send half stay in its buffer,
    which are what the slices of both are in range by. *)

From stdpp Require Import gmap relations.
From S2P Require Import Prelude Wire Replay Input NoiseCore Session Handshake Reassembler Stream Mux Cell Text Grid GridOps Diff Predict Shell Control Auth Pty Runtime Server ServerInv.

(** ** Invariants of a stream *)

(** What every operation on one stream keeps; [W] says which writes are considered. *)
Class StreamInvariant (J W : StreamState → Prop) : Prop := {
  si_new id kind meta b : J (stream_new id kind meta b);
  si_data s offset data fin s' r :
    J s → 0 ≤ offset → accept_data s offset data fin = Some (s', r) → J s';
  si_ack s ack window t : J s → J (stream_on_ack s ack window t);
  si_closed s : J s → J (set_close_received true s);
  si_reset s : J s → J (set_reset true s);
  si_transmit s t : J s → s_reset s = false → J (transmit s t []).1;
  si_write s data : J s → W (Stream.stream_write s data) → J (Stream.stream_write s data);
  si_close s status : J s → J (set_close_status (Some status) (set_send_fin true s));
  si_read s : J s → J (set_recv (read (s_recv s)).2 s);
}.

Definition all_streams (J : StreamState → Prop) (m : StreamMux) : Prop :=
  ∀ id s, streams m !! id = Some s → J s.

(** ** Invariants of a multiplexer *)

(** What every operation on the streams of a session keeps. *)
Class MuxInvariant (I W : StreamMux → Prop) : Prop := {
  mi_new b : I (mux_new b);
  mi_frame m f : I m → frame_wf f → I (on_frame m f);
  mi_poll m : I m → I (poll_transmit m).2;
  mi_events m : I m → I (take_events m).2;
  mi_open m kind meta : I m → I (mux_open m kind meta).2;
  mi_write m id data : I m → W (mux_write m id data) → I (mux_write m id data);
  mi_close m id status : I m → I (mux_close m id status);
  mi_reset m id : I m → I (mux_reset m id);
  mi_read m id : I m → I (mux_read m id).2;
}.

Section streams.
Context (J W : StreamState → Prop) {HJ : StreamInvariant J W}.

Lemma all_streams_insert m id s :
  all_streams J m → J s → all_streams J (set_streams (<[id := s]> (streams m)) m).
Proof.
  intros Hm Hs k x. cbn. rewrite lookup_insert_Some. intros [[_ <-]|[_ Hx]]; [done|by eapply Hm].
Qed.

Lemma with_stream_all m id f :
  (∀ s, streams m !! id = Some s → J s → J (f s)) → all_streams J m → all_streams J (with_stream m id f).
Proof.
  intros Hf Hm. unfold with_stream. destruct (streams m !! id) as [s|] eqn:Hs; [|done].
  apply all_streams_insert; [done|]. by eapply Hf, Hm.
Qed.

#[export] Instance streams_invariant : MuxInvariant (all_streams J) (all_streams W).
Proof.
  split.
  - by intros b id s.
  - intros m f Hm Hf. destruct f; cbn [on_frame]; try exact Hm.
    + destruct (_ || _); [done|]. destruct (streams m !! id); [done|].
      apply (all_streams_insert m); [done|apply HJ].
    + destruct (streams m !! id) as [s|] eqn:Hs; [|done].
      destruct (accept_data s offset data fin) as [[s' r]|] eqn:Ha; [|done].
      assert (J s') as Hs'.
      { apply (si_data s offset data fin s' r); [by eapply Hm|exact (frame_wf_ok _ Hf)|exact Ha]. }
      destruct r; by apply (all_streams_insert m).
    + apply with_stream_all; [|done]. intros s _. apply HJ.
    + destruct (streams m !! id) as [s|] eqn:Hs; [|done]. destruct (negb _); [|done].
      apply (all_streams_insert m); [done|]. by eapply si_closed, Hm.
    + destruct (streams m !! id) as [s|] eqn:Hs; [|done].
      apply (all_streams_insert m); [done|]. by eapply si_reset, Hm.
  - intros m Hm id s' Hs. pose proof (poll_transmit_spec m) as Hp.
    destruct (poll_transmit m) as [out m']. destruct Hp as (_ & Hl & _). cbn [snd] in Hs.
    rewrite Hl in Hs. destruct (streams m !! id) as [s|] eqn:Hsm; [|done]. cbn in Hs.
    unfold polled in Hs. destruct (s_reset s) eqn:Hr; [done|].
    pose proof (si_transmit s (as_u64 (now m + 1)) (Hm _ _ Hsm) Hr) as Ht.
    destruct (transmit s _ _) as [s1 l]. cbn in *. destruct (fully_done s1); [done|]. by injection Hs as <-.
  - done.
  - intros m kind meta Hm. apply (all_streams_insert m); [done|apply HJ].
  - intros m id data Hm HW. apply with_stream_all; [|done]. intros s Hs Hj. apply HJ; [done|].
    apply (HW id). unfold mux_write, with_stream. rewrite Hs. apply lookup_insert_eq.
  - intros m id status. apply with_stream_all. intros s _. apply HJ.
  - intros m id. apply with_stream_all. intros s _. apply HJ.
  - intros m id Hm. unfold mux_read. destruct (streams m !! id) as [s|] eqn:Hs; [|done].
    pose proof (si_read s (Hm _ _ Hs)) as Hr. destruct (read (s_recv s)) as [d r].
    by apply (all_streams_insert m).
Qed.
End streams.

(** ** The two invariants *)

(** The pieces a stream buffers are apart. *)
Definition buffered (s : StreamState) : Prop := reassembler_wf (s_recv s).
Definition buffers_ok : StreamMux → Prop := all_streams buffered.

Lemma transmit_recv s t out : s_recv (transmit s t out).1 = s_recv s.
Proof.
  unfold transmit. destruct (s_reset s); [done|].
  assert (s_recv (transmit_open s out).1 = s_recv s) as H1 by (unfold transmit_open; by destruct (s_needs_open s)).
  destruct (transmit_open s out) as [s1 out1]. cbn [fst] in H1.
  assert (s_recv (transmit_data s1 t out1).1 = s_recv s1) as H2.
  { unfold transmit_data. set (e := Z.min _ _). destruct (_ <? _).
    - destruct (emit_range_shape s1 out1 (Z.max (s_send_high s1) (s_send_base s1)) e) as (b & l & ->).
      destruct b; cbn; by repeat case_match.
    - destruct (_ <? _); [|by repeat case_match]. destruct (rto_due _ _ _); [|done].
      destruct (emit_range_shape s1 out1 (s_send_base s1) (s_send_high s1)) as (b & l & ->). by destruct b. }
  destruct (transmit_data s1 t out1) as [s2 out2]. cbn [fst] in H2.
  unfold transmit_ack, transmit_close. cbn. case_match; cbn; congruence.
Qed.

Lemma stream_on_ack_recv s ack window t : s_recv (stream_on_ack s ack window t) = s_recv s.
Proof.
  unfold stream_on_ack. destruct (_ <? _); [done|]. unfold ack_fin, ack_sample, ack_progress, update_rtt.
  by repeat case_match.
Qed.

#[export] Instance buffered_invariant : StreamInvariant buffered (λ _, True).
Proof.
  unfold buffered. split; try done.
  - intros s offset data fin s' r Hs Ho Ha. apply accept_data_spec in Ha as (? & -> & _).
    by apply insert_spec.
  - intros s ack window t. by rewrite stream_on_ack_recv.
  - intros s t. by rewrite transmit_recv.
  - intros s Hs. pose proof (read_spec _ Hs) as Hr. destruct (read (s_recv s)). apply Hr.
Qed.

(** The send half's offsets stay in its buffer, where no stream is within
    [MAX_STREAM_CHUNK] of the end of its offsets. *)
Definition sends (s : StreamState) : Prop := send_ok s ∧ short s.

#[export] Instance sends_invariant : StreamInvariant sends short.
Proof.
  unfold sends, short. split.
  - intros. split; [apply stream_new_send|by cbn].
  - intros s offset data fin s' r [Hs Hsh] _. unfold accept_data.
    destruct (checked_add_u64 _ _); [|done]. cbn [mbind option_bind]. destruct (_ <? _); [done|].
    intros [= <- _]. split; [apply (send_ok_same s); try done|]; by destruct (fin && _).
  - intros s ack window t [Hs Hsh]. destruct (stream_on_ack_send s ack window t Hs Hsh) as [? ->]. done.
  - intros s [Hs Hsh]. split; [by apply (send_ok_same s)|done].
  - intros s [Hs Hsh]. split; [by apply (send_ok_same s)|done].
  - intros s t [Hs Hsh] _. destruct (transmit_send s t [] Hs Hsh) as [? ->]. done.
  - intros s data [Hs _] Hsh. split; [by apply stream_write_send|done].
  - intros s status [Hs Hsh]. split; [by apply (send_ok_same s)|done].
  - intros s [Hs Hsh]. split; [by apply (send_ok_same s)|done].
Qed.

(** ** The sessions of a server *)

Definition muxes {V : Vte} {N : Snow} {SocketAddr : Type} (I : StreamMux → Prop)
    (c : @ServerCore V N SocketAddr) : Prop :=
  ∀ sid s, sessions c !! sid = Some s → I (mux s).

Section core.
Context (char_width : Z → nat) {V : Vte} {N : Snow} {SocketAddr : Type} (p : Process).
Context (I W : StreamMux → Prop) {HI : MuxInvariant I W}.
Local Abbreviation ServerCore := (@ServerCore V N SocketAddr).
Implicit Types (c : ServerCore) (s : @ServerSession V N SocketAddr).

Local Abbreviation muxes := (muxes I).

Lemma put_session_muxes sid s c : muxes c → I (mux s) → muxes (put_session sid s c).
Proof.
  intros Hc Hs k x. cbn. rewrite lookup_insert_Some. intros [[_ <-]|[_ Hx]]; [done|by eapply Hc].
Qed.
Lemma muxes_same c c' : muxes c → sessions c' = sessions c → muxes c'.
Proof. unfold ServerMux.muxes. by intros Hc ->. Qed.

Lemma with_mux_muxes sid f c : (∀ m, I m → I (f m)) → muxes c → muxes (with_mux sid f c).
Proof.
  intros Hf Hc. unfold with_mux. destruct (sessions c !! sid) as [s|] eqn:Hs; [|done].
  apply put_session_muxes; [done|]. cbn. by eapply Hf, Hc.
Qed.

Lemma driver_call_muxes c c' : muxes c → ServerMux.muxes W c' → driver_call c c' → muxes c'.
Proof.
  intros Hc HW Hcall.
  assert (∀ sid kind meta, muxes (mux_open_in sid kind meta c).2) as Hopen.
  { intros sid kind meta. unfold mux_open_in. destruct (sessions c !! sid) as [s|] eqn:Hs; [|done].
    pose proof (mi_open (mux s) kind meta (Hc _ _ Hs)). destruct (mux_open _ _ _).
    by apply put_session_muxes. }
  destruct Hcall; try apply Hopen; try done.
  - unfold stream_read. destruct (sessions c !! sid) as [s|] eqn:Hs; [|done].
    pose proof (mi_read (mux s) id (Hc _ _ Hs)). destruct (mux_read _ _). by apply put_session_muxes.
  - unfold stream_write, with_mux in *. destruct (sessions c !! sid) as [s|] eqn:Hs; [|done].
    apply put_session_muxes; [done|]. apply mi_write; [by eapply Hc|].
    apply (HW sid (set_mux (mux_write (mux s) id data) s)). apply lookup_insert_eq.
  - apply with_mux_muxes; [|done]. intros m. apply mi_close.
  - apply with_mux_muxes; [|done]. intros m. apply mi_close.
  - apply with_mux_muxes; [|done]. intros m. apply mi_reset.
Qed.

Lemma handle_control_muxes sid msg c c' :
  muxes c → handle_control p sid msg c = Some c' → muxes c'.
Proof.
  intros Hc. destruct msg; cbn [handle_control mbind option_bind]; try by intros [= <-].
  - intros [= <-]. unfold open_shell. destruct (sessions c !! sid) as [s|] eqn:Hs; [|done].
    case_bool_decide; [done|]. unfold spawn_call.
    destruct (login c) as [|[n|e] login']; [done| |done].
    match goal with |- muxes (match ?a with _ => _ end) => destruct a end;
      eapply (put_session_muxes sid _ c Hc); by eapply (Hc sid s).
  - unfold resize_session. destruct (sessions c !! sid) as [s|] eqn:Hs; [|by intros [= <-]].
    destruct (shell _); [destruct (shell_resize _ _ _); [|done]|]; cbn; intros [= <-];
      apply put_session_muxes; try (by destruct (pty _)); by eapply (Hc sid s).
  - intros [= <-]. unfold finish_session. destruct (sessions c !! sid) as [s|] eqn:Hs; [|done].
    apply put_session_muxes; [done|by eapply (Hc sid s)].
Qed.

Lemma server_frame_muxes sid f c c' r :
  muxes c → frame_wf f → server_frame p sid f c = Some (c', r) → muxes c'.
Proof.
  intros Hc Hf H. destruct (server_frame_effect _ _ _ _ _ _ H)
    as [|offset data s sh fresh ack sh' Hs _ _|q s sh Hs _|data msg c' _ Hm|f s m Hs _ <-].
  - done.
  - apply put_session_muxes; [by destruct (pty s)|by eapply (Hc sid s)].
  - apply put_session_muxes; [done|by eapply (Hc sid s)].
  - by eapply handle_control_muxes.
  - apply put_session_muxes; [done|]. apply mi_frame; [by eapply Hc|done].
Qed.

Lemma server_frames_muxes sid fs : ∀ c c' r,
  muxes c → Forall frame_wf fs → server_frames p sid fs c = Some (c', r) → muxes c'.
Proof.
  induction fs as [|f fs IH]; intros c c' r Hc Hf; cbn [server_frames]; [by intros [= <- _]|].
  apply Forall_cons in Hf as [Hf Hfs].
  destruct (server_frame _ _ _ _) as [[c1 r1]|] eqn:H1; [|done]. cbn [mbind option_bind].
  destruct (server_frames _ _ _ _) as [[c2 r2]|] eqn:H2; [|done]. cbn. intros [= <- _].
  eapply IH; [|exact Hfs|exact H2]. by eapply server_frame_muxes.
Qed.

Lemma handle_transport_muxes src sid buf c c' r :
  muxes c → handle_transport p src sid buf c = Some (r, c') → muxes c'.
Proof.
  intros Hc. unfold handle_transport. destruct (sessions c !! sid) as [s|] eqn:Hs; [|by intros [= _ <-]].
  rewrite open_calm. cbn [mbind option_bind].
  destruct (open (session s) src buf) as [[frames|e] sn] eqn:Ho.
  - set (c1 := put_session _ _ _).
    assert (muxes c1) as H1 by (apply put_session_muxes; [done|by eapply (Hc sid s)]).
    destruct (server_frames _ _ _ _) as [[c2 replies]|] eqn:Hf; [|done]. cbn. intros [= H].
    apply (f_equal snd) in H. cbn [snd] in H. subst c'.
    assert (muxes c2) as H2 by (by eapply server_frames_muxes; [exact H1|eapply open_frames_wf|]).
    assert (muxes (surface_events sid c2)) as H3.
    { unfold surface_events. destruct (sessions c2 !! sid) as [s2|] eqn:Hs2; [|done].
      pose proof (mi_events (mux s2) (H2 _ _ Hs2)) as He. destruct (take_events _) as [evs m].
      by apply (put_session_muxes sid _ c2 H2). }
    unfold send_replies. destruct replies as [|f fs]; [done|].
    destruct (sessions (surface_events sid c2) !! sid) as [s3|] eqn:Hs3; [|done].
    destruct (peer_addr _); [|done]. destruct (seal_many _ _ _) as [[pkts|e] sn3];
      (apply put_session_muxes; [done|by eapply (H3 sid s3)]).
  - intros [= _ <-]. apply put_session_muxes; [done|by eapply (Hc sid s)].
Qed.

Lemma establish_muxes order sid sn key c : muxes c → muxes (establish order sid sn key c).
Proof.
  intros Hc. destruct (establish_sessions order sid sn key c) as (old & s' & Hs & _ & _ & _ & _ & _ & Hold).
  intros k x. rewrite Hs. rewrite lookup_insert_Some. intros [[_ <-]|[_ [Hx _]%lookup_difference_Some]];
    [|by eapply Hc].
  destruct (find_existing order key c) as [k'|]; [destruct Hold as (s0 & _ & _ & ->)|destruct Hold as [_ ->]];
    apply mi_new.
Qed.

Lemma handle_packet_muxes order src buf c c' out :
  muxes c → handle_packet p order src buf c = Some (out, c') → muxes c'.
Proof.
  intros Hc. unfold handle_packet, try_handle_packet.
  rewrite parse_packet_calm. cbn [mbind option_bind].
  destruct (parse_packet buf) as [[sid body|sid nonce body]|e]; cbn [mbind option_bind].
  - unfold handle_handshake. case_bool_decide; [by intros [= _ <-]|].
    assert (sessions (handshake_entry p sid body c).2 = sessions c) as He.
    { unfold handshake_entry. by repeat case_match. }
    destruct (handshake_entry p sid body c) as [[[[k was]|]|e] c1]; cbn [snd] in He; cbn;
      [|intros [= _ <-]; by eapply muxes_same..].
    assert (muxes c1) as H1 by by eapply muxes_same.
    repeat case_match; intros; simplify_eq; try done; by apply establish_muxes.
  - destruct (handle_transport _ _ _ _ _) as [[r c1]|] eqn:H; [|done]. cbn. intros [= _ <-].
    by eapply handle_transport_muxes.
  - by intros [= _ <-].
Qed.

Lemma session_tick_mux io sid s s' t :
  I (mux s) → session_tick char_width p io sid s = Some (s', t) → I (mux s').
Proof.
  intros Hs. unfold session_tick. set (s0 := set_idle_ticks _ s).
  destruct (_ && _); [by intros [= <- _]|].
  assert (mux (announce p s0).1 = mux s0) as H1.
  { unfold announce. destruct (version_sent s0), (peer_addr (session s0)); try done.
    by destruct (seal _ _) as [[pkt|e] sn]. }
  destruct (announce p s0) as [s1 out1]. cbn [fst] in H1.
  destruct (drain _ _ _) as [[s2 log1]|] eqn:Hd; [|done]. cbn [mbind option_bind].
  assert (mux s2 = mux s1) as H2.
  { revert Hd. unfold drain. destruct (pty s1); [|by intros [= <- _]].
    destruct (drain_pty _ _ _ _) as [[sh es]|]; [|done]. by intros [= <- _]. }
  destruct (emit_diff s2) as [[s3 out2]|] eqn:He; [|done]. cbn [mbind option_bind].
  assert (mux s3 = mux s2) as H3.
  { revert He. unfold emit_diff. destruct (shell s2), (peer_addr (session s2)); try by intros [= <- _].
    destruct (poll_diff_checked _) as [[[diff|] sh]|]; [| |done]; cbn [mbind option_bind];
      [destruct (seal _ _) as [[pkt|e] sn]|]; by intros [= <- _]. }
  destruct (emit_streams sid s3) as [[[s4 out3] evs]|] eqn:Hes; [|done]. cbn [mbind option_bind].
  assert (I (mux s4)) as H4.
  { assert (I (mux s3)) as H by (rewrite H3, H2, H1; exact Hs). revert Hes. unfold emit_streams.
    destruct (poll_transmit_checked (mux s3)) as [[fs m]|] eqn:Hp; [|done]. cbn [mbind option_bind].
    apply poll_transmit_agrees in Hp. pose proof (mi_poll _ H) as Hm. rewrite Hp in Hm. cbn [snd] in Hm.
    pose proof (mi_events _ Hm) as Hev. destruct (take_events m) as [evs' m']. cbn [snd] in Hev.
    destruct fs; [by intros [= <- _ _]|]. destruct (peer_addr _); [|by intros [= <- _ _]].
    destruct (seal_many _ _ _) as [[pkts|e] sn]; by intros [= <- _ _]. }
  assert (mux (detect_exit (io_waits io sid) s4).1 = mux s4) as H5.
  { unfold detect_exit. destruct (exit_status s4), (pty s4) as [h|]; try done.
    by destruct (pty_try_wait h _) as [[[st|]|e] h']. }
  destruct (detect_exit _ s4) as [s5 log2]. cbn [fst] in H5.
  assert (mux (exit_notice sid s5).1.1 = mux s5) as H6.
  { unfold exit_notice. destruct (exit_status s5); [|done]. destruct (peer_addr _); [|done].
    by destruct (seal _ _) as [[pkt|e] sn]. }
  destruct (exit_notice sid s5) as [[s6 out4] fin]. cbn [fst] in H6.
  intros [= <- _]. by rewrite H6, H5.
Qed.

Lemma tick_muxes order io c c' out :
  muxes c → tick char_width p order io c = Some (out, c') → muxes c'.
Proof.
  intros Hc. unfold tick. destruct (tick_sessions _ _ _ _ _) as [[c1 t]|] eqn:Ht; [|done].
  cbn [mbind option_bind]. intros [= _ <-].
  assert (muxes c1) as H1.
  { revert c c1 t Hc Ht. induction order as [|sid order IH]; intros c c1 t Hc; cbn [tick_sessions];
      [by intros [= <- _]|].
    destruct (sessions c !! sid) as [s|] eqn:Hs; [|by apply IH].
    destruct (session_tick _ _ _ _ _) as [[s' t1]|] eqn:Hst; [|done]. cbn [mbind option_bind].
    destruct (tick_sessions _ _ _ _ _) as [[c2 t2]|] eqn:H2; [|done]. cbn. intros [= <- _].
    eapply IH; [|exact H2]. apply (put_session_muxes sid s' c Hc).
    eapply session_tick_mux; [|exact Hst]. by eapply Hc. }
  apply (muxes_same (foldl (flip remove_session) c1 (t_finished t))); [|done].
  generalize (t_finished t). clear Ht. intros l. revert c1 H1. induction l as [|sid l IH]; intros c1 H1; [done|].
  cbn [foldl]. apply IH. unfold flip, remove_session. destruct (sessions c1 !! sid); [|done].
  intros k x. cbn. intros [_ Hx]%lookup_delete_Some. by eapply H1.
Qed.

(** Whatever the operations on streams keep holds of all streams of a server. *)
Lemma server_step_muxes P c c' :
  muxes c → ServerMux.muxes W c' → server_step char_width p P c c' → muxes c'.
Proof.
  intros Hc HW Hstep. destruct Hstep as [order src buf out c1 _ _ H|order io out c1 Hord H|c1 H].
  - by eapply handle_packet_muxes.
  - by eapply tick_muxes.
  - by apply (driver_call_muxes c).
Qed.

Lemma start_muxes kp keys login cmd u : muxes (server_start (SocketAddr := SocketAddr) kp keys login cmd u).
Proof. by intros sid s. Qed.
End core.

Lemma muxes_any {V : Vte} {N : Snow} {SocketAddr : Type} (c : @ServerCore V N SocketAddr) :
  muxes (all_streams (λ _, True)) c.
Proof. done. Qed.

(** In every reachable state the pieces that are buffered are apart. *)
Lemma reachable_buffers (char_width : Z → nat) {V : Vte} {N : Snow} {SocketAddr : Type} (p : Process)
    P kp keys login cmd u (c : @ServerCore V N SocketAddr) :
  rtc (server_step char_width p P) (server_start kp keys login cmd u) c → muxes buffers_ok c.
Proof.
  apply (rtc_invariant _ (muxes buffers_ok)); [apply (start_muxes buffers_ok)|]. intros c1 c2 H1.
  apply (server_step_muxes char_width p buffers_ok (all_streams (λ _, True))); [exact H1|apply muxes_any].
Qed.
