(* ===== verification/ServerProps.v ===== *)
(** * The server core's theorems

    Consequences of the invariant of [ServerInv]: freedom from panics, which
    datagrams matter, the end of sessions, reattachment, and the table of
    unfinished handshakes. *)

From stdpp Require Import gmap.
From S2P Require Import Prelude Wire Input NoiseCore Session Handshake Stream Mux Cell Text Grid GridOps.
From S2P Require Import Diff Predict Shell Control Auth Pty Runtime Server ServerInv ServerMux.

Section props.
Context (char_width : Z → nat) {V : Vte} {N : Snow} {SocketAddr : Type} (p : Process).

#[local] Abbreviation ServerCore := (ServerCore (SocketAddr := SocketAddr)).
#[local] Abbreviation ServerSession := (ServerSession (SocketAddr := SocketAddr)).
#[local] Abbreviation server_step := (server_step (SocketAddr := SocketAddr) char_width p).

(** ** Freedom from panics *)

Definition wide_shell (sh : ServerShell) : Prop :=
  grid_wf (grid (term sh)) ∧ (2 ≤ Grid.cols (grid (term sh)))%nat ∧ snapshots_ok sh.
Definition wide (s : ServerSession) : Prop := ∀ sh, shell s = Some sh → wide_shell sh.
Definition wide_all (c : ServerCore) : Prop := ∀ sid s, sessions c !! sid = Some s → wide s.

(** A frame that asks for no window narrower than two columns. *)
Definition polite (f : Frame) : Prop :=
  match f with
  | Wire.Control data =>
    match decode_msg data with
    | Ok (OpenShell cols _ _ _) | Ok (MResize cols _) => 2 ≤ cols
    | _ => True
    end
  | _ => True
  end.

Definition polite_traffic : traffic (SocketAddr := SocketAddr) := λ c src buf,
  match parse_packet buf with
  | Ok (PktTransport sid _ _) =>
    ∀ s frames sn, sessions c !! sid = Some s → open (session s) src buf = (Ok frames, sn) →
      Forall polite frames
  | _ => True
  end.

Lemma server_new_wide rows cols : (2 ≤ cols)%nat → wide_shell (server_new rows cols).
Proof.
  intros Hc. split_and!; [apply grid_new_wf| |apply server_new_snapshots]. cbn -[Nat.max]. lia.
Qed.

Lemma poll_diff_term sh : term (poll_diff sh).2 = term sh.
Proof. unfold poll_diff, snapshot. repeat case_match; done. Qed.

Lemma poll_diff_wide sh : wide_shell sh → wide_shell (poll_diff sh).2.
Proof.
  intros (Hg & Hc & Hs). unfold wide_shell. rewrite poll_diff_term.
  split_and!; [done|done|]. by apply poll_diff_snapshots.
Qed.

Lemma put_session_wide sid s (c : ServerCore) : wide_all c → wide s → wide_all (put_session sid s c).
Proof.
  intros Hc Hs k x. cbn. destruct (decide (k = sid)) as [->|Hne].
  - rewrite lookup_insert_eq. by intros [= <-].
  - rewrite lookup_insert_ne by done. apply Hc.
Qed.

(** The steps after which no stream of any session is within [MAX_STREAM_CHUNK]
    bytes of the end of its 64-bit offsets. *)
Definition short_step (P : traffic (SocketAddr := SocketAddr)) (c c' : ServerCore) : Prop :=
  server_step P c c' ∧ muxes (all_streams short) c'.

Section no_panic.
Context (Hwidth : ∀ c, (char_width c ≤ 2)%nat).
Context (Hparse : ∀ p bytes, Forall action_wf (parse p bytes).1).

Lemma drain_pty_total h reads : ∀ sh, (∀ sh', sh = Some sh' → wide_shell sh') →
  ∃ sh' es, drain_pty char_width h reads sh = Some (sh', es) ∧
    ∀ x, sh' = Some x → wide_shell x.
Proof.
  induction reads as [|[[|b chunk]|e] reads IH]; intros sh Hw; cbn [drain_pty]; [by eauto..| |by eauto].
  destruct sh as [sh|]; [|apply IH; done].
  destruct (Hw sh eq_refl) as (Hwf & Hc & Hsn). unfold feed_output.
  destruct (advance_safe char_width (term sh) (b :: chunk) Hwidth Hparse Hwf Hc) as (t & -> & Ht & _ & Htc).
  cbn [mbind option_bind]. unfold shell_take_responses.
  destruct (terminal_take_responses (term (set_term t sh))) as [reply t'] eqn:Hr.
  assert (grid_wf (grid t') ∧ (2 ≤ Grid.cols (grid t'))%nat) as Ht'.
  { unfold terminal_take_responses in Hr. cbn in Hr. injection Hr as _ <-. cbn.
    split; [wf_fields|]. lia. }
  destruct (IH (Some (set_term t' (set_term t sh)))) as (sh' & es & -> & Hsh').
  { intros ? [= <-]. destruct Ht'. by split_and!. }
  cbn. by eauto.
Qed.

Lemma emit_diff_total s :
  wide s → ∃ s' out, emit_diff s = Some (s', out) ∧ wide s' ∧ mux s' = mux s.
Proof.
  intros Hw. unfold emit_diff. destruct (shell s) as [sh|] eqn:Hsh; [|by eexists _, _].
  destruct (peer_addr _); [|by eexists _, _].
  pose proof (Hw sh Hsh) as Hsw. pose proof Hsw as (Hg & _ & Hsn). rewrite poll_diff_calm by done.
  cbn [mbind option_bind]. apply poll_diff_wide in Hsw.
  destruct (poll_diff sh) as [[diff|] sh1]; [destruct (seal _ _) as [[] sn]|];
    eexists _, _; (split_and!; [done| |done]); by intros ? [= <-].
Qed.

Lemma emit_streams_total sid s :
  wide s → sends_ok (mux s) → ∃ s' out evs, emit_streams sid s = Some (s', out, evs) ∧ wide s'.
Proof.
  intros Hw Hm. unfold emit_streams. rewrite poll_transmit_calm by done. cbn [mbind option_bind].
  destruct (poll_transmit (mux s)) as [fs m], (take_events m) as [evs m'].
  destruct fs; [by eexists _, _, _|]. destruct (peer_addr _); [|by eexists _, _, _].
  destruct (seal_many _ _ _) as [[] sn]; by eexists _, _, _.
Qed.

Lemma session_tick_total io sid s :
  wide s → sends_ok (mux s) →
  ∃ s' t, session_tick char_width p io sid s = Some (s', t) ∧ wide s'.
Proof.
  intros Hw Hm. unfold session_tick. set (s0 := set_idle_ticks _ s). cbv zeta.
  destruct (_ && _); [by eexists _, _|].
  assert (wide (announce p s0).1 ∧ mux (announce p s0).1 = mux s) as [H1 Hm1].
  { unfold announce. by repeat case_match. }
  destruct (announce p s0) as [s1 o1]. cbn [fst] in H1, Hm1.
  assert (∃ s2 l1, drain char_width (io_reads io sid) s1 = Some (s2, l1) ∧ wide s2 ∧ mux s2 = mux s1)
    as (s2 & l1 & -> & H2 & Hm2).
  { unfold drain. destruct (pty s1) as [h|]; [|by eexists _, _].
    destruct (drain_pty_total h (io_reads io sid) (shell s1) H1) as (sh & es & -> & Hsh).
    by eexists _, _. }
  cbn [mbind option_bind].
  destruct (emit_diff_total s2 H2) as (s3 & o2 & -> & H3 & Hm3). cbn [mbind option_bind].
  destruct (emit_streams_total sid s3 H3) as (s4 & o3 & evs & -> & H4); [by rewrite Hm3, Hm2, Hm1|].
  cbn [mbind option_bind].
  assert (wide (detect_exit (io_waits io sid) s4).1) as H5.
  { unfold detect_exit. repeat case_match; done. }
  destruct (detect_exit _ s4) as [s5 l2]. cbn [fst] in H5.
  assert (wide (exit_notice sid s5).1.1) as H6.
  { unfold exit_notice. repeat case_match; simplify_eq; done. }
  destruct (exit_notice sid s5) as [[s6 o4] fin]. by eexists _, _.
Qed.

Lemma tick_total order io (c : ServerCore) :
  wide_all c → muxes sends_ok c →
  ∃ out c', tick char_width p order io c = Some (out, c') ∧ wide_all c'.
Proof.
  intros Hc Hm. unfold tick.
  assert (∃ c1 t, tick_sessions char_width p io order c = Some (c1, t) ∧ wide_all c1) as (c1 & t & -> & Hw).
  { revert c Hc Hm. induction order as [|sid order IH]; intros c Hc Hm; cbn [tick_sessions]; [by eauto|].
    destruct (sessions c !! sid) as [s|] eqn:Hs; [|by apply IH].
    destruct (session_tick_total io sid s (Hc sid s Hs) (Hm sid s Hs)) as (s' & t1 & Ht & Hs').
    rewrite Ht. cbn [mbind option_bind].
    destruct (IH (log (t_log t1) (put_session sid s' c))) as (c2 & t2 & -> & Hc2).
    { by apply (put_session_wide sid s' c). }
    { apply (put_session_muxes sends_ok sid s' c Hm).
      eapply (session_tick_mux char_width p sends_ok (all_streams short)); [|exact Ht]. by eapply Hm. }
    cbn. by eauto. }
  cbn [mbind option_bind]. eexists _, _. split; [done|]. intros sid s. cbn [sessions set_stream_events].
  destruct (remove_sessions_spec (t_finished t) c1) as (_ & _ & _ & ->). case_decide; [done|]. apply Hw.
Qed.

Lemma handle_control_total sid msg (c : ServerCore) :
  wide_all c → (∀ cols rows t a, msg = OpenShell cols rows t a → 2 ≤ cols) →
  (∀ cols rows, msg = MResize cols rows → 2 ≤ cols) →
  ∃ c', handle_control p sid msg c = Some c' ∧ wide_all c'.
Proof.
  intros Hc Ho Hr. destruct msg as [cols rows t a|cols rows|st|port target| |v]; cbn [handle_control];
    try by eexists.
  - eexists. split; [done|]. specialize (Ho _ _ _ _ eq_refl). unfold open_shell.
    destruct (sessions c !! sid) as [s|] eqn:Hs; [|done]. case_bool_decide; [done|].
    set (path := if (_ : bool) then Some (_ : list Z) else None). unfold spawn_call.
    destruct (login c) as [|[n|e] login']; [done| |done].
    assert (∀ s' (c1 : ServerCore), wide_all (put_session sid s' c) → sessions c1 = sessions c →
      wide_all (put_session sid s' c1)) as Hput.
    { intros s' c1 Hw Heq k x. unfold wide_all in Hw. cbn [sessions put_session set_sessions] in *.
      rewrite Heq. apply Hw. }
    assert (∀ s' (c1 : ServerCore), wide_shell s' → sessions c1 = sessions c →
      wide_all (put_session sid (set_pty (Some (mkPtyHandle n None))
        (set_shell (Some s') (set_window rows cols s))) c1)) as Hnew.
    { intros s' c1 Hw Heq. apply Hput; [|done]. apply put_session_wide; [done|]. by intros ? [= <-]. }
    assert (wide_shell (server_new (Z.to_nat rows) (Z.to_nat cols))) as Hw by (apply server_new_wide; lia).
    destruct path; cbn [log]; [|by apply Hnew].
    intros k x Hx. eapply Hnew; [exact Hw| |exact Hx]. done.
  - specialize (Hr _ _ eq_refl). unfold resize_session.
    destruct (sessions c !! sid) as [s|] eqn:Hs; [|by eexists].
    destruct (shell (set_window rows cols s)) as [sh|] eqn:Hsh.
    + destruct (Hc _ _ Hs sh Hsh) as (Hwf & _ & Hsn). unfold shell_resize, terminal_resize.
      destruct (resize_spec (Z.to_nat rows) (Z.to_nat cols) (grid (term sh)) Hwf)
        as (g & -> & Hg & _ & Hgc & _).
      cbn [mbind option_bind]. eexists. split; [done|]. apply put_session_wide.
      * by destruct (pty _).
      * intros ? [= <-]. split_and!; [done| |done]. cbn in *. lia.
    + eexists. split; [done|]. apply put_session_wide; [by destruct (pty _)|].
      intros sh Hx. exact (Hc _ _ Hs sh Hx).
  - eexists. split; [done|]. unfold finish_session. destruct (sessions c !! sid) as [s|] eqn:Hs; [|done].
    apply put_session_wide; [done|]. apply (Hc _ _ Hs).
Qed.

Lemma server_frame_total sid f (c : ServerCore) :
  wide_all c → muxes buffers_ok c → polite f → frame_wf f →
  ∃ c' r, server_frame p sid f c = Some (c', r) ∧ wide_all c'.
Proof.
  intros Hc Hb Hf Hwf. assert (frame_ok f) as Hok by by apply frame_wf_ok.
  destruct f; cbn [server_frame]; try by eexists _, _.
  all: try (destruct (sessions c !! sid) as [s|] eqn:Hs; [|by eexists _, _];
    rewrite on_frame_calm by (first [done|intros ? ?; by eapply Hb]);
    eexists _, _; split; [done|]; apply put_session_wide; [done|]; exact (Hc _ _ Hs)).
  - eexists _, _. split; [done|]. unfold on_client_ack.
    destruct (sessions c !! sid) as [s|] eqn:Hs; [|done]. destruct (shell s) as [sh|] eqn:Hsh; [|done].
    apply put_session_wide; [done|]. intros ? [= <-]. pose proof (Hc _ _ Hs sh Hsh) as (? & ? & Hsn).
    split_and!; [..|by apply on_state_ack_snapshots]; unfold on_state_ack; by destruct (_ && _).
  - unfold on_input. destruct (sessions c !! sid) as [s|] eqn:Hs; [|by eexists _, _].
    destruct (shell s) as [sh|] eqn:Hsh; [|by eexists _, _].
    rewrite ingest_input_calm by (destruct Hwf; lia_ints). unfold ingest_input.
    destruct (ingest _ _ _) as [fresh rx]. cbn [mbind option_bind]. eexists _, _. split; [done|].
    apply put_session_wide; [by destruct (pty s)|]. intros ? [= <-]. exact (Hc _ _ Hs sh Hsh).
  - cbn [polite] in Hf. rewrite decode_msg_calm. cbn [mbind option_bind].
    destruct (decode_msg data) as [msg|]; [|by eexists _, _].
    destruct (handle_control_total sid msg c Hc) as (c' & -> & Hc').
    { by intros ? ? ? ? ->. }
    { by intros ? ? ->. }
    by eexists _, _.
Qed.

Lemma server_frames_total sid fs : ∀ (c : ServerCore),
  wide_all c → muxes buffers_ok c → Forall polite fs → Forall frame_wf fs →
  ∃ c' r, server_frames p sid fs c = Some (c', r) ∧ wide_all c'.
Proof.
  induction fs as [|f fs IH]; intros c Hc Hb Hfs Hwf; cbn [server_frames]; [by eexists _, _|].
  apply Forall_cons in Hfs as [Hf Hfs]. apply Forall_cons in Hwf as [Hw Hwf].
  destruct (server_frame_total sid f c Hc Hb Hf Hw) as (c1 & r1 & H & H1).
  rewrite H. cbn [mbind option_bind].
  destruct (IH c1 H1) as (c2 & r2 & -> & H2); [|done..|cbn; by eexists _, _].
  by eapply (server_frame_muxes p buffers_ok (all_streams (λ _, True))).
Qed.

Lemma establish_wide order sid sn key (c : ServerCore) :
  wide_all c → wide_all (establish order sid sn key c).
Proof.
  intros Hc k x. destruct (establish_sessions order sid sn key c) as
    (old & s' & -> & _ & _ & _ & _ & _ & Hold).
  destruct (decide (k = sid)) as [->|Hne].
  - rewrite lookup_insert_eq. intros [= <-]. destruct (find_existing order key c) as [k'|].
    + destruct Hold as (s & Hs & _ & ->). intros sh. cbn. intros Hsh.
      apply fmap_Some in Hsh as (sh0 & Hsh0 & ->). destruct (Hc _ _ Hs sh0 Hsh0) as (? & ? & _).
      split_and!; [done|done|apply rebind_snapshots].
    + by destruct Hold as [_ ->].
  - rewrite lookup_insert_ne by done. intros [Hx _]%lookup_difference_Some. by eapply Hc.
Qed.

Lemma handle_packet_total order src buf (c : ServerCore) :
  wide_all c → muxes buffers_ok c → polite_traffic c src buf →
  ∃ out c', handle_packet p order src buf c = Some (out, c') ∧ wide_all c'.
Proof.
  unfold polite_traffic. intros Hc Hb Hpol. unfold handle_packet, try_handle_packet.
  rewrite parse_packet_calm. cbn [mbind option_bind].
  destruct (parse_packet buf) as [[sid body|sid nonce body]|e]; cbn [mbind option_bind].
  - assert (wide_all (handle_handshake p order src sid body c).2) as H.
    { unfold handle_handshake, handshake_entry. repeat case_match; simplify_eq; try done;
        by apply establish_wide. }
    destruct (handle_handshake _ _ _ _ _ _) as [r c1]. by eexists _, _.
  - unfold handle_transport. destruct (sessions c !! sid) as [s|] eqn:Hs; [|by eexists _, _].
    rewrite open_calm. cbn [mbind option_bind].
    destruct (open (session s) src buf) as [[frames|e] sn] eqn:Ho.
    + destruct (server_frames_total sid frames (put_session sid (set_idle_ticks 0 (set_session sn s)) c))
        as (c1 & replies & -> & H1).
      { apply put_session_wide; [done|]. exact (Hc _ _ Hs). }
      { apply (put_session_muxes buffers_ok sid _ c Hb). exact (Hb _ _ Hs). }
      { by eapply Hpol. }
      { by eapply open_frames_wf. }
      cbn [mbind option_bind].
      assert (wide_all (surface_events sid c1)) as H2.
      { unfold surface_events. destruct (sessions c1 !! sid) as [s1|] eqn:Hs1; [|done].
        destruct (take_events _). apply (put_session_wide sid _ c1); [done|]. exact (H1 _ _ Hs1). }
      assert (wide_all (send_replies sid replies (surface_events sid c1)).2) as H3.
      { revert H2. generalize (surface_events sid c1). intros c2 H2. unfold send_replies.
        destruct replies; [done|]. destruct (sessions c2 !! sid) as [s2|] eqn:Hs2; [|done].
        destruct (peer_addr _); [|done]. destruct (seal_many _ _ _) as [[] sn2];
          (apply put_session_wide; [done|]; exact (H2 _ _ Hs2)). }
      destruct (send_replies _ _ _) as [r c2]. by eexists _, _.
    + cbn. eexists _, _. split; [done|]. apply put_session_wide; [done|]. exact (Hc _ _ Hs).
  - by eexists _, _.
Qed.

Lemma driver_call_wide (c c' : ServerCore) : wide_all c → driver_call c c' → wide_all c'.
Proof.
  intros Hc. assert (∀ sid s m, sessions c !! sid = Some s → wide_all (put_session sid (set_mux m s) c)) as Hput.
  { intros sid s m Hs. apply put_session_wide; [done|]. exact (Hc _ _ Hs). }
  destruct 1; cbn [snd]; unfold open_agent, open_exec, open_forward, mux_open_in, stream_read,
    stream_write, stream_close, stream_close_status, stream_reset, with_mux; try done;
    destruct (sessions c !! sid) eqn:Hs; try done;
    try (destruct (mux_open _ _ _)); try (destruct (mux_read _ _)); by apply Hput.
Qed.

(** What keeps every slice and index of the next step in range. *)
Definition calm_core (c : ServerCore) : Prop :=
  wide_all c ∧ muxes buffers_ok c ∧ muxes sends_ok c.

Lemma calm_tick order io (c : ServerCore) :
  calm_core c → ∃ out c', tick char_width p order io c = Some (out, c') ∧ calm_core c'.
Proof.
  intros (Hc & Hb & Hs). destruct (tick_total order io c Hc Hs) as (out & c' & H & Hw).
  exists out, c'. split; [done|]. unfold calm_core. split_and!; [done|..].
  - by eapply (tick_muxes char_width p buffers_ok (all_streams (λ _, True))).
  - by eapply (tick_muxes char_width p sends_ok (all_streams short)).
Qed.

Lemma polite_calm kp keys login cmd u (c : ServerCore) :
  rtc (short_step polite_traffic) (server_start kp keys login cmd u) c → calm_core c.
Proof.
  apply (rtc_invariant _ calm_core).
  - split_and!; [|apply (start_muxes buffers_ok)|apply (start_muxes sends_ok)].
    intros sid s Hs. cbn in Hs. by rewrite lookup_empty in Hs.
  - intros c1 c2 (Hc1 & Hb & Hs) [Hstep Hshort]. split_and!.
    2:{ by eapply (server_step_muxes char_width p buffers_ok (all_streams (λ _, True))). }
    2:{ by eapply (server_step_muxes char_width p sends_ok (all_streams short)). }
    destruct Hstep as [order src buf out c3 _ Hp H|order io out c3 Hord H|c3 H].
    + destruct (handle_packet_total order src buf c1 Hc1 Hb Hp) as (out' & c' & H' & Hw).
      rewrite H in H'. by injection H' as _ <-.
    + destruct (tick_total order io c1 Hc1 Hs) as (out' & c' & H' & Hw).
      rewrite H in H'. by injection H' as _ <-.
    + by eapply driver_call_wide.
Qed.
End no_panic.

(** C1 Whatever packets, ticks and driver calls a server sees, in every state: at
    most 512 handshakes are unfinished, and none of an established session; each
    session is of an authorized key, under its own id, with a known peer, and is
    past neither its exit notices nor its reaping; a child's pty belongs to one
    session only; children were spawned with the configured command as the
    configured user, and no agent socket is ever offered when that user is set. *)
Theorem server_keeps_invariant kp keys login cmd u c :
  NoDup (children login) →
  rtc (server_step any_traffic) (server_start kp keys login cmd u) c →
  (size (pending c) ≤ MAX_PENDING_HANDSHAKES)%nat ∧
  (∀ sid s, sessions c !! sid = Some s →
    pending c !! sid = None ∧ session_id (session s) = sid ∧
    authorize_client keys (client_key s) = true ∧ is_Some (peer_addr (session s)) ∧
    (is_Some (pty s) → is_Some (shell s)) ∧ 0 ≤ exit_ticks s < EXIT_RETRANSMIT_TICKS) ∧
  (∀ sid1 sid2 s1 s2 h1 h2, sessions c !! sid1 = Some s1 → sessions c !! sid2 = Some s2 →
    pty s1 = Some h1 → pty s2 = Some h2 → child h1 = child h2 → sid1 = sid2) ∧
  Forall (spawn_ok u cmd) (pty_log c) ∧ (is_Some u → agent_socket_requests c = []).
Proof.
  intros Hnd Hreach. destruct (server_reachable_wf _ _ _ _ _ _ _ _ _ Hnd Hreach) as [[] Hcfg].
  injection Hcfg as _ Ha Hcmd Hu. rewrite Ha, Hcmd, Hu in *.
  split_and!; [done| |done|done|done]. intros sid s Hs. destruct (wf_sessions _ _ Hs).
  split_and!; try done; try apply so_exit. destruct (pending c !! sid) eqn:Hp; [|done].
  by rewrite (wf_disjoint sid) in Hs.
Qed.

(** C35 The server does not panic. Every slice, copy and index on its path (the
    parser of packets, the frame and control decoders, the input stream, reassembly,
    the send buffers, the diff of screens, the terminal) is a step that can fail, and
    none does: no tick, whatever the shells output, and no packet, whatever its
    bytes. It is assumed that clients ask for windows of at least two columns, that
    glyphs are at most two columns wide, that the terminal parser's actions are in
    range, and that no stream has come within 1024 bytes of the end of its 64-bit
    offsets. *)
Theorem server_never_panics kp keys login cmd u c :
  (∀ ch, (char_width ch ≤ 2)%nat) → (∀ p bytes, Forall action_wf (parse p bytes).1) →
  rtc (short_step polite_traffic) (server_start kp keys login cmd u) c →
  (∀ order io, is_Some (tick char_width p order io c)) ∧
  (∀ order src buf, polite_traffic c src buf → is_Some (handle_packet p order src buf c)).
Proof.
  intros Hw Hp Hreach. pose proof (polite_calm Hw Hp _ _ _ _ _ _ Hreach) as Hc. split.
  - intros order io. destruct (calm_tick Hw Hp order io c Hc) as (? & ? & -> & _). by eexists.
  - intros order src buf Hpol. destruct Hc as (Hc & Hb & _).
    destruct (handle_packet_total order src buf c Hc Hb Hpol) as (? & ? & -> & _). by eexists.
Qed.

(** ** Which datagrams matter *)

Definition acceptable (c : ServerCore) (buf : list Z) : Prop :=
  match parse_packet buf with
  | Ok (PktHandshake sid body) =>
    sessions c !! sid = None ∧
    (is_Some (pending c !! sid) ∨
     (MIN_HANDSHAKE_INIT ≤ length buf)%nat ∧ (size (pending c) < MAX_PENDING_HANDSHAKES)%nat)
  | Ok (PktTransport sid nonce body) =>
    ∃ s pt, sessions c !! sid = Some s ∧ authentic (session s) buf nonce pt
  | Err _ => False
  end.

Lemma put_same_session sid s (c : ServerCore) :
  sessions c !! sid = Some s → put_session sid (set_session (session s) s) c = c.
Proof.
  intros Hs. assert (set_session (session s) s = s) as -> by (by destruct s).
  unfold put_session. rewrite insert_id by done. by destruct c.
Qed.

Lemma parse_handshake_length buf sid body :
  parse_packet buf = Ok (PktHandshake sid body) → length buf = (length body + 9)%nat.
Proof.
  rewrite parse_packet_unfold. destruct buf as [|ty buf']; [done|].
  destruct (Nat.ltb_spec (length (ty :: buf')) 9); [done|].
  repeat case_match; intros; simplify_eq; rewrite ?length_drop; cbn [length] in *; lia.
Qed.

(** C7 A datagram that is not acceptable is inert: unless it is a handshake
    message for an unfinished handshake, or a full-size first message while the
    table has room, or an authentic packet of an established session, the server
    answers nothing and its state does not change at all. *)
Theorem only_acceptable_datagrams_matter order src buf (c : ServerCore) :
  acceptable c buf ∨ handle_packet p order src buf c = Some ([], c).
Proof.
  unfold acceptable, handle_packet, try_handle_packet.
  rewrite parse_packet_calm. cbn [mbind option_bind].
  destruct (parse_packet buf) as [[sid body|sid nonce body]|e] eqn:Hparse;
    cbn [mbind option_bind]; [| |by right].
  - unfold handle_handshake. case_bool_decide as Hs; [by right|]. apply eq_None_not_Some in Hs.
    unfold handshake_entry. destruct (pending c !! sid) as [k|] eqn:Hk; [left; by eauto|].
    rewrite (parse_handshake_length _ _ _ Hparse).
    destruct (Nat.ltb_spec (length body + 9) MIN_HANDSHAKE_INIT); [by right|].
    destruct (Nat.leb_spec MAX_PENDING_HANDSHAKES (size (pending c))); [by right|]. by left; auto.
  - unfold handle_transport. destruct (sessions c !! sid) as [s|] eqn:Hs; [|by right].
    rewrite open_calm. cbn [mbind option_bind].
    destruct (open (session s) src buf) as [r sn] eqn:Ho.
    destruct (open_spec _ _ _ _ _ Ho) as [(-> & e & -> & _)|(nonce' & pt & Ha & _)].
    + right. cbn [mbind option_bind]. by rewrite put_same_session.
    + left. exists s, pt. split; [done|]. pose proof Ha as (body' & Hb & _).
      rewrite Hparse in Hb. by injection Hb as _ -> _.
Qed.

(** ** The end of a session *)

(** Ticks, in which the server hears from nobody, and at which the ptys give these
    answers. *)
Inductive idle_run : list TickIo → ServerCore → ServerCore → Prop :=
| idle_done c : idle_run [] c c
| idle_tick ios order io out c c1 c2 :
  session_order order c → tick char_width p order io c = Some (out, c1) →
  idle_run ios c1 c2 → idle_run (io :: ios) c c2.

(** The most ticks that a session has left: the exit notices, before them the
    silence that is tolerated. *)
Definition remaining (s : ServerSession) : Z :=
  match exit_status s with
  | Some _ => EXIT_RETRANSMIT_TICKS - exit_ticks s
  | None => EXIT_RETRANSMIT_TICKS + IDLE_REAP_TICKS - idle_ticks s
  end.

Lemma ticked_remaining keys sid s s' :
  session_ok keys sid s → ticked sid s s' [] → 0 < remaining s' < remaining s.
Proof.
  intros [] []. unfold remaining, counted, EXIT_RETRANSMIT_TICKS, IDLE_REAP_TICKS in *.
  assert (as_u32 (exit_ticks s + 1) = exit_ticks s + 1) as Hu by (apply as_u32_id; lia_ints).
  rewrite Hu in *. unfold saturating_add_u32 in tk_idle. unfold u32_max in *.
  destruct (exit_status s).
  - destruct tk_end as (-> & Ht & Hf). destruct (Z.leb_spec 50 (exit_ticks s')); [done|]. lia.
  - destruct (Z.leb_spec 20000 (idle_ticks s')); [by destruct tk_end as (_ & _ & ?)|].
    destruct tk_end as [(-> & Ht & _)|([st ->] & Ht & Hf)]; [lia|].
    destruct (Z.leb_spec 50 (exit_ticks s')); [done|]. lia.
Qed.

Lemma idle_run_remaining ios c c' :
  server_wf c → idle_run ios c c' →
  ∀ sid s', sessions c' !! sid = Some s' → ∃ s, sessions c !! sid = Some s ∧
    remaining s' + zlen ios ≤ remaining s ∧ (ios ≠ [] → 0 < remaining s').
Proof.
  intros Hc Hrun. induction Hrun as [c|ios order io out c c1 c2 Hord Ht Hrun IH]; intros sid s' Hs'.
  { exists s'. split_and!; [done|cbn; lia|done]. }
  destruct (IH ltac:(by eapply tick_wf) sid s' Hs') as (s1 & Hs1 & Hle & Hpos).
  destruct (tick_spec _ _ _ _ _ _ _ Hord Ht) as (_ & _ & Hall). specialize (Hall sid).
  destruct (sessions c !! sid) as [s|] eqn:Hs; [|congruence].
  destruct Hall as (s2 & [|] & Htk & Hs2); [|congruence].
  assert (s2 = s1) as -> by congruence.
  destruct (ticked_remaining _ _ _ _ (wf_sessions _ Hc _ _ Hs) Htk) as [Hp Hlt].
  exists s. split_and!; [done|cbn [length]; lia|]. intros _. destruct ios; [|by apply Hpos].
  inversion Hrun; subst. congruence.
Qed.

Lemma idle_run_calm ios c c' :
  (∀ ch, (char_width ch ≤ 2)%nat) → (∀ p bytes, Forall action_wf (parse p bytes).1) →
  calm_core c → idle_run ios c c' → calm_core c'.
Proof.
  intros Hw Hp Hc Hrun. induction Hrun as [c|ios order io out c c1 c2 Hord Ht Hrun IH]; [done|].
  apply IH. destruct (calm_tick Hw Hp order io c Hc) as (out' & c1' & Ht' & Hc1).
  rewrite Ht in Ht'. by injection Ht' as _ <-.
Qed.

(** C26 No session stays for ever: when nobody is heard any more, the server gets
    through its ticks whatever the ptys answer at each of them, and after 20050 of
    them (the 20000 of tolerated silence and the 50 of exit notices) no session is
    left. As for [server_never_panics], the traffic before asked for no window
    narrower than two columns, glyphs are at most two columns wide, and no stream
    came within 1024 bytes of the end of its offsets. *)
Theorem silent_server_empties kp keys login cmd u c ios :
  (∀ ch, (char_width ch ≤ 2)%nat) → (∀ p bytes, Forall action_wf (parse p bytes).1) →
  NoDup (children login) →
  rtc (short_step polite_traffic) (server_start kp keys login cmd u) c →
  (∃ c', idle_run ios c c') ∧
  ∀ c', idle_run ios c c' →
    (∀ order io, is_Some (tick char_width p order io c')) ∧
    (20050 ≤ zlen ios → sessions c' = ∅).
Proof.
  intros Hw Hp Hnd Hreach. pose proof (polite_calm Hw Hp _ _ _ _ _ _ Hreach) as Hcalm. split.
  { clear Hreach. revert c Hcalm. induction ios as [|io ios IH]; intros c Hcalm.
    { exists c. constructor. }
    destruct (calm_tick Hw Hp (keys_of c) io c Hcalm) as (out & c1 & Ht & Hc1).
    destruct (IH c1 Hc1) as (c2 & Hc2). exists c2. eapply idle_tick; [apply keys_of_order|done..]. }
  intros c' Hrun. split.
  { intros order io. destruct (calm_tick Hw Hp order io c') as (? & ? & -> & _); [|by eexists].
    by eapply idle_run_calm. }
  intros Hn. assert (server_wf c) as Hc.
  { eapply (server_reachable_wf _ _ polite_traffic); [exact Hnd|].
    eapply rtc_subrel; [|exact Hreach]. by intros ? ? []. }
  apply map_empty. intros sid. destruct (sessions c' !! sid) as [s'|] eqn:Hs'; [|done].
  destruct (idle_run_remaining ios c c' Hc Hrun sid s' Hs') as (s & Hs & Hle & Hpos).
  destruct (wf_sessions _ Hc _ _ Hs). assert (0 < remaining s') by (apply Hpos; by intros ->).
  unfold remaining, EXIT_RETRANSMIT_TICKS, IDLE_REAP_TICKS in *.
  destruct (exit_status s); lia.
Qed.

(** ** The messages of a new connection *)

Lemma server_first_message order src sid m k k1 r (c : ServerCore) :
  session_id_wf sid → sessions c !! sid = None → pending c !! sid = None →
  (MIN_HANDSHAKE_INIT ≤ length m)%nat → (size (pending c) < MAX_PENDING_HANDSHAKES)%nat →
  handshaker_server (private (keypair c)) sid (as_bytes (p_version p)) = Ok k →
  hs_step k m = (Ok (mkHsOutcome (Some r) false), k1) →
  handle_packet p order src (build_handshake_packet sid m) c =
    Some ([(src, r)], set_pending (<[sid := k1]> (pending c)) c).
Proof.
  intros Hwf Hsid Hp Hlen Hroom Hk Hstep. unfold handle_packet, try_handle_packet.
  rewrite parse_packet_calm, parse_handshake_packet by done. cbn [mbind option_bind]. unfold handle_handshake.
  rewrite bool_decide_false by (by rewrite Hsid; intros []). unfold handshake_entry. rewrite Hp.
  rewrite (proj2 (Nat.ltb_ge _ _)) by lia. rewrite (proj2 (Nat.leb_gt _ _)) by done.
  by rewrite Hk, Hstep.
Qed.

Lemma server_last_message order src sid m k k' key sn (c : ServerCore) :
  session_id_wf sid → sessions c !! sid = None → pending c !! sid = Some k →
  hs_step k m = (Ok (mkHsOutcome None true), k') → hs_remote_static k' = Some key →
  authorize_client (authorized c) key = true → into_session k' (Some src) = Ok sn →
  handle_packet p order src (build_handshake_packet sid m) c =
    Some ([], establish order sid sn key (set_pending (delete sid (pending c)) c)).
Proof.
  intros Hwf Hsid Hk Hstep Hkey Hauth Hinto. unfold handle_packet, try_handle_packet.
  rewrite parse_packet_calm, parse_handshake_packet by done. cbn [mbind option_bind]. unfold handle_handshake.
  rewrite bool_decide_false by (by rewrite Hsid; intros []).
  unfold handshake_entry. rewrite Hk, Hstep. cbn [hs_finished reply]. rewrite Hkey.
  change (authorized (set_pending _ c)) with (authorized c). rewrite Hauth. cbn [negb].
  by rewrite Hinto.
Qed.

(** A transport packet of no session is dropped. *)
Lemma server_unknown_session order src sid buf (c : ServerCore) :
  transport_of sid buf → sessions c !! sid = None → handle_packet p order src buf c = Some ([], c).
Proof.
  intros (nonce & ct & Hp) Hsid. unfold handle_packet, try_handle_packet.
  rewrite parse_packet_calm, Hp. cbn [mbind option_bind]. unfold handle_transport. by rewrite Hsid.
Qed.

(** ** Reattachment *)

(** C12 A client that comes back gets its shell: when the handshake of an
    authorized key completes while a session of that key has a running shell, the
    new session takes over that shell (to be sent in full), its pty and its
    window, and the old session is gone; nothing is done to the child. *)
Theorem reattach_moves_shell order src sid body key k k' sn old_sid old (c : ServerCore) :
  session_id_wf sid → session_order order c →
  sessions c !! sid = None → pending c !! sid = Some k →
  hs_step k body = (Ok (mkHsOutcome None true), k') → hs_remote_static k' = Some key →
  authorize_client (authorized c) key = true → into_session k' (Some src) = Ok sn →
  sessions c !! old_sid = Some old → reattachable key old = true →
  ∃ c' from moved s', handle_packet p order src (build_handshake_packet sid body) c = Some ([], c') ∧
    sessions c !! from = Some moved ∧ reattachable key moved = true ∧
    sessions c' = <[sid := s']> (delete from (sessions c)) ∧ pending c' = delete sid (pending c) ∧
    session s' = sn ∧ client_key s' = key ∧
    shell s' = rebind_to_new_client <$> shell moved ∧ pty s' = pty moved ∧
    s_rows s' = s_rows moved ∧ s_cols s' = s_cols moved ∧ idle_ticks s' = 0 ∧
    pty_log c' = pty_log c.
Proof.
  intros Hwf [Hnd Hord] Hsid Hk Hstep Hkey Hauth Hinto Hold Hre.
  set (c1 := set_pending (delete sid (pending c)) c).
  destruct (find_existing order key c1) as [from|] eqn:Hf.
  2:{ exfalso. assert (old_sid ∈ order) as Hin by (apply Hord; by eexists).
      clear Hnd Hord. induction order as [|x order IH]; [by apply not_elem_of_nil in Hin|].
      cbn [find_existing] in Hf. change (sessions c1) with (sessions c) in Hf.
      apply elem_of_cons in Hin as [<-|Hin]; [by rewrite Hold, Hre in Hf|].
      apply IH; [|done]. by repeat case_match. }
  destruct (find_existing_spec _ _ _ _ Hf) as (moved & Hm & Hrm & _).
  destruct (establish_sessions order sid sn key c1) as
    (o & s' & Hs' & Hsn & Hck & _ & Hi & _ & He). rewrite Hf in He.
  destruct He as (s0 & Hs0 & -> & ->). assert (s0 = moved) as -> by congruence.
  destruct (establish_rest order sid sn key c1) as (Hr & Hl & _).
  exists (establish order sid sn key c1), from, moved, (take_over moved (fresh_session sn key)).
  split_and!; try done.
  - by eapply server_last_message.
  - rewrite Hs'. f_equal. apply map_eq. intros i. rewrite lookup_difference.
    destruct (decide (i = from)) as [->|].
    + by rewrite lookup_singleton_eq, lookup_delete_eq.
    + by rewrite lookup_singleton_ne, lookup_delete_ne by done.
  - injection Hr as ? ? ? ? ? Hp. done.
Qed.

(** ** The table of unfinished handshakes *)

(** Nobody continues a handshake that is in the table. *)
Definition strangers (table : gmap SessionId (Handshaker (N := N))) :
    traffic (SocketAddr := SocketAddr) := λ _ _ buf,
  ∀ sid body, parse_packet buf = Ok (PktHandshake sid body) → table !! sid = None.

Lemma strangers_step table (c c' : ServerCore) :
  server_wf c → (size table = MAX_PENDING_HANDSHAKES)%nat → pending c = table →
  server_step (strangers table) c c' → pending c' = table.
Proof.
  intros Hc Hfull Htab [order src buf out c1 Hord Hp H|order io out c1 Hord H|c1 H].
  - unfold handle_packet, try_handle_packet in H. rewrite parse_packet_calm in H.
    cbn [mbind option_bind] in H. destruct (parse_packet buf) as [[sid body|sid nonce body]|e] eqn:Hparse; cbn [mbind option_bind] in H.
    + unfold handle_handshake in H. case_bool_decide; [by injection H as _ <-|].
      unfold handshake_entry in H. rewrite Htab, (Hp _ _ Hparse) in H.
      destruct (_ <? _)%nat; [by injection H as _ <-|].
      rewrite (proj2 (Nat.leb_le _ _)) in H by lia. by injection H as _ <-.
    + destruct (handle_transport _ _ _ _ _) as [[r c2]|] eqn:Ht; [|done]. injection H as _ <-.
      rewrite <- Htab. exact (f_equal (λ x, x.1.2) (handle_transport_fixed _ _ _ _ _ _ _ Ht)).
    + by injection H as _ <-.
  - destruct (tick_spec _ _ _ _ _ _ _ Hord H) as (Hr & _). injection Hr as ? ? ? ? ? Hpe. congruence.
  - rewrite <- Htab. exact (f_equal (λ x, x.1.2) (proj2 (driver_call_wf _ _ Hc H))).
Qed.

(** Once 512 handshakes are unfinished and their clients stay silent, no other
    client is ever admitted again: entries of the table do not expire, so after
    any packets, ticks and driver calls every first message is still dropped. *)
Theorem full_table_refuses_for_ever kp keys login cmd u c c' :
  NoDup (children login) →
  rtc (server_step any_traffic) (server_start kp keys login cmd u) c →
  size (pending c) = MAX_PENDING_HANDSHAKES →
  rtc (server_step (strangers (pending c))) c c' →
  pending c' = pending c ∧
  ∀ order src sid body, session_id_wf sid → pending c !! sid = None → sessions c' !! sid = None →
    handle_packet p order src (build_handshake_packet sid body) c' = Some ([], c').
Proof.
  intros Hnd Hreach Hfull Hrun.
  destruct (server_reachable_wf _ _ _ _ _ _ _ _ _ Hnd Hreach) as [Hc _].
  assert (server_wf c' ∧ pending c' = pending c) as [Hc' Htab].
  { revert Hrun. apply (rtc_invariant _ (λ x, server_wf x ∧ pending x = pending c)); [done|].
    intros c1 c2 [H1 Ht] Hstep. split; [by eapply server_step_wf|]. by eapply strangers_step. }
  split; [done|]. intros order src sid body Hwf Hp Hs.
  unfold handle_packet, try_handle_packet. rewrite parse_packet_calm, parse_handshake_packet by done.
  cbn [mbind option_bind]. unfold handle_handshake.
  rewrite bool_decide_false by (by rewrite Hs; intros []).
  unfold handshake_entry. rewrite Htab, Hp. destruct (_ <? _)%nat; [done|].
  by rewrite (proj2 (Nat.leb_le _ _)) by lia.
Qed.
End props.

(** ** Playing packets

    A packet that is not polite, that the server does not survive, or after which a
    stream runs out of offsets, ends the run. *)
Section play.
Context (char_width : Z → nat) {V : Vte} {N : Snow} {SocketAddr : Type} (p : Process).

#[local] Abbreviation ServerCore := (ServerCore (SocketAddr := SocketAddr)).

#[local] Instance polite_dec f : Decision (polite f).
Proof.
  unfold polite. destruct f; try (left; exact I).
  destruct (decode_msg data) as [[]|]; solve [left; exact I|apply _].
Defined.

Definition polite_now (src : SocketAddr) (buf : list Z) (c : ServerCore) : bool :=
  match parse_packet buf with
  | Ok (PktTransport sid _ _) =>
    match sessions c !! sid with
    | Some s =>
      match open (session s) src buf with
      | (Ok frames, _) => bool_decide (Forall polite frames)
      | _ => true
      end
    | None => true
    end
  | _ => true
  end.

Lemma polite_now_traffic src buf c : polite_now src buf c = true → polite_traffic c src buf.
Proof.
  unfold polite_now, polite_traffic. destruct (parse_packet buf) as [[|sid nonce body]|]; [done| |done].
  intros H s frames sn Hs Ho. rewrite Hs, Ho in H. by apply bool_decide_eq_true in H.
Qed.

Definition short_now (c : ServerCore) : bool :=
  forallb (λ x, forallb (λ y, s_send_next y.2 + MAX_STREAM_CHUNK <? 2 ^ 64) (map_to_list (streams (mux x.2))))
    (map_to_list (sessions c)).

Lemma short_now_muxes c : short_now c = true → muxes (all_streams short) c.
Proof.
  unfold short_now. rewrite forallb_forall. intros H sid s Hs id st Hst.
  specialize (H (sid, s)). rewrite <- list_elem_of_In, elem_of_map_to_list, forallb_forall in H.
  specialize (H Hs (id, st)). rewrite <- list_elem_of_In, elem_of_map_to_list in H.
  by apply Z.ltb_lt, H.
Qed.

Fixpoint play_packets (src : SocketAddr) (bufs : list (list Z)) (c : ServerCore) : option ServerCore :=
  match bufs with
  | [] => Some c
  | buf :: bufs =>
    if polite_now src buf c then
      '(_, c) ← handle_packet p (keys_of c) src buf c;
      if short_now c then play_packets src bufs c else None
    else None
  end.

Lemma play_packets_runs P src bufs : ∀ c c',
  (∀ c buf, polite_traffic c src buf → P c src buf) →
  play_packets src bufs c = Some c' → rtc (short_step char_width p P) c c'.
Proof.
  induction bufs as [|buf bufs IH]; intros c c' HP; cbn [play_packets].
  { intros [= <-]. apply rtc_refl. }
  destruct (polite_now src buf c) eqn:Hpol; [|done].
  destruct (handle_packet _ _ _ _ _) as [[out c1]|] eqn:H; [|done]. cbn [mbind option_bind].
  destruct (short_now c1) eqn:Hs; [|done]. intros Hrun. eapply rtc_l; [|by apply IH].
  split; [|by apply short_now_muxes].
  eapply step_packet; [apply keys_of_order| |exact H]. by apply HP, polite_now_traffic.
Qed.

(** The state after the packets, where they can be played. *)
Definition after (src : SocketAddr) (bufs : list (list Z)) (c : ServerCore) : ServerCore :=
  default c (play_packets src bufs c).

Lemma after_short P src bufs c :
  (∀ c buf, polite_traffic c src buf → P c src buf) →
  rtc (short_step char_width p P) c (after src bufs c).
Proof.
  intros HP. unfold after. destruct (play_packets src bufs c) as [c'|] eqn:H; [|apply rtc_refl].
  by eapply play_packets_runs.
Qed.

Lemma after_runs P src bufs c :
  (∀ c buf, polite_traffic c src buf → P c src buf) →
  rtc (server_step char_width p P) c (after src bufs c).
Proof.
  intros HP. eapply rtc_subrel; [|by apply after_short]. by intros ? ? [].
Qed.
End play.

Definition sample_process : Process := mkProcess [48; 46; 53] 1000 7 [47; 116; 109; 112].
Definition sample_static : list Z := replicate 32 9.
Definition sample_start (login : list (result PtyError Z)) :=
  @server_start sample_vte sample_xx nat (mkKeypair sample_static sample_static)
    [(replicate 32 5, [])] login None None.

(** The first and the last message of a client's handshake. *)
Definition sample_init (key : list Z) (sid : SessionId) : list Z :=
  match @handshaker_client sample_xx key sid with Ok (_, m1) => m1 | Err _ => [] end.
Definition sample_last (key : list Z) (sid : SessionId) : list Z :=
  build_handshake_packet sid key.

(** A client that opens a shell in a window of this size. *)
Definition sample_sid2 : SessionId := [8; 7; 6; 5; 4; 3; 2; 1].
Definition sample_open_window (cols rows : Z) (sid : SessionId) : list Z :=
  match (seal (@session_new sample_xx nat sid (@mkNoiseSession sample_xx 7 []) None)
    [Wire.Control (encode_msg (OpenShell cols rows [] false))]).1 with
  | Ok pkt => pkt
  | Err _ => []
  end.

Definition sample_open : SessionId → list Z := sample_open_window 4 3.

Definition sample_traffic (sid : SessionId) : list (list Z) :=
  [sample_init (replicate 32 5) sid; sample_last (replicate 32 5) sid; sample_open sid].

Definition sample_core := after sample_process 1%nat (sample_traffic sample_sid)
  (sample_start [Ok 100; Err PtyPty; Ok 101]).
Definition back_core := after sample_process 1%nat [sample_init (replicate 32 5) sample_sid2] sample_core.

(** ** Witnesses *)

Lemma sample_core_session : is_Some (sessions sample_core !! sample_sid).
Proof. apply (bool_decide_unpack _). by vm_compute. Qed.

Lemma server_keeps_invariant_witness :
  ∃ s, sessions sample_core !! sample_sid = Some s ∧
    authorize_client [(replicate 32 5, [])] (client_key s) = true ∧ pending sample_core !! sample_sid = None.
Proof.
  destruct (@server_keeps_invariant sample_width sample_vte sample_xx nat sample_process
    (mkKeypair sample_static sample_static) [(replicate 32 5, [])] [Ok 100; Err PtyPty; Ok 101] None None
    sample_core) as (_ & Hs & _).
  - cbn. repeat constructor; set_solver.
  - by apply after_runs.
  - destruct sample_core_session as [s Hlook].
    exists s. split; [exact Hlook|]. destruct (Hs _ _ Hlook) as (Hp & _ & Ha & _). by split.
Defined.

Lemma server_never_panics_witness :
  is_Some (@tick sample_width sample_vte sample_xx nat sample_process (keys_of sample_core)
    (mkTickIo (λ _, [Ok [65; 66]; Ok [10]]) (λ _, Ok None)) sample_core).
Proof.
  destruct (@server_never_panics sample_width sample_vte sample_xx nat sample_process
    (mkKeypair sample_static sample_static) [(replicate 32 5, [])] [Ok 100; Err PtyPty; Ok 101] None None
    sample_core) as [Ht _].
  - exact sample_width_le.
  - exact sample_vte_wf.
  - by apply after_short.
  - exact (Ht _ _).
Defined.

(** A shell that prints at every tick, and never exits. *)
Definition chatty : TickIo := mkTickIo (λ _, [Ok [65; 66]; Ok [10]]) (λ _, Ok None).

Lemma silent_server_empties_witness :
  keys_of sample_core = [sample_sid] ∧
  ∃ c', @idle_run sample_width sample_vte sample_xx nat sample_process
      (replicate (Z.to_nat 20050) chatty) sample_core c' ∧ sessions c' = ∅.
Proof.
  split; [by vm_compute|].
  destruct (@silent_server_empties sample_width sample_vte sample_xx nat sample_process
    (mkKeypair sample_static sample_static) [(replicate 32 5, [])] [Ok 100; Err PtyPty; Ok 101] None None
    sample_core (replicate (Z.to_nat 20050) chatty)) as [(c' & Hc') He].
  - exact sample_width_le.
  - exact sample_vte_wf.
  - cbn. repeat constructor; set_solver.
  - by apply after_short.
  - exists c'. split; [exact Hc'|]. apply He; [exact Hc'|]. rewrite length_replicate, Z2Nat.id; lia.
Defined.

(** The client is back under another session id: its handshake is at the last
    message. *)
Definition back_k : @Handshaker sample_xx :=
  default (mkHandshaker None [] false [] None) (pending back_core !! sample_sid2).
Definition back_k' : @Handshaker sample_xx := (hs_step back_k (replicate 32 5)).2.
Definition back_session : @Session sample_xx nat :=
  match into_session back_k' (Some 2%nat) with Ok sn => sn | Err _ => session_new sample_sid2 (@mkNoiseSession sample_xx 7 []) None end.

Definition back_old : bool :=
  match sessions back_core !! sample_sid with Some s => reattachable (replicate 32 5) s | None => false end.

Lemma back_core_session : ∃ old, sessions back_core !! sample_sid = Some old ∧
  reattachable (replicate 32 5) old = true.
Proof.
  assert (back_old = true) as H by by vm_compute. unfold back_old in H.
  revert H. generalize (sessions back_core !! sample_sid). intros [old|] H; [|done]. by exists old.
Qed.

Lemma reattach_moves_shell_witness :
  ∃ c' s', @handle_packet sample_vte sample_xx nat sample_process (keys_of back_core) 2%nat
      (sample_last (replicate 32 5) sample_sid2) back_core = Some ([], c') ∧
    sessions c' !! sample_sid2 = Some s' ∧ pty_log c' = pty_log back_core.
Proof.
  destruct back_core_session as (old & Hold & Hre).
  destruct (@reattach_moves_shell sample_vte sample_xx nat sample_process (keys_of back_core) 2%nat
    sample_sid2 (replicate 32 5) (replicate 32 5) back_k back_k' back_session sample_sid old back_core)
    as (c' & from & moved & s' & H & _ & _ & Hs & _ & _ & _ & _ & _ & _ & _ & _ & Hl).
  - reflexivity.
  - apply keys_of_order.
  - apply none_by_test. vm_compute. reflexivity.
  - apply default_by_test. vm_compute. reflexivity.
  - unfold back_k'. rewrite (surjective_pairing (hs_step back_k (replicate 32 5))) at 1.
    f_equal.
  - vm_compute. reflexivity.
  - vm_compute. reflexivity.
  - apply ok_by_test. vm_compute. reflexivity.
  - exact Hold.
  - exact Hre.
  - exists c', s'. split; [exact H|]. split; [|exact Hl]. rewrite Hs. apply lookup_insert_eq.
Defined.

(** Five hundred and twelve first messages that nobody follows up. *)
Definition flood : list (list Z) :=
  (λ i, sample_init (replicate 32 6) [i / 256; i mod 256; 0; 0; 0; 0; 0; 0]) <$> seqZ 0 512.
Definition flood_core := after sample_process 3%nat flood (sample_start []).

Lemma full_table_refuses_for_ever_witness :
  ∃ c, rtc (@server_step sample_width sample_vte sample_xx nat sample_process any_traffic) (sample_start []) c ∧
    handle_packet sample_process [] 1%nat (sample_init (replicate 32 5) sample_sid) c = Some ([], c).
Proof.
  exists flood_core. assert (rtc (@server_step sample_width sample_vte sample_xx nat sample_process any_traffic)
    (sample_start []) flood_core) as Hrun by by apply after_runs.
  split; [exact Hrun|].
  destruct (@full_table_refuses_for_ever sample_width sample_vte sample_xx nat sample_process
    (mkKeypair sample_static sample_static) [(replicate 32 5, [])] [] None None flood_core flood_core)
    as [_ Href].
  - constructor.
  - exact Hrun.
  - vm_compute. reflexivity.
  - apply rtc_refl.
  - assert (sample_init (replicate 32 5) sample_sid =
      build_handshake_packet sample_sid (replicate 32 5 ++ replicate 1200 0)) as ->
      by (vm_compute; reflexivity).
    apply Href; [reflexivity|..]; apply none_by_test; vm_compute; reflexivity.
Defined.

(** ** A one-column window

    One client whose window has one column, and a shell that prints one glyph two
    columns wide: the tick, and with it the server of every client, panics. *)
Definition narrow_handshake :=
  after sample_process 1%nat [sample_init (replicate 32 5) sample_sid; sample_last (replicate 32 5) sample_sid]
    (sample_start [Ok 100]).
Definition narrow_packet := handle_packet sample_process (keys_of narrow_handshake) 1%nat
  (sample_open_window 1 1 sample_sid) narrow_handshake.
Definition narrow_core := match narrow_packet with Some (_, c) => c | None => narrow_handshake end.
Definition wide_output : TickIo := mkTickIo (λ _, [Ok [0x7e]]) (λ _, Ok None).

Lemma one_column_client_stops_server :
  rtc (@server_step sample_width sample_vte sample_xx nat sample_process any_traffic)
    (sample_start [Ok 100]) narrow_core ∧
  @tick sample_width sample_vte sample_xx nat sample_process (keys_of narrow_core) wide_output narrow_core = None.
Proof.
  split; [|apply none_by_test; vm_compute; reflexivity].
  apply rtc_r with narrow_handshake; [by apply after_runs|].
  unfold narrow_core. destruct narrow_packet as [[out c]|] eqn:H.
  - eapply step_packet; [apply keys_of_order|exact I|exact H].
  - assert (match narrow_packet with Some _ => true | None => false end = true) as Ht
      by (vm_compute; reflexivity). rewrite H in Ht. discriminate.
Qed.
