(* ===== verification/Client.v ===== *)
(** * The client core ([src/client.rs])

    [ClientCore]: the socket-free client.  It drives the handshake, checks the
    server's key against the known hosts, asks for a shell and then carries
    keystrokes, screen updates and streams over the session. *)

From stdpp Require Import gmap.
From S2P Require Import Prelude Wire Input NoiseCore Session Handshake Stream Mux Cell Text Grid.
From S2P Require Import GridOps Diff Predict Shell Control Auth Runtime.

(** @ src/client.rs:69-69 OPEN_SHELL_MAX_TICKS *)
Definition OPEN_SHELL_MAX_TICKS : Z := 300.
(** @ src/client.rs:72-72 REMOTE_FORWARD_MAX_TICKS *)
Definition REMOTE_FORWARD_MAX_TICKS : Z := 300.

Definition is_ascii_digit (c : Z) : bool := (48 <=? c) && (c <=? 57).
Definition is_ascii_alphanumeric (c : Z) : bool :=
  is_ascii_digit c || ((65 <=? c) && (c <=? 90)) || ((97 <=? c) && (c <=? 122)).

(** @ src/client.rs:59-65 sane_version *)
Definition sane_version (v : list Z) : bool :=
  match v with
  | [] => false
  | c :: _ =>
    (zlen (as_bytes v) <=? 32) && is_ascii_digit (hd 0 (as_bytes [c]))
    && forallb (λ c, is_ascii_alphanumeric c || (c =? 46) || (c =? 45) || (c =? 43)) v
  end.

(** "xterm-256color" *)
Definition DEFAULT_TERM : list Z :=
  [120; 116; 101; 114; 109; 45; 50; 53; 54; 99; 111; 108; 111; 114].

(** The terminal type: the environment's [TERM], unless it is unset or empty.
    @ src/client.rs:99-102 ClientCore::new *)
Definition client_term (term_var : option (list Z)) : list Z :=
  match term_var with Some (x :: t) => x :: t | _ => DEFAULT_TERM end.

Section client.
Context {N : Snow} {SocketAddr : Type}.

(** @ src/client.rs:18-53 ClientCore *)
Record ClientCore := mkClientCore {
  c_hs : option Handshaker;
  c_session : option (Session (SocketAddr := SocketAddr));
  c_shell : ClientShell;
  c_known : KnownHosts;
  host_label : list Z;
  server_addr : SocketAddr;
  c_rows : Z;
  c_cols : Z;
  c_term : list Z;
  established : bool;
  server_static : option (list Z);
  exited : option Z;
  pending_control : list Frame;
  open_shell_pending : bool;
  open_shell_ticks : Z;
  need_ack : bool;
  c_mux : StreamMux;
  c_stream_events : list StreamEvent;
  want_shell : bool;
  want_agent : bool;
  remote_forwards : list (Z * list Z);
  remote_forward_ticks : Z;
  known_hosts_dirty : bool;
  server_version : option (list Z);
}.

Definition set_hs v (c : ClientCore) : ClientCore := mkClientCore
    v (c_session c) (c_shell c) (c_known c) (host_label c) (server_addr c) (c_rows c)
    (c_cols c) (c_term c) (established c) (server_static c) (exited c) (pending_control c)
    (open_shell_pending c) (open_shell_ticks c) (need_ack c) (c_mux c) (c_stream_events c)
    (want_shell c) (want_agent c) (remote_forwards c) (remote_forward_ticks c)
    (known_hosts_dirty c) (server_version c).
Definition set_c_session v (c : ClientCore) : ClientCore := mkClientCore
    (c_hs c) v (c_shell c) (c_known c) (host_label c) (server_addr c) (c_rows c) (c_cols
    c) (c_term c) (established c) (server_static c) (exited c) (pending_control c)
    (open_shell_pending c) (open_shell_ticks c) (need_ack c) (c_mux c) (c_stream_events c)
    (want_shell c) (want_agent c) (remote_forwards c) (remote_forward_ticks c)
    (known_hosts_dirty c) (server_version c).
Definition set_c_shell v (c : ClientCore) : ClientCore := mkClientCore
    (c_hs c) (c_session c) v (c_known c) (host_label c) (server_addr c) (c_rows c) (c_cols
    c) (c_term c) (established c) (server_static c) (exited c) (pending_control c)
    (open_shell_pending c) (open_shell_ticks c) (need_ack c) (c_mux c) (c_stream_events c)
    (want_shell c) (want_agent c) (remote_forwards c) (remote_forward_ticks c)
    (known_hosts_dirty c) (server_version c).
Definition set_known v (c : ClientCore) : ClientCore := mkClientCore
    (c_hs c) (c_session c) (c_shell c) v (host_label c) (server_addr c) (c_rows c) (c_cols
    c) (c_term c) (established c) (server_static c) (exited c) (pending_control c)
    (open_shell_pending c) (open_shell_ticks c) (need_ack c) (c_mux c) (c_stream_events c)
    (want_shell c) (want_agent c) (remote_forwards c) (remote_forward_ticks c)
    (known_hosts_dirty c) (server_version c).
Definition set_size v0 v1 (c : ClientCore) : ClientCore := mkClientCore
    (c_hs c) (c_session c) (c_shell c) (c_known c) (host_label c) (server_addr c) v0 v1
    (c_term c) (established c) (server_static c) (exited c) (pending_control c)
    (open_shell_pending c) (open_shell_ticks c) (need_ack c) (c_mux c) (c_stream_events c)
    (want_shell c) (want_agent c) (remote_forwards c) (remote_forward_ticks c)
    (known_hosts_dirty c) (server_version c).
Definition set_established v (c : ClientCore) : ClientCore := mkClientCore
    (c_hs c) (c_session c) (c_shell c) (c_known c) (host_label c) (server_addr c) (c_rows
    c) (c_cols c) (c_term c) v (server_static c) (exited c) (pending_control c)
    (open_shell_pending c) (open_shell_ticks c) (need_ack c) (c_mux c) (c_stream_events c)
    (want_shell c) (want_agent c) (remote_forwards c) (remote_forward_ticks c)
    (known_hosts_dirty c) (server_version c).
Definition set_server_static v (c : ClientCore) : ClientCore := mkClientCore
    (c_hs c) (c_session c) (c_shell c) (c_known c) (host_label c) (server_addr c) (c_rows
    c) (c_cols c) (c_term c) (established c) v (exited c) (pending_control c)
    (open_shell_pending c) (open_shell_ticks c) (need_ack c) (c_mux c) (c_stream_events c)
    (want_shell c) (want_agent c) (remote_forwards c) (remote_forward_ticks c)
    (known_hosts_dirty c) (server_version c).
Definition set_exited v (c : ClientCore) : ClientCore := mkClientCore
    (c_hs c) (c_session c) (c_shell c) (c_known c) (host_label c) (server_addr c) (c_rows
    c) (c_cols c) (c_term c) (established c) (server_static c) v (pending_control c)
    (open_shell_pending c) (open_shell_ticks c) (need_ack c) (c_mux c) (c_stream_events c)
    (want_shell c) (want_agent c) (remote_forwards c) (remote_forward_ticks c)
    (known_hosts_dirty c) (server_version c).
Definition set_pending_control v (c : ClientCore) : ClientCore := mkClientCore
    (c_hs c) (c_session c) (c_shell c) (c_known c) (host_label c) (server_addr c) (c_rows
    c) (c_cols c) (c_term c) (established c) (server_static c) (exited c) v
    (open_shell_pending c) (open_shell_ticks c) (need_ack c) (c_mux c) (c_stream_events c)
    (want_shell c) (want_agent c) (remote_forwards c) (remote_forward_ticks c)
    (known_hosts_dirty c) (server_version c).
Definition set_open_shell v0 v1 (c : ClientCore) : ClientCore := mkClientCore
    (c_hs c) (c_session c) (c_shell c) (c_known c) (host_label c) (server_addr c) (c_rows
    c) (c_cols c) (c_term c) (established c) (server_static c) (exited c) (pending_control
    c) v0 v1 (need_ack c) (c_mux c) (c_stream_events c) (want_shell c) (want_agent c)
    (remote_forwards c) (remote_forward_ticks c) (known_hosts_dirty c) (server_version c).
Definition set_need_ack v (c : ClientCore) : ClientCore := mkClientCore
    (c_hs c) (c_session c) (c_shell c) (c_known c) (host_label c) (server_addr c) (c_rows
    c) (c_cols c) (c_term c) (established c) (server_static c) (exited c) (pending_control
    c) (open_shell_pending c) (open_shell_ticks c) v (c_mux c) (c_stream_events c)
    (want_shell c) (want_agent c) (remote_forwards c) (remote_forward_ticks c)
    (known_hosts_dirty c) (server_version c).
Definition set_c_mux v (c : ClientCore) : ClientCore := mkClientCore
    (c_hs c) (c_session c) (c_shell c) (c_known c) (host_label c) (server_addr c) (c_rows
    c) (c_cols c) (c_term c) (established c) (server_static c) (exited c) (pending_control
    c) (open_shell_pending c) (open_shell_ticks c) (need_ack c) v (c_stream_events c)
    (want_shell c) (want_agent c) (remote_forwards c) (remote_forward_ticks c)
    (known_hosts_dirty c) (server_version c).
Definition set_c_events v (c : ClientCore) : ClientCore := mkClientCore
    (c_hs c) (c_session c) (c_shell c) (c_known c) (host_label c) (server_addr c) (c_rows
    c) (c_cols c) (c_term c) (established c) (server_static c) (exited c) (pending_control
    c) (open_shell_pending c) (open_shell_ticks c) (need_ack c) (c_mux c) v (want_shell c)
    (want_agent c) (remote_forwards c) (remote_forward_ticks c) (known_hosts_dirty c)
    (server_version c).
(** @ src/client.rs:128-130 ClientCore::set_want_shell *)
Definition set_want_shell v (c : ClientCore) : ClientCore := mkClientCore
    (c_hs c) (c_session c) (c_shell c) (c_known c) (host_label c) (server_addr c) (c_rows
    c) (c_cols c) (c_term c) (established c) (server_static c) (exited c) (pending_control
    c) (open_shell_pending c) (open_shell_ticks c) (need_ack c) (c_mux c) (c_stream_events
    c) v (want_agent c) (remote_forwards c) (remote_forward_ticks c) (known_hosts_dirty c)
    (server_version c).
(** @ src/client.rs:133-135 ClientCore::set_want_agent *)
Definition set_want_agent v (c : ClientCore) : ClientCore := mkClientCore
    (c_hs c) (c_session c) (c_shell c) (c_known c) (host_label c) (server_addr c) (c_rows
    c) (c_cols c) (c_term c) (established c) (server_static c) (exited c) (pending_control
    c) (open_shell_pending c) (open_shell_ticks c) (need_ack c) (c_mux c) (c_stream_events
    c) (want_shell c) v (remote_forwards c) (remote_forward_ticks c) (known_hosts_dirty c)
    (server_version c).
Definition set_remote_forwards v0 v1 (c : ClientCore) : ClientCore := mkClientCore
    (c_hs c) (c_session c) (c_shell c) (c_known c) (host_label c) (server_addr c) (c_rows
    c) (c_cols c) (c_term c) (established c) (server_static c) (exited c) (pending_control
    c) (open_shell_pending c) (open_shell_ticks c) (need_ack c) (c_mux c) (c_stream_events
    c) (want_shell c) (want_agent c) v0 v1 (known_hosts_dirty c) (server_version c).
Definition set_dirty v (c : ClientCore) : ClientCore := mkClientCore
    (c_hs c) (c_session c) (c_shell c) (c_known c) (host_label c) (server_addr c) (c_rows
    c) (c_cols c) (c_term c) (established c) (server_static c) (exited c) (pending_control
    c) (open_shell_pending c) (open_shell_ticks c) (need_ack c) (c_mux c) (c_stream_events
    c) (want_shell c) (want_agent c) (remote_forwards c) (remote_forward_ticks c) v
    (server_version c).
Definition set_server_version v (c : ClientCore) : ClientCore := mkClientCore
    (c_hs c) (c_session c) (c_shell c) (c_known c) (host_label c) (server_addr c) (c_rows
    c) (c_cols c) (c_term c) (established c) (server_static c) (exited c) (pending_control
    c) (open_shell_pending c) (open_shell_ticks c) (need_ack c) (c_mux c) (c_stream_events
    c) (want_shell c) (want_agent c) (remote_forwards c) (remote_forward_ticks c)
    (known_hosts_dirty c) v.

(** The core around a fresh handshake.
    @ src/client.rs:87-118 ClientCore::new *)
Definition client_init (hs : Handshaker) (term_var : option (list Z)) (known : KnownHosts)
    (label : list Z) (addr : SocketAddr) (rows cols : Z) (prediction : DisplayMode) : ClientCore :=
  {| c_hs := Some hs; c_session := None;
     c_shell := with_prediction prediction (client_new (Z.to_nat rows) (Z.to_nat cols));
     c_known := known; host_label := label; server_addr := addr; c_rows := rows; c_cols := cols;
     c_term := client_term term_var;
     established := false; server_static := None; exited := None; pending_control := [];
     open_shell_pending := false; open_shell_ticks := 0; need_ack := false;
     c_mux := mux_new true; c_stream_events := []; want_shell := true; want_agent := false;
     remote_forwards := []; remote_forward_ticks := 0; known_hosts_dirty := false;
     server_version := None |}.

(** The session id is random; [term_var] is the environment's [TERM].
    @ src/client.rs:76-120 ClientCore::new *)
Definition client_core_new (sid : SessionId) (term_var : option (list Z)) (keypair : Keypair)
    (known : KnownHosts) (label : list Z) (addr : SocketAddr) (rows cols : Z)
    (prediction : DisplayMode) : result RuntimeError (ClientCore * list Z) :=
  '(hs, first) ← map_err RtHandshakeDriver (handshaker_client (private keypair) sid);
  Ok (client_init hs term_var known label addr rows cols prediction, first).

(** @ src/client.rs:159-161 ClientCore::type_input *)
Definition c_type_input (bytes : list Z) (c : ClientCore) : ClientCore :=
  set_c_shell (type_input (c_shell c) bytes) c.

(** @ src/client.rs:164-170 ClientCore::resize *)
Definition c_resize (cols rows : Z) (c : ClientCore) : ClientCore :=
  set_pending_control (pending_control c ++ [Wire.Control (encode_msg (MResize cols rows))])
    (set_size rows cols c).

(** @ src/client.rs:175-179 ClientCore::send_bye *)
Definition send_bye (c : ClientCore) : ClientCore :=
  set_pending_control (pending_control c ++ [Wire.Control (encode_msg Bye)]) c.

(** @ src/client.rs:187-189 ClientCore::overlay *)
Definition c_overlay (c : ClientCore) : option Grid := client_overlay (c_shell c).

(** The request for a shell, repeated until the shell is seen or too often.
    @ src/client.rs:383-397 ClientCore::outgoing *)
Definition shell_request (c : ClientCore) : list Frame * ClientCore :=
  if open_shell_pending c then
    let n := as_u32 (open_shell_ticks c + 1) in
    ([Wire.Control (encode_msg (OpenShell (c_cols c) (c_rows c) (c_term c) (want_agent c)))],
     set_open_shell (negb (OPEN_SHELL_MAX_TICKS <=? n)) n c)
  else ([], c).

(** @ src/client.rs:399-411 ClientCore::outgoing *)
Definition forward_requests (c : ClientCore) : list Frame * ClientCore :=
  match remote_forwards c with
  | [] => ([], c)
  | rs =>
    if remote_forward_ticks c <? REMOTE_FORWARD_MAX_TICKS then
      ((λ '(port, target), Wire.Control (encode_msg (RemoteForward port target))) <$> rs,
       set_remote_forwards rs (as_u32 (remote_forward_ticks c + 1)) c)
    else ([], c)
  end.

(** @ src/client.rs:378-422 ClientCore::outgoing *)
Definition outgoing (c : ClientCore) : result RuntimeError (list (list Z)) * ClientCore :=
  match c_session c with
  | None => (Ok [], c)
  | Some session =>
    let '(f1, c) := shell_request c in
    let '(f2, c) := forward_requests c in
    let f3 := pending_control c in
    let c := set_pending_control [] c in
    let f4 := poll_frames (c_shell c) in
    let '(f5, m) := poll_transmit (c_mux c) in
    let '(evs, m) := take_events m in
    let c := set_c_events (c_stream_events c ++ evs) (set_c_mux m c) in
    match f1 ++ f2 ++ f3 ++ f4 ++ f5 with
    | [] => (Ok [], c)
    | frames =>
      match seal_many session frames MAX_DATAGRAM_PLAINTEXT with
      | (Ok pkts, sn) => (Ok pkts, set_need_ack false (set_c_session (Some sn) c))
      | (Err e, sn) => (Err (RtTransport e), set_c_session (Some sn) c)
      end
    end
  end.

(** The server's version from the handshake, where none is known yet.
    @ src/client.rs:228-234 ClientCore::handle_handshake *)
Definition learn_version (hs : Handshaker) (c : ClientCore) : ClientCore :=
  match server_version c, peer_payload hs with
  | None, Some p =>
    match from_utf8 p with
    | Some v => if sane_version v then set_server_version (Some v) c else c
    | None => c
    end
  | _, _ => c
  end.

(** The server's key is accepted: the session starts with the request for a shell.
    @ src/client.rs:223-244 ClientCore::handle_handshake *)
Definition start_session (hs : Handshaker) (key : list Z) (out : list (list Z)) (c : ClientCore) :
    result RuntimeError (list (list Z)) * ClientCore :=
  let c := set_server_static (Some key) c in
  let c := learn_version hs c in
  let c := set_hs None c in
  match into_session hs (Some (server_addr c)) with
  | Err e => (Err (RtHandshakeDriver e), c)
  | Ok sn =>
    let c := set_established true (set_c_session (Some sn) c) in
    let c := set_open_shell (want_shell c) (open_shell_ticks c) c in
    match outgoing c with
    | (Ok more, c) => (Ok (out ++ more), c)
    | (Err e, c) => (Err e, c)
    end
  end.

(** The handshake is finished: the known-hosts decision.
    @ src/client.rs:209-244 ClientCore::handle_handshake *)
Definition finish_handshake (hs : Handshaker) (out : list (list Z)) (c : ClientCore) :
    result RuntimeError (list (list Z)) * ClientCore :=
  match hs_remote_static hs with
  | None => (Err RtHandshake, c)
  | Some key =>
    let '(verdict, known) := verify_server (c_known c) (host_label c) key in
    let c := set_known known c in
    match verdict with
    | Mismatch => (Err (HostKeyMismatch (host_label c)), c)
    | New => start_session hs key out (set_dirty true c)
    | Match => start_session hs key out c
    end
  end.

(** @ src/client.rs:202-246 ClientCore::handle_handshake *)
Definition c_handle_handshake (body : list Z) (c : ClientCore) :
    result RuntimeError (list (list Z)) * ClientCore :=
  match c_hs c with
  | None => (Err RtHandshake, c)
  | Some hs =>
    match hs_step hs body with
    | (Err e, hs) => (Err (RtHandshakeDriver e), set_hs (Some hs) c)
    | (Ok outcome, hs) =>
      let c := set_hs (Some hs) c in
      let out := match reply outcome with Some r => [r] | None => [] end in
      if hs_finished outcome then finish_handshake hs out c else (Ok out, c)
    end
  end.

(** One frame from the server. @ src/client.rs:258-286 ClientCore::handle_transport *)
Definition client_frame (f : Frame) (c : ClientCore) : ClientCore :=
  match f with
  | StateDiff q b data =>
    set_need_ack true (set_c_shell (apply_state_diff (c_shell c) q b data).2 c)
  | Ack q => set_c_shell (on_input_ack (c_shell c) q) c
  | Wire.Control data =>
    match decode_msg data with
    | Ok (Exit status) => set_exited (Some status) c
    | Ok (ServerVersion v) =>
      match server_version c with
      | None => if sane_version v then set_server_version (Some v) c else c
      | Some _ => c
      end
    | _ => c
    end
  | StreamOpen _ _ _ | StreamData _ _ _ _ | StreamAck _ _ _ | StreamClose _ _ | StreamReset _ =>
    set_c_mux (on_frame (c_mux c) f) c
  | _ => c
  end.

(** @ src/client.rs:248-293 ClientCore::handle_transport *)
Definition c_handle_transport (buf : list Z) (c : ClientCore) : ClientCore :=
  match c_session c with
  | None => c
  | Some session =>
    match open session (server_addr c) buf with
    | (Err _, sn) => set_c_session (Some sn) c
    | (Ok frames, sn) =>
      let c := foldl (flip client_frame) (set_c_session (Some sn) c) frames in
      let '(evs, m) := take_events (c_mux c) in
      let c := set_c_events (c_stream_events c ++ evs) (set_c_mux m c) in
      if 0 <? current_seq (c_shell c) then set_open_shell false (open_shell_ticks c) c else c
    end
  end.

(** @ src/client.rs:192-200 ClientCore::handle_packet *)
Definition c_handle_packet (buf : list Z) (c : ClientCore) :
    result RuntimeError (list (list Z)) * ClientCore :=
  match parse_packet buf with
  | Err e => (Err (RtTransport e), c)
  | Ok (PktHandshake _ body) => c_handle_handshake body c
  | Ok (PktTransport _ _ _) => (Ok [], c_handle_transport buf c)
  end.

(** @ src/client.rs:296-298 ClientCore::tick *)
Definition c_tick (c : ClientCore) : list (list Z) * ClientCore :=
  let '(r, c) := outgoing c in (match r with Ok pkts => pkts | Err _ => [] end, c).

(** @ src/client.rs:302-311 ClientCore::has_outgoing *)
Definition has_outgoing (c : ClientCore) : bool :=
  bool_decide (is_Some (c_session c)) &&
  (open_shell_pending c || negb (bool_decide (pending_control c = [])) || need_ack c
   || has_pending_input (c_shell c) || has_traffic (c_mux c)
   || (negb (bool_decide (remote_forwards c = [])) && (remote_forward_ticks c <? REMOTE_FORWARD_MAX_TICKS))).

(** ** Streams *)

(** Open a stream of this kind with these bytes. *)
Definition c_open (kind : StreamKind) (meta : list Z) (c : ClientCore) : Z * ClientCore :=
  let '(id, m) := mux_open (c_mux c) kind meta in (id, set_c_mux m c).

(** @ src/client.rs:317-320 ClientCore::open_forward *)
Definition c_open_forward (target : list Z) : ClientCore → Z * ClientCore :=
  c_open Forward (as_bytes target).

(** @ src/client.rs:323-325 ClientCore::open_xfer *)
Definition c_open_xfer (req : XferRequest) : ClientCore → Z * ClientCore :=
  c_open FileTransfer (encode_xfer req).

(** @ src/client.rs:328-330 ClientCore::open_exec *)
Definition c_open_exec (cmd : list Z) : ClientCore → Z * ClientCore :=
  c_open Wire.Exec (as_bytes cmd).

(** @ src/client.rs:333-335 ClientCore::stream_write *)
Definition c_stream_write (id : Z) (data : list Z) (c : ClientCore) : ClientCore :=
  set_c_mux (mux_write (c_mux c) id data) c.

(** @ src/client.rs:338-340 ClientCore::stream_read *)
Definition c_stream_read (id : Z) (c : ClientCore) : list Z * ClientCore :=
  let '(d, m) := mux_read (c_mux c) id in (d, set_c_mux m c).

(** @ src/client.rs:343-345 ClientCore::stream_close *)
Definition c_stream_close (id : Z) (c : ClientCore) : ClientCore :=
  set_c_mux (mux_close (c_mux c) id 0) c.

(** @ src/client.rs:351-354 ClientCore::request_remote_forward *)
Definition request_remote_forward (port : Z) (target : list Z) (c : ClientCore) : ClientCore :=
  set_remote_forwards (remote_forwards c ++ [(port, target)]) 0 c.

(** @ src/client.rs:357-359 ClientCore::stream_in_flight *)
Definition c_stream_in_flight (id : Z) (c : ClientCore) : Z := in_flight (c_mux c) id.

(** @ src/client.rs:362-364 ClientCore::stream_recv_finished *)
Definition c_stream_recv_finished (id : Z) (c : ClientCore) : bool := is_recv_finished (c_mux c) id.

(** @ src/client.rs:367-369 ClientCore::take_stream_events *)
Definition c_take_stream_events (c : ClientCore) : list StreamEvent * ClientCore :=
  (c_stream_events c, set_c_events [] c).

(** @ src/client.rs:373-376 ClientCore::keepalive *)
Definition keepalive (c : ClientCore) : option (list Z) * ClientCore :=
  match c_session c with
  | None => (None, c)
  | Some session =>
    match seal session [Ping 0] with
    | (Ok pkt, sn) => (Some pkt, set_c_session (Some sn) c)
    | (Err _, sn) => (None, set_c_session (Some sn) c)
    end
  end.
End client.
