(* ===== verification/ClientProps.v ===== *)
(** * What the client core promises

    The keys that a client trusts, over every state that packets, ticks and local
    calls can reach; what it does with datagrams; and a connection from the first
    message to an open shell, with the server core at the other end. *)

From stdpp Require Import gmap.
From S2P Require Import Prelude Wire Input NoiseCore Session Handshake Stream Mux Cell Text Grid.
From S2P Require Import GridOps Diff Predict Shell Control Auth Runtime Client.

Section trust.
Context {N : Snow} {SocketAddr : Type}.
Implicit Types c : ClientCore (SocketAddr := SocketAddr).

(** ** Steps *)

(** A call of the driver that neither sends nor receives. *)
Inductive local_call : ClientCore (SocketAddr := SocketAddr) → ClientCore (SocketAddr := SocketAddr) → Prop :=
| call_type c bytes : local_call c (c_type_input bytes c)
| call_resize c cols rows : local_call c (c_resize cols rows c)
| call_bye c : local_call c (send_bye c)
| call_want_shell c b : local_call c (set_want_shell b c)
| call_want_agent c b : local_call c (set_want_agent b c)
| call_open_forward c target : local_call c (c_open_forward target c).2
| call_open_xfer c req : local_call c (c_open_xfer req c).2
| call_open_exec c cmd : local_call c (c_open_exec cmd c).2
| call_write c id data : local_call c (c_stream_write id data c)
| call_read c id : local_call c (c_stream_read id c).2
| call_close c id : local_call c (c_stream_close id c)
| call_take_events c : local_call c (c_take_stream_events c).2
| call_remote_forward c port target : local_call c (request_remote_forward port target c).

Inductive client_step : ClientCore (SocketAddr := SocketAddr) → ClientCore (SocketAddr := SocketAddr) → Prop :=
| client_packet buf c : client_step c (c_handle_packet buf c).2
| client_tick c : client_step c (c_tick c).2
| client_keepalive c : client_step c (keepalive c).2
| client_call c c' : local_call c c' → client_step c c'.

(** ** What packets do not touch *)

(** The part of the state that decides whom the client talks to. *)
Definition trust c :=
  (c_hs c, c_known c, host_label c, server_addr c, established c, server_static c,
   known_hosts_dirty c, (λ sn, (session_id sn, noise sn)) <$> c_session c).

Lemma trust_set_session sn sn' c :
  c_session c = Some sn → session_id sn' = session_id sn → noise sn' = noise sn →
  trust (set_c_session (Some sn') c) = trust c.
Proof. intros Hs Hi Hn. unfold trust. rewrite Hs. destruct c. cbn. by rewrite Hi, Hn. Qed.

Lemma shell_request_same c :
  trust (shell_request c).2 = trust c ∧ c_session (shell_request c).2 = c_session c.
Proof. unfold shell_request. by destruct (open_shell_pending c). Qed.

Lemma forward_requests_same c :
  trust (forward_requests c).2 = trust c ∧ c_session (forward_requests c).2 = c_session c.
Proof. unfold forward_requests. destruct (remote_forwards c); [done|]. by destruct (_ <? _). Qed.

(** A round of sending, split: what is sealed, and the state it is sealed in. *)
Definition outgoing_frames c : list Frame * ClientCore (SocketAddr := SocketAddr) :=
  let '(f1, c) := shell_request c in
  let '(f2, c) := forward_requests c in
  let f3 := pending_control c in
  let c := set_pending_control [] c in
  let f4 := poll_frames (c_shell c) in
  let '(f5, m) := poll_transmit (c_mux c) in
  let '(evs, m) := take_events m in
  (f1 ++ f2 ++ f3 ++ f4 ++ f5, set_c_events (c_stream_events c ++ evs) (set_c_mux m c)).

Lemma outgoing_eq c session :
  c_session c = Some session →
  outgoing c =
    let '(frames, c1) := outgoing_frames c in
    match frames with
    | [] => (Ok [], c1)
    | _ =>
      let '(r, sn) := seal_many session frames MAX_DATAGRAM_PLAINTEXT in
      (map_err RtTransport r,
       match r with
       | Ok _ => set_need_ack false (set_c_session (Some sn) c1)
       | Err _ => set_c_session (Some sn) c1
       end)
    end.
Proof.
  intros Hs. unfold outgoing, outgoing_frames. rewrite Hs.
  destruct (shell_request c) as [f1 c1]. destruct (forward_requests c1) as [f2 c2].
  destruct (poll_transmit _) as [f5 m]. destruct (take_events m) as [evs m'].
  destruct (f1 ++ _); [done|]. by destruct (seal_many _ _ _) as [[|] sn].
Qed.

Lemma outgoing_frames_same c :
  trust (outgoing_frames c).2 = trust c ∧ c_session (outgoing_frames c).2 = c_session c.
Proof.
  unfold outgoing_frames. pose proof (shell_request_same c) as [H1 H2].
  destruct (shell_request c) as [f1 c1]. cbn [snd] in H1, H2. rewrite <- H1, <- H2.
  pose proof (forward_requests_same c1) as [H3 H4]. destruct (forward_requests c1) as [f2 c2].
  cbn [snd] in H3, H4. rewrite <- H3, <- H4. destruct (poll_transmit _) as [f5 m].
  by destruct (take_events m) as [evs m'].
Qed.

Lemma outgoing_trust c : trust (outgoing c).2 = trust c.
Proof.
  destruct (c_session c) as [sn|] eqn:Hs; [|unfold outgoing; by rewrite Hs].
  rewrite (outgoing_eq _ _ Hs). pose proof (outgoing_frames_same c) as [Ht Hs1].
  destruct (outgoing_frames c) as [fs c1]. cbn [snd] in Ht, Hs1. rewrite Hs in Hs1. rewrite <- Ht.
  destruct fs as [|f fs]; [done|].
  destruct (seal_many sn _ _) as [o sn'] eqn:Hseal. cbn [snd].
  apply seal_loop_same in Hseal as (Hi & Hn & _).
  destruct o; [change (trust (set_need_ack _ ?c)) with (trust c)|]; by eapply trust_set_session.
Qed.

Lemma client_frame_trust f c : trust (client_frame f c) = trust c.
Proof.
  destruct f; try done. cbn [client_frame].
  destruct (decode_msg _) as [[]|]; try done. destruct (server_version c); [done|].
  by destruct (sane_version _).
Qed.

Lemma client_frames_trust fs : ∀ c, trust (foldl (flip client_frame) c fs) = trust c.
Proof.
  induction fs as [|f fs IH]; intros c; [done|]. cbn [foldl]. rewrite IH. apply client_frame_trust.
Qed.

Lemma handle_transport_trust buf c : trust (c_handle_transport buf c) = trust c.
Proof.
  unfold c_handle_transport. destruct (c_session c) as [sn|] eqn:Hs; [|done].
  destruct (open sn _ buf) as [r sn'] eqn:Ho.
  assert (trust (set_c_session (Some sn') c) = trust c) as Ht.
  { destruct (open_spec _ _ _ _ _ Ho) as [(-> & _)|(? & ? & _ & _ & Hi & Hn & _)];
      by eapply trust_set_session. }
  destruct r as [fs|e]; [|done]. rewrite <- Ht, <- (client_frames_trust fs (set_c_session _ c)).
  destruct (foldl _ _ _). destruct (take_events _). cbn [current_seq]. by destruct (0 <? _).
Qed.

Lemma keepalive_trust c : trust (keepalive c).2 = trust c.
Proof.
  unfold keepalive. destruct (c_session c) as [sn|] eqn:Hs; [|done].
  pose proof (seal_same sn [Ping 0]) as (Hi & Hn & _).
  destruct (seal sn _) as [[p|e] sn']; by eapply trust_set_session.
Qed.

Lemma local_call_trust c c' : local_call c c' → trust c' = trust c.
Proof.
  intros []; try done; unfold c_open_forward, c_open_xfer, c_open_exec, c_open, c_stream_read;
    try (by destruct (mux_open _ _ _)); by destruct (mux_read _ _).
Qed.

(** ** The invariant *)

Record trust_ok (sid : SessionId) (label : list Z) (known0 : KnownHosts) c : Prop := {
  tr_label : host_label c = label;
  tr_hs k : c_hs c = Some k → hs_session_id k = sid ∧ server_static c = None ∧ c_session c = None;
  tr_session : established c = bool_decide (is_Some (c_session c));
  tr_peer sn : c_session c = Some sn →
    session_id sn = sid ∧ server_static c = Some (session_remote_static (noise sn));
  tr_known : match server_static c with
             | None => c_known c = known0 ∧ known_hosts_dirty c = false
             | Some key =>
               length key = KEY_LEN ∧
               (known0 !! label = Some key ∧ c_known c = known0 ∧ known_hosts_dirty c = false ∨
                known0 !! label = None ∧ c_known c = <[label := key]> known0 ∧
                known_hosts_dirty c = true)
             end;
}.

Lemma trust_ok_eq sid label known0 c c' :
  trust c' = trust c → trust_ok sid label known0 c → trust_ok sid label known0 c'.
Proof.
  unfold trust. intros [= Hh Hk Hl _ He Hst Hd Hs] [H1 H2 H3 H4 H5]. split.
  - congruence.
  - intros k. rewrite Hh, Hst. intros (? & ? & Hn)%H2. rewrite Hn in Hs. split_and!; [done..|].
    by destruct (c_session c').
  - rewrite He, H3. apply bool_decide_ext.
    by rewrite <- (fmap_is_Some (λ sn, (session_id sn, noise sn))), <- Hs, fmap_is_Some.
  - intros sn Hsn. rewrite Hsn in Hs. destruct (c_session c) as [sn0|]; [|done].
    injection Hs as -> ->. rewrite Hst. by apply H4.
  - by rewrite Hst, Hk, Hd.
Qed.

Lemma learn_version_trust hs c : trust (learn_version hs c) = trust c.
Proof.
  unfold learn_version. destruct (server_version c); [done|]. destruct (peer_payload hs); [|done].
  destruct (from_utf8 _); [|done]. by destruct (sane_version _).
Qed.

Lemma into_session_spec (k : Handshaker) (addr : option SocketAddr) sn key :
  into_session k addr = Ok sn → hs_remote_static k = Some key →
  session_id sn = hs_session_id k ∧ session_remote_static (noise sn) = key ∧
  send_nonce sn = 0 ∧ peer_addr sn = addr.
Proof.
  unfold into_session, hs_remote_static. destruct (finished k); [|done]. cbn [negb].
  destruct (hs k) as [h|]; [|done]. cbn. unfold into_transport, remote_static.
  destruct (is_handshake_finished _); [|done]. cbn.
  destruct (get_remote_static _) as [key'|]; [|done]. cbn.
  destruct (into_stateless_transport_mode _); [|done]. cbn. by intros [= <-] [= <-].
Qed.

Lemma start_session_ok k key out c sid label known0 :
  host_label c = label → hs_session_id k = sid → hs_remote_static k = Some key →
  c_session c = None → established c = false → length key = KEY_LEN →
  (known0 !! label = Some key ∧ c_known c = known0 ∧ known_hosts_dirty c = false ∨
   known0 !! label = None ∧ c_known c = <[label := key]> known0 ∧ known_hosts_dirty c = true) →
  trust_ok sid label known0 (start_session k key out c).2.
Proof.
  intros Hl Hsid Hkey Hs He Hlen Hk. unfold start_session.
  set (c1 := learn_version k (set_server_static (Some key) c)).
  pose proof (learn_version_trust k (set_server_static (Some key) c)) as Ht. fold c1 in Ht.
  unfold trust in Ht. cbn in Ht. injection Ht as H1 H2 H3 H4 H5 H6 H7 H8.
  rewrite Hs in H8. destruct (c_session c1) eqn:Hs1; [done|]. clear H8.
  destruct (into_session _ _) as [sn|e] eqn:Hinto.
  - apply (into_session_spec _ _ _ key) in Hinto as (Hi & Hr & _); [|done].
    match goal with |- context [outgoing ?x] => set (c2 := x) end.
    assert (trust_ok sid label known0 c2) as Hc2.
    { split; cbn; [congruence|done|done| |]; rewrite ?H6, ?H2, ?H7; [|done].
      intros sn' [= <-]. by rewrite Hi, Hr. }
    pose proof (outgoing_trust c2) as Ht. destruct (outgoing c2) as [[more|e] c3]; cbn [snd] in *;
      by eapply trust_ok_eq.
  - split; cbn; [congruence|done|by rewrite Hs1, H5, He|by rewrite Hs1|]. by rewrite H6, H2, H7.
Qed.

(** The known hosts accept the key of a finished handshake, or nothing changes. *)
Lemma finish_ok k out c sid label known0 :
  trust_ok sid label known0 c → c_hs c = Some k →
  trust_ok sid label known0 (finish_handshake k out c).2.
Proof.
  intros Hok Hk. pose proof Hok as [Hl Hh He _ Hkn]. destruct (Hh _ Hk) as (Hsid & Hst & Hs).
  rewrite Hst in Hkn. destruct Hkn as [Hkn Hd]. rewrite Hs in He.
  unfold finish_handshake. destruct (hs_remote_static k) as [key|] eqn:Hkey; [|done].
  rewrite Hl, Hkn. destruct (verify_server_cases known0 label key) as
    [->|[(Hlen & Hno & ->)|(Hlen & Hpin & ->)]].
  - cbn [snd]. eapply trust_ok_eq; [|exact Hok]. unfold trust. cbn. by rewrite <- Hkn.
  - by apply start_session_ok; auto.
  - apply start_session_ok; cbn; auto.
Qed.

Lemma handle_handshake_ok body c sid label known0 :
  trust_ok sid label known0 c → trust_ok sid label known0 (c_handle_handshake body c).2.
Proof.
  intros Hok. unfold c_handle_handshake. destruct (c_hs c) as [k|] eqn:Hk; [|done].
  destruct (hs_step k body) as [r k'] eqn:Hstep. apply hs_step_sid in Hstep.
  assert (trust_ok sid label known0 (set_hs (Some k') c)) as Hok'.
  { destruct Hok as [H1 H2 H3 H4 H5]. split; cbn; try done. intros k0 [= <-]. rewrite Hstep.
    by apply H2. }
  destruct r as [outcome|e]; [|done]. destruct (hs_finished outcome); [|done].
  by apply finish_ok.
Qed.

Lemma client_step_ok c c' sid label known0 :
  client_step c c' → trust_ok sid label known0 c → trust_ok sid label known0 c'.
Proof.
  intros [buf c0|c0|c0|c0 c1 Hcall] Hok.
  - unfold c_handle_packet. destruct (parse_packet buf) as [[]|]; [|..|done].
    + by apply handle_handshake_ok.
    + eapply trust_ok_eq; [|done]. apply handle_transport_trust.
  - eapply trust_ok_eq; [|done]. unfold c_tick. pose proof (outgoing_trust c0) as Ht.
    by destruct (outgoing c0).
  - eapply trust_ok_eq; [|done]. apply keepalive_trust.
  - eapply trust_ok_eq; [|done]. by apply local_call_trust.
Qed.

Lemma client_new_init sid term_var kp known label (addr : SocketAddr) rows cols pred k first :
  handshaker_client (private kp) sid = Ok (k, first) →
  client_core_new sid term_var kp known label addr rows cols pred =
    Ok (client_init k term_var known label addr rows cols pred, first).
Proof. intros H. unfold client_core_new. by rewrite H. Qed.

Lemma client_new_ok sid term_var kp known label addr rows cols pred c first :
  client_core_new sid term_var kp known label addr rows cols pred = Ok (c, first) →
  trust_ok sid label known c.
Proof.
  unfold client_core_new, handshaker_client. destruct (handshake_new _ _) as [h|e]; [|done]. cbn.
  destruct (hs_write h _) as [[m|e] h1]; [|done]. cbn. intros [= <- _].
  split; cbn; try done. by intros k [= <-].
Qed.

Lemma client_reachable_ok sid term_var kp known label addr rows cols pred c0 first c :
  client_core_new sid term_var kp known label addr rows cols pred = Ok (c0, first) →
  rtc client_step c0 c → trust_ok sid label known c.
Proof.
  intros Hnew. apply (rtc_invariant _ (trust_ok sid label known)); [by eapply client_new_ok|].
  intros c1 c2 Hc1 Hstep. by eapply client_step_ok.
Qed.

(** ** After the handshake *)

(** With a session the handshake is gone, and any packet but a transport packet is
    an error. *)
Lemma session_no_handshake sid label known c :
  trust_ok sid label known c → is_Some (c_session c) → c_hs c = None.
Proof. intros Hok [sn Hs]. destruct (c_hs c) as [k|] eqn:Hk; [|done]. apply Hok in Hk. naive_solver. Qed.

Lemma established_packet buf c :
  c_hs c = None →
  c_handle_packet buf c =
    match parse_packet buf with
    | Err e => (Err (RtTransport e), c)
    | Ok (PktHandshake _ _) => (Err RtHandshake, c)
    | Ok (PktTransport _ _ _) => (Ok [], c_handle_transport buf c)
    end.
Proof.
  intros Hhs. unfold c_handle_packet, c_handle_handshake. by rewrite Hhs.
Qed.

Lemma established_step sid label known c c' :
  trust_ok sid label known c → is_Some (c_session c) → client_step c c' → trust c' = trust c.
Proof.
  intros Hok Hs Hstep. pose proof (session_no_handshake _ _ _ _ Hok Hs) as Hhs.
  destruct Hstep as [buf c|c|c|c c' Hcall].
  - rewrite established_packet by done. destruct (parse_packet buf) as [[]|]; try done.
    apply handle_transport_trust.
  - unfold c_tick. pose proof (outgoing_trust c) as Ht. by destruct (outgoing c).
  - apply keepalive_trust.
  - by apply local_call_trust.
Qed.

(** What a client with a session sends are packets of that session. *)
Lemma tick_sends sn c :
  c_session c = Some sn → session_id_wf (session_id sn) →
  Forall (transport_of (session_id sn)) (c_tick c).1.
Proof.
  intros Hs Hwf. unfold c_tick. rewrite (outgoing_eq _ _ Hs).
  destruct (outgoing_frames c) as [[|f fs] c1]; [by constructor|].
  destruct (seal_many sn _ _) as [[ps|e] sn'] eqn:Hseal; [|by constructor].
  by eapply seal_loop_transport.
Qed.

Lemma keepalive_sends sn c pkt :
  c_session c = Some sn → session_id_wf (session_id sn) → (keepalive c).1 = Some pkt →
  transport_of (session_id sn) pkt.
Proof.
  intros Hs Hwf. unfold keepalive. rewrite Hs.
  destruct (seal sn _) as [[p|e] sn'] eqn:Hseal; [|done]. intros [= <-].
  by eapply seal_transport.
Qed.

(** C2 Whom the client trusts: in every state that packets, ticks and calls reach,
    the client is established exactly when it has a session; that session is the
    connection's own and its peer proved the key that the known hosts hold for
    the server, the one pinned before the connection where there was one; a new
    key is pinned for this server only, and marks the file for saving. *)
Theorem client_trusts_pinned_key sid term_var kp known label addr rows cols pred c0 first c :
  client_core_new sid term_var kp known label addr rows cols pred = Ok (c0, first) →
  rtc client_step c0 c →
  (established c = true ↔ is_Some (c_session c)) ∧
  (∀ sn, c_session c = Some sn →
    session_id sn = sid ∧ server_static c = Some (session_remote_static (noise sn)) ∧
    c_known c !! label = Some (session_remote_static (noise sn)) ∧
    (∀ key, known !! label = Some key → session_remote_static (noise sn) = key)) ∧
  (∀ host, host ≠ label ∨ is_Some (known !! host) → c_known c !! host = known !! host) ∧
  (known_hosts_dirty c = false → c_known c = known).
Proof.
  intros Hnew Hreach.
  destruct (client_reachable_ok _ _ _ _ _ _ _ _ _ _ _ _ Hnew Hreach) as [Hl Hh He Hs Hk].
  unfold KnownHosts, PublicKey in *. split_and!.
  - rewrite He. by rewrite bool_decide_eq_true.
  - intros sn Hsn. destruct (Hs _ Hsn) as [Hid Hst]. rewrite Hst in Hk.
    destruct Hk as (_ & [(Hpin & Hk & _)|(Hno & Hk & _)]); rewrite Hk.
    + split_and!; [done..|]. intros key. rewrite Hpin. congruence.
    + split_and!; [done|done|by rewrite lookup_insert_eq|congruence].
  - intros host Hhost. destruct (server_static c); [|by destruct Hk as [-> _]].
    destruct Hk as (_ & [(_ & -> & _)|(Hno & -> & _)]); [done|].
    apply lookup_insert_ne. intros ->. destruct Hhost as [|[? Hs']]; [done|]. congruence.
  - intros Hd. destruct (server_static c); [|by destruct Hk]. 
    destruct Hk as (_ & [(_ & -> & _)|(_ & _ & Hk)]); [done|congruence].
Qed.

(** C40 A stray datagram ends the client: once there is a session, the packet
    handler fails, and changes nothing, on exactly the datagrams that are not
    transport packets, a second copy of the server's handshake message or a
    single forged byte among them; every transport packet it takes, authentic or
    not.  Its caller passes the error on and leaves the session. *)
Theorem stray_datagram_ends_client sid term_var kp known label addr rows cols pred c0 first c buf :
  client_core_new sid term_var kp known label addr rows cols pred = Ok (c0, first) →
  rtc client_step c0 c → established c = true →
  match parse_packet buf with
  | Ok (PktTransport _ _ _) => (c_handle_packet buf c).1 = Ok []
  | _ => ∃ e, c_handle_packet buf c = (Err e, c)
  end.
Proof.
  intros Hnew Hreach Hest. pose proof (client_reachable_ok _ _ _ _ _ _ _ _ _ _ _ _ Hnew Hreach) as Hok.
  rewrite (tr_session _ _ _ _ Hok), bool_decide_eq_true in Hest.
  rewrite established_packet by (by eapply session_no_handshake).
  destruct (parse_packet buf) as [[]|]; by eauto.
Qed.
End trust.

(** ** Witnesses *)

(** A client that takes the server's answer, from a server it has not seen before. *)
Definition sample_pair (b : Z) : Keypair := mkKeypair (replicate 32 b) (replicate 32 b).
Definition sample_driver : Handshaker :=
  match @handshaker_client sample_xx (replicate 32 5) sample_sid with
  | Ok (k, _) => k
  | Err _ => mkHandshaker None sample_sid false [] None
  end.
Definition sample_client0 (known : KnownHosts) :=
  @client_init sample_xx nat sample_driver None known [104] 2%nat 1 2 Adaptive.
Definition sample_answer : list Z := build_handshake_packet sample_sid (replicate 32 9 ++ [48; 46; 53]).
Definition sample_client (known : KnownHosts) := (c_handle_packet sample_answer (sample_client0 known)).2.

Lemma sample_driver_new :
  ∃ first, @handshaker_client sample_xx (replicate 32 5) sample_sid = Ok (sample_driver, first).
Proof.
  assert (is_ok (@handshaker_client sample_xx (replicate 32 5) sample_sid) = true) as H
    by (vm_compute; reflexivity).
  unfold sample_driver. destruct (handshaker_client _ _) as [[k first]|]; [by eexists|discriminate].
Qed.

Lemma sample_client_new known :
  ∃ first, @client_core_new sample_xx nat sample_sid None (sample_pair 5) known [104] 2%nat 1 2 Adaptive =
    Ok (sample_client0 known, first).
Proof.
  destruct sample_driver_new as [first H]. exists first.
  exact (client_new_init sample_sid None (sample_pair 5) known [104] 2%nat 1 2 Adaptive _ _ H).
Qed.

Lemma sample_client_reached known : rtc client_step (sample_client0 known) (sample_client known).
Proof. apply rtc_once. unfold sample_client. apply client_packet. Qed.

Lemma client_trusts_pinned_key_witness :
  (∃ sn, c_session (sample_client ∅) = Some sn ∧
    c_known (sample_client ∅) !! [104] = Some (session_remote_static (noise sn))) ∧
  c_session (sample_client {[ [104] := replicate 32 8 ]}) = None.
Proof.
  split; [|apply none_by_test; vm_compute; reflexivity].
  destruct (sample_client_new ∅) as [first Hnew].
  destruct (client_trusts_pinned_key sample_sid None (sample_pair 5) ∅ [104] 2%nat 1 2 Adaptive _ _
      (sample_client ∅) Hnew (sample_client_reached ∅)) as (He & Hs & _).
  destruct (proj1 He ltac:(vm_compute; reflexivity)) as [sn Hsn]. exists sn.
  destruct (Hs sn Hsn) as (_ & _ & Hk & _). exact (conj Hsn Hk).
Defined.

Lemma stray_datagram_ends_client_witness :
  ∃ e, c_handle_packet [255] (sample_client ∅) = (Err e, sample_client ∅).
Proof.
  destruct (sample_client_new ∅) as [first Hnew].
  exact (stray_datagram_ends_client sample_sid None (sample_pair 5) ∅ [104] 2%nat 1 2 Adaptive _ _
    (sample_client ∅) [255] Hnew (sample_client_reached ∅) ltac:(vm_compute; reflexivity)).
Defined.
