(* ===== verification/Connect.v ===== *)
(** * Client and server together

    A connection between the client core and the server core: from the first
    handshake message to an open shell, and what becomes of it when the last
    handshake message is lost. *)

From stdpp Require Import gmap.
From S2P Require Import Prelude Wire Input NoiseCore Session Handshake Stream Mux Cell Text Grid.
From S2P Require Import GridOps Predict Shell Control Auth Pty Runtime Server ServerInv ServerProps.
From S2P Require Import Client ClientProps.

(** ** Versions *)

Lemma sane_version_chars v :
  sane_version v = true → Forall is_char v ∧ existsb (λ b, negb (b =? 0)) (as_bytes v) = true.
Proof.
  unfold sane_version. destruct v as [|c v]; [done|].
  intros [[_ Hd]%andb_true_iff Hall]%andb_true_iff. split.
  - apply Forall_forall. intros x Hx. apply list_elem_of_In in Hx.
    pose proof (proj1 (forallb_forall _ _) Hall x Hx) as H. cbn beta in H.
    unfold is_ascii_alphanumeric, is_ascii_digit in H.
    rewrite !orb_true_iff, !andb_true_iff, !Z.leb_le, !Z.eqb_eq in H. unfold is_char. lia.
  - change (as_bytes (c :: v)) with (utf8_char c ++ as_bytes v). rewrite existsb_app.
    apply orb_true_iff. left. revert Hd. unfold as_bytes. cbn [fmap list_fmap concat].
    rewrite app_nil_r. unfold utf8_char, is_ascii_digit.
    destruct (c <? 128); [|repeat case_match; cbn]; cbn; rewrite ?andb_true_iff; lia.
Qed.

Lemma sane_version_fits v : sane_version v = true → snow_fits (as_bytes v).
Proof.
  unfold sane_version. destruct v as [|c v]; [done|].
  intros [[Hl%Z.leb_le _]%andb_true_iff _]%andb_true_iff. unfold snow_fits, SNOW_MAXMSGLEN. lia.
Qed.

Section connect.
Context (char_width : Z → nat) {V : Vte} {N : Snow} {SocketAddr : Type} (p : Process).
Implicit Types (c : ClientCore (SocketAddr := SocketAddr)) (s : ServerCore (SocketAddr := SocketAddr)).

(** ** The client's side *)

(** What the client sends first once it is established. *)
Definition first_frames (cols rows : Z) (term : list Z) : list Frame :=
  [Wire.Control (encode_msg (OpenShell cols rows term false)); Ack 0].

Lemma first_frames_wf cols rows term : Forall frame_wf (first_frames cols rows term).
Proof. repeat constructor; cbn; lia_ints. Qed.

Lemma first_frames_fit cols rows term n :
  (length (encode_frames (first_frames cols rows term)) ≤ n)%nat →
  Z.of_nat n < 2 ^ 63 → vec_fits (encode_msg (OpenShell cols rows term false)).
Proof.
  unfold first_frames. rewrite encode_frames_cons, length_app. unfold encode, put_bytes.
  rewrite !length_app. unfold vec_fits. lia.
Qed.

Lemma poll_transmit_new b : (poll_transmit (mux_new b)).1 = [].
Proof. by destruct b; vm_compute. Qed.

(** A client with nothing else to say asks for its shell in one packet. *)
Record idle_client cols rows term c : Prop := {
  ic_cols : c_cols c = cols;
  ic_rows : c_rows c = rows;
  ic_term : c_term c = term;
  ic_agent : want_agent c = false;
  ic_forwards : remote_forwards c = [];
  ic_pending : pending_control c = [];
  ic_frames : poll_frames (c_shell c) = [Ack 0];
  ic_mux : c_mux c = mux_new true;
}.

Lemma outgoing_first cols rows term c sn pkt :
  idle_client cols rows term c → c_session c = Some sn → open_shell_pending c = true →
  (length (encode_frames (first_frames cols rows term)) ≤ MAX_DATAGRAM_PLAINTEXT)%nat →
  fst (seal sn (first_frames cols rows term)) = Ok pkt →
  ∃ c', outgoing c = (Ok [pkt], c') ∧ server_version c' = server_version c.
Proof.
  intros [Hc Hr Ht Ha Hf Hp Hs Hm] Hsn Hopen Hfit Hseal. rewrite (outgoing_eq _ _ Hsn).
  unfold outgoing_frames, shell_request. rewrite Hopen, Hc, Hr, Ht, Ha.
  unfold forward_requests. cbn [remote_forwards set_open_shell]. rewrite Hf.
  cbn [pending_control c_shell c_mux set_open_shell set_pending_control]. rewrite Hp, Hs, Hm.
  pose proof (poll_transmit_new true) as Hpoll. destruct (poll_transmit (mux_new true)) as [f5 m].
  cbn [fst] in Hpoll. subst f5. destruct (take_events m) as [evs m']. cbn [app].
  fold (first_frames cols rows term). rewrite (seal_many_fits sn) by done.
  destruct (seal sn _) as [[pkt'|e] sn']; [|done]. injection Hseal as ->. by eexists.
Qed.

Lemma learn_version_new k v c :
  server_version c = None → peer_payload k = Some (as_bytes v) → sane_version v = true →
  learn_version k c = set_server_version (Some v) c.
Proof.
  intros Hn Hp Hv. unfold learn_version. rewrite Hn, Hp, from_utf8_as_bytes; [by rewrite Hv|].
  by apply sane_version_chars.
Qed.

(** A client whose handshake is finished by a key it accepts. *)
Lemma start_session_sends cols rows term c k key r version sn pkt :
  idle_client cols rows term c → want_shell c = true → server_version c = None →
  peer_payload k = Some (as_bytes version) → sane_version version = true →
  into_session k (Some (server_addr c)) = Ok sn →
  (length (encode_frames (first_frames cols rows term)) ≤ MAX_DATAGRAM_PLAINTEXT)%nat →
  fst (seal sn (first_frames cols rows term)) = Ok pkt →
  ∃ c', start_session k key [r] c = (Ok [r; pkt], c') ∧ server_version c' = Some version ∧
    established c' = true ∧ server_static c' = Some key ∧ c_known c' = c_known c.
Proof.
  intros Hidle Hwant Hver Hpay Hsane Hinto Hfit Hseal. unfold start_session.
  rewrite (learn_version_new k version) by done.
  cbn [server_addr set_hs set_server_version set_server_static]. rewrite Hinto.
  match goal with |- context [outgoing ?x] => set (c1 := x) end.
  destruct (outgoing_first cols rows term c1 sn pkt) as (c' & Hout & Hv); [by destruct Hidle|done..|].
  pose proof (outgoing_trust c1) as Ht. rewrite Hout in *. cbn [snd] in Ht.
  exists c'. split_and!; [done|by rewrite Hv|..]; unfold trust in Ht; injection Ht; done.
Qed.

(** A new client whose handshake the server's message finishes: its key is
    accepted unless another is pinned, and the answer is the last handshake
    message and the request for a shell. *)
Lemma client_second_message sid k term_var known label addr rows cols pred m r k' key version sn pkt :
  session_id_wf sid → hs_step k m = (Ok (mkHsOutcome (Some r) true), k') →
  hs_remote_static k' = Some key → peer_payload k' = Some (as_bytes version) →
  sane_version version = true → length key = KEY_LEN →
  known !! label = None ∨ known !! label = Some key →
  into_session k' (Some addr) = Ok sn →
  (length (encode_frames (first_frames cols rows (client_term term_var))) ≤ MAX_DATAGRAM_PLAINTEXT)%nat →
  fst (seal sn (first_frames cols rows (client_term term_var))) = Ok pkt →
  ∃ c', c_handle_packet (build_handshake_packet sid m)
      (client_init k term_var known label addr rows cols pred) = (Ok [r; pkt], c') ∧
    established c' = true ∧ server_static c' = Some key ∧ server_version c' = Some version ∧
    c_known c' !! label = Some key.
Proof.
  intros Hsid Hstep Hkey Hpay Hsane Hlen Hpin Hinto Hfit Hseal.
  unfold c_handle_packet. rewrite parse_handshake_packet by done.
  unfold c_handle_handshake. cbn [c_hs client_init]. rewrite Hstep. cbn [reply hs_finished].
  unfold finish_handshake. rewrite Hkey. cbn [c_known host_label set_hs client_init].
  unfold KnownHosts, PublicKey in *.
  destruct (verify_server_cases known label key) as [Hv|[(_ & Hno & Hv)|(_ & Hp & Hv)]].
  - exfalso. pose proof (proj1 (verify_server_spec known label key)) as Hs.
    unfold tofu_verdict, KnownHosts, PublicKey in *. rewrite Hv, Hlen in Hs. cbn [negb Nat.eqb KEY_LEN fst] in Hs.
    destruct Hpin as [Hp|Hp]; rewrite Hp in Hs; [done|]. by rewrite bool_decide_eq_true_2 in Hs.
  - rewrite Hv. edestruct (start_session_sends cols rows (client_term term_var))
      as (c' & -> & ? & ? & ? & Hk); [..|exists c'; split_and!; try done; rewrite Hk; apply lookup_insert_eq];
      done.
  - rewrite Hv. edestruct (start_session_sends cols rows (client_term term_var))
      as (c' & -> & ? & ? & ? & Hk); [..|exists c'; split_and!; try done; by rewrite Hk]; done.
Qed.
(** ** The server's side *)

Definition shell_spawn cols rows term s : SpawnRequest :=
  {| sr_user := user s; sr_command := command s; sr_env := []; sr_term := term;
     sr_rows := rows; sr_cols := cols |}.

Lemma server_opens_shell order src sid ses n more sn cols rows term buf s :
  sessions s !! sid = Some ses → session_id (session ses) = sid → pty ses = None →
  login s = Ok n :: more → msg_wf (OpenShell cols rows term false) →
  vec_fits (encode_msg (OpenShell cols rows term false)) →
  open (session ses) src buf = (Ok (first_frames cols rows term), sn) →
  ∃ s' ses', handle_packet p order src buf s = Some ([], s') ∧ sessions s' !! sid = Some ses' ∧
    session ses' = sn ∧ client_key ses' = client_key ses ∧
    shell ses' = Some (server_new (Z.to_nat rows) (Z.to_nat cols)) ∧
    pty ses' = Some (mkPtyHandle n None) ∧ s_rows ses' = rows ∧ s_cols ses' = cols ∧
    pty_log s' = pty_log s ++ [PtySpawned n (shell_spawn cols rows term s); PtyNonblocking n].
Proof.
  intros Hses Hid Hpty Hlogin Hwf Hfit Ho.
  assert (∃ nonce ct, parse_packet buf = Ok (PktTransport sid nonce ct)) as (nonce & ct & Hp).
  { destruct (open_spec _ _ _ _ _ Ho) as [(_ & e & He & _)|(nonce & pt & (ct & Hp & _) & _)]; [done|].
    rewrite Hid in Hp. by eexists _, _. }
  unfold handle_packet, try_handle_packet. rewrite parse_packet_calm, Hp. cbn [mbind option_bind].
  unfold handle_transport. rewrite Hses, open_calm, Ho. cbn [mbind option_bind].
  set (s1 := put_session sid (set_idle_ticks 0 (set_session sn ses)) s).
  assert (sessions s1 !! sid = Some (set_idle_ticks 0 (set_session sn ses))) as H1
    by apply lookup_insert_eq.
  unfold first_frames. cbn [server_frames server_frame mbind option_bind].
  rewrite decode_msg_calm, control_roundtrip by done. cbn [handle_control mbind option_bind].
  unfold open_shell. rewrite H1.
  cbn [pty set_idle_ticks set_session]. rewrite Hpty, bool_decide_false by (intros []; done).
  cbn [andb]. unfold spawn_call. change (login s1) with (login s). rewrite Hlogin.
  unfold on_client_ack. cbn [sessions put_session set_sessions log]. rewrite lookup_insert_eq.
  cbn [shell set_pty set_shell]. unfold send_replies, surface_events.
  cbn [sessions put_session set_sessions log]. rewrite lookup_insert_eq.
  cbn [mux set_shell set_pty set_window set_idle_ticks set_session].
  destruct (take_events (mux ses)) as [evs m]. cbn [app].
  eexists _, _. split; [reflexivity|].
  cbn [sessions put_session set_sessions log set_stream_events]. rewrite lookup_insert_eq.
  split; [reflexivity|]. cbn [pty_log log put_session set_sessions set_stream_events set_login].
  by rewrite <- (assoc_L (++)).
Qed.
Lemma find_existing_sessions order key s s' :
  sessions s = sessions s' → find_existing order key s = find_existing order key s'.
Proof. intros Hs. induction order as [|k order IH]; cbn [find_existing]; [done|]. by rewrite Hs, IH. Qed.

(** The two handshake messages of a listed client, none of whose shells runs. *)
Lemma server_admits order src sid m1 m3 r key k k1 k2 sn s :
  session_id_wf sid → sessions s !! sid = None → pending s !! sid = None →
  (MIN_HANDSHAKE_INIT ≤ length m1)%nat → (size (pending s) < MAX_PENDING_HANDSHAKES)%nat →
  handshaker_server (private (keypair s)) sid (as_bytes (p_version p)) = Ok k →
  hs_step k m1 = (Ok (mkHsOutcome (Some r) false), k1) →
  hs_step k1 m3 = (Ok (mkHsOutcome None true), k2) → hs_remote_static k2 = Some key →
  authorize_client (authorized s) key = true → find_existing order key s = None →
  into_session k2 (Some src) = Ok sn →
  ∃ s1 s2, handle_packet p order src (build_handshake_packet sid m1) s = Some ([(src, r)], s1) ∧
    handle_packet p order src (build_handshake_packet sid m3) s1 = Some ([], s2) ∧
    sessions s2 !! sid = Some (fresh_session sn key) ∧ login s2 = login s ∧ user s2 = user s ∧
    command s2 = command s ∧ pty_log s2 = pty_log s.
Proof.
  intros Hsid Hnos Hnop Hm1 Hroom Hks H1 H3 Hkeys Hauth Hfind Hinto.
  pose proof (server_first_message p order src sid m1 k k1 r s Hsid Hnos Hnop Hm1 Hroom Hks H1) as Hs1.
  set (s1 := set_pending _ s) in Hs1.
  assert (pending s1 !! sid = Some k1) as Hpend by apply lookup_insert_eq.
  pose proof (server_last_message p order src sid m3 k1 k2 key sn s1 Hsid Hnos Hpend H3 Hkeys
    Hauth Hinto) as Hs2.
  set (s1' := set_pending (delete sid (pending s1)) s1) in *.
  destruct (establish_sessions order sid sn key s1') as (old & ses & Hses & _ & _ & _ & _ & _ & Hold).
  rewrite (find_existing_sessions order key _ s), Hfind in Hold by done. destruct Hold as [-> ->].
  destruct (establish_rest order sid sn key s1') as (Hrest & Hlog & _).
  injection Hrest as _ _ Hl Hc Hu _ _ _ _.
  exists s1, (establish order sid sn key s1'). split_and!; try done. rewrite Hses. apply lookup_insert_eq.
Qed.

(** C3 A connection, end to end: a client whose key is listed, and who has pinned
    the server's key or none, gets its shell in four datagrams.  The client ends
    established, knowing the server's key and version; the server ends with a
    session of that client, its id and address, and one child, spawned as the
    configured user with the client's window and terminal, whose blank screen the
    session shows.  This is for a new connection without agent forwarding: the server
    has neither a session nor an unfinished handshake of that id, room in its table of
    handshakes, no running shell of that key to reattach, and a login that succeeds;
    the version is one a client accepts and the request for the shell fits one
    datagram. *)
Theorem connect_opens_shell order sid term_var ck known label addr rows cols pred pub_c pub_s src n more s :
  xx_run (private ck) (private (keypair s)) pub_c pub_s (as_bytes (p_version p)) →
  session_id_wf sid → sane_version (p_version p) = true → length pub_s = KEY_LEN →
  known !! label = None ∨ known !! label = Some pub_s →
  sessions s !! sid = None → pending s !! sid = None →
  (size (pending s) < MAX_PENDING_HANDSHAKES)%nat →
  authorize_client (authorized s) pub_c = true → find_existing order pub_c s = None →
  login s = Ok n :: more → msg_wf (OpenShell cols rows (client_term term_var) false) →
  (length (encode_frames (first_frames cols rows (client_term term_var))) ≤ MAX_DATAGRAM_PLAINTEXT)%nat →
  ∃ c0 p1 s1 p2 c1 p3 p4 s2 s3 ses,
    client_core_new sid term_var ck known label addr rows cols pred = Ok (c0, p1) ∧
    handle_packet p order src p1 s = Some ([(src, p2)], s1) ∧
    c_handle_packet p2 c0 = (Ok [p3; p4], c1) ∧
    handle_packet p order src p3 s1 = Some ([], s2) ∧
    handle_packet p order src p4 s2 = Some ([], s3) ∧
    established c1 = true ∧ server_static c1 = Some pub_s ∧
    server_version c1 = Some (p_version p) ∧ c_known c1 !! label = Some pub_s ∧
    sessions s3 !! sid = Some ses ∧ client_key ses = pub_c ∧ session_id (session ses) = sid ∧
    peer_addr (session ses) = Some src ∧
    shell ses = Some (server_new (Z.to_nat rows) (Z.to_nat cols)) ∧
    pty ses = Some (mkPtyHandle n None) ∧ s_rows ses = rows ∧ s_cols ses = cols ∧
    pty_log s3 = pty_log s ++
      [PtySpawned n (shell_spawn cols rows (client_term term_var) s); PtyNonblocking n].
Proof.
  intros Hrun Hsid Hsane Hlen Hpin Hnos Hnop Hroom Hauth Hfind Hlogin Hmsg Hfit.
  destruct (exchange (SocketAddr := SocketAddr) _ _ _ _ _ sid Hrun (sane_version_fits _ Hsane)
      (proj2 (sane_version_chars _ Hsane))) as
    (k & m1 & ks & m2 & ks1 & m3 & k1 & ks2 & tc & ts & Hm1 & Hk & Hks & H1 & H2 & H3 &
     Hpay & _ & Hkey & Hkeys & Hinto & Hintos & Hpeers & _).
  set (a := session_new sid (mkNoiseSession tc pub_s) (Some addr)).
  set (b := session_new sid (mkNoiseSession ts pub_c) (Some src)).
  set (frames := first_frames cols rows (client_term term_var)) in *.
  destruct (seal_open_roundtrip a b src frames) as (p4 & Hseal & Hopen); [done|done|done| | | |].
  { apply first_frames_wf. }
  { unfold noise_ok, MAX_DATAGRAM_PLAINTEXT in *. cbn [send_nonce a session_new]. lia. }
  { reflexivity. }
  destruct (client_second_message sid k term_var known label addr rows cols pred m2
    (build_handshake_packet sid m3) k1 pub_s
    (p_version p) a p4) as (c1 & Hc1 & He & Hst & Hv & Hkn); try done.
  destruct (server_admits order src sid m1 m3 (build_handshake_packet sid m2) pub_c ks ks1 ks2 b s)
    as (s1 & s2 & Hs1 & Hs2 & Hses & Hl2 & Hu2 & Hcm2 & Hlog); [done..|apply Hintos|].
  destruct (server_opens_shell order src sid (fresh_session b pub_c) n more
    (mkSession sid (noise b) 0 (snd (Replay.check_and_set (replay b) 0)) (Some src))
    cols rows (client_term term_var) p4 s2) as (s3 & ses' & Hs3 & Hses' & Hsn & Hck & Hsh & Hpty & Hr & Hc & Hl);
    [done|done|done|by rewrite Hl2|done|by apply first_frames_fit in Hfit|exact Hopen|].
  eexists _, _, s1, _, c1, _, p4, s2, s3, ses'. split_and!; try done.
  - unfold client_core_new. by rewrite Hk.
  - by rewrite Hsn.
  - by rewrite Hsn.
  - rewrite Hl, Hlog. unfold shell_spawn. by rewrite Hu2, Hcm2.
Qed.

(** A lost last message: the client of a connection that it holds established
    stays so for ever and only ever sends transport packets of that connection;
    a server without that session, as the loss of the third handshake message
    leaves it, drops each of them unseen.  The two never find each other. *)
Theorem lost_last_message_wedges sid term_var kp known label addr rows cols pred c0 first c c' :
  session_id_wf sid →
  client_core_new sid term_var kp known label addr rows cols pred = Ok (c0, first) →
  rtc client_step c0 c → established c = true → rtc client_step c c' →
  established c' = true ∧
  (∀ buf, (c_handle_packet buf c').1 = Ok [] ∨ ∃ e, (c_handle_packet buf c').1 = Err e) ∧
  ∀ order src s pkt, sessions s !! sid = None →
    pkt ∈ (c_tick c').1 ∨ (keepalive c').1 = Some pkt →
    handle_packet p order src pkt s = Some ([], s).
Proof.
  intros Hwf Hnew Hreach Hest Hreach'.
  assert (trust_ok sid label known c' ∧ is_Some (c_session c')) as [Hok [sn Hs]].
  { eapply (rtc_invariant client_step (λ c, trust_ok sid label known c ∧ is_Some (c_session c)));
      [| |exact Hreach'].
    - pose proof (client_reachable_ok _ _ _ _ _ _ _ _ _ _ _ _ Hnew Hreach) as Hok. split; [done|].
      by rewrite (tr_session _ _ _ _ Hok), bool_decide_eq_true in Hest.
    - intros c1 c2 [Hok Hs] Hstep. split; [by eapply client_step_ok|].
      pose proof (established_step _ _ _ _ _ Hok Hs Hstep) as Ht. unfold trust in Ht.
      injection Ht as _ _ _ _ _ _ _ Hss.
      by rewrite <- (fmap_is_Some (λ sn, (session_id sn, noise sn))), Hss, fmap_is_Some. }
  destruct (tr_peer _ _ _ _ Hok _ Hs) as [Hid _].
  split_and!.
  - by rewrite (tr_session _ _ _ _ Hok), Hs.
  - intros buf. rewrite established_packet by (by eapply session_no_handshake).
    destruct (parse_packet buf) as [[]|]; eauto.
  - intros order src s pkt Hnone Hsent. apply server_unknown_session with sid; [|done].
    rewrite <- Hid. destruct Hsent as [Hin|Hin].
    + pose proof (tick_sends sn c' Hs) as Hall. rewrite Hid in Hall. specialize (Hall Hwf).
      rewrite Hid. by eapply Forall_forall in Hall.
    + apply (keepalive_sends sn c'); [done|by rewrite Hid|done].
Qed.
End connect.

(** ** Witnesses *)

Lemma connect_opens_shell_witness :
  ∃ s3 ses, sessions s3 !! sample_sid = Some ses ∧
    @pty sample_vte sample_xx nat ses = Some (mkPtyHandle 100 None) ∧
    shell ses = Some (server_new 24 80).
Proof.
  destruct (@connect_opens_shell sample_vte sample_xx nat sample_process [] sample_sid None
    (sample_pair 5) ∅ [104] 2%nat 24 80 Adaptive (replicate 32 5) (replicate 32 9) 1%nat 100 []
    (sample_start [Ok 100])) as (_ & _ & _ & _ & _ & _ & _ & _ & s3 & ses & _ & _ & _ & _ & _ & _ & _ &
      _ & _ & Hs & _ & _ & _ & Hsh & Hp & _).
  - exact (sample_xx_run (replicate 32 5) (replicate 32 9) [48; 46; 53] eq_refl eq_refl).
  - reflexivity.
  - reflexivity.
  - reflexivity.
  - left. reflexivity.
  - reflexivity.
  - reflexivity.
  - apply Nat.ltb_lt. vm_compute. reflexivity.
  - vm_compute. reflexivity.
  - reflexivity.
  - reflexivity.
  - split_and!; [lia_ints|lia_ints|]. apply is_char_ascii. reflexivity.
  - apply Nat.leb_le. vm_compute. reflexivity.
  - exists s3, ses. split; [exact Hs|]. split; [exact Hp|exact Hsh].
Defined.

Lemma lost_last_message_wedges_witness :
  (c_tick (sample_client ∅)).1 ≠ [] ∧
  Forall (λ pkt, handle_packet sample_process [] 1%nat pkt (sample_start []) =
    Some ([], sample_start [])) (c_tick (sample_client ∅)).1.
Proof.
  split; [vm_compute; discriminate|]. destruct (sample_client_new ∅) as [first Hnew].
  destruct (@lost_last_message_wedges sample_vte sample_xx nat sample_process sample_sid None
    (sample_pair 5) ∅ [104] 2%nat 1 2 Adaptive _ _ (sample_client ∅) (sample_client ∅) eq_refl Hnew
    (sample_client_reached ∅) ltac:(vm_compute; reflexivity) (rtc_refl _ _)) as (_ & _ & Hdrop).
  apply Forall_forall. intros pkt Hin. exact (Hdrop [] 1%nat (sample_start []) pkt eq_refl (or_introl Hin)).
Defined.
