(* ===== verification/Forward.v ===== *)
(** * Bridges between a socket and a stream ([src/forward.rs], [src/client.rs])

    [ForwardConn] pairs a local socket with a session stream; a pump moves what is
    there in both directions.  The socket is the answers of its reads and writes;
    what is written to it is a result.  The stream is reached through the
    interface [StreamPort], so that the client's and the server's pumps are the
    same definition over their two cores. *)

From stdpp Require Import gmap.
From S2P Require Import Prelude Wire Reassembler Stream Mux StreamNet.

(** What the operating system answers to one non-blocking read or write; a script
    of answers that is exhausted blocks. *)
Inductive ReadAns := RBytes (bs : list Z) | RWouldBlock | RInterrupted | RError.
Inductive WriteAns := WBytes (n : nat) | WWouldBlock | WInterrupted | WError.

(** @ src/forward.rs:36-36 FLUSH_STALL_LIMIT *)
Definition FLUSH_STALL_LIMIT : Z := 3000.

(** @ src/forward.rs:17-31 ForwardConn *)
Record ForwardConn := mkForwardConn {
  f_out : list Z;
  read_closed : bool;
  peer_closed : bool;
  fin_sent : bool;
  dead : bool;
  flush_stall : Z;
}.

Definition set_f_out v c := mkForwardConn v (read_closed c) (peer_closed c) (fin_sent c) (dead c) (flush_stall c).
Definition set_read_closed v c := mkForwardConn (f_out c) v (peer_closed c) (fin_sent c) (dead c) (flush_stall c).
Definition set_peer_closed v c := mkForwardConn (f_out c) (read_closed c) v (fin_sent c) (dead c) (flush_stall c).
Definition set_fin_sent v c := mkForwardConn (f_out c) (read_closed c) (peer_closed c) v (dead c) (flush_stall c).
Definition set_dead v c := mkForwardConn (f_out c) (read_closed c) (peer_closed c) (fin_sent c) v (flush_stall c).
Definition set_flush_stall v c := mkForwardConn (f_out c) (read_closed c) (peer_closed c) (fin_sent c) (dead c) v.

(** @ src/forward.rs:64-74 ForwardConn::from_stream *)
Definition from_stream : ForwardConn := mkForwardConn [] false false false false 0.

(** The loop of the reads: what is got, and how it ends.
    @ src/forward.rs:84-98 ForwardConn::read_tcp *)
Fixpoint read_loop (ans : list ReadAns) (got : list Z) (c : ForwardConn) :
    list Z * ForwardConn * list ReadAns :=
  match ans with
  | [] => (got, c, [])
  | RBytes [] :: ans => (got, set_read_closed true c, ans)
  | RBytes bs :: ans => read_loop ans (got ++ bs) c
  | RWouldBlock :: ans => (got, c, ans)
  | RInterrupted :: ans => read_loop ans got c
  | RError :: ans => (got, set_dead true c, ans)
  end.

(** @ src/forward.rs:78-100 ForwardConn::read_tcp *)
Definition read_tcp (ans : list ReadAns) (c : ForwardConn) : list Z * ForwardConn * list ReadAns :=
  if read_closed c || dead c then ([], c, ans) else read_loop ans [] c.

(** A write that would block counts as a stall, and too many of them kill.
    @ src/forward.rs:117-127 ForwardConn::flush *)
Definition flush_blocked (c : ForwardConn) : ForwardConn :=
  let c := set_flush_stall (saturating_add_u32 (flush_stall c) 1) c in
  if FLUSH_STALL_LIMIT <=? flush_stall c then set_f_out [] (set_dead true c) else c.

(** The bytes that reach the socket, and the rest.
    @ src/forward.rs:109-136 ForwardConn::flush *)
Fixpoint flush (ans : list WriteAns) (c : ForwardConn) : list Z * ForwardConn * list WriteAns :=
  if bool_decide (f_out c = []) || dead c then ([], c, ans)
  else
    match ans with
    | [] => ([], flush_blocked c, [])
    | WBytes O :: ans => ([], c, ans)
    | WBytes n :: ans =>
      let '(w, c', ans) := flush ans (set_flush_stall 0 (set_f_out (drop n (f_out c)) c)) in
      (take n (f_out c) ++ w, c', ans)
    | WWouldBlock :: ans => ([], flush_blocked c, ans)
    | WInterrupted :: ans => flush ans c
    | WError :: ans => ([], set_f_out [] (set_dead true c), ans)
    end.

(** @ src/forward.rs:103-106 ForwardConn::queue_to_tcp *)
Definition queue_to_tcp (ans : list WriteAns) (data : list Z) (c : ForwardConn) :
    list Z * ForwardConn * list WriteAns :=
  flush ans (set_f_out (f_out c ++ data) c).

(** @ src/forward.rs:139-141 ForwardConn::mark_peer_closed *)
Definition mark_peer_closed (c : ForwardConn) : ForwardConn := set_peer_closed true c.

(** @ src/forward.rs:144-151 ForwardConn::needs_fin *)
Definition needs_fin (c : ForwardConn) : bool * ForwardConn :=
  if read_closed c && negb (fin_sent c) then (true, set_fin_sent true c) else (false, c).

(** @ src/forward.rs:156-158 ForwardConn::is_finished *)
Definition conn_finished (c : ForwardConn) : bool :=
  dead c || (read_closed c && peer_closed c && bool_decide (f_out c = [])).

(** @ src/forward.rs:161-163 ForwardConn::wants_write *)
Definition wants_write (c : ForwardConn) : bool := negb (bool_decide (f_out c = [])).

(** @ src/forward.rs:167-169 ForwardConn::out_len *)
Definition out_len (c : ForwardConn) : nat := length (f_out c).

(** ** The pump *)

(** @ src/client.rs:1071-1071 FORWARD_SEND_CAP *)
Definition FORWARD_SEND_CAP : Z := 524288.

(** What a pump uses of the core that owns the streams: the operations on one
    stream, which [K] names. A read takes everything there is. *)
Class StreamPort (K M : Type) := {
  port_read : M → K → list Z * M;
  port_write : M → K → list Z → M;
  port_close : M → K → M;
  port_in_flight : M → K → Z;
}.

Class StreamPortLaws (K M : Type) `{StreamPort K M} := {
  port_wf : M → Prop;
  port_read_wf m id : port_wf m → port_wf (port_read m id).2;
  port_read_all m id : port_wf m → (port_read (port_read m id).2 id).1 = [];
}.

Section pump.
Context {K M : Type} `{StreamPort K M}.

(** Session to socket, while the buffer is below the cap. A second read finds
    nothing ([port_read_all]), so the second round ends the loop
    ([drain_stream_rounds]).
    @ src/client.rs:1246-1252 Forwarder::pump *)
Fixpoint drain_stream (fuel : nat) (ans : list WriteAns) (id : K) (c : ForwardConn) (m : M) :
    list Z * ForwardConn * list WriteAns * M :=
  match fuel with
  | O => ([], c, ans, m)
  | S fuel =>
    if Z.of_nat (out_len c) <? FORWARD_SEND_CAP then
      let '(d, m) := port_read m id in
      match d with
      | [] => ([], c, ans, m)
      | _ =>
        let '(w1, c, ans) := queue_to_tcp ans d c in
        let '(w2, c, ans, m) := drain_stream fuel ans id c m in
        (w1 ++ w2, c, ans, m)
      end
    else ([], c, ans, m)
  end.

Definition DRAIN_ROUNDS : nat := 2.

(** One connection: the bytes written to the socket, the bytes read from it, the
    connection and the core afterwards.
    @ src/client.rs:1245-1262 Forwarder::pump *)
Definition pump_conn (wans : list WriteAns) (rans : list ReadAns) (id : K) (c : ForwardConn) (m : M) :
    list Z * list Z * ForwardConn * M :=
  let '(w0, c, wans) := flush wans c in
  let '(w1, c, wans, m) := drain_stream DRAIN_ROUNDS wans id c m in
  let '(data, c, m) :=
    if port_in_flight m id <? FORWARD_SEND_CAP then
      let '(data, c, _) := read_tcp rans c in
      (data, c, match data with [] => m | _ => port_write m id data end)
    else ([], c, m) in
  let '(fin, c) := needs_fin c in
  let m := if fin then port_close m id else m in
  (w0 ++ w1, data, c, m).
End pump.

#[export] Instance mux_port : StreamPort Z StreamMux := {
  port_read := mux_read;
  port_write := mux_write;
  port_close := λ m id, mux_close m id 0;
  port_in_flight := in_flight;
}.

(** ** One read takes everything *)

Lemma read_twice r : reassembler_wf r → (read (read r).2).1 = [].
Proof.
  intros [Hd Hseg Hapart]. unfold read. destruct (segs r !! r_delivered r) as [v|] eqn:Hv;
    [|cbn; by rewrite Hv].
  destruct (Hseg _ _ Hv) as (_ & Hne & Hend). cbn. rewrite as_u64_id by (unfold is_u64 in *; lia).
  assert (0 < zlen v) by (destruct v; [done|cbn [length]; lia]).
  rewrite lookup_delete_ne by lia.
  destruct (segs r !! (r_delivered r + zlen v)) as [v2|] eqn:Hv2; [|done].
  pose proof (Hapart _ _ _ _ Hv Hv2). lia.
Qed.

#[export] Instance mux_port_laws : StreamPortLaws Z StreamMux.
Proof.
  refine {| port_wf := λ m, ∀ id s, streams m !! id = Some s → reassembler_wf (s_recv s) |}; cbn;
    unfold mux_read; intros m id Hwf; destruct (streams m !! id) as [s|] eqn:Hs.
  - pose proof (read_spec (s_recv s) (Hwf _ _ Hs)) as Hr. destruct (read (s_recv s)) as [d r]. cbn.
    intros k s'. destruct (decide (k = id)) as [->|]; [|rewrite lookup_insert_ne by done; apply Hwf].
    rewrite lookup_insert_eq. intros [= <-]. cbn. apply Hr.
  - done.
  - pose proof (read_twice (s_recv s) (Hwf _ _ Hs)) as Hr. destruct (read (s_recv s)) as [d r]. cbn in *.
    rewrite lookup_insert_eq. cbn. by destruct (read r).
  - cbn. by rewrite Hs.
Defined.

Lemma drain_stream_rounds `{StreamPortLaws K M} fuel ans id c m :
  port_wf m → (DRAIN_ROUNDS ≤ fuel)%nat →
  drain_stream fuel ans id c m = drain_stream DRAIN_ROUNDS ans id c m.
Proof.
  intros Hwf Hf. destruct fuel as [|[|fuel]]; [cbv in Hf; lia..|]. unfold DRAIN_ROUNDS.
  pose proof (port_read_all m id Hwf) as Hall. cbn [drain_stream].
  destruct (Z.of_nat (out_len c) <? FORWARD_SEND_CAP); [|done].
  destruct (port_read m id) as [[|b d] m1]; [done|]. cbn [fst snd] in Hall.
  destruct (queue_to_tcp ans (b :: d) c) as [[w c1] ans1].
  destruct (Z.of_nat (out_len c1) <? FORWARD_SEND_CAP); [|done].
  destruct (port_read m1 id) as [d2 m2]. cbn [fst] in Hall. by subst d2.
Qed.

(** ** What one call moves *)

(** [d] came from the stream and [w] reached the socket: in order, and all that
    is missing is still in the buffer, unless the socket died. *)
Record moved (c : ForwardConn) (d w : list Z) (c' : ForwardConn) : Prop := {
  mv_read : read_closed c' = read_closed c;
  mv_peer : peer_closed c' = peer_closed c;
  mv_fin : fin_sent c' = fin_sent c;
  mv_prefix : w `prefix_of` f_out c ++ d;
  mv_alive : dead c' = false → dead c = false ∧ w ++ f_out c' = f_out c ++ d;
  mv_dead : dead c = true → w = [] ∧ dead c' = true;
}.

Lemma moved_refl c : moved c [] [] c.
Proof. split; try done; [apply prefix_nil|]. by rewrite app_nil_r. Qed.

Lemma moved_trans c d1 w1 c1 d2 w2 c2 :
  moved c d1 w1 c1 → moved c1 d2 w2 c2 → moved c (d1 ++ d2) (w1 ++ w2) c2.
Proof.
  intros [R1 P1 F1 X1 A1 D1] [R2 P2 F2 X2 A2 D2]. split; try congruence.
  - destruct (dead c1) eqn:Hd.
    + destruct (D2 eq_refl) as [-> _]. rewrite app_nil_r, (assoc_L (++)). by apply prefix_app_r.
    + destruct (A1 eq_refl) as [_ He]. rewrite (assoc_L (++)), <- He, <- (assoc_L (++)).
      by apply prefix_app.
  - intros Hd. destruct (A2 Hd) as [Hd1 He2]. destruct (A1 Hd1) as [Hd0 He1]. split; [done|].
    by rewrite <- (assoc_L (++)), He2, (assoc_L (++)), He1, <- (assoc_L (++)).
  - intros Hd. destruct (D1 Hd) as [-> Hd1]. by destruct (D2 Hd1) as [-> ->].
Qed.

(** A socket that dies has its buffer discarded. *)
Lemma moved_killed c c' d :
  dead c = false → dead c' = true → read_closed c' = read_closed c →
  peer_closed c' = peer_closed c → fin_sent c' = fin_sent c → moved c d [] c'.
Proof. intros. split; try congruence. apply prefix_nil. Qed.

Lemma flush_blocked_moved c : dead c = false → moved c [] [] (flush_blocked c).
Proof.
  intros Hd. unfold flush_blocked. destruct (_ <=? _); [by apply moved_killed|].
  split; try done; [apply prefix_nil|]. by rewrite app_nil_r.
Qed.

Lemma flush_moved ans : ∀ c w c' ans', flush ans c = (w, c', ans') → moved c [] w c'.
Proof.
  induction ans as [|a ans IH]; intros c w c' ans'; cbn [flush].
  - case_bool_decide as Ho; [intros [= <- <- _]; apply moved_refl|].
    destruct (dead c) eqn:Hd; intros [= <- <- _]; [apply moved_refl|by apply flush_blocked_moved].
  - case_bool_decide as Ho; [intros [= <- <- _]; apply moved_refl|].
    destruct (dead c) eqn:Hd; [intros [= <- <- _]; apply moved_refl|]. cbn [orb].
    destruct a as [[|n]| | |].
    + intros [= <- <- _]. apply moved_refl.
    + set (c1 := set_flush_stall 0 (set_f_out (drop (S n) (f_out c)) c)).
      destruct (flush ans c1) as [[w1 c2] ans2] eqn:Hf. intros [= <- <- _].
      apply (moved_trans c [] (take (S n) (f_out c)) c1 [] w1 c2); [|by eapply IH].
      split; try done.
      * rewrite app_nil_r. apply prefix_take.
      * intros _. split; [done|]. rewrite app_nil_r. apply take_drop.
      * congruence.
    + intros [= <- <- _]. by apply flush_blocked_moved.
    + apply IH.
    + intros [= <- <- _]. by apply moved_killed.
Qed.

Lemma queue_moved ans d c w c' ans' : queue_to_tcp ans d c = (w, c', ans') → moved c d w c'.
Proof.
  intros [R P F X A D]%flush_moved. rewrite app_nil_r in *. by split.
Qed.

Lemma read_loop_spec ans : ∀ got c data c' ans', read_loop ans got c = (data, c', ans') →
  f_out c' = f_out c ∧ peer_closed c' = peer_closed c ∧ fin_sent c' = fin_sent c ∧
  (dead c = true → dead c' = true) ∧ (read_closed c = true → read_closed c' = true).
Proof.
  induction ans as [|a ans IH]; intros got c data c' ans'; cbn [read_loop]; [by intros [= _ <- _]|].
  destruct a as [[|b bs]| | |]; try (intros [= _ <- _]; done); by intros ?%IH.
Qed.

Section pump_spec.
Context {K M : Type} `{StreamPort K M}.

Inductive reads (id : K) : M → list Z → M → Prop :=
| reads_nil m : reads id m [] m
| reads_more m d m1 ds m2 : port_read m id = (d, m1) → reads id m1 ds m2 → reads id m (d ++ ds) m2.

Lemma drain_stream_moved fuel : ∀ ans id c m w c' ans' m',
  drain_stream fuel ans id c m = (w, c', ans', m') → ∃ d, reads id m d m' ∧ moved c d w c'.
Proof.
  assert (∀ id m d m1, port_read m id = (d, m1) → reads id m d m1) as H1.
  { intros id m d m1 Hr. rewrite <- (app_nil_r d). econstructor; [done|constructor]. }
  induction fuel as [|fuel IH]; intros ans id c m w c' ans' m'; cbn [drain_stream].
  { intros [= <- <- _ <-]. exists []. split; [constructor|apply moved_refl]. }
  destruct (_ <? _); [|intros [= <- <- _ <-]; exists []; split; [constructor|apply moved_refl]].
  destruct (port_read m id) as [d m1] eqn:Hr. destruct d as [|b d].
  { intros [= <- <- _ <-]. exists []. split; [by apply H1|apply moved_refl]. }
  destruct (queue_to_tcp ans (b :: d) c) as [[w1 c1] ans1] eqn:Hq.
  destruct (drain_stream fuel ans1 id c1 m1) as [[[w2 c2] ans2] m2] eqn:Hd. intros [= <- <- _ <-].
  apply queue_moved in Hq. destruct (IH _ _ _ _ _ _ _ _ Hd) as (d2 & Hr2 & Hm2).
  exists ((b :: d) ++ d2). split; [by econstructor|by eapply moved_trans].
Qed.

(** One pump in parts: reads of the stream, then one write of what the socket
    gave, then the close once the socket has ended. *)
Lemma pump_conn_parts wans rans id c m w data c' m' :
  pump_conn wans rans id c m = (w, data, c', m') →
  ∃ d m1 m2, reads id m d m1 ∧
    m2 = match data with [] => m1 | _ => port_write m1 id data end ∧
    (data ≠ [] → read_closed c = false) ∧
    (m' = m2 ∨ m' = port_close m2 id ∧ read_closed c' = true) ∧
    (read_closed c = true → read_closed c' = true) ∧
    peer_closed c' = peer_closed c ∧
    w `prefix_of` f_out c ++ d ∧
    (dead c' = false → dead c = false ∧ w ++ f_out c' = f_out c ++ d) ∧
    (dead c = true → w = [] ∧ data = [] ∧ dead c' = true).
Proof.
  unfold pump_conn. destruct (flush wans c) as [[w0 c1] wans1] eqn:Hf.
  destruct (drain_stream _ wans1 id c1 m) as [[[w1 c2] wans2] m1] eqn:Hd.
  apply flush_moved in Hf. destruct (drain_stream_moved _ _ _ _ _ _ _ _ _ Hd) as (d & Hr & Hm).
  destruct (moved_trans _ _ _ _ _ _ _ Hf Hm) as [R P F X A D]. cbn [app] in *. clear Hf Hm Hd.
  set (br := if port_in_flight m1 id <? FORWARD_SEND_CAP then
      let '(data, c, _) := read_tcp rans c2 in
      (data, c, match data with [] => m1 | _ => port_write m1 id data end)
    else ([], c2, m1)).
  assert (∃ data c3 m2, br = (data, c3, m2) ∧
    m2 = match data with [] => m1 | _ => port_write m1 id data end ∧
    (data ≠ [] → read_closed c2 = false ∧ dead c2 = false) ∧ f_out c3 = f_out c2 ∧
    peer_closed c3 = peer_closed c2 ∧ (dead c2 = true → dead c3 = true) ∧
    (read_closed c2 = true → read_closed c3 = true)) as
    (data0 & c3 & m2 & -> & Hm2 & Hdata & Ho & Hp & Hde & Hrc).
  { unfold br, read_tcp. destruct (_ <? _); [|by exists [], c2, m1].
    destruct (read_closed c2 || dead c2) eqn:Hor; [by exists [], c2, m1|].
    apply orb_false_iff in Hor as [? ?].
    destruct (read_loop rans [] c2) as [[data0 c3] r] eqn:Hl.
    apply read_loop_spec in Hl as (? & ? & _ & ? & ?). eexists data0, c3, _. by split_and!. }
  unfold needs_fin. intros Heq. exists d, m1, m2. rewrite R in *.
  assert (f_out c' = f_out c3 ∧ read_closed c' = read_closed c3 ∧ dead c' = dead c3 ∧
    peer_closed c' = peer_closed c3 ∧ data = data0 ∧ w = w0 ++ w1 ∧
    (m' = m2 ∨ m' = port_close m2 id ∧ read_closed c' = true)) as (Ho' & Hr' & Hd' & Hp' & -> & -> & Hm').
  { destruct (read_closed c3) eqn:Hrc3; cbn [andb] in Heq;
      [destruct (negb (fin_sent c3))|]; injection Heq as <- <- <- <-; split_and!; auto. }
  rewrite Ho', Hr', Hd', Hp', Ho, Hp, P. split_and!; try done.
  - intros Hne. by apply Hdata.
  - by rewrite Hr' in Hm'.
  - intros Hd. apply A. destruct (dead c2); [by rewrite Hde in Hd|done].
  - intros Hd. destruct (D Hd) as [-> Hd2]. split_and!; [done| |by apply Hde].
    destruct data0; [done|]. destruct Hdata; congruence.
Qed.
End pump_spec.

(** ** Pumps over different cores

    A pump over one core is the pump over any core it maps to. *)
Section hom.
Context {K M1 M2 : Type} (P1 : StreamPort K M1) (P2 : StreamPort K M2) (f : M1 → M2) (id : K).
Hypothesis f_read : ∀ m, port_read (f m) id = ((port_read m id).1, f (port_read m id).2).
Hypothesis f_write : ∀ m data, port_write (f m) id data = f (port_write m id data).
Hypothesis f_close : ∀ m, port_close (f m) id = f (port_close m id).
Hypothesis f_in_flight : ∀ m, port_in_flight (f m) id = port_in_flight m id.

Lemma drain_stream_hom fuel : ∀ ans c m,
  drain_stream fuel ans id c (f m) =
    let '(w, c, ans, m) := drain_stream fuel ans id c m in (w, c, ans, f m).
Proof.
  induction fuel as [|fuel IH]; intros ans c m; cbn [drain_stream]; [done|].
  destruct (_ <? _); [|done]. rewrite f_read. destruct (port_read m id) as [[|b d] m1]; [done|].
  cbn [fst snd]. destruct (queue_to_tcp _ _ _) as [[w1 c1] ans1]. rewrite IH.
  by destruct (drain_stream fuel ans1 id c1 m1) as [[[w2 c2] ans2] m2].
Qed.

Lemma pump_conn_hom wans rans c m :
  pump_conn wans rans id c (f m) =
    let '(w, data, c, m) := pump_conn wans rans id c m in (w, data, c, f m).
Proof.
  unfold pump_conn. destruct (flush wans c) as [[w0 c0] wans0]. rewrite drain_stream_hom.
  destruct (drain_stream _ wans0 id c0 m) as [[[w1 c1] wans1] m1]. rewrite f_in_flight.
  destruct (_ <? _).
  - destruct (read_tcp rans c1) as [[data c2] r]. destruct (needs_fin c2) as [[] c3]; destruct data;
      by rewrite ?f_write, ?f_close.
  - destruct (needs_fin c1) as [[] c3]; by rewrite ?f_close.
Qed.
End hom.

(** A core that keeps each stream in a cell of its own, and whose operations on a
    stream work on that cell. *)
Class StreamCells (K M : Type) `{StreamPort K M} := {
  cell : M → K → option StreamState;
  put_cell : K → option StreamState → M → M;
  cell_put m id so : cell (put_cell id so m) id = so;
  cell_put_ne m i j so : i ≠ j → cell (put_cell i so m) j = cell m j;
  put_cell_id m id : put_cell id (cell m id) m = m;
  put_put m id s1 s2 : put_cell id s2 (put_cell id s1 m) = put_cell id s2 m;
  put_comm m i j si sj : i ≠ j → put_cell i si (put_cell j sj m) = put_cell j sj (put_cell i si m);
  port_read_cell m id :
    port_read m id =
      match cell m id with
      | Some s => ((read (s_recv s)).1, put_cell id (Some (set_recv (read (s_recv s)).2 s)) m)
      | None => ([], m)
      end;
  port_write_cell m id data :
    port_write m id data = put_cell id ((λ s, stream_write s data) <$> cell m id) m;
  port_close_cell m id :
    port_close m id =
      put_cell id ((λ s, set_close_status (Some 0) (set_send_fin true s)) <$> cell m id) m;
  port_in_flight_cell m id :
    port_in_flight m id = match cell m id with Some s => zlen (s_send_buf s) | None => 0 end;
}.

#[export] Program Instance mux_cells : StreamCells Z StreamMux := {|
  cell m id := streams m !! id;
  put_cell id so m := set_streams (partial_alter (λ _, so) id (streams m)) m;
|}.
Next Obligation. intros. apply lookup_partial_alter_eq. Qed.
Next Obligation. intros. by apply lookup_partial_alter_ne. Qed.
Next Obligation. intros [] id. cbn. unfold set_streams. cbn. by rewrite partial_alter_self. Qed.
Next Obligation.
  intros [] id s1 s2. unfold set_streams. cbn. by rewrite partial_alter_partial_alter_eq.
Qed.
Next Obligation.
  intros [] i j si sj Hij. unfold set_streams. cbn. by rewrite partial_alter_partial_alter_ne.
Qed.
Next Obligation.
  intros m id. cbn. unfold mux_read. destruct (streams m !! id) as [s|] eqn:Hs; [|done].
  by destruct (read (s_recv s)).
Qed.
Next Obligation.
  intros [] id data. unfold port_write, mux_port, mux_write, with_stream, set_streams. cbn.
  destruct (streams !! id) as [s|] eqn:Hs; [done|]. cbn. by rewrite <- Hs, partial_alter_self.
Qed.
Next Obligation.
  intros [] id. unfold port_close, mux_port, mux_close, with_stream, set_streams. cbn.
  destruct (streams !! id) as [s|] eqn:Hs; [done|]. cbn. by rewrite <- Hs, partial_alter_self.
Qed.
Next Obligation. done. Qed.

(** The operations on one cell alone. *)
Definition cell_port {K} : StreamPort K (option StreamState) := {|
  port_read so _ :=
    match so with
    | Some s => ((read (s_recv s)).1, Some (set_recv (read (s_recv s)).2 s))
    | None => ([], None)
    end;
  port_write so _ data := (λ s, stream_write s data) <$> so;
  port_close so _ := (λ s, set_close_status (Some 0) (set_send_fin true s)) <$> so;
  port_in_flight so _ := match so with Some s => zlen (s_send_buf s) | None => 0 end;
|}.

(** A pump depends on the cell of its stream and changes nothing else. *)
Lemma pump_conn_cell `{StreamCells K M} wans rans id c m :
  pump_conn wans rans id c m =
    let '(w, data, c, so) := @pump_conn _ _ cell_port wans rans id c (cell m id) in
    (w, data, c, put_cell id so m).
Proof.
  rewrite <- (put_cell_id m id) at 1.
  rewrite (pump_conn_hom cell_port _ (λ so, put_cell id so m) id); [done|..].
  - intros so. cbn. rewrite port_read_cell, cell_put. destruct so; [|done]. cbn. by rewrite put_put.
  - intros so data. cbn. by rewrite port_write_cell, cell_put, put_put.
  - intros so. cbn. by rewrite port_close_cell, cell_put, put_put.
  - intros so. cbn. by rewrite port_in_flight_cell, cell_put.
Qed.
