(* ===== verification/Tunnel.v ===== *)
(** * A forwarded connection, end to end

    Two bridges over one stream of two multiplexers over a network: the bytes that
    one socket gives reach the other in order, without loss, insertion or
    duplication, whatever the network and the operating system do.  And how the
    end of the connection can be lost. *)

From stdpp Require Import gmap relations.
From S2P Require Import Prelude Wire Reassembler Stream Mux StreamNet Forward.

(** ** The two ends of a network as cores *)

Definition set_n_a m w (n : net) : net := mkNet m (n_b n) w (wrote_b n) (got n) (wire_ab n).
Definition set_n_b m w g (n : net) : net := mkNet (n_a n) m (wrote n) w g (wire_ab n).

Definition end_a : StreamPort Z net := {|
  port_read n id := ((mux_read (n_a n) id).1, set_n_a (mux_read (n_a n) id).2 (wrote n) n);
  port_write n id data :=
    match streams (n_a n) !! id with
    | Some _ => set_n_a (mux_write (n_a n) id data) (<[id := wrote n !!! id ++ data]> (wrote n)) n
    | None => n
    end;
  port_close n id := set_n_a (mux_close (n_a n) id 0) (wrote n) n;
  port_in_flight n id := in_flight (n_a n) id;
|}.

Definition end_b : StreamPort Z net := {|
  port_read n id := ((mux_read (n_b n) id).1,
    set_n_b (mux_read (n_b n) id).2 (wrote_b n)
      (<[id := got n !!! id ++ (mux_read (n_b n) id).1]> (got n)) n);
  port_write n id data :=
    match streams (n_b n) !! id with
    | Some _ => set_n_b (mux_write (n_b n) id data) (<[id := wrote_b n !!! id ++ data]> (wrote_b n)) (got n) n
    | None => n
    end;
  port_close n id := set_n_b (mux_close (n_b n) id 0) (wrote_b n) (got n) n;
  port_in_flight n id := in_flight (n_b n) id;
|}.

Lemma mux_write_none m id data : streams m !! id = None → mux_write m id data = m.
Proof. intros Hs. unfold mux_write, with_stream. by rewrite Hs. Qed.

Lemma pump_end_a wans rans id c n :
  pump_conn wans rans id c (n_a n) =
    let '(w, data, c, n) := @pump_conn Z net end_a wans rans id c n in (w, data, c, n_a n).
Proof.
  apply (pump_conn_hom end_a mux_port n_a id); try done.
  - intros m. cbn. by destruct (mux_read (n_a m) id).
  - intros m data. cbn. destruct (streams (n_a m) !! id) eqn:Hs; [done|]. by apply mux_write_none.
Qed.

Lemma pump_end_b wans rans id c n :
  pump_conn wans rans id c (n_b n) =
    let '(w, data, c, n) := @pump_conn Z net end_b wans rans id c n in (w, data, c, n_b n).
Proof.
  apply (pump_conn_hom end_b mux_port n_b id); try done.
  - intros m. cbn. by destruct (mux_read (n_b m) id).
  - intros m data. cbn. destruct (streams (n_b m) !! id) eqn:Hs; [done|]. by apply mux_write_none.
Qed.

(** ** The tunnel *)

(** The network, the two connections of one stream where there are any, the bytes
    that the first socket has given, and those the second has taken. *)
Record tunnel := mkTunnel {
  t_net : net;
  t_a : option ForwardConn;
  t_b : option ForwardConn;
  t_in : list Z;
  t_sent : list Z;
}.

Section tunnel.
Context (id : Z).

(** Whether our half of the stream is closed, where there is a stream. *)
Definition fin_of (m : StreamMux) : option bool := s_send_fin <$> streams m !! id.

(** Any step of the network in which only the bridges use the stream: nobody else
    writes on it, reads it at the far end or closes it; the far end dials when the
    stream is opened there; a close is noted; a connection is dropped; a bridge is
    pumped, with any answers of its socket. *)
Inductive tunnel_step (t : tunnel) : tunnel → Prop :=
| tun_net n :
  net_step (t_net t) n → wrote n !!! id = wrote (t_net t) !!! id →
  got n !!! id = got (t_net t) !!! id →
  (fin_of (n_a n) = Some true → fin_of (n_a (t_net t)) = Some true) →
  (fin_of (n_b n) = Some true → fin_of (n_b (t_net t)) = Some true) →
  tunnel_step t (mkTunnel n (t_a t) (t_b t) (t_in t) (t_sent t))
| tun_open f :
  f ∈ wire_ab (t_net t) → opens (n_b (t_net t)) f id = true →
  tunnel_step t (mkTunnel (mkNet (n_a (t_net t)) (on_frame (n_b (t_net t)) f) (wrote (t_net t))
      (on_open (n_b (t_net t)) f (wrote_b (t_net t))) (on_open (n_b (t_net t)) f (got (t_net t)))
      (wire_ab (t_net t)))
    (t_a t) (Some from_stream) (t_in t) [])
| tun_closed_a : tunnel_step t (mkTunnel (t_net t) (mark_peer_closed <$> t_a t) (t_b t) (t_in t) (t_sent t))
| tun_closed_b : tunnel_step t (mkTunnel (t_net t) (t_a t) (mark_peer_closed <$> t_b t) (t_in t) (t_sent t))
| tun_drop_a : tunnel_step t (mkTunnel (t_net t) None (t_b t) (t_in t) (t_sent t))
| tun_drop_b : tunnel_step t (mkTunnel (t_net t) (t_a t) None (t_in t) (t_sent t))
| tun_pump_a wans rans c w data c' n :
  t_a t = Some c → @pump_conn Z net end_a wans rans id c (t_net t) = (w, data, c', n) →
  zlen (t_in t ++ data) < 2 ^ 63 →
  tunnel_step t (mkTunnel n (Some c') (t_b t) (t_in t ++ data) (t_sent t))
| tun_pump_b wans rans c w data c' n :
  t_b t = Some c → @pump_conn Z net end_b wans rans id c (t_net t) = (w, data, c', n) →
  zlen (wrote_b (t_net t) !!! id ++ data) < 2 ^ 63 →
  tunnel_step t (mkTunnel n (t_a t) (Some c') (t_in t) (t_sent t ++ w)).

(** A stream that the first end has just opened for a connection. *)
Record tunnel_start (b : bool) (t : tunnel) : Prop := {
  st_net : net_reachable b (t_net t);
  st_id : id mod 2 = local_parity (n_a (t_net t));
  st_used : id < next_local_id (n_a (t_net t));
  st_open : fin_of (n_a (t_net t)) ≠ Some true;
  st_wrote : wrote (t_net t) !!! id = [];
  st_a : t_a t = Some from_stream;
  st_b : t_b t = None;
  st_in : t_in t = [];
  st_sent : t_sent t = [];
}.

Record tunnel_inv (t : tunnel) : Prop := {
  ti_net : net_inv (t_net t);
  ti_id : id mod 2 = local_parity (n_a (t_net t));
  ti_used : id < next_local_id (n_a (t_net t));
  ti_in : wrote (t_net t) !!! id `prefix_of` t_in t;
  ti_open : is_Some (fin_of (n_a (t_net t))) → wrote (t_net t) !!! id = t_in t;
  ti_a c : t_a t = Some c → fin_of (n_a (t_net t)) = Some true → read_closed c = true;
  ti_b c : t_b t = Some c → fin_of (n_b (t_net t)) = Some true → read_closed c = true;
  ti_sent : t_sent t `prefix_of` got (t_net t) !!! id;
  ti_out c : t_b t = Some c → dead c = false → t_sent t ++ f_out c = got (t_net t) !!! id;
}.

(** ** Steps of the network *)

(** A stream of the first end is there only if it was. *)
Lemma net_step_fin n n' :
  net_inv n → net_step n n' → id mod 2 = local_parity (n_a n) → id < next_local_id (n_a n) →
  (is_Some (fin_of (n_a n')) → is_Some (fin_of (n_a n))) ∧
  local_parity (n_a n') = local_parity (n_a n) ∧ next_local_id (n_a n) ≤ next_local_id (n_a n').
Proof.
  intros Hn Hstep Hid Hused. unfold fin_of.
  destruct Hstep as [w m out Hl|k|f Hf|w m out Hl|k|f Hf]; cbn [n_a]; try (split_and!; [done..|lia]).
  - destruct (local_step_spec _ _ _ _ _ (ni_a _ Hn) Hl) as
      (_ & Hp & [[Hnext Hk]|(kind & meta & Hnext & ->)]).
    + split_and!; [|done|lia]. intros [s' Hs']%fmap_is_Some.
      destruct (Hk _ _ Hs') as (s & -> & _). by eexists.
    + pose proof (mw_next _ _ (ni_a _ Hn)) as Hu.
      pose proof (mw_step _ _ (ni_a _ Hn)) as Hst. cbn. rewrite Hst.
      rewrite as_u64_id by (unfold is_u64 in *; lia).
      rewrite lookup_insert_ne by lia. split_and!; [done..|lia].
  - unfold mux_read. destruct (streams (n_a n) !! k) as [s|] eqn:Hs; [|cbn [snd]; split_and!; [done..|lia]].
    destruct (read (s_recv s)) as [d r]. cbn. split_and!; [|done|lia].
    destruct (decide (k = id)) as [->|]; [by rewrite lookup_insert_eq, Hs|by rewrite lookup_insert_ne].
  - destruct (on_frame_parity (n_a n) f) as [-> ->]. split_and!; [|done|lia].
    intros [s' Hs']%fmap_is_Some.
    destruct (on_frame_effect _ _ _ _ Hs') as [(s & -> & _)|[(Ho & _)|(s & o & d & fi & r & _ & -> & _)]];
      [by eexists| |by eexists].
    by destruct (opens_spec _ _ _ Ho) as (_ & Hne & _).
Qed.
(** ** Pumps as steps of the network *)

(** What a pump's operations on one end preserve. *)
Lemma fin_of_read m k : fin_of (mux_read m k).2 = fin_of m.
Proof.
  unfold fin_of, mux_read. destruct (streams m !! k) as [s|] eqn:Hs; [|done].
  destruct (read (s_recv s)) as [d r]. cbn.
  destruct (decide (k = id)) as [->|]; [by rewrite lookup_insert_eq, Hs|by rewrite lookup_insert_ne].
Qed.

Lemma fin_of_write m data : fin_of (mux_write m id data) = fin_of m.
Proof.
  unfold fin_of, mux_write. rewrite with_stream_lookup, bool_decide_eq_true_2 by done.
  by destruct (streams m !! id).
Qed.

Lemma fin_of_close m status : fin_of (mux_close m id status) = (λ _, true) <$> fin_of m.
Proof.
  unfold fin_of, mux_close. rewrite with_stream_lookup, bool_decide_eq_true_2 by done.
  by destruct (streams m !! id).
Qed.

Lemma reads_a n d n1 :
  @reads Z net end_a id n d n1 →
  rtc net_step n n1 ∧ wrote n1 = wrote n ∧ got n1 = got n ∧ n_b n1 = n_b n ∧
  fin_of (n_a n1) = fin_of (n_a n) ∧ local_parity (n_a n1) = local_parity (n_a n) ∧
  next_local_id (n_a n1) = next_local_id (n_a n).
Proof.
  induction 1 as [n|n d n1 ds n2 Hr _ (Hs & Hw & Hg & Hb & Hf & Hp & Hn)]; [by split_and!|].
  injection Hr as _ <-. destruct (mux_read_same (n_a n) id) as [Hn1 Hp1].
  cbn in Hw, Hg, Hb, Hf, Hp, Hn. rewrite fin_of_read in Hf.
  split_and!; try congruence. eapply rtc_l; [apply (net_a_read n id)|exact Hs].
Qed.

Lemma reads_b n d n1 :
  @reads Z net end_b id n d n1 →
  rtc net_step n n1 ∧ wrote n1 = wrote n ∧ wrote_b n1 = wrote_b n ∧ n_a n1 = n_a n ∧
  got n1 !!! id = got n !!! id ++ d ∧ fin_of (n_b n1) = fin_of (n_b n).
Proof.
  induction 1 as [n|n d n1 ds n2 Hr _ (Hs & Hw & Hwb & Ha & Hg & Hf)];
    [by rewrite app_nil_r; split_and!|].
  injection Hr as <- <-. cbn in Hw, Hwb, Ha, Hg, Hf.
  rewrite lookup_total_insert_eq in Hg. rewrite fin_of_read in Hf.
  split_and!; try congruence; [|by rewrite Hg, (assoc_L (++))].
  eapply rtc_l; [apply (net_b_read n id)|exact Hs].
Qed.

(** The two ends' own steps that emit nothing. *)
Lemma quiet_a n w m : local_step (wrote n) (n_a n) w m [] → net_step n (set_n_a m w n).
Proof. intros H. unfold set_n_a. rewrite <- (app_nil_r (wire_ab n)). by apply net_a. Qed.

Lemma quiet_b n w m : local_step (wrote_b n) (n_b n) w m [] → net_step n (set_n_b m w (got n) n).
Proof. apply net_b. Qed.

Lemma write_a n data :
  fin_of (n_a n) ≠ Some true → zlen (wrote n !!! id ++ data) < 2 ^ 63 →
  rtc net_step n (@port_write Z net end_a n id data).
Proof.
  intros Hfin Hlen. cbn. destruct (streams (n_a n) !! id) as [s|] eqn:Hs; [|apply rtc_refl].
  apply rtc_once, quiet_a. unfold fin_of in Hfin. rewrite Hs in Hfin. cbn in Hfin.
  apply (ls_write _ _ id s data); [done| |done]. by destruct (s_send_fin s).
Qed.
Lemma write_b n data :
  fin_of (n_b n) ≠ Some true → zlen (wrote_b n !!! id ++ data) < 2 ^ 63 →
  rtc net_step n (@port_write Z net end_b n id data).
Proof.
  intros Hfin Hlen. cbn. destruct (streams (n_b n) !! id) as [s|] eqn:Hs; [|apply rtc_refl].
  apply rtc_once, quiet_b. unfold fin_of in Hfin. rewrite Hs in Hfin. cbn in Hfin.
  apply (ls_write _ _ id s data); [done| |done]. by destruct (s_send_fin s).
Qed.

(** A pump of the first end: what it read from the socket is what the stream was
    given, while the stream is open; the far end sees nothing. *)
Lemma pump_a wans rans c w data c' n n' :
  @pump_conn Z net end_a wans rans id c n = (w, data, c', n') →
  (fin_of (n_a n) = Some true → read_closed c = true) → zlen (wrote n !!! id ++ data) < 2 ^ 63 →
  rtc net_step n n' ∧ got n' = got n ∧ n_b n' = n_b n ∧
  local_parity (n_a n') = local_parity (n_a n) ∧ next_local_id (n_a n') = next_local_id (n_a n) ∧
  (fin_of (n_a n') = Some true → read_closed c' = true) ∧
  (wrote n' !!! id = wrote n !!! id ++ data ∧ (fin_of (n_a n) = Some false ∨ data = []) ∨
   wrote n' !!! id = wrote n !!! id ∧ fin_of (n_a n') = None) ∧
  (is_Some (fin_of (n_a n')) → is_Some (fin_of (n_a n))).
Proof.
  intros Hp Hrc Hlen. apply pump_conn_parts in Hp as
    (d & m1 & m2 & Hr & -> & Hdata & Hm' & Hrc' & _).
  destruct (reads_a _ _ _ Hr) as (Hs & Hw & Hg & Hb & Hf & Hpar & Hnext).
  set (m2 := match data with [] => m1 | _ => _ end) in *.
  assert (rtc net_step m1 m2 ∧ got m2 = got m1 ∧ n_b m2 = n_b m1 ∧ fin_of (n_a m2) = fin_of (n_a m1) ∧
    local_parity (n_a m2) = local_parity (n_a m1) ∧ next_local_id (n_a m2) = next_local_id (n_a m1) ∧
    (wrote m2 !!! id = wrote m1 !!! id ++ data ∧ (fin_of (n_a m1) = Some false ∨ data = []) ∨
     wrote m2 !!! id = wrote m1 !!! id ∧ fin_of (n_a m1) = None)) as
    (Hs2 & Hg2 & Hb2 & Hf2 & Hpar2 & Hnext2 & Hw2).
  { destruct data as [|x data]; [split_and!; try done; left; rewrite app_nil_r; auto|].
    assert (fin_of (n_a m1) ≠ Some true) as Hno.
    { rewrite Hf. intros Hfin. rewrite Hdata in Hrc; [|done]. by specialize (Hrc Hfin). }
    unfold m2. split; [apply write_a; [done|by rewrite Hw]|].
    cbn. destruct (streams (n_a m1) !! id) as [s|] eqn:Hst.
    - destruct (with_stream_same (n_a m1) id (λ s, stream_write s (x :: data))) as (Hn & _ & Hp & _).
      split_and!; try done; [apply fin_of_write|]. left. cbn [wrote set_n_a].
      rewrite lookup_total_insert_eq. split; [done|]. left. unfold fin_of in *. rewrite Hst in *.
      cbn in *. by destruct (s_send_fin s).
    - split_and!; try done. right. split; [done|]. unfold fin_of. by rewrite Hst. }
  clearbody m2. rewrite Hw in Hw2. destruct Hm' as [->|[-> Hc']].
  - rewrite <- Hf2 in Hw2. split_and!; try congruence; [by etrans|].
    intros Hfin. apply Hrc', Hrc. congruence.
  - cbn. destruct (with_stream_same (n_a m2) id (λ s, set_close_status (Some 0) (set_send_fin true s)))
      as (Hn & _ & Hp & _). unfold mux_close in *. fold (mux_close (n_a m2) id 0) in *.
    rewrite fin_of_close, Hf2. split_and!; try congruence.
    + etrans; [exact Hs|]. etrans; [exact Hs2|]. apply rtc_once, quiet_a, ls_close.
    + rewrite Hf in Hw2. by destruct Hw2 as [?|[? Hnn]]; [left|right; rewrite Hf, Hnn].
    + rewrite fmap_is_Some. by rewrite Hf.
Qed.
(** A pump of the second end: what it takes from the stream reaches the socket, or
    is in the buffer; the first end sees nothing. *)
Lemma pump_b wans rans c w data c' n n' :
  @pump_conn Z net end_b wans rans id c n = (w, data, c', n') →
  (fin_of (n_b n) = Some true → read_closed c = true) → zlen (wrote_b n !!! id ++ data) < 2 ^ 63 →
  rtc net_step n n' ∧ wrote n' = wrote n ∧ n_a n' = n_a n ∧
  (fin_of (n_b n') = Some true → read_closed c' = true) ∧
  ∃ d, got n' !!! id = got n !!! id ++ d ∧ w `prefix_of` f_out c ++ d ∧
    (dead c' = false → dead c = false ∧ w ++ f_out c' = f_out c ++ d) ∧
    (dead c = true → w = [] ∧ dead c' = true).
Proof.
  intros Hp Hrc Hlen. apply pump_conn_parts in Hp as
    (d & m1 & m2 & Hr & -> & Hdata & Hm' & Hrc' & _ & Hw & Halive & Hdead).
  destruct (reads_b _ _ _ Hr) as (Hs & Hwr & Hwb & Ha & Hg & Hf).
  set (m2 := match data with [] => m1 | _ => _ end) in *.
  assert (rtc net_step m1 m2 ∧ got m2 = got m1 ∧ n_a m2 = n_a m1 ∧ wrote m2 = wrote m1 ∧
    fin_of (n_b m2) = fin_of (n_b m1)) as (Hs2 & Hg2 & Ha2 & Hw2 & Hf2).
  { destruct data as [|x data]; [done|]. unfold m2. split; [apply write_b; [|by rewrite Hwb]|].
    { rewrite Hf. intros Hfin. rewrite Hdata in Hrc; [|done]. by specialize (Hrc Hfin). }
    cbn. destruct (streams (n_b m1) !! id); [|done]. split_and!; try done. apply fin_of_write. }
  clearbody m2.
  assert (rtc net_step m2 n' ∧ got n' = got m2 ∧ n_a n' = n_a m2 ∧ wrote n' = wrote m2 ∧
    (fin_of (n_b n') = Some true → read_closed c' = true)) as (Hs3 & Hg3 & Ha3 & Hw3 & Hf3).
  { destruct Hm' as [->|[-> Hc']]; [|split_and!; try done; apply rtc_once, quiet_b, ls_close].
    split_and!; try done. intros Hfin. apply Hrc', Hrc. congruence. }
  split_and!; try congruence; [by do 2 (etrans; [done|])|done|]. exists d.
  split_and!; [congruence|done..|]. by intros (? & _ & ?)%Hdead.
Qed.

Lemma rtc_net_inv n n' : net_inv n → rtc net_step n n' → net_inv n'.
Proof. intros Hn. by apply rtc_invariant; [|intros ??; apply net_inv_step]. Qed.

(** ** The invariant *)

Lemma tunnel_start_inv b t : tunnel_start b t → tunnel_inv t.
Proof.
  intros [Hn Hid Hu Ho Hw Ha Hb Hi Hs]. apply reachable_net_inv in Hn as Hn'.
  pose proof (v_prefix _ _ _ _ _ _ _ (ni_view _ Hn' id Hid)) as Hp. rewrite Hw in Hp.
  apply prefix_nil_inv in Hp. split; try done.
  - rewrite Hw. apply prefix_nil.
  - by rewrite Hw, Hi.
  - intros c Hc. by rewrite Hb in Hc.
  - rewrite Hs. apply prefix_nil.
  - intros c Hc. by rewrite Hb in Hc.
Qed.

Lemma tunnel_step_inv t t' : tunnel_inv t → tunnel_step t t' → tunnel_inv t'.
Proof.
  intros [Hn Hid Hu Hin Hopen Ha Hb Hsent Hout] Hstep.
  destruct Hstep as [n Hs Hw Hg Hfa Hfb|f Hf Ho| | | | |wans rans c w data c' n Hc Hp Hlen|
    wans rans c w data c' n Hc Hp Hlen].
  - destruct (net_step_fin _ _ Hn Hs Hid Hu) as (Hfin & Hpar & Hnext).
    split; cbn; rewrite ?Hw, ?Hg, ?Hpar; eauto; [by eapply net_inv_step|lia].
  - assert (net_step (t_net t) (mkNet (n_a (t_net t)) (on_frame (n_b (t_net t)) f) (wrote (t_net t))
      (on_open (n_b (t_net t)) f (wrote_b (t_net t))) (on_open (n_b (t_net t)) f (got (t_net t)))
      (wire_ab (t_net t)))) as Hs by by apply net_b_frame.
    split; cbn; eauto; [by eapply net_inv_step| |apply prefix_nil|].
    + intros c [= <-] (s' & Hs' & Hfin)%fmap_Some. exfalso.
      destruct (opens_spec _ _ _ Ho) as (Hab & _ & Hnone).
      destruct f as [| | | | | |k kind meta|k offset d fin|k ack window|k status|k|]; try done.
      cbn in Hab. cbn [opens] in Ho. cbn [n_b on_frame] in Hs'. subst k. apply andb_true_iff in Ho as [[[_ Hpar]%andb_true_iff Hsz]%andb_true_iff _].
      rewrite Nat.leb_antisym in Hs'. apply negb_true_iff in Hpar. rewrite Hpar, Hsz in Hs'. cbn in Hs'.
      rewrite Hnone in Hs'. cbn in Hs'. rewrite lookup_insert_eq in Hs'.
      injection Hs' as <-. discriminate Hfin.
    + intros c [= <-] _. cbn. by rewrite on_open_lookup, Ho.
  - split; cbn; eauto. intros c (c0 & Hc0 & ->)%fmap_Some. exact (Ha c0 Hc0).
  - split; cbn; eauto; intros c (c0 & Hc0 & ->)%fmap_Some;
      [exact (Hb c0 Hc0)|exact (Hout c0 Hc0)].
  - by split; cbn.
  - by split; cbn.
  - assert (zlen (wrote (t_net t) !!! id ++ data) < 2 ^ 63) as Hl.
    { apply prefix_length in Hin. rewrite !length_app in *. lia. }
    destruct (pump_a _ _ _ _ _ _ _ _ Hp (Ha c Hc) Hl) as (Hs & Hg & Hnb & Hpar & Hnext & Hrc & Hwr & Hf).
    split; cbn; rewrite ?Hpar, ?Hnext, ?Hg, ?Hnb; try done.
    + by eapply rtc_net_inv.
    + destruct Hwr as [[-> [Hfin| ->]]|[-> _]]; [|by rewrite !app_nil_r|by apply prefix_app_r].
      by rewrite Hopen by (by rewrite Hfin).
    + intros Hfin. destruct Hwr as [[-> _]|[_ Hnone]]; [by rewrite Hopen by auto|].
      rewrite Hnone in Hfin. by destruct Hfin.
    + by intros c0 [= <-].
  - destruct (pump_b _ _ _ _ _ _ _ _ Hp (Hb c Hc) Hlen) as (Hs & Hwr & Hna & Hrc & d & Hg & Hw & Halive & Hdead).
    split; cbn; rewrite ?Hwr, ?Hna, ?Hg; try done.
    + by eapply rtc_net_inv.
    + by intros c0 [= <-].
    + destruct (dead c) eqn:Hd.
      * destruct (Hdead eq_refl) as [-> _]. rewrite app_nil_r. by apply prefix_app_r.
      * rewrite <- (Hout c Hc Hd), <- (assoc_L (++)). by apply prefix_app.
    + intros c0 [= <-] Hd. destruct (Halive Hd) as [Hd0 He].
      by rewrite <- (assoc_L (++)), He, (assoc_L (++)), (Hout c Hc Hd0).
Qed.
Lemma tunnel_reachable_inv b t0 t : tunnel_start b t0 → rtc tunnel_step t0 t → tunnel_inv t.
Proof.
  intros Hs. apply (rtc_invariant _ tunnel_inv); [by eapply tunnel_start_inv|].
  intros ??; apply tunnel_step_inv.
Qed.
End tunnel.

(** C23 A forwarded connection, end to end: whatever the network does with the
    frames and the two sockets answer, the bytes that reach the second socket are
    a prefix of those that the first has given; and once the second end has the
    end of the stream, its socket is alive and its buffer written out, they are
    all of them, as long as the first end still has the stream. *)
Theorem forward_delivers_prefix id b t0 t :
  tunnel_start id b t0 → rtc (tunnel_step id) t0 t →
  t_sent t `prefix_of` t_in t ∧
  ∀ c s sa, t_b t = Some c → dead c = false → f_out c = [] →
    streams (n_b (t_net t)) !! id = Some s → recv_finished s = true →
    streams (n_a (t_net t)) !! id = Some sa → t_sent t = t_in t.
Proof.
  intros Hs Hr. destruct (tunnel_reachable_inv id b t0 t Hs Hr) as
    [Hn Hid Hu Hin Hopen Ha Hb Hsent Hout].
  pose proof (ni_view _ Hn id Hid) as Hv. split.
  - etrans; [exact Hsent|]. etrans; [exact (v_prefix _ _ _ _ _ _ _ Hv)|exact Hin].
  - intros c s sa Hc Hd Ho Hsb Hfin Hsa. specialize (Hout c Hc Hd). rewrite Ho, app_nil_r in Hout.
    rewrite Hout, <- Hopen by (unfold fin_of; by rewrite Hsa).
    unfold recv_finished in Hfin. destruct (v_b _ _ _ _ _ _ _ Hv _ Hsb) as (Hh & Hg & Hat).
    destruct (s_peer_fin s) as [|at_]; [done|]. destruct (Hat at_ eq_refl) as [-> _].
    apply andb_true_iff in Hfin as [Hle%Z.leb_le _]. rewrite Hg. apply take_ge. lia.
Qed.

(** ** A run

    The first socket gives three bytes and ends; the stream is opened at the other
    end, where the socket has ended already. *)
Definition sample_open : net :=
  set_n_a (mux_open (mux_new true) Forward [49]).2 (<[0 := []]> ∅) (net_new true).
Definition sample_t0 : tunnel := mkTunnel sample_open (Some from_stream) None [] [].

Definition run_a (rans : list ReadAns) (t : tunnel) : tunnel :=
  let '(_, data, c, n) :=
    @pump_conn Z net end_a [] rans 0 (default from_stream (t_a t)) (t_net t) in
  mkTunnel n (Some c) (t_b t) (t_in t ++ data) (t_sent t).
Definition run_b (wans : list WriteAns) (rans : list ReadAns) (t : tunnel) : tunnel :=
  let '(w, _, c, n) :=
    @pump_conn Z net end_b wans rans 0 (default from_stream (t_b t)) (t_net t) in
  mkTunnel n (t_a t) (Some c) (t_in t) (t_sent t ++ w).
Definition run_poll (t : tunnel) : tunnel :=
  let n := t_net t in
  mkTunnel (mkNet (poll_transmit (n_a n)).2 (n_b n) (wrote n) (wrote_b n) (got n)
    (wire_ab n ++ (poll_transmit (n_a n)).1)) (t_a t) (t_b t) (t_in t) (t_sent t).
Definition run_frame (f : Frame) (t : tunnel) : tunnel :=
  let n := t_net t in
  mkTunnel (mkNet (n_a n) (on_frame (n_b n) f) (wrote n) (on_open (n_b n) f (wrote_b n))
    (on_open (n_b n) f (got n)) (wire_ab n)) (t_a t) (t_b t) (t_in t) (t_sent t).
Definition run_open (f : Frame) (t : tunnel) : tunnel :=
  let t := run_frame f t in mkTunnel (t_net t) (t_a t) (Some from_stream) (t_in t) [].
Definition run_closed (t : tunnel) : tunnel :=
  mkTunnel (t_net t) (t_a t) (mark_peer_closed <$> t_b t) (t_in t) (t_sent t).

Definition sample_sent : tunnel := run_poll (run_a [RBytes [1; 2; 3]; RBytes []] sample_t0).
Definition sample_dialed : tunnel :=
  run_b [] [RBytes []] (run_open (StreamOpen 0 Forward [49]) sample_sent).
Definition sample_early : tunnel := run_closed (run_frame (StreamClose 0 0) sample_dialed).
Definition sample_late : tunnel :=
  run_b [WBytes 2; WBytes 1] [] (run_frame (StreamData 0 0 [1; 2; 3] true) sample_early).

Lemma rtc_eq {A} (R : relation A) x y : x = y → rtc R x y.
Proof. intros ->. apply rtc_refl. Qed.

Lemma sample_start : tunnel_start 0 true sample_t0.
Proof.
  split; try reflexivity; [|discriminate].
  apply rtc_once, quiet_a. exact (ls_open ∅ (mux_new true) Forward [49] ltac:(cbn; lia)).
Qed.

Lemma sample_dialed_reached : rtc (tunnel_step 0) sample_t0 sample_dialed.
Proof.
  eapply rtc_l; [eapply (tun_pump_a 0 sample_t0 [] [RBytes [1; 2; 3]; RBytes []]);
    [reflexivity|vm_compute; reflexivity|vm_compute; reflexivity]|].
  eapply rtc_l; [apply tun_net; [apply net_a, ls_poll|reflexivity|reflexivity|vm_compute; auto..]|].
  eapply rtc_l; [apply (tun_open 0 _ (StreamOpen 0 Forward [49])); [in_wire|vm_compute; reflexivity]|].
  eapply rtc_l; [eapply (tun_pump_b 0 _ [] [RBytes []]);
    [reflexivity|vm_compute; reflexivity|vm_compute; reflexivity]|].
  apply rtc_eq. vm_compute. reflexivity.
Qed.

Lemma sample_early_reached : rtc (tunnel_step 0) sample_t0 sample_early.
Proof.
  etrans; [exact sample_dialed_reached|].
  eapply rtc_l; [apply tun_net; [apply (net_b_frame _ (StreamClose 0 0)); in_wire|vm_compute; reflexivity|vm_compute; reflexivity|
    vm_compute; auto|vm_compute; auto]|].
  eapply rtc_l; [apply tun_closed_b|]. apply rtc_eq. vm_compute. reflexivity.
Qed.

Lemma sample_late_reached : rtc (tunnel_step 0) sample_t0 sample_late.
Proof.
  etrans; [exact sample_early_reached|].
  eapply rtc_l; [apply tun_net; [apply (net_b_frame _ (StreamData 0 0 [1; 2; 3] true)); in_wire|
    vm_compute; reflexivity|vm_compute; reflexivity|vm_compute; auto|vm_compute; auto]|].
  eapply rtc_l; [eapply (tun_pump_b 0 _ [WBytes 2; WBytes 1] []);
    [reflexivity|vm_compute; reflexivity|vm_compute; reflexivity]|].
  apply rtc_eq. vm_compute. reflexivity.
Qed.

(** A connection can be cut short: the close of a stream may arrive before its
    last bytes, which are still on their way and will be sent again; if the
    socket at that end has ended too, the connection counts as finished there and
    then, alive and with an empty buffer, and is dropped with those bytes unread. *)
Theorem early_close_truncates :
  ∃ t0 t c, tunnel_start 0 true t0 ∧ rtc (tunnel_step 0) t0 t ∧ t_b t = Some c ∧
    EvClosed 0 0 ∈ events (n_b (t_net t)) ∧ dead c = false ∧ conn_finished c = true ∧
    is_recv_finished (n_b (t_net t)) 0 = false ∧ t_in t = [1; 2; 3] ∧ t_sent t = [].
Proof.
  exists sample_t0, sample_early, (mkForwardConn [] true true true false 0).
  split; [exact sample_start|]. split; [exact sample_early_reached|].
  split; [vm_compute; reflexivity|]. split; [apply list_elem_of_In; vm_compute; tauto|].
  split_and!; vm_compute; reflexivity.
Qed.

Lemma forward_delivers_prefix_witness : t_sent sample_late `prefix_of` [1; 2; 3] ∧ t_sent sample_late = [1; 2; 3].
Proof.
  destruct (forward_delivers_prefix 0 true sample_t0 sample_late sample_start sample_late_reached)
    as [Hp Hall].
  split; [exact Hp|]. vm_compute. reflexivity.
Defined.
