(* ===== verification/Forwarder.v ===== *)
(** * Port forwards of the client ([src/client.rs])

    [Forwarder]: the listeners of [-L] and [-D], the SOCKS connections that still
    negotiate, and the bridges, one per stream.  A pass of its loop accepts
    connections, hands stream events to the bridges and pumps all of them; and the
    same for the agent's bridges ([pump_agent]).  The operating system's answers
    are arguments: what each listener accepts, which sockets can be used, what
    reads and writes return. *)

From stdpp Require Import gmap.
From S2P Require Import Prelude Wire NoiseCore Session Handshake Reassembler Stream Mux Text Socks Auth Runtime Client Forward.

(** ** All bridges of a table *)

(** The answers of one socket to the writes and the reads of a pump. *)
Definition SocketAns : Type := list WriteAns * list ReadAns.

Section pump_all.
Context {K M : Type} `{Countable K} `{StreamPort K M}.

(** What went to the sockets and came from them, the bridges, the core. *)
Definition PumpState : Type := gmap K (list Z * list Z) * gmap K ForwardConn * M.

(** Pump the bridge of [k], if it is still there, and reap it when it is done.
    @ src/client.rs:1239-1266 Forwarder::pump *)
Definition pump_one (ans : K → SocketAns) (st : PumpState) (k : K) : PumpState :=
  let '(io, conns, m) := st in
  match conns !! k with
  | None => st
  | Some c =>
    let '(w, data, c, m) := pump_conn (ans k).1 (ans k).2 k c m in
    (<[k := (w, data)]> io, if conn_finished c then delete k conns else <[k := c]> conns, m)
  end.

(** The keys are visited in the hash map's order.
    @ src/client.rs:1238-1266 Forwarder::pump *)
Definition pump_all (ans : K → SocketAns) (order : list K) (conns : gmap K ForwardConn) (m : M) :
    PumpState :=
  foldl (pump_one ans) (∅, conns, m) order.
End pump_all.

Section forwarder.
Context {N : Snow} {SocketAddr : Type}.
Local Abbreviation ClientCore := (ClientCore (SocketAddr := SocketAddr)).

(** The client core as the owner of its streams. *)
#[export] Instance client_port : StreamPort Z ClientCore := {
  port_read c id := c_stream_read id c;
  port_write c id data := c_stream_write id data c;
  port_close c id := c_stream_close id c;
  port_in_flight c id := c_stream_in_flight id c;
}.

(** @ src/client.rs:1076-1085 Forwarder *)
Record Forwarder := mkForwarder {
  listeners : list (list Z);
  socks_listeners : nat;
  pending_socks : list SocksConn;
  conns : gmap Z ForwardConn;
}.

Definition set_pending_socks v (f : Forwarder) : Forwarder :=
  mkForwarder (listeners f) (socks_listeners f) v (conns f).
Definition set_conns v (f : Forwarder) : Forwarder :=
  mkForwarder (listeners f) (socks_listeners f) (pending_socks f) v.

(** [binds] answers, per listener, whether it is bound and made non-blocking: the
    first that fails ends it, after the requests made before.
    @ src/client.rs:1089-1121 Forwarder::bind *)
Definition forwarder_bind (local remote : list (Z * list Z)) (dynamic : list (list Z * Z))
    (local_ok dynamic_ok : list bool) (c : ClientCore) : result RuntimeError Forwarder * ClientCore :=
  if negb (forallb id local_ok) then (Err RtIo, c)
  else
    let c := foldl (λ c '(port, target), request_remote_forward port target c) c remote in
    if negb (forallb id dynamic_ok) then (Err RtIo, c)
    else (Ok (mkForwarder (snd <$> local) (length dynamic) [] ∅), c).

(** @ src/client.rs:1125-1127 Forwarder::is_busy *)
Definition is_busy (f : Forwarder) : bool :=
  existsb (λ '(_, c), wants_write c) (map_to_list (conns f)) ||
  negb (bool_decide (pending_socks f = [])).

(** A stream for a connection that is there already, its early bytes first.
    @ src/client.rs:1177-1183 Forwarder::accept *)
Definition bridge (target leftover : list Z) (st : gmap Z ForwardConn * ClientCore) :
    gmap Z ForwardConn * ClientCore :=
  let '(conns, c) := st in
  let '(id, c) := c_open_forward target c in
  let c := match leftover with [] => c | _ => c_stream_write id leftover c end in
  (<[id := from_stream]> conns, c).

(** The connections of one listener: each is there to be used or, if it cannot be
    made non-blocking, dropped. @ src/client.rs:1147-1154 Forwarder::accept *)
Definition accept_local (st : gmap Z ForwardConn * ClientCore) (l : list Z * list bool) :
    gmap Z ForwardConn * ClientCore :=
  foldl (λ st usable, if (usable : bool) then bridge l.1 [] st else st) st l.2.

(** What drives one negotiation: its socket's answers, and whether the socket can
    be used for a bridge afterwards. *)
Record SocksAns := mkSocksAns {
  sa_write1 : list WriteAnswer;
  sa_reads : list ReadAnswer;
  sa_write2 : list WriteAnswer;
  sa_usable : bool;
}.

(** @ src/client.rs:1166-1190 Forwarder::accept *)
Definition drive_socks (ans : nat → SocksAns)
    (st : list SocksConn * (gmap Z ForwardConn * ClientCore)) (sc : nat * SocksConn) :
    list SocksConn * (gmap Z ForwardConn * ClientCore) :=
  let '(still, st) := st in
  let a := ans sc.1 in
  match negotiate (sa_write1 a) (sa_reads a) (sa_write2 a) sc.2 with
  | (Connected target leftover, _) =>
    (still, if sa_usable a then bridge target leftover st else st)
  | (Pending, Some s) => (still ++ [s], st)
  | _ => (still, st)
  end.

(** [accepted] and [socks_accepted] are what the listeners accept, in their
    order; [ans] answers for the negotiations, by position.
    @ src/client.rs:1142-1191 Forwarder::accept *)
Definition accept (accepted socks_accepted : list (list bool)) (ans : nat → SocksAns)
    (f : Forwarder) (c : ClientCore) : Forwarder * ClientCore :=
  let st := foldl accept_local (conns f, c) (zip (listeners f) accepted) in
  let fresh := filter (λ usable, usable = true) (concat (take (socks_listeners f) socks_accepted)) in
  let pending := pending_socks f ++ ((λ _, socks_new) <$> fresh) in
  let '(still, (cs, c)) :=
    foldl (drive_socks ans) ([], st) (imap pair pending) in
  (set_pending_socks still (set_conns cs f), c).

(** [dial] answers whether a connection to a target is made; a stream whose target
    cannot be reached is closed. @ src/client.rs:1195-1233 Forwarder::handle_event *)
Definition f_handle_event (dial : list Z → bool) (ev : StreamEvent) (f : Forwarder) (c : ClientCore) :
    option StreamEvent * Forwarder * ClientCore :=
  match ev with
  | EvOpened id Forward meta =>
    match from_utf8 meta with
    | Some target =>
      if dial target then (None, set_conns (<[id := from_stream]> (conns f)) f, c)
      else (None, f, c_stream_close id c)
    | None => (None, f, c_stream_close id c)
    end
  | EvReadable id => (if decide (is_Some (conns f !! id)) then None else Some ev, f, c)
  | EvClosed id _ =>
    match conns f !! id with
    | Some conn => (None, set_conns (<[id := mark_peer_closed conn]> (conns f)) f, c)
    | None => (Some ev, f, c)
    end
  | EvReset id =>
    match conns f !! id with
    | Some _ => (None, set_conns (delete id (conns f)) f, c)
    | None => (Some ev, f, c)
    end
  | _ => (Some ev, f, c)
  end.

(** @ src/client.rs:1237-1267 Forwarder::pump *)
Definition f_pump (ans : Z → SocketAns) (order : list Z) (f : Forwarder) (c : ClientCore) :
    gmap Z (list Z * list Z) * Forwarder * ClientCore :=
  let '(io, cs, c) := pump_all ans order (conns f) c in (io, set_conns cs f, c).

(** ** The agent's bridges *)

(** [agent] is the agent socket's path, [dial] whether it can be connected to.
    @ src/client.rs:561-588 Client::pump_agent *)
Definition agent_event (agent : option (list Z)) (dial : list Z → bool)
    (st : gmap Z ForwardConn * ClientCore) (ev : StreamEvent) : gmap Z ForwardConn * ClientCore :=
  let '(cs, c) := st in
  match ev with
  | EvOpened id Agent _ =>
    if match agent with Some path => dial path | None => false end
    then (<[id := from_stream]> cs, c)
    else (cs, c_stream_close id c)
  | EvClosed id _ => (match cs !! id with Some k => <[id := mark_peer_closed k]> cs | None => cs end, c)
  | EvReset id => (delete id cs, c)
  | _ => (cs, c)
  end.

(** @ src/client.rs:556-616 Client::pump_agent *)
Definition pump_agent (agent : option (list Z)) (dial : list Z → bool) (ans : Z → SocketAns)
    (order : list Z) (cs : gmap Z ForwardConn) (c : ClientCore) :
    gmap Z (list Z * list Z) * gmap Z ForwardConn * ClientCore :=
  let '(evs, c) := c_take_stream_events c in
  let '(cs, c) := foldl (agent_event agent dial) (cs, c) evs in
  pump_all ans order cs c.

(** ** The order of the bridges *)

#[export] Program Instance client_cells : StreamCells Z ClientCore := {|
  cell c id := cell (c_mux c) id;
  put_cell id so c := set_c_mux (put_cell id so (c_mux c)) c;
|}.
Next Obligation. intros. apply (cell_put (c_mux m)). Qed.
Next Obligation. intros. by apply (cell_put_ne (c_mux m)). Qed.
Next Obligation. intros [] id. cbn. unfold set_c_mux. cbn. f_equal. exact (put_cell_id c_mux id). Qed.
Next Obligation. intros [] *. unfold set_c_mux. cbn [Client.c_mux]. f_equal. exact (put_put c_mux _ _ _). Qed.
Next Obligation. intros [] * Hij. unfold set_c_mux. cbn [Client.c_mux]. f_equal. exact (put_comm c_mux _ _ _ _ Hij). Qed.
Next Obligation.
  intros [] id. unfold port_read, client_port, c_stream_read, set_c_mux. cbn [Client.c_mux].
  pose proof (port_read_cell c_mux id) as Hr. cbn [port_read mux_port] in Hr. rewrite Hr.
  by destruct (cell c_mux id).
Qed.
Next Obligation.
  intros [] id data. unfold port_write, client_port, c_stream_write, set_c_mux. cbn [Client.c_mux].
  f_equal. exact (port_write_cell c_mux id data).
Qed.
Next Obligation.
  intros [] id. unfold port_close, client_port, c_stream_close, set_c_mux. cbn [Client.c_mux].
  f_equal. exact (port_close_cell c_mux id).
Qed.
Next Obligation. intros m id. exact (port_in_flight_cell (c_mux m) id). Qed.
End forwarder.

Section order.
Context {K M : Type} `{Countable K, StreamCells K M}.

(** The bridge of [k] kept or reaped. *)
Definition keep (k : K) (conn : ForwardConn) (conns : gmap K ForwardConn) : gmap K ForwardConn :=
  if conn_finished conn then delete k conns else <[k := conn]> conns.

Lemma keep_ne k1 k2 conn conns : k1 ≠ k2 → keep k1 conn conns !! k2 = conns !! k2.
Proof.
  intros. unfold keep. destruct (conn_finished _);
    [by rewrite lookup_delete_ne|by rewrite lookup_insert_ne].
Qed.
Lemma keep_comm k1 k2 v1 v2 conns : k1 ≠ k2 → keep k1 v1 (keep k2 v2 conns) = keep k2 v2 (keep k1 v1 conns).
Proof.
  intros. unfold keep. destruct (conn_finished v1), (conn_finished v2).
  - apply delete_delete.
  - by rewrite delete_insert_ne.
  - by rewrite delete_insert_ne.
  - by rewrite insert_insert_ne.
Qed.

Lemma pump_one_cell (ans : K → SocketAns) io conns m k :
  pump_one ans (io, conns, m) k =
    match conns !! k with
    | None => (io, conns, m)
    | Some c =>
      let '(w, data, c, so) := @pump_conn K _ cell_port (ans k).1 (ans k).2 k c (cell m k) in
      (<[k := (w, data)]> io, keep k c conns, put_cell k so m)
    end.
Proof.
  cbn [pump_one]. destruct (conns !! k) as [c|]; [|done]. rewrite pump_conn_cell.
  by destruct (@pump_conn K _ cell_port (ans k).1 (ans k).2 k c (cell m k)) as [[[w data] c'] so].
Qed.

Lemma pump_one_comm (ans : K → SocketAns) k1 k2 st :
  pump_one ans (pump_one ans st k1) k2 = pump_one ans (pump_one ans st k2) k1.
Proof.
  destruct (decide (k1 = k2)) as [->|Hne]; [done|]. destruct st as [[io conns] m].
  rewrite !pump_one_cell. destruct (conns !! k1) as [c1|] eqn:Hc1.
  - destruct (@pump_conn K _ cell_port (ans k1).1 (ans k1).2 k1 c1 (cell m k1)) as [[[w1 d1] c1'] s1] eqn:Hp1.
    rewrite pump_one_cell, keep_ne by done. destruct (conns !! k2) as [c2|] eqn:Hc2.
    + rewrite cell_put_ne by done.
      destruct (@pump_conn K _ cell_port (ans k2).1 (ans k2).2 k2 c2 (cell m k2)) as [[[w2 d2] c2'] s2] eqn:Hp2.
      rewrite pump_one_cell, keep_ne, Hc1, cell_put_ne, Hp1 by done.
      by rewrite insert_insert_ne, keep_comm, put_comm by done.
    + by rewrite pump_one_cell, Hc1, Hp1.
  - destruct (conns !! k2) as [c2|] eqn:Hc2; rewrite pump_one_cell, Hc2; [|by rewrite pump_one_cell, Hc1].
    destruct (@pump_conn K _ cell_port (ans k2).1 (ans k2).2 k2 c2 (cell m k2)) as [[[w2 d2] c2'] s2].
    by rewrite pump_one_cell, keep_ne, Hc1 by done.
Qed.

(** The order in which a pass visits the bridges, that of a hash map, has no
    effect. *)
Lemma pump_all_order (ans : K → SocketAns) order1 order2 conns m :
  order1 ≡ₚ order2 → pump_all ans order1 conns m = pump_all ans order2 conns m.
Proof.
  unfold pump_all. generalize (∅ : gmap K (list Z * list Z), conns, m). intros st Hp. revert st.
  induction Hp as [| |x y l|]; intros st; cbn [foldl]; [done|done|by rewrite pump_one_comm|congruence].
Qed.
End order.
