(* ===== verification/Grace.v ===== *)
(** * The grace period of a closed stream ([crates/transport/src/stream.rs])

    A stream whose peer has closed it, and which we have closed too, is given up
    after a hundred polls without the end of its data.  The polls are counted
    whether or not data keeps arriving. *)

From stdpp Require Import gmap.
From S2P Require Import Prelude Wire Reassembler Stream Mux.

(** What the owner and the network do to a multiplexer. *)
Inductive mux_op :=
| OpOpen (kind : StreamKind) (meta : list Z)
| OpWrite (id : Z) (data : list Z)
| OpClose (id status : Z)
| OpReset (id : Z)
| OpRead (id : Z)
| OpTake
| OpPoll
| OpFrame (f : Frame).

Definition run_op (m : StreamMux) (op : mux_op) : StreamMux :=
  match op with
  | OpOpen kind meta => (mux_open m kind meta).2
  | OpWrite id data => mux_write m id data
  | OpClose id status => mux_close m id status
  | OpReset id => mux_reset m id
  | OpRead id => (mux_read m id).2
  | OpTake => (take_events m).2
  | OpPoll => (poll_transmit m).2
  | OpFrame f => on_frame m f
  end.

Definition run_ops (m : StreamMux) (ops : list mux_op) : StreamMux := foldl run_op m ops.

Definition is_poll (op : mux_op) : bool := match op with OpPoll => true | _ => false end.
Definition polls (ops : list mux_op) : nat := length (filter (λ op, is_poll op = true) ops).

Section grace.
Context (id : Z).

(** [op] neither opens a stream under this number nor brings the end of its data. *)
Definition no_end (m : StreamMux) (op : mux_op) : Prop :=
  match op with
  | OpOpen _ _ => next_local_id m ≠ id
  | OpFrame (StreamOpen k _ _) => k ≠ id
  | OpFrame (StreamData k _ _ true) => k ≠ id
  | _ => True
  end.

Fixpoint no_ends (m : StreamMux) (ops : list mux_op) : Prop :=
  match ops with
  | [] => True
  | op :: ops => no_end m op ∧ no_ends (run_op m op) ops
  end.

(** Closed by both ends, the end of the data not there, and this many polls ago. *)
Record closing (ticks : Z) (s : StreamState) : Prop := {
  cl_fin : s_send_fin s = true;
  cl_received : s_close_received s = true;
  cl_open : s_peer_fin s = HOpen;
  cl_ticks : Z.min ticks CLOSE_GRACE_TICKS ≤ s_close_ticks s;
}.

(** The four fields are untouched. *)
Record same_close (s s' : StreamState) : Prop := {
  sc_fin : s_send_fin s' = s_send_fin s;
  sc_received : s_close_received s' = s_close_received s;
  sc_open : s_peer_fin s' = s_peer_fin s;
  sc_ticks : s_close_ticks s' = s_close_ticks s;
}.

#[local] Instance same_close_preorder : PreOrder same_close.
Proof. split; [by split|]. intros s1 s2 s3 [] []. split; congruence. Qed.

Lemma same_closing k s s' : same_close s s' → closing k s → closing k s'.
Proof. intros [] []. split; congruence. Qed.

Lemma mark_fin_same b s : same_close s (mark_fin b s).
Proof. by destruct b. Qed.

Lemma transmit_data_same s t out : same_close s (transmit_data s t out).1.
Proof.
  unfold transmit_data. set (e := Z.min _ _). destruct (_ <? _).
  - destruct (emit_range_shape s out (Z.max (s_send_high s) (s_send_base s)) e) as (b & l & ->).
    etrans; [apply (mark_fin_same b)|]. destruct (s_timed _), (s_rto_start _); by split.
  - destruct (_ <? _).
    + destruct (rto_due _ _ _); [|done].
      destruct (emit_range_shape s out (s_send_base s) (s_send_high s)) as (b & l & ->).
      etrans; [apply (mark_fin_same b)|by split].
    + destruct (_ && _ && _); [|done]. destruct (_ || _); [by split|done].
Qed.

(** A poll is counted. *)
Lemma transmit_closing k s t :
  closing k s → s_reset s = false → closing (k + 1) (transmit s t []).1.
Proof.
  intros Hc Hr. unfold transmit. rewrite Hr.
  assert (same_close s (transmit_open s []).1) as Hs1.
  { unfold transmit_open. by destruct (s_needs_open s). }
  destruct (transmit_open s []) as [s1 l1]. cbn [fst] in Hs1.
  pose proof (transmit_data_same s1 t l1) as Hs2. destruct (transmit_data s1 t l1) as [s2 l2].
  cbn [fst] in Hs2. unfold transmit_ack.
  set (s3 := set_recv_window _ s2).
  assert (same_close s s3) as Hs by (etrans; [exact Hs1|]; etrans; [exact Hs2|]; by split).
  apply (same_closing k _ s3 Hs) in Hc. destruct Hc as [Hf Hcl Ho Ht].
  unfold transmit_close. rewrite Hf, Hcl, Ho. cbn [andb bool_decide decide_rel fst].
  rewrite bool_decide_eq_true_2 by done. split; cbn; try done.
  cbn in Ht. unfold saturating_add_u32, u32_max, CLOSE_GRACE_TICKS in *. lia_ints.
Qed.

Lemma closing_done k s : CLOSE_GRACE_TICKS ≤ k → closing k s → fully_done s = true.
Proof.
  intros Hk [Hf Hc Ho Ht]. unfold fully_done, recv_finished. rewrite Hf, Hc, Ho, andb_false_r. cbn.
  apply Z.leb_le. lia.
Qed.

(** Gone, or closing. *)
Definition closing_at (k : Z) (m : StreamMux) : Prop := ∀ s, streams m !! id = Some s → closing k s.

Lemma with_stream_closing k m i f :
  (∀ s, same_close s (f s) ∨ (s_send_fin (f s) = true ∧ s_close_received (f s) = s_close_received s ∧
    s_peer_fin (f s) = s_peer_fin s ∧ s_close_ticks (f s) = s_close_ticks s)) →
  closing_at k m → closing_at k (with_stream m i f).
Proof.
  intros Hf Hm s'. rewrite with_stream_lookup. case_bool_decide; [subst i|apply Hm].
  intros (s & Hs & ->)%fmap_Some. specialize (Hm _ Hs).
  destruct (Hf s) as [Hsc|(? & ? & ? & ?)]; [by eapply same_closing|].
  destruct Hm. split; congruence.
Qed.

Lemma stream_on_ack_same s ack window t : same_close s (stream_on_ack s ack window t).
Proof.
  unfold stream_on_ack, ack_fin, ack_sample, update_rtt, ack_progress.
  repeat first [case_match; subst; cbn in *; try (by split)].
Qed.

Lemma accept_data_closing k s offset data fin s' r :
  accept_data s offset data fin = Some (s', r) → fin = false → closing k s → closing k s'.
Proof.
  unfold accept_data. destruct (checked_add_u64 _ _); [|done]. cbn. destruct (_ <? _); [done|].
  intros [= <- _] -> [Hf Hc Ho Ht]. by split.
Qed.

Lemma insert_closing k m k' s : closing_at k m → (k' = id → closing k s) →
  closing_at k (set_streams (<[k' := s]> (streams m)) m).
Proof.
  intros Hm Hs s'. cbn. destruct (decide (k' = id)) as [->|].
  - rewrite lookup_insert_eq. intros [= <-]. by apply Hs.
  - rewrite lookup_insert_ne by done. apply Hm.
Qed.

Lemma on_frame_closing k m f :
  no_end m (OpFrame f) → closing_at k m → closing_at k (on_frame m f).
Proof.
  intros Hno Hm. destruct f as [| | | | | |i kind meta|i offset data fin|i ack window|i status|i|];
    try done; cbn [on_frame].
  - destruct (_ || _); [done|]. destruct (streams m !! i); [done|].
    apply (insert_closing k m i); [done|]. by intros ->.
  - destruct (streams m !! i) as [s|] eqn:Hs; [|done].
    destruct (accept_data s offset data fin) as [[s1 r]|] eqn:Ha; [|done].
    assert (closing_at k (set_streams (<[i := s1]> (streams m)) m)) as Hm'.
    { apply insert_closing; [done|]. intros ->. destruct fin; [by destruct Hno|].
      eapply accept_data_closing; [exact Ha|done|]. by apply Hm. }
    by destruct r.
  - apply with_stream_closing; [|done]. intros s. left. apply stream_on_ack_same.
  - destruct (streams m !! i) as [s|] eqn:Hs; [|done]. destruct (negb _); [|done].
    apply (insert_closing k m i); [done|]. intros ->. destruct (Hm _ Hs). by split.
  - destruct (streams m !! i) as [s|] eqn:Hs; [|done].
    apply (insert_closing k m i); [done|]. intros ->. destruct (Hm _ Hs). by split.
Qed.

Lemma poll_closing k m : closing_at k m → closing_at (k + 1) (poll_transmit m).2.
Proof.
  intros Hm s'. pose proof (poll_transmit_spec m) as Hp. destruct (poll_transmit m) as [out m'].
  destruct Hp as (_ & Hst & _). cbn [snd]. rewrite Hst. intros (s & Hs & Hq)%bind_Some.
  unfold polled in Hq. destruct (s_reset s) eqn:Hr; [done|].
  pose proof (transmit_closing k s (as_u64 (now m + 1)) (Hm _ Hs) Hr) as Hc.
  destruct (transmit s _ []) as [s1 l]. cbn in *. destruct (fully_done s1); [done|].
  by injection Hq as <-.
Qed.

Lemma run_op_closing k m op :
  no_end m op → closing_at k m → closing_at (if is_poll op then k + 1 else k) (run_op m op).
Proof.
  intros Hno Hm. destruct op as [kind meta|i data|i status|i|i| | |f]; cbn [run_op is_poll].
  - intros s. cbn. rewrite lookup_insert_ne by done. apply Hm.
  - apply with_stream_closing; [|done]. intros s. left. by split.
  - apply with_stream_closing; [|done]. intros s. by right.
  - apply with_stream_closing; [|done]. intros s. left. by split.
  - unfold mux_read. destruct (streams m !! i) as [s|] eqn:Hs; [|done].
    destruct (read (s_recv s)) as [d r]. apply (insert_closing k m i); [done|]. intros ->.
    eapply same_closing; [|by apply Hm]. by split.
  - done.
  - by apply poll_closing.
  - by apply on_frame_closing.
Qed.

Lemma poll_gone k m :
  closing_at k m → CLOSE_GRACE_TICKS ≤ k + 1 → streams (poll_transmit m).2 !! id = None.
Proof.
  intros Hm Hk. pose proof (poll_transmit_spec m) as Hp. destruct (poll_transmit m) as [out m'].
  destruct Hp as (_ & Hst & _). cbn [snd]. rewrite Hst. destruct (streams m !! id) as [s|] eqn:Hs; [|done].
  cbn. unfold polled. destruct (s_reset s) eqn:Hr; [done|].
  pose proof (transmit_closing k s (as_u64 (now m + 1)) (Hm _ Hs) Hr) as Hc.
  destruct (transmit s _ []) as [s1 l]. cbn in *. by rewrite (closing_done _ _ Hk Hc).
Qed.

Lemma with_stream_gone m i f : streams m !! id = None → streams (with_stream m i f) !! id = None.
Proof. intros Hm. rewrite with_stream_lookup. case_bool_decide; [subst i; by rewrite Hm|done]. Qed.

Lemma run_op_gone m op : no_end m op → streams m !! id = None → streams (run_op m op) !! id = None.
Proof.
  intros Hno Hm. destruct op as [kind meta|i data|i status|i|i| | |f]; cbn [run_op];
    try by apply with_stream_gone.
  - cbn. by rewrite lookup_insert_ne.
  - unfold mux_read. destruct (streams m !! i) as [s|] eqn:Hs; [|done].
    destruct (read (s_recv s)) as [d r]. cbn. rewrite lookup_insert_ne; congruence.
  - done.
  - pose proof (poll_transmit_spec m) as Hp. destruct (poll_transmit m) as [out m'].
    destruct Hp as (_ & Hst & _). cbn [snd]. by rewrite Hst, Hm.
  - apply eq_None_not_Some. intros [s' Hs']. destruct (on_frame_effect _ _ _ _ Hs')
      as [(s & Hs & _)|[(Ho & _)|(s & ? & ? & ? & ? & _ & Hs & _)]]; [congruence| |congruence].
    destruct f as [| | | | | |i kind meta|i offset data fin|i ack window|i status|i|]; try done.
    cbn in Ho, Hno. rewrite bool_decide_eq_false_2 in Ho by done. done.
Qed.

Lemma run_ops_gone ops : ∀ m, no_ends m ops → streams m !! id = None → streams (run_ops m ops) !! id = None.
Proof.
  induction ops as [|op ops IH]; intros m; cbn; [done|]. intros [Hno Hnos] Hm.
  apply IH; [done|]. by apply run_op_gone.
Qed.

Lemma run_ops_closing ops : ∀ m k,
  no_ends m ops → closing_at k m → k < CLOSE_GRACE_TICKS → CLOSE_GRACE_TICKS ≤ k + Z.of_nat (polls ops) →
  streams (run_ops m ops) !! id = None.
Proof.
  induction ops as [|op ops IH]; intros m k; [cbn; lia|]. cbn [no_ends run_ops foldl]. fold (run_ops (run_op m op) ops).
  intros [Hno Hnos] Hm Hk. unfold polls. rewrite filter_cons. fold (polls ops).
  pose proof (run_op_closing k m op Hno Hm) as Hm'. destruct (is_poll op) eqn:Hp.
  - rewrite decide_True by done. cbn [length]. fold (polls ops). intros Hl.
    destruct (decide (CLOSE_GRACE_TICKS ≤ k + 1)) as [Hd|Hd].
    + apply run_ops_gone; [done|]. destruct op; try done. by eapply poll_gone.
    + eapply IH; [done|exact Hm'|lia|lia].
  - rewrite decide_False by done. intros Hl. by eapply IH.
Qed.
End grace.

(** The grace period cuts a live stream: once both ends have closed it, a hundred
    polls give the stream up, whatever data, acks and closes keep arriving
    meanwhile as long as the end of the data is not among them; it then reports
    that everything was received. *)
Theorem grace_cuts_live_stream id m s ops :
  streams m !! id = Some s → s_send_fin s = true → s_close_received s = true →
  s_peer_fin s = HOpen → 0 ≤ s_close_ticks s → no_ends id m ops → (100 ≤ polls ops)%nat →
  streams (run_ops m ops) !! id = None ∧ is_recv_finished (run_ops m ops) id = true ∧
  (mux_read (run_ops m ops) id).1 = [].
Proof.
  intros Hs Hf Hc Ho Ht Hno Hp.
  assert (streams (run_ops m ops) !! id = None) as Hgone.
  { apply (run_ops_closing id ops m 0); [done| |done|unfold CLOSE_GRACE_TICKS; lia].
    intros s0. rewrite Hs. intros [= <-]. by split. }
  split; [done|]. unfold is_recv_finished, mux_read. by rewrite Hgone.
Qed.

(** The peer's data comes byte by byte, one before each poll, and every byte is
    read; the hundred and first arrives at a stream that is gone. *)
Definition steady_mux : StreamMux :=
  run_ops (mux_new true) [OpOpen Wire.Exec [49]; OpClose 0 0; OpFrame (StreamClose 0 0)].
Definition steady_ops : list mux_op :=
  concat ((λ k, [OpFrame (StreamData 0 (Z.of_nat k) [7] false); OpPoll; OpRead 0]) <$> seq 0 100).

Lemma grace_cuts_live_stream_witness :
  let m := run_ops (run_ops steady_mux steady_ops) [OpFrame (StreamData 0 100 [7] true); OpRead 0] in
  is_recv_finished (run_ops steady_mux steady_ops) 0 = true ∧
  (r_delivered ∘ s_recv <$> streams (run_ops steady_mux (take 297 steady_ops)) !! 0) = Some 99 ∧
  (mux_read m 0).1 = [].
Proof.
  cbn zeta. destruct (streams steady_mux !! 0) as [s|] eqn:Hs; [|by vm_compute in Hs].
  split; [|split; vm_compute; reflexivity].
  destruct (grace_cuts_live_stream 0 steady_mux s steady_ops Hs) as (_ & H & _).
  - by vm_compute in Hs; injection Hs as <-.
  - by vm_compute in Hs; injection Hs as <-.
  - by vm_compute in Hs; injection Hs as <-.
  - by vm_compute in Hs; injection Hs as <-.
  - vm_compute. repeat split; discriminate.
  - vm_compute. lia.
  - exact H.
Defined.
