(* ===== verification/Exec.v ===== *)
(** * Remote commands ([src/exec.rs])

    [ExecProc]: a command under three non-blocking pipes.  The pipes and the wait
    for the process are answers; what reaches the command's standard input is a
    result. *)

From stdpp Require Import base list.
From S2P Require Import Prelude Text Forward.

(** Drain an optional pipe; the end or an error closes it.
    @ src/exec.rs:25-47 read_pipe *)
Fixpoint read_pipe_loop (ans : list ReadAns) (out : list Z) : list Z * bool :=
  match ans with
  | [] | RWouldBlock :: _ => (out, true)
  | RBytes [] :: _ | RError :: _ => (out, false)
  | RBytes bs :: ans => read_pipe_loop ans (out ++ bs)
  | RInterrupted :: ans => read_pipe_loop ans out
  end.

(** @ src/exec.rs:25-47 read_pipe *)
Definition read_pipe (ans : list ReadAns) (slot : bool) : list Z * bool :=
  if slot then read_pipe_loop ans [] else ([], false).

(** [code] is there unless a signal killed the process.
    @ src/exec.rs:50-53 status_code *)
Definition status_code (code signal : option Z) : Z :=
  match code with Some c => c | None => 128 + default 0 signal end.

(** @ src/exec.rs:56-63 ExecProc *)
Record ExecProc := mkExecProc {
  x_stdin : bool;
  x_stdout : bool;
  x_stderr : bool;
  stdin_buf : list Z;
  x_exit : option Z;
}.

Definition set_x_stdin v0 v1 (p : ExecProc) : ExecProc :=
  mkExecProc v0 (x_stdout p) (x_stderr p) v1 (x_exit p).
Definition set_x_stdout v (p : ExecProc) : ExecProc :=
  mkExecProc (x_stdin p) v (x_stderr p) (stdin_buf p) (x_exit p).
Definition set_x_stderr v (p : ExecProc) : ExecProc :=
  mkExecProc (x_stdin p) (x_stdout p) v (stdin_buf p) (x_exit p).
Definition set_x_exit v (p : ExecProc) : ExecProc :=
  mkExecProc (x_stdin p) (x_stdout p) (x_stderr p) (stdin_buf p) v.

(** What is executed: [/bin/sh -c cmd] with three pipes, in the home directory of
    the user that runs the server where there is one. *)
Record ExecCommand := mkExecCommand {
  e_program : list Z;
  e_args : list (list Z);
  e_cwd : option (list Z);
}.

(** "/bin/sh" and "-c" *)
Definition BIN_SH : list Z := [47; 98; 105; 110; 47; 115; 104].
Definition DASH_C : list Z := [45; 99].

(** [home] is the passwd entry's directory of the server's own user.
    @ src/exec.rs:69-80 ExecProc::spawn *)
Definition exec_command (home : option (list Z)) (cmd : list Z) : ExecCommand :=
  mkExecCommand BIN_SH [DASH_C; cmd] home.

(** [spawned] is whether the system starts it; the pipes are there then.
    @ src/exec.rs:69-101 ExecProc::spawn *)
Definition exec_spawn (home : option (list Z)) (cmd : list Z) (spawned : bool) :
    option (ExecCommand * ExecProc) :=
  if spawned then Some (exec_command home cmd, mkExecProc true true true [] None) else None.

(** @ src/exec.rs:104-106 ExecProc::read_stdout *)
Definition read_stdout (ans : list ReadAns) (p : ExecProc) : list Z * ExecProc :=
  let '(out, slot) := read_pipe ans (x_stdout p) in (out, set_x_stdout slot p).

(** @ src/exec.rs:109-111 ExecProc::read_stderr *)
Definition read_stderr (ans : list ReadAns) (p : ExecProc) : list Z * ExecProc :=
  let '(out, slot) := read_pipe ans (x_stderr p) in (out, set_x_stderr slot p).

(** The bytes that enter the pipe, the process, the answers left.
    @ src/exec.rs:123-143 ExecProc::flush_stdin *)
Fixpoint flush_stdin_loop (ans : list WriteAns) (p : ExecProc) : list Z * ExecProc * list WriteAns :=
  match stdin_buf p with
  | [] => ([], p, ans)
  | buf =>
    match ans with
    | [] => ([], p, [])
    | WBytes O :: ans | WWouldBlock :: ans => ([], p, ans)
    | WBytes n :: ans =>
      let '(w, p, ans) := flush_stdin_loop ans (set_x_stdin (x_stdin p) (drop n buf) p) in
      (take n buf ++ w, p, ans)
    | WInterrupted :: ans => flush_stdin_loop ans p
    | WError :: ans => ([], set_x_stdin false [] p, ans)
    end
  end.

(** @ src/exec.rs:123-143 ExecProc::flush_stdin *)
Definition flush_stdin (ans : list WriteAns) (p : ExecProc) : list Z * ExecProc * list WriteAns :=
  if x_stdin p then flush_stdin_loop ans p else ([], set_x_stdin false [] p, ans).

(** @ src/exec.rs:114-120 ExecProc::write_stdin *)
Definition write_stdin (ans : list WriteAns) (data : list Z) (p : ExecProc) :
    list Z * ExecProc * list WriteAns :=
  if x_stdin p then flush_stdin ans (set_x_stdin true (stdin_buf p ++ data) p) else ([], p, ans).

(** @ src/exec.rs:146-148 ExecProc::stdin_buffered *)
Definition stdin_buffered (p : ExecProc) : nat := length (stdin_buf p).

(** @ src/exec.rs:151-154 ExecProc::close_stdin *)
Definition close_stdin (ans : list WriteAns) (p : ExecProc) : list Z * ExecProc :=
  let '(w, p, _) := flush_stdin ans p in (w, set_x_stdin false (stdin_buf p) p).

(** [waited] answers [try_wait]: the code and signal once the process is gone.
    @ src/exec.rs:157-165 ExecProc::poll_exit *)
Definition poll_exit (waited : option (option Z * option Z)) (p : ExecProc) : ExecProc :=
  match x_exit p, waited with
  | None, Some (code, signal) => set_x_exit (Some (status_code code signal)) p
  | _, _ => p
  end.

(** @ src/exec.rs:168-170 ExecProc::finished *)
Definition exec_finished (p : ExecProc) : bool :=
  bool_decide (is_Some (x_exit p)) && negb (x_stdout p) && negb (x_stderr p).

(** @ src/exec.rs:173-175 ExecProc::exit_code *)
Definition exit_code (p : ExecProc) : Z := default 0 (x_exit p).
