(* ===== verification/Files.v ===== *)
(** * Files and crashes

    A file system for the code that keeps files ([src/config.rs], [src/xfer.rs]):
    a table of names, the contents of the files, and what of both is on the disk.
    A program over it is an [Io]: it takes the system's answers, and leaves the
    states it went through, so that it can be interrupted after any of them. *)

From stdpp Require Import gmap.
From S2P Require Import Prelude.

Abbreviation Path := (list Z).

(** [names] gives each path its file; [past] are the tables since the disk was
    quiet, [synced] the files whose contents are on the disk as they are here. *)
Record Fs := mkFs {
  names : gmap Path Z;
  files : gmap Z (list Z);
  synced : gset Z;
  past : list (gmap Path Z);
}.

Definition file_at (f : Fs) (i : Z) : list Z := default [] (files f !! i).
Definition content (f : Fs) (p : Path) : option (list Z) := file_at f <$> names f !! p.

(** After a crash the table is one of those it went through, a file that was
    synced is as it was, and any other may hold anything. *)
Definition crash (f f' : Fs) : Prop :=
  (names f' = names f ∨ names f' ∈ past f) ∧
  (∀ i, i ∈ synced f → files f' !! i = files f !! i).

(** ** The calls *)

Definition set_names (v : gmap Path Z) (f : Fs) : Fs := mkFs v (files f) (synced f) (names f :: past f).
Definition put_file (i : Z) (v : list Z) (f : Fs) : Fs :=
  mkFs (names f) (<[i := v]> (files f)) (synced f ∖ {[i]}) (past f).

(** A file that no name ever had. *)
Definition new_file (f : Fs) : Z := fresh (dom (files f)).

(** Open for writing, made or emptied ([File::create]). *)
Definition fs_create (p : Path) (f : Fs) : Z * Fs :=
  match names f !! p with
  | Some i => (i, put_file i [] f)
  | None => let i := new_file f in (i, set_names (<[p := i]> (names f)) (put_file i [] f))
  end.

(** A write at an offset. *)
Definition overwrite (off : nat) (data v : list Z) : list Z :=
  take off v ++ replicate (off - length v) 0 ++ data ++ drop (off + length data) v.
Definition fs_write (i : Z) (off : nat) (data : list Z) (f : Fs) : Fs :=
  put_file i (overwrite off data (file_at f i)) f.

Definition fs_sync (i : Z) (f : Fs) : Fs := mkFs (names f) (files f) ({[i]} ∪ synced f) (past f).

Definition fs_rename (p q : Path) (f : Fs) : option Fs :=
  i ← names f !! p; Some (set_names (<[q := i]> (delete p (names f))) f).

Definition fs_remove (p : Path) (f : Fs) : option Fs :=
  _ ← names f !! p; Some (set_names (delete p (names f)) f).

(** ** Programs *)

(** The system's answer to one call: it works, it fails, or a write stops short. *)
Inductive Ans := AOk | AFail | AShort (n : nat).

(** A program: the states it goes through, its result, the state at its end and
    the answers it has not used. *)
Definition Io (A : Type) : Type := list Ans → Fs → list Fs * A * Fs * list Ans.

Definition io_ret {A} (a : A) : Io A := λ ans f, ([], a, f, ans).
Definition io_bind {A B} (m : Io A) (k : A → Io B) : Io B := λ ans f,
  let '(t1, a, f, ans) := m ans f in
  let '(t2, b, f, ans) := k a ans f in (t1 ++ t2, b, f, ans).

Declare Scope io_scope.
Delimit Scope io_scope with io.
Notation "'do' x <- m ; k" := (io_bind m (λ x, k))
  (at level 20, x pattern, m at level 100, k at level 200, right associativity) : io_scope.

(** The next answer; a script that has run out works. *)
Definition next_ans (ans : list Ans) : Ans * list Ans :=
  match ans with [] => (AOk, []) | a :: ans => (a, ans) end.

(** One call: [None] when it fails. *)
Definition call {A} (op : Fs → option (A * Fs)) : Io (option A) := λ ans f,
  match next_ans ans with
  | (AOk, ans) =>
    match op f with Some (a, f') => ([f'], Some a, f', ans) | None => ([], None, f, ans) end
  | (_, ans) => ([], None, f, ans)
  end.

Definition io_create (p : Path) : Io (option Z) := call (λ f, Some (fs_create p f)).
(** Only if there is no such file ([OpenOptions::create_new]). *)
Definition io_create_new (p : Path) : Io (option Z) :=
  call (λ f, match names f !! p with Some _ => None | None => Some (fs_create p f) end).
Definition io_sync (i : Z) : Io (option unit) := call (λ f, Some ((), fs_sync i f)).
Definition io_rename (p q : Path) : Io (option unit) := call (λ f, ((),.) <$> fs_rename p q f).
Definition io_remove (p : Path) : Io (option unit) := call (λ f, ((),.) <$> fs_remove p f).
Definition io_read (p : Path) : Io (option (list Z)) := call (λ f, (., f) <$> content f p).

(** [write_all]: all of it, or an error after a part. *)
Definition io_write (i : Z) (off : nat) (data : list Z) : Io (option unit) := λ ans f,
  match next_ans ans with
  | (AOk, ans) => let f' := fs_write i off data f in ([f'], Some (), f', ans)
  | (AShort n, ans) => let f' := fs_write i off (take n data) f in ([f'], None, f', ans)
  | (AFail, ans) => ([], None, f, ans)
  end.

(** Every state of a run. *)
Definition run_states {A} (m : Io A) (ans : list Ans) (f : Fs) : list Fs := f :: (m ans f).1.1.1.
Definition run_result {A} (m : Io A) (ans : list Ans) (f : Fs) : A := (m ans f).1.1.2.
Definition run_end {A} (m : Io A) (ans : list Ans) (f : Fs) : Fs := (m ans f).1.2.

(** From [f], whatever the answers: every state on the way is in [I], and the
    result and the last state are in [Q]. *)
Definition runs {A} (m : Io A) (I : Fs → Prop) (Q : A → Fs → Prop) (f : Fs) : Prop :=
  ∀ ans, let '(t, a, f', _) := m ans f in Forall I t ∧ Q a f'.

Lemma runs_ret {A} (a : A) I (Q : A → Fs → Prop) f : Q a f → runs (io_ret a) I Q f.
Proof. by intros ? ?; split. Qed.

Lemma runs_bind {A B} (m : Io A) (k : A → Io B) I Q f :
  runs m I (λ a f', runs (k a) I Q f') f → runs (io_bind m k) I Q f.
Proof.
  intros Hm ans. unfold io_bind. specialize (Hm ans). destruct (m ans f) as [[[t1 a] f1] ans1].
  destruct Hm as [Ht Hk]. specialize (Hk ans1). destruct (k a ans1 f1) as [[[t2 b] f2] ans2].
  destruct Hk. split; [by apply Forall_app_2|done].
Qed.

Lemma runs_weaken {A} (m : Io A) (I1 I2 : Fs → Prop) (Q1 Q2 : A → Fs → Prop) f :
  (∀ f, I1 f → I2 f) → (∀ a f, Q1 a f → Q2 a f) → runs m I1 Q1 f → runs m I2 Q2 f.
Proof.
  intros HI HQ Hm ans. specialize (Hm ans). destruct (m ans f) as [[[t a] f'] ans']. destruct Hm.
  split; [by eapply Forall_impl|by apply HQ].
Qed.

Lemma runs_call {A} (op : Fs → option (A * Fs)) (I : Fs → Prop) (Q : option A → Fs → Prop) f :
  (∀ a f', op f = Some (a, f') → I f' ∧ Q (Some a) f') → Q None f → runs (call op) I Q f.
Proof.
  intros Ho Hn ans. unfold call. destruct (next_ans ans) as [[] ans']; [|by split..].
  destruct (op f) as [[a f']|]; [|by split]. destruct (Ho a f' eq_refl). split; [by repeat constructor|done].
Qed.

Lemma runs_write i off data (I : Fs → Prop) (Q : option unit → Fs → Prop) f :
  (let f' := fs_write i off data f in I f' ∧ Q (Some ()) f') →
  (∀ n, let f' := fs_write i off (take n data) f in I f' ∧ Q None f') → Q None f →
  runs (io_write i off data) I Q f.
Proof.
  intros [Hi Hq] Hs Hn ans. unfold io_write. destruct (next_ans ans) as [[| |n] ans'].
  - split; [by repeat constructor|done].
  - by split.
  - destruct (Hs n). split; [by repeat constructor|done].
Qed.

Lemma runs_states {A} (m : Io A) (I : Fs → Prop) (Q : A → Fs → Prop) ans f :
  I f → runs m I Q f → Forall I (run_states m ans f) ∧ Q (run_result m ans f) (run_end m ans f).
Proof.
  intros Hf Hm. specialize (Hm ans). unfold run_states, run_result, run_end.
  destruct (m ans f) as [[[t a] f'] ans']. destruct Hm. split; [by constructor|done].
Qed.

(** ** What a path can hold after a crash *)

(** Whatever table the disk has, the path's content there is one of these, and
    safe on the disk. *)
Definition holds_one (p : Path) (cands : option (list Z) → Prop) (f : Fs) : Prop :=
  ∀ nm, nm = names f ∨ nm ∈ past f →
    match nm !! p with
    | Some i => i ∈ synced f ∧ cands (Some (file_at f i))
    | None => cands None
    end.

Lemma holds_one_crash p cands f f' : holds_one p cands f → crash f f' → cands (content f' p).
Proof.
  intros Hf [Hn Hs]. specialize (Hf (names f') Hn). unfold content.
  destruct (names f' !! p) as [i|]; [|done]. destruct Hf as [Hi Hc]. cbn. unfold file_at. by rewrite Hs.
Qed.

Lemma holds_one_content p cands f : holds_one p cands f → cands (content f p).
Proof. intros Hf. eapply holds_one_crash; [exact Hf|]. split; [by left|done]. Qed.

Lemma holds_one_weaken p (c1 c2 : option (list Z) → Prop) f :
  (∀ v, c1 v → c2 v) → holds_one p c1 f → holds_one p c2 f.
Proof.
  intros Hc Hf nm Hnm. specialize (Hf nm Hnm). destruct (nm !! p); [|by apply Hc].
  destruct Hf. split; [done|by apply Hc].
Qed.

(** No name of the path, now or before, is this file. *)
Definition not_file (p : Path) (i : Z) (f : Fs) : Prop :=
  ∀ nm, nm = names f ∨ nm ∈ past f → nm !! p ≠ Some i.

Lemma put_file_holds p cands i v f :
  not_file p i f → holds_one p cands f → holds_one p cands (put_file i v f).
Proof.
  intros Hi Hf nm Hnm. specialize (Hf nm Hnm). specialize (Hi nm Hnm). cbn in *.
  destruct (nm !! p) as [j|]; [|done]. assert (j ≠ i) by congruence. destruct Hf.
  unfold file_at. cbn. rewrite lookup_insert_ne by done. split; [set_solver|done].
Qed.

Lemma fs_sync_holds p cands i f : holds_one p cands f → holds_one p cands (fs_sync i f).
Proof.
  intros Hf nm Hnm. specialize (Hf nm Hnm). cbn. destruct (nm !! p); [|done].
  destruct Hf. split; [set_solver|done].
Qed.

Lemma set_names_holds p (cands : option (list Z) → Prop) nm f :
  match nm !! p with
  | Some i => i ∈ synced f ∧ cands (Some (file_at f i))
  | None => cands None
  end → holds_one p cands f → holds_one p cands (set_names nm f).
Proof.
  intros Hnm Hf nm' [->|[->|Hp]%elem_of_cons]; cbn; [done|by apply Hf; left|by apply Hf; right].
Qed.

(** ** Replacing a file through a temporary one *)

(** [tmp] is a file [i] apart from [p], which still holds one of [old]. *)
Record staged (p tmp : Path) (old : option (list Z) → Prop) (i : Z) (v : list Z) (f : Fs) : Prop := {
  st_tmp : names f !! tmp = Some i;
  st_apart : not_file p i f;
  st_holds : holds_one p old f;
  st_file : files f !! i = Some v;
  st_ne : tmp ≠ p;
}.

(** Every name leads to a file. *)
Definition fs_wf (f : Fs) : Prop :=
  ∀ nm p i, nm = names f ∨ nm ∈ past f → nm !! p = Some i → i ∈ dom (files f).

(** A temporary file left by an earlier run is not [p] under another name. *)
Definition tmp_free (p tmp : Path) (f : Fs) : Prop := ∀ i, names f !! tmp = Some i → not_file p i f.

Lemma new_file_apart p f : fs_wf f → not_file p (new_file f) f.
Proof. intros Hf nm Hnm Hi. apply (is_fresh (dom (files f))). by eapply Hf. Qed.

Lemma not_file_names p i nm f : nm !! p = names f !! p → not_file p i f → not_file p i (set_names nm f).
Proof.
  intros Hp Hf nm' [->|[->|Hnm]%elem_of_cons]; cbn; [rewrite Hp; by apply Hf; left|by apply Hf; left|].
  by apply Hf; right.
Qed.

Lemma holds_names p cands nm f : nm !! p = names f !! p → holds_one p cands f → holds_one p cands (set_names nm f).
Proof. intros Hp Hf. apply set_names_holds; [|done]. rewrite Hp. apply Hf. by left. Qed.

Lemma create_staged p tmp old f i f' :
  fs_wf f → tmp_free p tmp f → tmp ≠ p → holds_one p old f → fs_create tmp f = (i, f') →
  staged p tmp old i [] f'.
Proof.
  intros Hwf Hfree Hne Hf. unfold fs_create. destruct (names f !! tmp) as [j|] eqn:Ht; intros [= <- <-].
  - pose proof (Hfree j Ht) as Ha. split; cbn; [done|exact Ha|by apply put_file_holds| |done].
    apply lookup_insert_eq.
  - pose proof (new_file_apart p f Hwf) as Ha. split; [apply lookup_insert_eq| | | |done].
    + apply not_file_names; [by rewrite lookup_insert_ne|exact Ha].
    + apply holds_names; [by rewrite lookup_insert_ne|by apply put_file_holds].
    + apply lookup_insert_eq.
Qed.

Lemma write_staged p tmp old i v off data f :
  staged p tmp old i v f → staged p tmp old i (overwrite off data v) (fs_write i off data f).
Proof.
  intros [Ht Ha Hh Hv Hne]. unfold fs_write, file_at. rewrite Hv. split; cbn; try done.
  - by apply put_file_holds.
  - apply lookup_insert_eq.
Qed.

Lemma sync_staged p tmp old i v f : staged p tmp old i v f → staged p tmp old i v (fs_sync i f).
Proof. intros [Ht Ha Hh Hv Hne]. split; try done. by apply fs_sync_holds. Qed.

Lemma rename_staged p tmp (old : option (list Z) → Prop) i v f :
  staged p tmp old i v f → i ∈ synced f → ∃ f', fs_rename tmp p f = Some f' ∧
    holds_one p (λ c, old c ∨ c = Some v) f' ∧ content f' p = Some v ∧ names f' !! tmp = None.
Proof.
  intros [Ht Ha Hh Hv Hne] Hs. unfold fs_rename. rewrite Ht. cbn. eexists. split; [done|]. split_and!.
  - apply set_names_holds.
    + rewrite lookup_insert_eq. split; [done|]. right. unfold file_at. by rewrite Hv.
    + eapply holds_one_weaken; [|exact Hh]. by left.
  - unfold content, file_at. cbn. rewrite lookup_insert_eq. cbn. by rewrite Hv.
  - cbn. rewrite lookup_insert_ne by done. apply lookup_delete_eq.
Qed.

Lemma remove_staged p tmp old i v f : staged p tmp old i v f →
  ∃ f', fs_remove tmp f = Some f' ∧ holds_one p old f' ∧ names f' !! tmp = None ∧
    content f' p = content f p.
Proof.
  intros [Ht Ha Hh Hv Hne]. unfold fs_remove. rewrite Ht. cbn. eexists. split; [done|]. split_and!.
  - apply holds_names; [by rewrite lookup_delete_ne|done].
  - apply lookup_delete_eq.
  - unfold content. cbn. by rewrite lookup_delete_ne.
Qed.

Lemma overwrite_end v data : overwrite (length v) data v = v ++ data.
Proof.
  unfold overwrite. rewrite take_ge by done. rewrite Nat.sub_diag. cbn.
  rewrite drop_ge by lia. by rewrite app_nil_r.
Qed.
Lemma overwrite_short v n data : overwrite (length v) (take n data) v = v ++ take n data.
Proof. apply overwrite_end. Qed.

(** ** Every name leads to a file, still *)

Lemma put_file_wf i v f : fs_wf f → fs_wf (put_file i v f).
Proof. intros Hf nm p j Hnm Hp. cbn. rewrite dom_insert. apply elem_of_union_r. by eapply Hf. Qed.

Lemma set_names_wf nm f : (∀ p i, nm !! p = Some i → i ∈ dom (files f)) → fs_wf f → fs_wf (set_names nm f).
Proof.
  intros Hn Hf nm' p i [->|[->|Hp]%elem_of_cons]; cbn; [by apply Hn|by apply Hf; left|by apply Hf; right].
Qed.

Lemma fs_create_wf p f : fs_wf f → fs_wf (fs_create p f).2.
Proof.
  intros Hf. unfold fs_create. destruct (names f !! p) as [i|]; [by apply put_file_wf|]. cbn.
  apply set_names_wf; [|by apply put_file_wf]. cbn. intros q i. rewrite dom_insert, lookup_insert_Some.
  intros [[_ <-]|[_ Hq]]; [set_solver|]. apply elem_of_union_r. eapply Hf; [by left|done].
Qed.

Lemma fs_remove_some p f f' : fs_remove p f = Some f' → f' = set_names (delete p (names f)) f.
Proof. unfold fs_remove. by destruct (names f !! p); [intros [= <-]|]. Qed.

Lemma fs_remove_wf p f f' : fs_wf f → fs_remove p f = Some f' → fs_wf f'.
Proof.
  intros Hf ->%fs_remove_some.
  apply set_names_wf; [|done]. intros q i [_ Hq]%lookup_delete_Some. eapply Hf; [by left|done].
Qed.

Lemma fs_rename_wf p q f f' : fs_wf f → fs_rename p q f = Some f' → fs_wf f'.
Proof.
  intros Hf. unfold fs_rename. destruct (names f !! p) as [j|] eqn:Hj; [|done]. intros [= <-].
  apply set_names_wf; [|done]. intros r i [[_ <-]|[_ [_ Hr]%lookup_delete_Some]]%lookup_insert_Some;
    (eapply Hf; [by left|done]).
Qed.

(** Removing or renaming other names leaves a path alone. *)
Lemma remove_other p q old f f' :
  q ≠ p → holds_one p old f → fs_remove q f = Some f' →
  holds_one p old f' ∧ names f' !! p = names f !! p ∧ ∀ i, not_file p i f → not_file p i f'.
Proof.
  intros Hne Hf ->%fs_remove_some.
  assert (delete q (names f) !! p = names f !! p) as Hp by by rewrite lookup_delete_ne.
  split_and!; [by apply holds_names|done|]. intros i. by apply not_file_names.
Qed.

(** ** Paths ([std::path], Unix) *)

(** Without its last separators and its last [.] components; [r] is reversed. *)
Fixpoint strip_rev (r : list Z) : list Z :=
  match r with
  | 47 :: ((_ :: _) as r) => strip_rev r
  | 46 :: ((47 :: _) as r) => strip_rev r
  | _ => r
  end.

(** The last component, and the rest of [r] before it, reversed. *)
Fixpoint span_name (r acc : list Z) : list Z * list Z :=
  match r with
  | [] => (acc, [])
  | 47 :: _ => (acc, r)
  | c :: r => span_name r (c :: acc)
  end.

(** [Path::file_name]: the last component, when it is a name. *)
Definition file_name (p : Path) : option (list Z) :=
  let name := (span_name (strip_rev (rev p)) []).1 in
  if bool_decide (name ∈ [[]; [46]; [46; 46]]) then None else Some name.

(** [Path::parent] is [Some] unless there are no components. *)
Definition has_parent (p : Path) : bool := negb (bool_decide (strip_rev (rev p) ∈ [[]; [47]])).

(** [Path::join]: a relative path under [p]. *)
Definition path_join (p name : Path) : Path :=
  match last p with
  | None => name
  | Some c => if c =? 47 then p ++ name else p ++ 47 :: name
  end.

(** [Path::with_file_name] *)
Definition with_file_name (p : Path) (name : list Z) : Path :=
  match file_name p with
  | Some _ => path_join (rev (strip_rev (span_name (strip_rev (rev p)) []).2)) name
  | None => path_join p name
  end.

Lemma span_name_spec r : ∀ acc,
  let '(name, rest) := span_name r acc in
  (∃ w, name = w ++ acc ∧ Forall (λ c, c ≠ 47) w) ∧ (rest = [] ∨ head rest = Some 47).
Proof.
  induction r as [|c r IH]; intros acc; cbn [span_name].
  - split; [by exists []|by left].
  - destruct (decide (c = 47)) as [->|Hc]; [split; [by exists []|by right]|].
    assert ((if decide (c = 47) then (acc, c :: r) else span_name r (c :: acc)) =
      match c with 47 => (acc, c :: r) | _ => span_name r (c :: acc) end) as <-.
    { rewrite decide_False by done. destruct c as [|p|p]; try done.
      do 6 (destruct p as [p|p|]; try done). }
    rewrite decide_False by done. specialize (IH (c :: acc)).
    destruct (span_name r (c :: acc)) as [name rest]. destruct IH as [(w & -> & Hw) Hr].
    split; [|done]. exists (w ++ [c]). rewrite <- (assoc_L (++)). split; [done|].
    apply Forall_app_2; [done|by constructor].
Qed.

Lemma span_name_app w : ∀ r acc, Forall (λ c, c ≠ 47) w → r = [] ∨ head r = Some 47 →
  span_name (w ++ r) acc = (rev w ++ acc, r).
Proof.
  induction w as [|c w IH]; intros r acc Hw Hr; cbn [app rev].
  - destruct r as [|c r]; [done|]. destruct Hr as [|[= ->]]; done.
  - apply Forall_cons_1 in Hw as [Hc Hw]. rewrite <- (assoc_L (++)). cbn [app].
    rewrite <- IH by done. cbn [span_name]. destruct c as [|p|p]; try done.
    do 6 (destruct p as [p|p|]; try done).
Qed.

(** The name of a path that ends in this name. *)
Lemma file_name_join base name c :
  base = [] ∨ last base = Some 47 → Forall (λ c, c ≠ 47) name → last name = Some c → c ≠ 46 →
  (span_name (strip_rev (rev (base ++ name))) []).1 = name.
Proof.
  intros Hb Hn Hl Hc. rewrite rev_app_distr.
  assert (strip_rev (rev name ++ rev base) = rev name ++ rev base) as ->.
  { apply last_Some in Hl as [l ->]. rewrite rev_app_distr. cbn.
    apply Forall_app in Hn as [_ [H47 _]%Forall_cons_1].
    destruct c as [|p|p]; try done. do 6 (destruct p as [p|p|]; try done). }
  rewrite span_name_app; cbn.
  - by rewrite app_nil_r, rev_involutive.
  - by apply Forall_rev.
  - destruct Hb as [->|[l ->]%last_Some]; [by left|right]. by rewrite rev_app_distr.
Qed.

Lemma path_join_base p name : ∃ base, path_join p name = base ++ name ∧ (base = [] ∨ last base = Some 47).
Proof.
  unfold path_join. destruct (last p) as [c|] eqn:Hl.
  - destruct (Z.eqb_spec c 47) as [->|]; [exists p; split; [done|by right]|].
    exists (p ++ [47]). rewrite <- (assoc_L (++)). split; [done|]. right. by rewrite last_snoc.
  - exists []. split; [done|by left].
Qed.

Example with_file_name_1 : with_file_name [97; 47; 98] [99] = [97; 47; 99]. (* a/b *)
Proof. reflexivity. Qed.
Example with_file_name_2 : with_file_name [47; 98; 47; 46; 47] [99] = [47; 99]. (* /b/./ *)
Proof. reflexivity. Qed.
Example with_file_name_3 : with_file_name [46; 46] [99] = [46; 46; 47; 99]. (* .. *)
Proof. reflexivity. Qed.
