(* ===== verification/Config.v ===== *)
(** * Key files, pins and settings ([src/config.rs])

    The files that noissh keeps: the private key with its public copy, the pinned
    host keys, the settings.  They are read and written over the file system of
    [Files]; a crash may come between any two calls.  Modes of files and the
    directories they are in are left out: making the directories is a call that
    works or fails. *)

From stdpp Require Import gmap.
From S2P Require Import Prelude Cell Text NoiseCore Session Handshake Auth Runtime Files.

(** The scalar multiplication of the curve library. *)
Class Dalek := { mul_base_clamped : list Z → list Z }.

(** @ crates/noise-core/src/lib.rs:53-60 public_from_private *)
Definition public_from_private `{Dalek} (private : list Z) : option (list Z) :=
  if (length private =? KEY_LEN)%nat then Some (mul_base_clamped private) else None.

(** "noissh", ".config", ".pub", "private", "public", ".tmp-", "config", "port" *)
Definition S_NOISSH : list Z := [110; 111; 105; 115; 115; 104].
Definition S_DOT_CONFIG : list Z := [46; 99; 111; 110; 102; 105; 103].
Definition S_DOT_PUB : list Z := [46; 112; 117; 98].
Definition S_PRIVATE : list Z := [112; 114; 105; 118; 97; 116; 101].
Definition S_PUBLIC : list Z := [112; 117; 98; 108; 105; 99].
Definition S_DOT_TMP : list Z := [46; 116; 109; 112; 45].
Definition S_CONFIG : list Z := [99; 111; 110; 102; 105; 103].
Definition S_PORT : list Z := [112; 111; 114; 116].

(** [xdg] and [home] are the environment's variables.
    @ src/config.rs:14-22 config_dir *)
Definition config_dir (xdg home : option (list Z)) : Path :=
  match xdg with
  | Some (c :: x) => path_join (c :: x) S_NOISSH
  | _ => path_join (path_join (default [46] home) S_DOT_CONFIG) S_NOISSH
  end.

(** @ src/config.rs:248-250 config_file_path *)
Definition config_file_path (xdg home : option (list Z)) : Path := path_join (config_dir xdg home) S_CONFIG.

(** @ src/config.rs:26-30 public_key_path *)
Definition public_key_path (path : Path) : Path := path ++ S_DOT_PUB.

(** @ src/config.rs:254-258 Config *)
Record Config := mkConfig { port : option Z }.

(** One line of the settings: blank lines, comments, bare words and what does not
    parse are passed over. @ src/config.rs:273-295 load_config *)
Definition config_line (cfg : Config) (raw : list Z) : Config :=
  let line := trim raw in
  if skipped line then cfg
  else
    match (match split_once (λ c, c =? 61) line with
           | Some (k, v) => Some (trim k, trim v)
           | None =>
             match split_once is_whitespace line with
             | Some (k, v) => Some (trim k, trim v)
             | None => None
             end
           end) with
    | Some (key, value) =>
      if bool_decide (value = []) then cfg
      else
        if bool_decide (key = S_PORT) then
          match parse_uint (2 ^ 16 - 1) value with Some p => mkConfig (Some p) | None => cfg end
        else cfg
    | None => cfg
    end.

(** [contents] is what could be read. @ src/config.rs:266-298 load_config *)
Definition load_config (contents : option (list Z)) : Config :=
  match contents with
  | None => mkConfig None
  | Some c => foldl config_line (mkConfig None) (lines c)
  end.

(** [?] on an [std::io::Error]. *)
Notation "'try' x <- m ; k" := (io_bind m (λ r, match r with Some x => k | None => io_ret (Err RtIo) end))
  (at level 20, x pattern, m at level 100, k at level 200, right associativity) : io_scope.

Section config.
Context {N : Snow} {B64 : Base64} {DK : Dalek}.

Local Open Scope io_scope.

(** [path.exists()], [fs::read_to_string] and [fs::create_dir_all]. *)
Definition io_exists (p : Path) : Io bool :=
  do e <- call (λ f, _ ← names f !! p; Some ((), f)); io_ret (bool_decide (is_Some e)).
Definition io_read_string (p : Path) : Io (option (list Z)) :=
  do c <- io_read p; io_ret (c ≫= from_utf8).
(** The same where a missing file is told from other errors. *)
Definition io_find_string (p : Path) : Io (option (option (list Z))) :=
  call (λ f, Some (content f p, f)).
Definition io_mkdirs : Io (option unit) := call (λ f, Some ((), f)).
Definition io_mkparent (p : Path) : Io (option unit) := if has_parent p then io_mkdirs else io_ret (Some ()).

(** @ src/config.rs:98-100 private_key_text *)
Definition private_key_text (kp : Keypair) : list Z := S_PRIVATE ++ [32] ++ b64_encode (private kp) ++ [10].

(** [user] and [logname] are the environment's, [host] the host's name.
    @ src/config.rs:103-117 key_comment *)
Definition key_comment (user logname host : option (list Z)) : list Z :=
  let user := match user with Some u => u | None => default [] logname end in
  let host := default [] host in
  match user, host with
  | _ :: _, _ :: _ => user ++ [64] ++ host
  | _ :: _, [] => user
  | [], _ => host
  end.

(** The two halves that a key file's lines give.
    @ src/config.rs:54-64 load_or_generate_keypair *)
Definition key_line (st : option (list Z) * option (list Z)) (line : list Z) :
    result RuntimeError (option (list Z) * option (list Z)) :=
  match split_whitespace line with
  | w :: b64 :: _ =>
    if bool_decide (w = S_PRIVATE) then
      p ← ok_or (b64_decode b64) BadKeyFile; Ok (Some p, st.2)
    else if bool_decide (w = S_PUBLIC) then
      p ← ok_or (b64_decode b64) BadKeyFile; Ok (st.1, Some p)
    else Ok st
  | _ => Ok st
  end.

Fixpoint key_lines (st : option (list Z) * option (list Z)) (ls : list (list Z)) :
    result RuntimeError (option (list Z) * option (list Z)) :=
  match ls with [] => Ok st | l :: ls => st ← key_line st l; key_lines st ls end.

(** The pair of a key file, and whether the file holds the public half too.
    @ src/config.rs:51-72 load_or_generate_keypair *)
Definition parse_key_file (contents : list Z) : result RuntimeError (Keypair * bool) :=
  '(private, legacy_public) ← key_lines (None, None) (lines contents);
  private ← ok_or private BadKeyFile;
  public ← ok_or (public_from_private private) BadKeyFile;
  match legacy_public with
  | Some p =>
    if bool_decide (p = public) then Ok (mkKeypair private public, true) else Err BadKeyFile
  | None => Ok (mkKeypair private public, false)
  end.

(** @ src/config.rs:173-185 write_private *)
Definition write_private (path : Path) (body : list Z) : Io (result RuntimeError unit) :=
  try i <- io_create_new path;
  try _ <- io_write i 0 body;
  try _ <- io_sync i;
  io_ret (Ok ()).

(** @ src/config.rs:159-169 rewrite_private *)
Definition rewrite_private (pid : Z) (path : Path) (body : list Z) : Io (result RuntimeError unit) :=
  let tmp := path ++ S_DOT_TMP ++ digits pid in
  do _ <- io_remove tmp;
  do result <- (do w <- write_private tmp body;
    match w with Ok _ => try _ <- io_rename tmp path; io_ret (Ok ()) | Err e => io_ret (Err e) end);
  if is_ok result then io_ret result else do _ <- io_remove tmp; io_ret result.

(** The public copy is written when it is missing; nothing that goes wrong
    matters. [comment] is the key's comment.
    @ src/config.rs:122-154 ensure_public_key_file *)
Definition ensure_public_key_file (comment : list Z) (path : Path) (kp : Keypair) : Io unit :=
  match from_bytes (public kp) with
  | Err _ => io_ret ()
  | Ok public =>
    let pub_path := public_key_path path in
    do e <- io_find_string pub_path;
    match e with
    | Some None =>
      let line := match comment with [] => key_to_text public ++ [10]
                  | _ => key_to_text public ++ [32] ++ comment ++ [10] end in
      do c <- io_create pub_path;
      match c with
      | Some i => do _ <- io_write i 0 (as_bytes line); io_ret ()
      | None => io_ret ()
      end
    | _ => io_ret ()
    end
  end.

(** [gen] is the key pair that would be generated.
    @ src/config.rs:45-95 load_or_generate_keypair *)
Definition load_or_generate_keypair (pid : Z) (comment : list Z) (gen : result NoiseError Keypair)
    (path : Path) : Io (result RuntimeError Keypair) :=
  do e <- io_exists path;
  if e then
    try contents <- io_read_string path;
    match parse_key_file contents with
    | Err err => io_ret (Err err)
    | Ok (kp, legacy) =>
      do _ <- (if legacy then rewrite_private pid path (as_bytes (private_key_text kp)) else io_ret (Ok ()));
      do _ <- ensure_public_key_file comment path kp;
      io_ret (Ok kp)
    end
  else
    match gen with
    | Err err => io_ret (Err (RtNoise err))
    | Ok kp =>
      try _ <- io_mkparent path;
      do w <- write_private path (as_bytes (private_key_text kp));
      match w with
      | Err err => io_ret (Err err)
      | Ok _ => do _ <- ensure_public_key_file comment path kp; io_ret (Ok kp)
      end
    end.

(** @ src/config.rs:209-215 load_known_hosts *)
Definition load_known_hosts (path : Path) : Io (result RuntimeError KnownHosts) :=
  do e <- io_exists path;
  if e then try c <- io_read_string path; io_ret (Ok (known_parse c)) else io_ret (Ok ∅).

(** @ src/config.rs:221-236 save_known_hosts *)
Definition save_known_hosts (pid : Z) (path : Path) (kh : KnownHosts) : Io (result RuntimeError unit) :=
  try _ <- io_mkparent path;
  let tmp := path ++ S_DOT_TMP ++ digits pid in
  try i <- io_create tmp;
  try _ <- io_write i 0 (as_bytes (known_to_text kh));
  try _ <- io_sync i;
  try _ <- io_rename tmp path;
  io_ret (Ok ()).

(** @ src/config.rs:239-245 load_authorized_keys *)
Definition load_authorized_keys (path : Path) : Io (result RuntimeError AuthorizedKeys) :=
  do e <- io_exists path;
  if e then try c <- io_read_string path; io_ret (Ok (authorized_parse c)) else io_ret (Ok []).
End config.

(** ** Replacing a file *)

Lemma holds_old p (old : option (list Z) → Prop) body f :
  holds_one p old f → holds_one p (λ c, old c ∨ c = Some body) f.
Proof. apply holds_one_weaken. by left. Qed.

Section replace.
Context {N : Snow} (p tmp : Path) (old : option (list Z) → Prop) (body : list Z).
Local Open Scope io_scope.

(** What the path may hold while it is replaced. *)
Definition old_or_new (c : option (list Z)) : Prop := old c ∨ c = Some body.

(** What else is known of the temporary file. *)
Context (E : Z → Fs → Prop).
Hypothesis E_write : ∀ i off data f, E i f → E i (fs_write i off data f).
Hypothesis E_sync : ∀ i f, E i f → E i (fs_sync i f).

Definition stage (i : Z) (v : list Z) (f : Fs) : Prop := staged p tmp old i v f ∧ E i f.

Context {A : Type} (Q : result RuntimeError A → Fs → Prop).
Local Abbreviation I := (holds_one p old_or_new).

Lemma stage_old i v f : stage i v f → I f.
Proof. intros [Hf _]. by eapply holds_old, st_holds. Qed.

Lemma runs_stage_create (op : Fs → option (Z * Fs)) k f :
  (∀ i f', op f = Some (i, f') → stage i [] f') →
  (∀ i f', stage i [] f' → runs (k i) I Q f') → Q (Err RtIo) f →
  runs (try i <- call op; k i) I Q f.
Proof.
  intros Hop Hk He. apply runs_bind, runs_call; [|by apply runs_ret].
  intros i f' Hi%Hop. split; [by eapply stage_old|by apply Hk].
Qed.

Lemma runs_stage_write i k f :
  stage i [] f → (∀ f', stage i body f' → runs k I Q f') → (∀ v f', stage i v f' → Q (Err RtIo) f') →
  runs (try _ <- io_write i 0 body; k) I Q f.
Proof.
  intros Hf Hk He.
  assert (∀ data, stage i data (fs_write i 0 data f)) as Hw.
  { intros data. destruct Hf as [Hf HE]. pose proof (write_staged _ _ _ _ _ 0 data _ Hf) as Hw.
    assert (overwrite 0 data [] = data) as He0 by apply (overwrite_end []). rewrite He0 in Hw.
    split; [done|by apply E_write]. }
  apply runs_bind, runs_write.
  - split; [by eapply stage_old|apply Hk, Hw].
  - intros n. split; [by eapply stage_old|]. by apply runs_ret, (He (take n body)).
  - by apply runs_ret, (He []).
Qed.

Lemma runs_stage_sync i v k f :
  stage i v f → (∀ f', stage i v f' → i ∈ synced f' → runs k I Q f') →
  (∀ f', stage i v f' → Q (Err RtIo) f') →
  runs (try _ <- io_sync i; k) I Q f.
Proof.
  intros Hf Hk He. apply runs_bind, runs_call; [|by apply runs_ret, He].
  intros [] f' [= <-]. destruct Hf as [Hf HE].
  assert (stage i v (fs_sync i f)) as Hs by (split; [by apply sync_staged|by apply E_sync]).
  split; [by eapply stage_old|]. apply Hk; [done|]. apply elem_of_union_l, elem_of_singleton_2. reflexivity.
Qed.

Lemma runs_stage_rename i k f :
  stage i body f → i ∈ synced f →
  (∀ f', fs_rename tmp p f = Some f' → holds_one p old_or_new f' → content f' p = Some body → runs k I Q f') →
  (∀ f', stage i body f' → Q (Err RtIo) f') →
  runs (try _ <- io_rename tmp p; k) I Q f.
Proof.
  intros Hf Hi Hk He. destruct (rename_staged _ _ _ _ _ _ (proj1 Hf) Hi) as (f1 & Hr & Hh & Hc & Ht).
  apply runs_bind, runs_call; [|by apply runs_ret, He].
  intros [] f'. rewrite Hr. intros [= <-]. split; [done|by apply Hk].
Qed.
End replace.

Section pins.
Context {N : Snow} {B64 : Base64} `{!Base64Laws}.

Lemma tmp_ne (p : Path) pid : p ++ S_DOT_TMP ++ digits pid ≠ p.
Proof. intros He. apply (f_equal length) in He. rewrite !length_app in He. cbn in He. lia. Qed.

Lemma runs_mkparent p I (Q : option unit → Fs → Prop) f :
  I f → Q (Some ()) f → Q None f → runs (io_mkparent p) I Q f.
Proof.
  intros. unfold io_mkparent. destruct (has_parent p); [|by apply runs_ret].
  apply runs_call; [|done]. by intros [] f' [= <-].
Qed.

Lemma save_runs pid p kh (old : option (list Z) → Prop) f :
  fs_wf f → tmp_free p (p ++ S_DOT_TMP ++ digits pid) f → holds_one p old f →
  runs (save_known_hosts pid p kh) (holds_one p (old_or_new old (as_bytes (known_to_text kh))))
    (λ r f', match r with
             | Ok _ => content f' p = Some (as_bytes (known_to_text kh))
             | Err _ => holds_one p old f'
             end) f.
Proof.
  intros Hwf Hfree Hf. pose proof (tmp_ne p pid) as Hne. unfold save_known_hosts.
  set (tmp := p ++ S_DOT_TMP ++ digits pid) in *. set (E := λ (_ : Z) (_ : Fs), True).
  assert (∀ i v f', stage p tmp old E i v f' → holds_one p old f') as He
    by (intros i v f' [Hs _]; exact (st_holds _ _ _ _ _ _ Hs)).
  apply runs_bind, runs_mkparent; [by apply holds_old| |by apply runs_ret].
  apply (runs_stage_create p tmp old _ E); [|intros i f1 H1|done].
  { intros i f' [= Hc]. split; [by eapply create_staged|done]. }
  apply (runs_stage_write p tmp old _ E) with (1 := λ _ _ _ _ H, H) (2 := H1); [|by eauto]. intros f2 H2.
  apply (runs_stage_sync p tmp old _ E) with (1 := λ _ _ H, H) (2 := H2); [|by eauto]. intros f3 H3 Hi.
  apply (runs_stage_rename p tmp old _ E _ _ _ _ H3 Hi); [|by eauto]. intros f4 _ _ Hc. by apply runs_ret.
Qed.

(** The pins that a path holds. *)
Definition stores (kh : KnownHosts) (c : option (list Z)) : Prop :=
  match c with Some b => b = as_bytes (known_to_text kh) | None => kh = ∅ end.

Definition pins_ok (kh : KnownHosts) : Prop :=
  pins_wf kh ∧ ∀ h k, kh !! h = Some k → Forall is_char h.

Lemma load_stored p kh f : pins_ok kh → stores kh (content f p) →
  run_result (load_known_hosts p) [] f = Ok kh.
Proof.
  intros [Hwf Hc]. unfold run_result, load_known_hosts, io_exists, io_read_string, io_read, io_bind, call, content.
  destruct (names f !! p) as [i|] eqn:Hi; cbn; [|by intros ->].
  intros Hs. unfold content. rewrite Hi. cbn. rewrite Hs, from_utf8_as_bytes by by apply known_to_text_chars.
  cbn. by rewrite known_hosts_roundtrip.
Qed.
End pins.

(** C13 A pin is never lost: if saving the known hosts is interrupted anywhere, by
    an error or a crash after any call, reading them gives the old pins or the new
    ones, complete; the new ones once saving has reported success, the old ones
    once it has reported an error. *)
Theorem pins_survive_crash {N : Snow} {B64 : Base64} `{!Base64Laws} pid p kh0 kh ans f :
  fs_wf f → tmp_free p (p ++ S_DOT_TMP ++ digits pid) f → holds_one p (stores kh0) f →
  pins_ok kh0 → pins_ok kh →
  let save := save_known_hosts pid p kh in
  let load := λ f, run_result (load_known_hosts p) [] f in
  (∀ g g', g ∈ run_states save ans f → crash g g' → load g' = Ok kh0 ∨ load g' = Ok kh) ∧
  load (run_end save ans f) = if is_ok (run_result save ans f) then Ok kh else Ok kh0.
Proof.
  intros Hwf Hfree Hf H0 H1 save load.
  destruct (runs_states save _ _ ans f (holds_old p (stores kh0) _ f Hf)
    (save_runs pid p kh (stores kh0) f Hwf Hfree Hf)) as [Ht Hr].
  split.
  - intros g g' Hg Hc. apply (proj1 (Forall_forall _ _) Ht), (λ H, holds_one_crash _ _ _ _ H Hc) in Hg.
    destruct Hg as [Hs|Hs]; [left|right]; apply load_stored; try done. by rewrite Hs.
  - destruct (run_result save ans f); cbn; apply load_stored; try done.
    + by rewrite Hr.
    + by apply holds_one_content.
Qed.

(** ** The key file *)

Section key.
Context {N : Snow} {B64 : Base64} {DK : Dalek} `{!Base64Laws} (p : Path) (pid : Z) (kp : Keypair).
Local Open Scope io_scope.
Local Abbreviation tmp := (p ++ S_DOT_TMP ++ digits pid).
Local Abbreviation pub := (public_key_path p).

(** A content that is this key pair, in the old format or the new one. *)
Definition key_content (c : option (list Z)) : Prop :=
  ∃ b t legacy, c = Some b ∧ from_utf8 b = Some t ∧ parse_key_file t = Ok (kp, legacy).

(** The path holds the key, and its public copy is another file. *)
Record key_inv (f : Fs) : Prop := {
  ki_holds : holds_one p key_content f;
  ki_wf : fs_wf f;
  ki_pub : tmp_free p pub f;
}.

Lemma pub_ne : pub ≠ p.
Proof. intros He. apply (f_equal length) in He. unfold public_key_path in He. rewrite length_app in He. cbn in He. lia. Qed.
Lemma tmp_ne_pub : tmp ≠ pub.
Proof. unfold public_key_path, S_DOT_TMP, S_DOT_PUB. intros He%app_inv_head. discriminate He. Qed.

Lemma remove_inv f f' : key_inv f → fs_remove tmp f = Some f' → key_inv f'.
Proof.
  intros [Hh Hwf Hpub] Hr. pose proof (tmp_ne p pid) as Hne.
  destruct (remove_other p tmp _ _ _ Hne Hh Hr) as (Hh' & _ & Hn). split; [done|by eapply fs_remove_wf|].
  intros i Hi. apply Hn, Hpub. apply fs_remove_some in Hr as ->. cbn in Hi. by rewrite lookup_delete_ne in Hi by apply tmp_ne_pub.
Qed.

Definition apart_pub (i : Z) (f : Fs) : Prop :=
  fs_wf f ∧ tmp_free p pub f ∧ names f !! pub ≠ Some i.

Lemma apart_put i v f : apart_pub i f → apart_pub i (put_file i v f).
Proof. intros (Hwf & Hfree & Hp). split_and!; [by apply put_file_wf|exact Hfree|done]. Qed.

Lemma create_apart f i f' :
  fs_wf f → tmp_free p pub f → fs_create tmp f = (i, f') → names f !! tmp = None → apart_pub i f'.
Proof.
  intros Hwf Hfree Hc Ht. pose proof (fs_create_wf tmp f Hwf) as Hwf'. rewrite Hc in Hwf'.
  unfold fs_create in Hc. rewrite Ht in Hc. injection Hc as <- <-.
  pose proof (tmp_ne p pid) as Hne. pose proof tmp_ne_pub as Hnp. split_and!; [done| |].
  - intros j Hj. cbn in Hj. rewrite lookup_insert_ne in Hj by done.
    apply not_file_names; [by cbn; rewrite lookup_insert_ne|]. by apply (Hfree j).
  - cbn. rewrite lookup_insert_ne by done. intros Hn.
    by apply (new_file_apart pub f Hwf (names f) (or_introl eq_refl)).
Qed.

Lemma rename_apart i f f' :
  names f !! tmp = Some i → apart_pub i f → fs_rename tmp p f = Some f' → fs_wf f' ∧ tmp_free p pub f'.
Proof.
  intros Ht (Hwf & Hfree & Hp) Hr. split; [by eapply fs_rename_wf|].
  unfold fs_rename in Hr. rewrite Ht in Hr. injection Hr as <-. intros j Hj. cbn in Hj.
  rewrite lookup_insert_ne, lookup_delete_ne in Hj by (apply tmp_ne_pub || apply not_eq_sym, pub_ne).
  intros nm [->|[->|Hnm]%elem_of_cons]; cbn.
  - rewrite lookup_insert_eq. intros [= ->]. congruence.
  - apply (Hfree j Hj). by left.
  - apply (Hfree j Hj). by right.
Qed.

Lemma stage_inv i v f : stage p tmp key_content apart_pub i v f → key_inv f.
Proof. intros [Hs (Hwf & Hfree & _)]. split; [exact (st_holds _ _ _ _ _ _ Hs)|done|done]. Qed.

(** The text that the key is rewritten to. *)
Lemma private_text_parses :
  Forall is_u8 (private kp) → public_from_private (private kp) = Some (public kp) →
  key_content (Some (as_bytes (private_key_text kp))).
Proof.
  intros Hu Hp. exists (as_bytes (private_key_text kp)), (private_key_text kp), false.
  assert (private kp ≠ []) as Hne.
  { unfold public_from_private in Hp. intros He. by rewrite He in Hp. }
  pose proof (b64_solid _ Hu) as Hs.
  assert (solid S_PRIVATE) as Hs0 by (by repeat constructor).
  split_and!; [done| |].
  - apply from_utf8_as_bytes. unfold private_key_text.
    apply Forall_app_2; [apply (bool_decide_unpack _); vm_compute; exact I|].
    apply (Forall_app_2 _ [32]); [apply (bool_decide_unpack _); vm_compute; exact I|].
    apply Forall_app_2; [|apply (bool_decide_unpack _); vm_compute; exact I].
    eapply Forall_impl; [by apply b64_ascii|]. unfold is_char. intros. lia.
  - unfold parse_key_file, private_key_text.
    assert (lines (S_PRIVATE ++ [32] ++ b64_encode (private kp) ++ [10]) =
      [S_PRIVATE ++ 32 :: b64_encode (private kp)]) as ->.
    { unfold lines. rewrite !(assoc_L (++)), lines_from_app.
      - cbn [app]. f_equal. rewrite <- (assoc_L (++)). cbn [app].
        destruct (last (b64_encode (private kp))) as [c|] eqn:Hc;
          [|by apply last_None, b64_nonempty in Hc].
        apply (strip_cr_id _ c); [rewrite cons_middle, (assoc_L (++)); by apply last_app_solid|].
        intros ->. rewrite last_lookup in Hc. apply list_elem_of_lookup_2 in Hc.
        by apply (proj1 (Forall_forall _ _) Hs) in Hc.
      - rewrite !elem_of_app. intros [[Hin|Hin]|Hin]; [|by apply list_elem_of_singleton in Hin|];
          by apply solid_not_in in Hin. }
    cbn [key_lines]. unfold key_line.
    rewrite split_whitespace_two by (done || by apply b64_nonempty).
    rewrite bool_decide_eq_true_2 by done. rewrite b64_decode_encode by done. cbn. rewrite Hp. cbn.
    by destruct kp.
Qed.

Context (Hu : Forall is_u8 (private kp)) (Hp : public_from_private (private kp) = Some (public kp)).
Local Abbreviation I := (holds_one p key_content).
Local Abbreviation body := (as_bytes (private_key_text kp)).

Lemma new_is_key f : holds_one p (old_or_new key_content body) f → I f.
Proof.
  apply holds_one_weaken. intros v [Hv|Hv]; [exact Hv|rewrite Hv; by apply private_text_parses].
Qed.

Lemma runs_remove_tmp {A} (k : option unit → Io A) J (Q : A → Fs → Prop) f :
  (∀ f, key_inv f → J f) → key_inv f →
  (∀ r f', key_inv f' → runs (k r) J Q f') → runs (io_bind (io_remove tmp) k) J Q f.
Proof.
  intros HJ Hf Hk. apply runs_bind, runs_call; [|by apply Hk]. intros [] f'.
  destruct (fs_remove tmp f) as [f1|] eqn:Hr; [|done]. intros [= <-].
  pose proof (remove_inv _ _ Hf Hr) as Hf1. split; [by apply HJ|by apply Hk].
Qed.

Lemma rewrite_runs f : key_inv f → runs (rewrite_private pid p body) I (λ _ f', key_inv f') f.
Proof.
  intros Hf. unfold rewrite_private.
  apply runs_remove_tmp; [by intros ? []|done|]. intros _ f0 Hf0.
  apply runs_bind. eapply runs_weaken with (Q1 := λ _ f', key_inv f'); [apply new_is_key| |].
  { intros r f1 Hf1. destruct (is_ok r); [by apply runs_ret|].
    apply runs_remove_tmp; [by intros ? []|done|]. intros _ f2 Hf2. by apply runs_ret. }
  apply runs_bind. unfold write_private.
  set (Q := λ (a : result RuntimeError ()) f', _).
  pose proof (apart_put) as Hput.
  assert (∀ i v f', stage p tmp key_content apart_pub i v f' → Q (Err RtIo) f') as He.
  { intros i v f' Hs. apply runs_ret. by eapply stage_inv. }
  apply (runs_stage_create p tmp key_content _ apart_pub); [|intros i f1 H1|by apply runs_ret].
  { intros i f'. destruct (names f0 !! tmp) eqn:Ht; [done|]. intros [= Hc]. destruct Hf0 as [Hh Hwf Hpub].
    split; [|by eapply create_apart].
    eapply create_staged; [done| |apply tmp_ne|exact Hh|exact Hc]. intros j Hj. congruence. }
  apply (runs_stage_write p tmp key_content _ apart_pub) with (2 := H1); [by intros; apply Hput| |by eauto].
  intros f2 H2.
  apply (runs_stage_sync p tmp key_content _ apart_pub) with (2 := H2); [done| |by eauto].
  intros f3 H3 Hi. apply runs_ret.
  apply (runs_stage_rename p tmp key_content _ apart_pub _ _ _ _ H3 Hi);
    [|intros f4 H4; by eapply stage_inv].
  intros f4 Hr Hh _. apply runs_ret. destruct H3 as [Hs Ha].
  destruct (rename_apart i f3 f4 (st_tmp _ _ _ _ _ _ Hs) Ha Hr). split; [by apply new_is_key|done|done].
Qed.

Lemma ensure_runs comment f : key_inv f → runs (ensure_public_key_file comment p kp) I (λ _ f', key_inv f') f.
Proof.
  intros Hf. unfold ensure_public_key_file. destruct (from_bytes (public kp)) as [k|]; [|by apply runs_ret].
  apply runs_bind, runs_call; [|by apply runs_ret]. intros c f' [= <- <-]. split; [by apply ki_holds|].
  destruct (content f pub); [by apply runs_ret|].
  destruct Hf as [Hh Hwf Hpub]. apply runs_bind, runs_call; [|by apply runs_ret].
  intros i f1 [= Hc]. pose proof (create_staged p pub key_content f i f1 Hwf Hpub pub_ne Hh Hc) as Hs.
  pose proof (fs_create_wf pub f Hwf) as Hwf1. rewrite Hc in Hwf1. cbn in Hwf1.
  assert (∀ v f2, staged p pub key_content i v f2 → fs_wf f2 → key_inv f2) as Hinv.
  { intros v f2 [Ht Ha Hh2 _ _] Hwf2. split; [done|done|]. intros j Hj. rewrite Ht in Hj. by injection Hj as <-. }
  split; [exact (st_holds _ _ _ _ _ _ Hs)|].
  assert (∀ data, let f2 := fs_write i 0 data f1 in I f2 ∧ key_inv f2) as Hw.
  { intros data. pose proof (write_staged _ _ _ _ _ 0 data _ Hs) as Hs2. split; [exact (st_holds _ _ _ _ _ _ Hs2)|].
    eapply Hinv; [exact Hs2|by apply put_file_wf]. }
  apply runs_bind, runs_write; [|intros n|apply runs_ret; by eapply Hinv];
    (split; [apply Hw|apply runs_ret, Hw]).
Qed.

Lemma key_inv_there f : key_inv f → is_Some (names f !! p).
Proof.
  intros [Hh _ _]. specialize (Hh (names f) (or_introl eq_refl)).
  destruct (names f !! p); [done|]. by destruct Hh as (? & ? & ? & ? & _).
Qed.

(** Whatever happens, the file stays this key; and no other key is returned. *)
Lemma load_runs comment gen f :
  key_inv f →
  runs (load_or_generate_keypair pid comment gen p) I
    (λ r f', key_inv f' ∧ ∀ kp', r = Ok kp' → kp' = kp) f.
Proof.
  intros Hf. pose proof (ki_holds _ Hf) as Hh. unfold load_or_generate_keypair, io_exists.
  destruct (key_inv_there f Hf) as [i Hi].
  apply runs_bind, runs_bind, runs_call; [|apply runs_ret; cbn].
  - rewrite Hi. intros [] f' [= <-]. split; [done|]. apply runs_ret. cbn.
    apply runs_bind. unfold io_read_string, io_read. apply runs_bind, runs_call; [|by apply runs_ret, runs_ret].
    intros c f' Hc. apply fmap_Some in Hc as (c' & Hc & [= -> <-]). split; [done|]. apply runs_ret.
    destruct (holds_one_content _ _ _ Hh) as (b & t & legacy & Hb & Ht & Hk).
    rewrite Hb in Hc. injection Hc as <-. cbn. rewrite Ht, Hk. apply runs_bind.
    eapply runs_weaken with (Q1 := λ _ f', key_inv f'); [done| |].
    + intros _ f1 Hf1. apply runs_bind.
      eapply runs_weaken; [done| |by apply ensure_runs]. cbn. intros _ f2 Hf2. apply runs_ret.
      split; [done|]. by intros kp' [= ->].
    + destruct legacy; [by apply rewrite_runs|by apply runs_ret].
  - destruct gen as [kp0|e]; [|by apply runs_ret]. apply runs_bind, runs_mkparent; [done| |by apply runs_ret].
    apply runs_bind. unfold write_private. apply runs_bind, runs_call; [|by apply runs_ret, runs_ret].
    intros j f'. by rewrite Hi.
Qed.

Lemma load_key comment gen f :
  key_content (content f p) → run_result (load_or_generate_keypair pid comment gen p) [] f = Ok kp.
Proof.
  intros (b & t & legacy & Hb & Ht & Hk).
  assert (is_Some (names f !! p)) as [i Hi] by (unfold content in Hb; destruct (names f !! p); [done|discriminate Hb]).
  unfold run_result, load_or_generate_keypair, io_exists, io_read_string, io_read.
  unfold io_bind at 1 2 3 4, call, io_ret at 1 2. cbn [next_ans]. rewrite Hi. cbn.
  rewrite Hb. cbn. rewrite Ht, Hk.
  unfold io_bind. match goal with |- context [(if legacy then ?a else ?b) [] f] =>
    destruct ((if legacy then a else b) [] f) as [[[t1 r1] f1] ans1] end.
  by destruct (ensure_public_key_file comment p kp ans1 f1) as [[[t2 r2] f2] ans2].
Qed.
End key.

(** C14 A key is never lost: whatever fails and wherever a crash comes while the key
    file is loaded, moved out of the old format or given its public copy, loading
    it again gives the same key; and no run returns another one. *)
Theorem key_survives_crash {N : Snow} {B64 : Base64} {DK : Dalek} `{!Base64Laws} pid comment gen p kp ans f :
  fs_wf f → tmp_free p (public_key_path p) f → holds_one p (key_content kp) f →
  Forall is_u8 (private kp) → public_from_private (private kp) = Some (public kp) →
  let load := load_or_generate_keypair pid comment gen p in
  (∀ g g', g ∈ run_states load ans f → crash g g' → run_result load [] g' = Ok kp) ∧
  (∀ kp', run_result load ans f = Ok kp' → kp' = kp).
Proof.
  intros Hwf Hpub Hf Hu Hp load.
  destruct (runs_states load _ _ ans f Hf (load_runs p pid kp Hu Hp comment gen f
    {| ki_holds := Hf; ki_wf := Hwf; ki_pub := Hpub |})) as [Ht [_ Hr]].
  split; [|exact Hr]. intros g g' Hg Hc. apply load_key.
  apply (proj1 (Forall_forall _ _) Ht) in Hg. by eapply holds_one_crash.
Qed.

(** ** Examples *)

(** The path "k", a file that is safe on the disk, and one pin more. *)
Definition sample_path : Path := [107].
Definition disk_with (b : list Z) : Fs := mkFs {[sample_path := 1]} {[1 := b]} {[1]} [].
Definition more_hosts : KnownHosts := <[[98] := sample_key 9]> sample_hosts.
Definition sample_dalek : Dalek := {| mul_base_clamped := id |}.
Definition sample_kp : Keypair := mkKeypair (sample_key 7) (sample_key 7).
(** "private ...\npublic ...\n" *)
Definition legacy_text : list Z :=
  S_PRIVATE ++ [32] ++ sample_encode (sample_key 7) ++ [10] ++
  S_PUBLIC ++ [32] ++ sample_encode (sample_key 7) ++ [10].

Lemma disk_wf b : fs_wf (disk_with b).
Proof.
  intros nm p i [->|[]%elem_of_nil]. cbn. intros [<- <-]%lookup_singleton_Some.
  by apply elem_of_dom; eexists; apply lookup_singleton_eq.
Qed.
Lemma disk_free b tmp : tmp ≠ sample_path → tmp_free sample_path tmp (disk_with b).
Proof. intros Hne i Hi. cbn in Hi. apply lookup_singleton_Some in Hi as [<- _]. done. Qed.
Lemma disk_holds b (cands : option (list Z) → Prop) : cands (Some b) → holds_one sample_path cands (disk_with b).
Proof.
  intros Hc nm [->|[]%elem_of_nil]. cbn. split; [set_solver|exact Hc].
Qed.

Lemma sample_pins_ok : pins_ok sample_hosts ∧ pins_ok more_hosts.
Proof.
  assert (∀ b, is_u8 b → key_wf (sample_key b)) as Hk.
  { intros b Hb. split; [done|]. by apply Forall_replicate. }
  assert (pins_ok sample_hosts) as Hs.
  { split; intros h k; unfold sample_hosts, KnownHosts, PublicKey in *;
      (intros [[<- <-]|[_ [<- <-]%lookup_singleton_Some]]%lookup_insert_Some);
      try (split; [split; [by repeat constructor|done]|apply Hk; lia_ints]);
      apply (bool_decide_unpack _); vm_compute; exact I. }
  split; [exact Hs|]. destruct Hs as [Hw Hc].
  split; intros h k; unfold more_hosts, KnownHosts, PublicKey in *;
    (intros [[<- <-]|[_ Hl]]%lookup_insert_Some; [|by eauto]).
  - split; [split; [by repeat constructor|done]|apply Hk; lia_ints].
  - apply (bool_decide_unpack _); vm_compute; exact I.
Qed.

(** Saving stops in the middle of the write; and it runs to its end. *)
Lemma pins_survive_crash_witness :
  let disk := disk_with (as_bytes (@known_to_text sample_base64 sample_hosts)) in
  let save := @save_known_hosts sample_xx sample_base64 1 sample_path more_hosts in
  let load := λ f, run_result (@load_known_hosts sample_xx sample_base64 sample_path) [] f in
  load (run_end save [AOk; AOk; AShort 5] disk) = Ok sample_hosts ∧
  load (run_end save [] disk) = Ok more_hosts.
Proof.
  destruct sample_pins_ok as [H0 H1]. cbn zeta.
  pose proof (λ ans, proj2 (@pins_survive_crash sample_xx sample_base64 sample_base64_laws 1 sample_path
    sample_hosts more_hosts ans (disk_with (as_bytes (@known_to_text sample_base64 sample_hosts)))
    (disk_wf _) (disk_free _ _ (tmp_ne _ _)) (disk_holds _ _ eq_refl) H0 H1)) as H.
  split; [exact (H [AOk; AOk; AShort 5])|exact (H [])].
Defined.

Lemma legacy_key {N : Snow} :
  @key_content N sample_base64 sample_dalek sample_kp (Some (as_bytes legacy_text)).
Proof. exists (as_bytes legacy_text), legacy_text, true. split; [reflexivity|]. split; vm_compute; reflexivity. Qed.

(** The move out of the old format stops right after the rename, and the table of
    names on the disk is the one before. *)
Lemma key_survives_crash_witness :
  let load := @load_or_generate_keypair sample_xx sample_base64 sample_dalek 1 [] (Ok sample_kp) sample_path in
  let disk := disk_with (as_bytes legacy_text) in
  let g := default disk (run_states load [] disk !! 6%nat) in
  bool_decide (names g !! sample_path = Some 1) = false ∧
  run_result load [] (mkFs (default ∅ (past g !! 0%nat)) (files g) (synced g) []) = Ok sample_kp.
Proof.
  pose proof (@key_survives_crash sample_xx sample_base64 sample_dalek sample_base64_laws 1 []
    (Ok sample_kp) sample_path sample_kp [] (disk_with (as_bytes legacy_text)) (disk_wf _)
    (disk_free _ _ (pub_ne _)) (disk_holds _ _ legacy_key) ltac:(apply Forall_replicate; lia_ints) eq_refl) as [H _].
  intros load disk g. split; [vm_compute; reflexivity|].
  apply (H g).
  - refine (list_elem_of_lookup_2 (run_states load [] disk) 6%nat g (default_by_test disk (run_states load [] disk !! 6%nat) _)).
    vm_compute. reflexivity.
  - split; [right|]; cbn [names].
    { refine (list_elem_of_lookup_2 (past g) 0%nat (default ∅ (past g !! 0%nat)) (default_by_test ∅ (past g !! 0%nat) _)). vm_compute. reflexivity. }
    intros i _. reflexivity.
Defined.

(** The first key is not written like that: if writing it is cut short, the key
    file is left with a part of it; every later start finds a file that it cannot
    read as a key, reports it as bad and leaves it there. *)
Theorem interrupted_first_key_wedges {N : Snow} :
  let load := λ gen, @load_or_generate_keypair N sample_base64 sample_dalek 1 [] gen sample_path in
  let f1 := run_end (load (Ok sample_kp)) [AOk; AOk; AOk; AShort 3] (mkFs ∅ ∅ ∅ []) in
  run_result (load (Ok sample_kp)) [AOk; AOk; AOk; AShort 3] (mkFs ∅ ∅ ∅ []) = Err RtIo ∧
  content f1 sample_path = Some [112; 114; 105] ∧
  ∀ gen, run_result (load gen) [] f1 = Err BadKeyFile ∧ run_end (load gen) [] f1 = f1.
Proof. cbn zeta. split; [vm_compute; reflexivity|]. split; [vm_compute; reflexivity|]. intros gen. split; vm_compute; reflexivity. Qed.
