(* ===== verification/Xfer.v ===== *)
(** * File transfer ends ([src/xfer.rs])

    [FileSource] reads a local file in chunks; [FileSink] writes the bytes it gets
    to a temporary file next to the destination, which is renamed over it at the
    end.  Over the file system of [Files].  The progress line is left out: it is
    output with floating-point percentages. *)

From stdpp Require Import gmap.
From S2P Require Import Prelude Text Reassembler Stream Mux StreamNet Forward Files.

(** ".noissh" and ".noissh-tmp-" *)
Definition S_DOT_NOISSH : list Z := [46; 110; 111; 105; 115; 115; 104].
Definition S_NOISSH_TMP : list Z := S_DOT_NOISSH ++ [45; 116; 109; 112; 45].

(** @ src/xfer.rs:52-59 temp_path *)
Definition temp_path (pid : Z) (dest : Path) : Path :=
  with_file_name dest (default S_DOT_NOISSH (file_name dest) ++ S_NOISSH_TMP ++ digits pid).

(** The open file and the position of the next write. [finalized] is only read by
    the drop that follows [finalize], so it is a result there.
    @ src/xfer.rs:43-48 FileSink *)
Record FileSink := mkFileSink {
  k_file : Z;
  k_pos : nat;
  k_tmp : Path;
  k_dest : Path;
}.

Section sink.
Local Open Scope io_scope.

(** @ src/xfer.rs:62-72 FileSink::create *)
Definition sink_create (pid : Z) (path : Path) : Io (option FileSink) :=
  let tmp := temp_path pid path in
  do i <- io_create tmp; io_ret ((λ i, mkFileSink i 0 tmp path) <$> i).

(** @ src/xfer.rs:74-76 FileSink::write *)
Definition sink_write (data : list Z) (s : FileSink) : Io (option FileSink) :=
  do w <- io_write (k_file s) (k_pos s) data;
  io_ret ((λ _, mkFileSink (k_file s) (k_pos s + length data) (k_tmp s) (k_dest s)) <$> w).

(** A sink that is not finalized. @ src/xfer.rs:88-94 FileSink::drop *)
Definition sink_drop (s : FileSink) : Io unit := do _ <- io_remove (k_tmp s); io_ret ().

(** Whether it worked; the sink is dropped either way.
    @ src/xfer.rs:79-84 FileSink::finalize *)
Definition sink_finalize (s : FileSink) : Io bool :=
  do y <- io_sync (k_file s);
  match y with
  | None => do _ <- sink_drop s; io_ret false
  | Some _ =>
    do r <- io_rename (k_tmp s) (k_dest s);
    match r with
    | None => do _ <- sink_drop s; io_ret false
    | Some _ => io_ret true
    end
  end.

(** An open file and the position of the next read. @ src/xfer.rs:12-14 FileSource *)
Record FileSource := mkFileSource { r_file : Z; r_pos : nat }.

(** @ src/xfer.rs:17-21 FileSource::open *)
Definition source_open (path : Path) : Io (option FileSource) :=
  do i <- call (λ f, (., f) <$> names f !! path); io_ret ((λ i, mkFileSource i 0) <$> i).

(** What is there, [max] bytes at most; [short] answers that a read stops at fewer.
    @ src/xfer.rs:28-33 FileSource::read_chunk *)
Definition read_chunk (max : nat) (s : FileSource) : Io (option (list Z * FileSource)) := λ ans f,
  let rest := drop (r_pos s) (file_at f (r_file s)) in
  let got (n : nat) := let d := take n rest in
    Some (d, mkFileSource (r_file s) (r_pos s + length d)) in
  match next_ans ans with
  | (AOk, ans) => ([], got max, f, ans)
  | (AShort n, ans) => ([], got (S n `min` max)%nat, f, ans)
  | (AFail, ans) => ([], None, f, ans)
  end.

(** An upload's turn at the server, or a download's at the client: all that can be
    read from the stream goes to the file; a second read finds nothing. The results
    are the sink, whether writing failed, and the core.
    @ src/server.rs:1025-1034 Server::pump_forwards *)
Fixpoint drain_upload {K M} `{StreamPort K M} (fuel : nat) (k : K) (sink : FileSink) (m : M) :
    Io (FileSink * bool * M) :=
  match fuel with
  | O => io_ret (sink, false, m)
  | S fuel =>
    let '(data, m) := port_read m k in
    match data with
    | [] => io_ret (sink, false, m)
    | _ =>
      do w <- sink_write data sink;
      match w with Some sink => drain_upload fuel k sink m | None => io_ret (sink, true, m) end
    end
  end.

(** @ src/client.rs:700-700 CHUNK *)
Definition CHUNK : nat := 64 * 1024.

(** What an upload sends in a turn: the next chunk while there is room, or the end.
    @ src/client.rs:755-765 Client::run_transfer *)
Definition upload_send {K M} `{StreamPort K M} (k : K) (src : FileSource) (sent_fin : bool) (m : M) :
    Io (option (FileSource * bool * M)) :=
  if negb sent_fin && (port_in_flight m k <? FORWARD_SEND_CAP) then
    do r <- read_chunk CHUNK src;
    io_ret match r with
           | None => None
           | Some ([], src) => Some (src, true, port_close m k)
           | Some (chunk, src) => Some (src, false, port_write m k chunk)
           end
  else io_ret (Some (src, sent_fin, m)).

(** A receiver's turn, as both ends take it: drain the stream; after a failed write
    drop the sink; at the end of the stream close our half and finalize. *)
Inductive PutTurn := PutGoesOn (sink : FileSink) | PutFailed | PutEnded (ok : bool).

Definition put_turn {K M} `{StreamPort K M} (finished : M → K → bool) (k : K) (sink : FileSink) (m : M) :
    Io (PutTurn * M) :=
  do (sink, bad, m) <- drain_upload DRAIN_ROUNDS k sink m;
  if (bad : bool) then do _ <- sink_drop sink; io_ret (PutFailed, m)
  else if finished m k then
    do ok <- sink_finalize sink; io_ret (PutEnded ok, port_close m k)
  else io_ret (PutGoesOn sink, m).

(** ** Receiving a file

    What the ends of a transfer do with a sink: it is made, gets the data in
    chunks, and is finalized; an error or the abort of the transfer drops it. *)
Fixpoint sink_chunks (chunks : list (list Z)) (s : FileSink) : Io (FileSink * bool) :=
  match chunks with
  | [] => io_ret (s, true)
  | d :: chunks =>
    do w <- sink_write d s;
    match w with Some s => sink_chunks chunks s | None => io_ret (s, false) end
  end.

Definition receive (pid : Z) (path : Path) (chunks : list (list Z)) (aborted : bool) : Io bool :=
  do s <- sink_create pid path;
  match s with
  | None => io_ret false
  | Some s =>
    do w <- sink_chunks chunks s;
    if w.2 && negb aborted then sink_finalize w.1 else do _ <- sink_drop w.1; io_ret false
  end.
End sink.

(** ** The destination is whole *)

Section whole.
Context (pid : Z) (path : Path) (was : option (list Z) → Prop) (whole : list Z) (here : option (list Z)).
Local Abbreviation tmp := (temp_path pid path).

(** The destination has what it had, or the whole. *)
Definition whole_or_was : Fs → Prop := holds_one path (λ c, was c ∨ c = Some whole).
Local Abbreviation I := whole_or_was.

(** The destination is [here], and after a crash one of [was]. *)
Record at_rest (f : Fs) : Prop := {
  ar_wf : fs_wf f;
  ar_free : tmp_free path tmp f;
  ar_holds : holds_one path was f;
  ar_here : content f path = here;
}.

(** The sink's file holds [v]. *)
Record sink_has (v : list Z) (s : FileSink) (f : Fs) : Prop := {
  sh_staged : staged path tmp was (k_file s) v f;
  sh_tmp : k_tmp s = tmp;
  sh_dest : k_dest s = path;
  sh_wf : fs_wf f;
  sh_here : content f path = here;
}.

(** The destination is the whole. *)
Record arrived (f : Fs) : Prop := {
  av_wf : fs_wf f;
  av_free : tmp_free path tmp f;
  av_holds : I f;
  av_here : content f path = Some whole;
}.

Lemma holds_was f : holds_one path was f → I f.
Proof. apply holds_one_weaken. by left. Qed.
Lemma has_was v s f : sink_has v s f → holds_one path was f.
Proof. intros [Hs _]. exact (st_holds _ _ _ _ _ _ Hs). Qed.
Lemma has_rest v s f : sink_has v s f → at_rest f.
Proof.
  intros [[Ht Ha Hh _ _] _ _ Hwf Hh2]. split; try done. intros i Hi. by rewrite Ht in Hi; injection Hi as <-.
Qed.

Lemma put_file_content p i v f : not_file p i f → content (put_file i v f) p = content f p.
Proof.
  intros Hi. unfold content. cbn. destruct (names f !! p) as [j|] eqn:Hj; [|done]. cbn. unfold file_at. cbn.
  rewrite lookup_insert_ne; [done|]. intros ->. by apply (Hi (names f) (or_introl eq_refl)).
Qed.

Lemma runs_create (Q : option FileSink → Fs → Prop) f :
  at_rest f → tmp ≠ path → (∀ s f', sink_has [] s f' → k_pos s = 0%nat → Q (Some s) f') → Q None f →
  runs (sink_create pid path) I Q f.
Proof.
  intros [Hwf Hfree Hh Hc] Hne HQ HN. unfold sink_create. apply runs_bind, runs_call; [|by apply runs_ret].
  intros i f1 [= He]. pose proof (create_staged _ _ _ _ _ _ Hwf Hfree Hne Hh He) as Hs.
  split; [apply holds_was; exact (st_holds _ _ _ _ _ _ Hs)|]. apply runs_ret. apply HQ; [|done].
  split; [exact Hs|done|done|by pose proof (fs_create_wf tmp f Hwf) as Hw; rewrite He in Hw|].
  rewrite <- Hc. unfold fs_create in He. destruct (names f !! tmp) as [j|] eqn:Ht; injection He as <- <-.
  - apply put_file_content. by apply Hfree.
  - unfold content at 1. cbn. rewrite lookup_insert_ne by done.
    apply (put_file_content path (new_file f) []). by apply new_file_apart.
Qed.

Lemma runs_drop v s (Q : unit → Fs → Prop) f :
  sink_has v s f → (∀ f', at_rest f' → Q () f') → runs (sink_drop s) I Q f.
Proof.
  intros Hf HQ. pose proof Hf as [Hs Ht _ Hwf Hh]. unfold sink_drop. rewrite Ht.
  destruct (remove_staged _ _ _ _ _ _ Hs) as (f1 & Hr & Hh1 & Hn & Hc).
  apply runs_bind, runs_call; [|by apply runs_ret, HQ, (has_rest v s)].
  intros [] f'. rewrite Hr. intros [= <-]. split; [by apply holds_was|]. apply runs_ret, HQ. split; [|..|done|].
  - by eapply fs_remove_wf.
  - intros i Hi. by rewrite Hn in Hi.
  - by rewrite Hc.
Qed.

(** One write: all of it is there, or a part and an error. *)
Lemma runs_sink_write d v s (Q : option FileSink → Fs → Prop) f :
  sink_has v s f → k_pos s = length v →
  (∀ s' f', sink_has (v ++ d) s' f' → k_pos s' = length (v ++ d) → Q (Some s') f') →
  (∀ v' f', sink_has v' s f' → Q None f') →
  runs (sink_write d s) I Q f.
Proof.
  intros Hf Hp HQ HN. pose proof Hf as [Hs Ht Hd Hwf Hh]. unfold sink_write.
  assert (∀ data, sink_has (v ++ data) s (fs_write (k_file s) (k_pos s) data f)) as Hw.
  { intros data. split; [|done|done|by apply put_file_wf|].
    - pose proof (write_staged _ _ _ _ _ (k_pos s) data _ Hs) as Hw.
      rewrite Hp, overwrite_end in Hw. by rewrite Hp.
    - rewrite <- Hh. apply put_file_content. exact (st_apart _ _ _ _ _ _ Hs). }
  apply runs_bind, runs_write.
  - split; [by eapply holds_was, has_was|]. apply runs_ret. cbn. apply HQ; [by destruct (Hw d); split|].
    cbn. by rewrite length_app, Hp.
  - intros n. split; [by eapply holds_was, has_was|]. apply runs_ret. by eapply HN.
  - apply runs_ret. by eapply HN.
Qed.

Lemma runs_chunks cs : ∀ v s f, sink_has v s f → k_pos s = length v →
  runs (sink_chunks cs s) I
    (λ w f', ∃ v', sink_has v' w.1 f' ∧ (w.2 = true → v' = v ++ concat cs)) f.
Proof.
  induction cs as [|d cs IH]; intros v s f Hf Hp; cbn [sink_chunks].
  { apply runs_ret. exists v. split; [done|]. by rewrite app_nil_r. }
  apply runs_bind. eapply runs_sink_write; [done..| |].
  - intros s' f' Hf' Hp'. eapply runs_weaken; [done| |by apply IH].
    intros w f2 (v' & Hv & He). exists v'. split; [done|]. intros Hw2. rewrite (He Hw2). cbn.
    by rewrite (assoc_L (++)).
  - intros v' f' Hf'. apply runs_ret. by exists v'.
Qed.

Lemma runs_finalize s (Q : bool → Fs → Prop) f :
  sink_has whole s f → (∀ f', arrived f' → Q true f') → (∀ f', at_rest f' → Q false f') →
  runs (sink_finalize s) I Q f.
Proof.
  intros Hf HQ HN. pose proof Hf as [Hs Ht Hd Hwf Hh]. unfold sink_finalize.
  assert (∀ f, sink_has whole s f → runs (io_bind (sink_drop s) (λ _, io_ret false)) I Q f) as Hdrop.
  { intros f0 Hf0. apply runs_bind. eapply runs_drop; [exact Hf0|]. intros f' Hf'. by apply runs_ret, HN. }
  apply runs_bind, runs_call; [|by apply Hdrop].
  intros [] f1 [= <-]. pose proof (sync_staged _ _ _ _ _ _ Hs) as Hs1.
  split; [apply holds_was; exact (st_holds _ _ _ _ _ _ Hs1)|].
  destruct (rename_staged _ _ _ _ _ _ Hs1) as (f2 & Hr & Hh2 & Hc & Hn).
  { apply elem_of_union_l, elem_of_singleton_2. reflexivity. }
  rewrite Ht, Hd. apply runs_bind, runs_call; [|by apply Hdrop].
  intros [] f'. rewrite Hr. intros [= <-]. split; [done|]. apply runs_ret, HQ. split; [|..|done|done].
  - by eapply (fs_rename_wf _ _ (fs_sync (k_file s) f)).
  - intros i Hi. by rewrite Hn in Hi.
Qed.

Lemma receive_runs chunks aborted f :
  whole = concat chunks → at_rest f → tmp ≠ path →
  runs (receive pid path chunks aborted) I (λ r f', if r then arrived f' else at_rest f') f.
Proof.
  intros Hwhole Hf Hne. unfold receive. apply runs_bind, runs_create; [done..| |by apply runs_ret].
  intros s f1 Hs Hp. cbn. apply runs_bind.
  eapply runs_weaken; [done| |by apply (runs_chunks chunks [])].
  intros [s' ok] f2 (v & Hv & He). cbn in *.
  assert (runs (io_bind (sink_drop s') (λ _, io_ret false)) I
    (λ r f', if (r : bool) then arrived f' else at_rest f') f2) as Hdrop.
  { apply runs_bind. eapply runs_drop; [exact Hv|]. intros f' Hf'. by apply runs_ret. }
  destruct ok, aborted; cbn; try exact Hdrop. rewrite (He eq_refl), <- Hwhole in Hv. by apply runs_finalize.
Qed.
End whole.

(** The temporary file is never the destination. *)
Lemma temp_path_ne pid path : is_u32 pid → temp_path pid path ≠ path.
Proof.
  intros Hpid. destruct (digits_spec pid ltac:(lia_ints)) as (Hne & Hd & _).
  assert (Forall (λ c, c ≠ 47) (digits pid)) as Hd47.
  { eapply Forall_impl; [exact Hd|]. unfold is_digit. intros c Hc. lia. }
  destruct (last (digits pid)) as [c|] eqn:Hl; [|by apply last_None in Hl].
  assert (c ≠ 46) as Hc.
  { rewrite last_lookup in Hl. apply list_elem_of_lookup_2 in Hl.
    apply (proj1 (Forall_forall _ _) Hd) in Hl. unfold is_digit in Hl. lia. }
  pose proof (span_name_spec (strip_rev (rev path)) []) as Hs. intros He.
  set (fname := default S_DOT_NOISSH (file_name path)).
  assert (∃ q, path_join q (fname ++ S_NOISSH_TMP ++ digits pid) = path) as [q Hq].
  { unfold temp_path, with_file_name in He. fold fname in He. by destruct (file_name path); eexists. }
  destruct (path_join_base q (fname ++ S_NOISSH_TMP ++ digits pid)) as (base & Hb & Hbase).
  rewrite Hb in Hq.
  pose proof (file_name_join base (fname ++ S_NOISSH_TMP ++ digits pid) c Hbase) as Hj. rewrite Hq in Hj.
  unfold fname, file_name in Hj. destruct (span_name (strip_rev (rev path)) []) as [name rest].
  destruct Hs as [(w & -> & Hw) _]. rewrite app_nil_r in *. cbn [fst] in Hj.
  assert (∀ l, Forall (λ c, c ≠ 47) l → w = l ++ S_NOISSH_TMP ++ digits pid →
    (length l + 13 ≤ length w)%nat) as Hlen.
  { intros l _ ->. rewrite !length_app. change (length S_NOISSH_TMP) with 12%nat.
    assert (length (digits pid) ≠ 0)%nat by by rewrite length_zero_iff_nil. lia. }
  assert (∀ l, Forall (λ c, c ≠ 47) l → last (l ++ S_NOISSH_TMP ++ digits pid) = Some c ∧
    Forall (λ c, c ≠ 47) (l ++ S_NOISSH_TMP ++ digits pid)) as Hall.
  { intros l Hlw. split; [by rewrite !last_app, Hl|].
    apply Forall_app_2; [done|]. apply Forall_app_2; [|done]. by repeat constructor. }
  case_bool_decide as Hbad; cbn [default] in Hj.
  - assert (Forall (λ c, c ≠ 47) S_DOT_NOISSH) as Hn by by repeat constructor.
    destruct (Hall _ Hn) as [Hl1 Hn1]. specialize (Hlen _ Hn (Hj Hn1 Hl1 Hc)).
    rewrite !elem_of_cons in Hbad. destruct Hbad as [->|[->|[->|[]%elem_of_nil]]]; cbn in Hlen; lia.
  - destruct (Hall _ Hw) as [Hl1 Hn1]. specialize (Hlen _ Hw (Hj Hn1 Hl1 Hc)). lia.
Qed.

(** A destination is never cut: if receiving a file is interrupted anywhere, by
    an error, an abort or a crash after any call, the destination has its old
    content, or none as before, or all the bytes of the new one; the new ones once
    it has reported success, the old ones once it has not. *)
Theorem upload_is_atomic pid path old chunks aborted ans f :
  is_u32 pid → fs_wf f → tmp_free path (temp_path pid path) f → holds_one path (λ c, c = old) f →
  (∀ g g', g ∈ run_states (receive pid path chunks aborted) ans f → crash g g' →
    content g' path = old ∨ content g' path = Some (concat chunks)) ∧
  content (run_end (receive pid path chunks aborted) ans f) path =
    if run_result (receive pid path chunks aborted) ans f then Some (concat chunks) else old.
Proof.
  intros Hpid Hwf Hfree Hf. pose proof (temp_path_ne pid path Hpid) as Hne.
  assert (at_rest pid path (λ c, c = old) (content f path) f) as Hr0 by done.
  destruct (runs_states _ _ _ ans f (holds_was path (λ c, c = old) (concat chunks) f Hf)
    (receive_runs pid path _ (concat chunks) _ chunks aborted f eq_refl Hr0 Hne)) as [Ht Hr].
  split.
  - intros g g' Hg Hc. apply (proj1 (Forall_forall _ _) Ht) in Hg. by apply (holds_one_crash _ _ _ _ Hg Hc).
  - destruct (run_result _ ans f); [by apply av_here in Hr|]. by apply ar_holds, holds_one_content in Hr.
Qed.

(** ** Examples *)

(** "f" holds three bytes. *)
Definition sample_disk : Fs := mkFs {[ [102] := 1 ]} {[ 1 := [7; 8; 9] ]} {[ 1 ]} [].

Lemma sample_disk_wf : fs_wf sample_disk.
Proof.
  intros nm p i [->|[]%elem_of_nil]. cbn. intros [_ <-]%lookup_singleton_Some. set_solver.
Qed.
Lemma sample_disk_holds : holds_one [102] (λ c, c = Some [7; 8; 9]) sample_disk.
Proof. intros nm [->|[]%elem_of_nil]. split; [set_solver|done]. Qed.

Lemma upload_is_atomic_witness :
  content (run_end (receive 1 [102] [[1; 2]; [3]] false) [AOk; AOk; AShort 0] sample_disk) [102] = Some [7; 8; 9] ∧
  content (run_end (receive 1 [102] [[1; 2]; [3]] false) [] sample_disk) [102] = Some [1; 2; 3].
Proof.
  pose proof (λ ans, proj2 (upload_is_atomic 1 [102] (Some [7; 8; 9]) [[1; 2]; [3]] false ans sample_disk
    ltac:(lia_ints)
    sample_disk_wf ltac:(intros i Hi; vm_compute in Hi; discriminate Hi) sample_disk_holds)) as H.
  split; [exact (H [AOk; AOk; AShort 0])|exact (H [])].
Defined.

(** One sink's steps, when another uses the same destination: [Io] programs of two
    owners, one after the other. *)
Definition step {A} (m : Io A) (f : Fs) : A * Fs := (run_result m [] f, run_end m [] f).

Lemma create_step pid dest f i f' :
  fs_create (temp_path pid dest) f = (i, f') →
  step (sink_create pid dest) f = (Some (mkFileSink i 0 (temp_path pid dest) dest), f').
Proof.
  intros Hc. unfold step, run_result, run_end, sink_create, io_create, io_bind, call. cbn. by rewrite Hc.
Qed.

Lemma write_step data s f :
  step (sink_write data s) f =
    (Some (mkFileSink (k_file s) (k_pos s + length data) (k_tmp s) (k_dest s)),
     fs_write (k_file s) (k_pos s) data f).
Proof. reflexivity. Qed.

Lemma finalize_step s f f' :
  fs_rename (k_tmp s) (k_dest s) (fs_sync (k_file s) f) = Some f' → step (sink_finalize s) f = (true, f').
Proof.
  intros Hr. unfold step, run_result, run_end, sink_finalize, io_sync, io_rename, io_bind, call. cbn.
  by rewrite Hr.
Qed.

Lemma finalize_lost s f : names f !! k_tmp s = None → (step (sink_finalize s) f).1 = false.
Proof.
  intros Hn. unfold step, run_result, run_end, sink_finalize, io_sync, io_rename, io_bind, call. cbn.
  unfold fs_rename, sink_drop, io_remove, io_bind, call, fs_remove. cbn. rewrite Hn. cbn. by rewrite Hn.
Qed.

(** A file that is written from its start on. *)
Lemma write_file_at i off data f : file_at (fs_write i off data f) i = overwrite off data (file_at f i).
Proof. unfold file_at at 1. cbn. by rewrite lookup_insert_eq. Qed.

(** Two transfers to one destination share their temporary file: its name comes
    from the destination and the process alone. The second one empties the file of
    the first, which then reports success with the other's bytes in place, and the
    second goes on writing into the destination itself. *)
Theorem shared_temporary_mixes pid dest (old : list Z) f :
  names f !! temp_path pid dest = None → is_u32 pid → content f dest = Some old →
  ∃ s1 f1 s1' f2 s2 f3 s2' f4 f5 s2'' f6,
    step (sink_create pid dest) f = (Some s1, f1) ∧
    step (sink_write [1; 2; 3; 4] s1) f1 = (Some s1', f2) ∧
    step (sink_create pid dest) f2 = (Some s2, f3) ∧
    step (sink_write [5] s2) f3 = (Some s2', f4) ∧
    step (sink_finalize s1') f4 = (true, f5) ∧ content f5 dest = Some [5] ∧
    step (sink_write [6] s2') f5 = (Some s2'', f6) ∧ content f6 dest = Some [5; 6] ∧
    (step (sink_finalize s2'') f6).1 = false.
Proof.
  intros Hn Hpid _. pose proof (temp_path_ne pid dest Hpid) as Hne.
  set (tmp := temp_path pid dest) in *. set (i := new_file f).
  set (f1 := set_names (<[tmp := i]> (names f)) (put_file i [] f)).
  assert (fs_create tmp f = (i, f1)) as Hc1 by (unfold fs_create; by rewrite Hn).
  set (f2 := fs_write i 0 [1; 2; 3; 4] f1). set (f3 := put_file i [] f2).
  assert (names f2 !! tmp = Some i) as Ht by (cbn; apply lookup_insert_eq).
  assert (fs_create tmp f2 = (i, f3)) as Hc2 by (unfold fs_create; by rewrite Ht).
  set (f4 := fs_write i 0 [5] f3).
  assert (file_at f4 i = [5]) as H4.
  { unfold f4. rewrite write_file_at. unfold f3, file_at. cbn. by rewrite lookup_insert_eq. }
  set (f5 := set_names (<[dest := i]> (delete tmp (names f4))) (fs_sync i f4)).
  assert (fs_rename tmp dest (fs_sync i f4) = Some f5) as Hr5.
  { unfold fs_rename. change (names (fs_sync i f4)) with (names f2). by rewrite Ht. }
  set (f6 := fs_write i 1 [6] f5).
  assert (names f5 !! dest = Some i) as Hd by (cbn; apply lookup_insert_eq).
  assert (file_at f5 i = [5]) as H5 by exact H4.
  do 11 eexists. split; [by apply create_step|]. split; [apply write_step|].
  split; [by apply create_step|]. split; [apply write_step|]. split; [by apply finalize_step|].
  split; [unfold content; rewrite Hd; cbn; by rewrite H5|]. split; [apply write_step|]. split.
  - unfold content. change (names (fs_write _ _ _ f5)) with (names f5). rewrite Hd. cbn [fmap option_fmap option_map].
    f_equal. etrans; [apply write_file_at|]. by rewrite H5.
  - apply finalize_lost. cbn. rewrite lookup_insert_ne by done. apply lookup_delete_eq.
Qed.

Lemma shared_temporary_mixes_witness :
  ∃ s s' f5 f6, content f5 [102] = Some [5] ∧ step (sink_write [6] s) f5 = (Some s', f6) ∧
    content f6 [102] = Some [5; 6].
Proof.
  destruct (shared_temporary_mixes 1 [102] [7; 8; 9] sample_disk) as
    (_ & _ & _ & _ & _ & _ & s2 & _ & f5 & s3 & f6 & _ & _ & _ & _ & _ & H5 & Hw & H6 & _);
    [vm_compute; reflexivity|lia_ints|vm_compute; reflexivity|].
  exists s2, s3, f5, f6. split; [exact H5|]. split; [exact Hw|exact H6].
Defined.
