(* ===== verification/Delivery.v ===== *)
(** * A file sent to the server, end to end

    The client's upload and the server's sink over one stream of two multiplexers,
    over a network that loses, duplicates and reorders frames, and a disk that may
    fail or crash: the destination is the old file or the whole new one, and the
    whole new one once the client counts the transfer as done. *)

From stdpp Require Import gmap relations.
From S2P Require Import Prelude Wire Reassembler Stream Mux StreamNet Forward Tunnel Files Xfer.

(** ** What happens to one stream of a multiplexer *)

Section stream.
Context (id : Z).

Lemma on_frame_stream m f s :
  streams m !! id = Some s →
  ∃ s', streams (on_frame m f) !! id = Some s' ∧
    s_send_fin s' = s_send_fin s ∧ s_close_status s' = s_close_status s ∧
    (s_reset s' = s_reset s ∨ s_reset s' = true ∧ f = StreamReset id) ∧
    (s_close_received s' = s_close_received s ∨ ∃ status, f = StreamClose id status) ∧
    (s_peer_fin s' = s_peer_fin s ∨ ∃ offset data, f = StreamData id offset data true).
Proof.
  intros Hs.
  assert (∀ k v, k ≠ id → <[k := v]> (streams m) !! id = Some s) as Hne
    by (intros; by rewrite lookup_insert_ne).
  destruct f as [| | | | | |k kind meta|k offset data fin|k ack window|k status|k|];
    cbn [on_frame]; try (exists s; split_and!; by auto).
  - destruct (_ || _); [exists s; split_and!; by auto|].
    destruct (streams m !! k) eqn:Hk; [exists s; split_and!; by auto|]. cbn.
    exists s. rewrite Hne by congruence. split_and!; by auto.
  - destruct (streams m !! k) as [s0|] eqn:Hk; [|exists s; split_and!; by auto].
    destruct (accept_data s0 offset data fin) as [[s1 r]|] eqn:Ha; [|exists s; split_and!; by auto].
    assert (∀ x, streams (if r then push_event (EvReadable k) (set_streams x m) else set_streams x m) = x)
      as -> by by destruct r.
    destruct (decide (k = id)) as [->|]; [|rewrite Hne by done; exists s; split_and!; by auto].
    rewrite Hs in Hk. injection Hk as <-. rewrite lookup_insert_eq. exists s1. split; [done|].
    unfold accept_data, checked_add_u64 in Ha. destruct (_ <=? _); [|done]. cbn in Ha.
    destruct (_ <? offset); [done|]. injection Ha as <- _.
    destruct fin; cbn; [case_bool_decide|]; cbn; split_and!; eauto.
  - rewrite with_stream_lookup. case_bool_decide as Hk; [subst k|exists s; split_and!; by auto].
    rewrite Hs. cbn. exists (stream_on_ack s ack window (now m)). split; [done|].
    assert (let s' := stream_on_ack s ack window (now m) in
      s_send_fin s' = s_send_fin s ∧ s_close_status s' = s_close_status s ∧ s_reset s' = s_reset s ∧
      s_close_received s' = s_close_received s ∧ s_peer_fin s' = s_peer_fin s) as (-> & -> & -> & -> & ->);
      [cbn zeta|by auto 6].
    unfold stream_on_ack, ack_fin, ack_sample, update_rtt, ack_progress.
    repeat first [case_match; subst; cbn in *; try done].
  - destruct (streams m !! k) as [s0|] eqn:Hk; [|exists s; split_and!; by auto].
    destruct (negb _); [|exists s; split_and!; by auto]. cbn.
    destruct (decide (k = id)) as [->|]; [|rewrite Hne by done; exists s; split_and!; by auto].
    rewrite Hs in Hk. injection Hk as <-. rewrite lookup_insert_eq. eexists. split_and!; eauto.
  - destruct (streams m !! k) as [s0|] eqn:Hk; [|exists s; split_and!; by auto]. cbn.
    destruct (decide (k = id)) as [->|]; [|rewrite Hne by done; exists s; split_and!; by auto].
    rewrite Hs in Hk. injection Hk as <-. rewrite lookup_insert_eq. eexists. split_and!; eauto.
Qed.

Lemma on_frame_absent m f :
  streams m !! id = None → opens m f id = false → streams (on_frame m f) !! id = None.
Proof.
  intros Hs Ho. destruct (streams (on_frame m f) !! id) as [s'|] eqn:Hs'; [|done].
  apply on_frame_effect in Hs' as [(s & Hs' & _)|[(Ho' & _)|(s & o & d & fi & r & _ & Hs' & _)]]; congruence.
Qed.

Lemma on_frame_opens m f :
  opens m f id = true → ∃ kind meta, streams (on_frame m f) !! id = Some (stream_new id kind meta false).
Proof.
  unfold opens. destruct f as [| | | | | |k kind meta| | | | |]; try done. intros Ho.
  apply andb_true_iff in Ho as [[[Hk%bool_decide_eq_true Hp]%andb_true_iff Hsz]%andb_true_iff
    Hn%bool_decide_eq_true]. subst k. apply negb_true_iff in Hp. exists kind, meta. cbn [on_frame].
  rewrite Nat.leb_antisym, Hsz, Hp, Hn. cbn. by rewrite lookup_insert_eq.
Qed.

(** A poll retires a stream that was reset, or is done at both ends. *)
Lemma poll_stream w m :
  mux_wf w m →
  match streams m !! id, streams (poll_transmit m).2 !! id with
  | None, s' => s' = None
  | Some s, Some s' => keeps s s' ∧ s_reset s = false
  | Some s, None => s_reset s = true ∨
      s_send_fin s = true ∧ (s_peer_fin s ≠ HOpen ∨ s_close_received s = true)
  end.
Proof.
  intros Hwf. pose proof (poll_transmit_spec m) as Hp. destruct (poll_transmit m) as [out m'].
  destruct Hp as (_ & Hm & _). cbn [snd]. rewrite Hm. destruct (streams m !! id) as [s|] eqn:Hs; [|done].
  destruct (mw_stream _ _ Hwf _ _ Hs) as (Hid & Hsw & Hr). cbn. unfold polled.
  destruct (s_reset s) eqn:Hreset; [by left|].
  destruct (transmit_frames (w !!! id) id s (as_u64 (now m + 1)) Hid Hsw Hr Hreset) as (_ & Hk & _).
  destruct (transmit s _ []) as [s1 l]. cbn in *. destruct (fully_done s1) eqn:Hd; [|done]. right.
  unfold fully_done in Hd. destruct (s_send_fin s1) eqn:Hf; [|done]. cbn in Hd.
  split; [by rewrite <- (k_fin _ _ Hk)|]. destruct (s_fin_acked s1 && recv_finished s1) eqn:Hrf.
  - left. apply andb_true_iff in Hrf as [_ Hrf]. unfold recv_finished in Hrf.
    rewrite <- (k_peer_fin _ _ Hk). by destruct (s_peer_fin s1).
  - right. apply andb_true_iff in Hd as [Hd _]. by rewrite <- (k_closed _ _ Hk).
Qed.

(** The end of a stream and its close are sent by a stream that was closed. *)
Lemma poll_ends w m f :
  mux_wf w m → f ∈ (poll_transmit m).1 →
  match f with
  | StreamData k _ _ true =>
    ∃ s, streams m !! k = Some s ∧ s_reset s = false ∧ s_send_fin s = true
  | StreamClose k _ =>
    ∃ s, streams m !! k = Some s ∧ s_reset s = false ∧ s_close_status s ≠ None
  | _ => True
  end.
Proof.
  intros Hwf Hin. pose proof (poll_transmit_spec m) as Hp. destruct (poll_transmit m) as [out m'].
  destruct Hp as (Hout & _). apply Hout in Hin as (k & s & Hs & Hin).
  destruct (mw_stream _ _ Hwf _ _ Hs) as (Hid & Hsw & Hr).
  destruct (s_reset s) eqn:Hreset.
  { unfold polled in Hin. rewrite Hreset in Hin. by apply list_elem_of_singleton in Hin as ->. }
  apply (polled_frames w m _ k s f Hwf Hs) in Hin as [_ [Hfo| ->]]; [|done].
  destruct f as [| | | | | | |k' offset data []| |k' status| |]; try done; destruct Hfo as [Hk Hfo]; exists s; rewrite Hk, Hid;
    (split_and!; [done..|]); [|by rewrite Hfo].
  destruct Hfo as (_ & _ & _ & _ & Hfin). by destruct Hfin.
Qed.

(** Reading at the second end leaves the rest of the stream. *)
Lemma reads_b_stream n d n1 s :
  @reads Z net end_b id n d n1 → streams (n_b n) !! id = Some s →
  ∃ r, streams (n_b n1) !! id = Some (set_recv r s).
Proof.
  intros Hr. revert s. induction Hr as [n|n d n1 ds n2 Hr _ IH]; intros s Hs.
  { exists (s_recv s). rewrite Hs. by destruct s. }
  injection Hr as _ <-. cbn in IH. unfold mux_read in IH. rewrite Hs in IH.
  destruct (read (s_recv s)) as [x r]. cbn in IH.
  destruct (IH (set_recv r s)) as [r' Hr']; [apply lookup_insert_eq|]. by exists r'.
Qed.

Lemma mux_read_other m k : k ≠ id → streams (mux_read m k).2 !! id = streams m !! id.
Proof.
  intros Hk. unfold mux_read. destruct (streams m !! k) as [s|]; [|done].
  destruct (read (s_recv s)). cbn. by rewrite lookup_insert_ne.
Qed.
End stream.

(** ** The receiver's turn *)

Section turn.
Context (pid : Z) (path : Path) (was : option (list Z) → Prop) (whole : list Z) (here : option (list Z)).
Local Abbreviation sink_has := (sink_has pid path was here).
Local Abbreviation I := (whole_or_was path was whole).

Lemma runs_drain {K M} `{StreamPort K M} (k : K) fuel : ∀ v s m f,
  sink_has v s f → k_pos s = length v →
  runs (drain_upload fuel k s m) I
    (λ r f', ∃ d v', reads k m d r.2 ∧ sink_has v' r.1.1 f' ∧
      (r.1.2 = false → v' = v ++ d ∧ k_pos r.1.1 = length v')) f.
Proof.
  induction fuel as [|fuel IH]; intros v s m f Hf Hp; cbn [drain_upload].
  { apply runs_ret. exists [], v. rewrite app_nil_r. by split_and!; [constructor|done..]. }
  destruct (port_read m k) as [[|b d] m1] eqn:Hr.
  { apply runs_ret. exists [], v. rewrite app_nil_r. split_and!; [|done..].
    change (@nil Z) with (@nil Z ++ []). by econstructor; [|constructor]. }
  apply runs_bind. eapply runs_sink_write; [done..| |].
  - intros s' f' Hf' Hp'. eapply runs_weaken; [done| |by apply (IH (v ++ b :: d))].
    intros [[s2 bad] m2] f2 (d2 & v2 & Hr2 & Hs2 & Hb2). exists ((b :: d) ++ d2), v2.
    split_and!; [by econstructor|done|]. intros [-> Hp2]%Hb2. split; [by rewrite <- (assoc_L (++))|exact Hp2].
  - intros v' f' Hf'. apply runs_ret. exists (b :: d), v'. split_and!; [|done..].
    rewrite <- (app_nil_r (b :: d)). by econstructor; [|constructor].
Qed.

(** What a turn leaves. *)
Definition turned {K M} `{StreamPort K M} (finished : M → K → bool) (k : K) (v : list Z) (m : M)
    (r : PutTurn * M) (f : Fs) : Prop :=
  ∃ d m1, reads k m d m1 ∧
    match r.1 with
    | PutGoesOn s => r.2 = m1 ∧ sink_has (v ++ d) s f ∧ k_pos s = length (v ++ d)
    | PutFailed => r.2 = m1 ∧ at_rest pid path was here f
    | PutEnded ok => r.2 = port_close m1 k ∧ finished m1 k = true ∧
        if ok then arrived pid path was whole f else at_rest pid path was here f
    end.

Lemma runs_put_turn {K M} `{StreamPort K M} (finished : M → K → bool) (k : K) v s m f :
  sink_has v s f → k_pos s = length v →
  (∀ d m1, reads k m d m1 → finished m1 k = true → v ++ d = whole) →
  runs (put_turn finished k s m) I (turned finished k v m) f.
Proof.
  intros Hf Hp Hend. unfold put_turn. apply runs_bind.
  eapply runs_weaken; [done| |by apply runs_drain].
  intros [[s1 bad] m1] f1 (d & v' & Hr & Hs & Hb). cbn in *. destruct bad.
  - apply runs_bind. eapply runs_drop; [exact Hs|]. intros f2 Hf2. apply runs_ret. by exists d, m1.
  - destruct (Hb eq_refl) as [-> Hp1]. destruct (finished m1 k) eqn:Hfin; [|by apply runs_ret; exists d, m1].
    rewrite (Hend d m1 Hr Hfin) in Hs. apply runs_bind.
    apply (runs_finalize pid path was whole here s1); [done|..]; intros f2 Hf2; apply runs_ret; by exists d, m1.
Qed.
End turn.

(** What a sender's turn comes to: an error, nothing, or the next piece of the file,
    the end of the stream if there is none. *)
Lemma upload_send_result {K M} `{StreamPort K M} (k : K) src sf (m : M) ans f :
  let r := run_result (upload_send k src sf m) ans f in
  r = None ∨ r = Some (src, sf, m) ∨
  sf = false ∧ ∃ n chunk, (0 < n)%nat ∧ chunk = take n (drop (r_pos src) (file_at f (r_file src))) ∧
    r = Some (mkFileSource (r_file src) (r_pos src + length chunk), bool_decide (chunk = []),
      match chunk with [] => port_close m k | _ => port_write m k chunk end).
Proof.
  assert (0 < CHUNK)%nat as Hc by (apply Nat.mul_pos_pos; lia).
  unfold upload_send. destruct (negb sf && _) eqn:Hg; [|by right; left].
  apply andb_true_iff in Hg as [Hg%negb_true_iff _].
  unfold run_result, io_bind, read_chunk. generalize dependent CHUNK. intros size Hc.
  destruct (next_ans ans) as [[| |n] ans']; [|by left|]; cbn -[Nat.min].
  all: right; right; split; [done|].
  - exists size. eexists. split_and!; [done|reflexivity|]. by destruct (take size _).
  - exists (S n `min` size)%nat. eexists. split_and!; [lia|reflexivity|]. by destruct (take (S n `min` size) _).
Qed.

(** ** The system *)

(** The network with the frames the second end ever sent, the upload's file at the
    client and whether it has sent its end ([None] once it has given up), the
    server's sink, its disk with all the states it went through, and whether the
    file was ever moved into place. *)
Record upload := mkUpload {
  u_net : net;
  u_ba : list Frame;
  u_src : option (FileSource * bool);
  u_sink : option FileSink;
  u_fs : Fs;
  u_seen : list Fs;
  u_landed : bool;
}.

Definition set_u_net v u := mkUpload v (u_ba u) (u_src u) (u_sink u) (u_fs u) (u_seen u) (u_landed u).
Definition set_u_src v u := mkUpload (u_net u) (u_ba u) v (u_sink u) (u_fs u) (u_seen u) (u_landed u).
Definition set_u_sink v u := mkUpload (u_net u) (u_ba u) (u_src u) v (u_fs u) (u_seen u) (u_landed u).
Definition set_u_landed v u := mkUpload (u_net u) (u_ba u) (u_src u) (u_sink u) (u_fs u) (u_seen u) v.
Definition sent_ba out u := mkUpload (u_net u) (u_ba u ++ out) (u_src u) (u_sink u) (u_fs u) (u_seen u) (u_landed u).

(** Run a program on the server's disk. *)
Definition on_server {A} (m : Io A) (ans : list Ans) (u : upload) : A * upload :=
  (run_result m ans (u_fs u),
   mkUpload (u_net u) (u_ba u) (u_src u) (u_sink u) (run_end m ans (u_fs u))
     (u_seen u ++ run_states m ans (u_fs u)) (u_landed u)).

Definition frame_to_a (f : Frame) (n : net) : net :=
  mkNet (on_frame (n_a n) f) (n_b n) (on_open (n_a n) f (wrote n)) (wrote_b n) (got n) (wire_ab n).
Definition frame_to_b (f : Frame) (n : net) : net :=
  mkNet (n_a n) (on_frame (n_b n) f) (wrote n) (on_open (n_b n) f (wrote_b n)) (on_open (n_b n) f (got n)) (wire_ab n).
Definition poll_a (n : net) : net :=
  mkNet (poll_transmit (n_a n)).2 (n_b n) (wrote n) (wrote_b n) (got n) (wire_ab n ++ (poll_transmit (n_a n)).1).
Definition poll_b (n : net) : net := set_n_b (poll_transmit (n_b n)).2 (wrote_b n) (got n) n.

Section upload.
Context (id pid : Z) (path : Path) (local : Fs).

Definition reset_b (n : net) : net := set_n_b (mux_reset (n_b n) id) (wrote_b n) (got n) n.
Definition finished_b (n : net) (k : Z) : bool := is_recv_finished (n_b n) k.

(** The stream is opened at the server, which creates the sink or resets it. *)
Definition open_upload (ans : list Ans) (u : upload) : upload :=
  match on_server (sink_create pid path) ans u with
  | (Some s, u) => set_u_sink (Some s) u
  | (None, u) => set_u_net (reset_b (u_net u)) (set_u_sink None u)
  end.

(** The server's sink is dropped before it is finalized. *)
Definition drop_upload (ans : list Ans) (u : upload) : upload :=
  match u_sink u with
  | Some s => set_u_sink None (on_server (sink_drop s) ans u).2
  | None => u
  end.

(** The server's turn on its sink. *)
Definition pump_upload (ans : list Ans) (s : FileSink) (u : upload) : upload :=
  let '((t, n), u) := on_server (@put_turn Z net end_b finished_b id s (u_net u)) ans u in
  match t with
  | PutGoesOn s => set_u_sink (Some s) (set_u_net n u)
  | PutFailed => set_u_sink None (set_u_net (reset_b n) u)
  | PutEnded true => set_u_landed true (set_u_sink None (set_u_net n u))
  | PutEnded false => set_u_sink None (set_u_net (reset_b n) u)
  end.

(** The client's turn. An error of its own ends the transfer. *)
Definition send_upload (ans : list Ans) (src : FileSource) (sent_fin : bool) (u : upload) : upload :=
  match run_result (@upload_send Z net end_a id src sent_fin (u_net u)) ans local with
  | Some (src, sent_fin, n) => set_u_src (Some (src, sent_fin)) (set_u_net n u)
  | None => set_u_src None u
  end.

(** Both ends go on with their other streams as they like. *)
Inductive upload_step (u : upload) : upload → Prop :=
| up_poll_a : upload_step u (set_u_net (poll_a (u_net u)) u)
| up_other_a w m :
  local_step (wrote (u_net u)) (n_a (u_net u)) w m [] →
  streams m !! id = streams (n_a (u_net u)) !! id → w !!! id = wrote (u_net u) !!! id →
  upload_step u (set_u_net (set_n_a m w (u_net u)) u)
| up_frame_a f :
  f ∈ u_ba u → frame_wf f → f ≠ StreamReset id →
  upload_step u (set_u_net (frame_to_a f (u_net u)) u)
| up_rejected :
  StreamReset id ∈ u_ba u → frame_wf (StreamReset id) →
  upload_step u (set_u_src None (set_u_net (frame_to_a (StreamReset id) (u_net u)) u))
| up_send ans src sent_fin :
  u_src u = Some (src, sent_fin) → upload_step u (send_upload ans src sent_fin u)
| up_gives_up : upload_step u (set_u_src None u)
| up_poll_b : upload_step u (sent_ba (poll_transmit (n_b (u_net u))).1 (set_u_net (poll_b (u_net u)) u))
| up_other_b w m :
  local_step (wrote_b (u_net u)) (n_b (u_net u)) w m [] →
  streams m !! id = streams (n_b (u_net u)) !! id →
  upload_step u (set_u_net (set_n_b m w (got (u_net u)) (u_net u)) u)
| up_read_b k :
  k ≠ id →
  upload_step u (set_u_net (@port_read Z net end_b (u_net u) k).2 u)
| up_frame_b f :
  f ∈ wire_ab (u_net u) → opens (n_b (u_net u)) f id = false → f ≠ StreamReset id →
  upload_step u (set_u_net (frame_to_b f (u_net u)) u)
| up_open f ans :
  f ∈ wire_ab (u_net u) → opens (n_b (u_net u)) f id = true →
  upload_step u (open_upload ans (set_u_net (frame_to_b f (u_net u)) u))
| up_reset ans :
  StreamReset id ∈ wire_ab (u_net u) →
  upload_step u (drop_upload ans (set_u_net (frame_to_b (StreamReset id) (u_net u)) u))
| up_pump ans s : u_sink u = Some s → upload_step u (pump_upload ans s u)
| up_dropped ans : upload_step u (drop_upload ans u).
End upload.

(** ** The invariant *)

Section proof.
Context (id pid : Z) (path : Path) (local : Fs) (i : Z) (old : option (list Z)).
Context (Hpid : is_u32 pid) (Hlen : zlen (file_at local i) < 2 ^ 63).
Local Abbreviation whole := (file_at local i).
Local Abbreviation step := (upload_step id pid path local).

(** What the destination may hold, and what it does. *)
Definition either : option (list Z) → Prop := λ c, c = old ∨ c = Some whole.
Definition now_there (landed : bool) : option (list Z) := if landed then Some whole else old.
Local Abbreviation I := (whole_or_was path either whole).

(** The client: a stream it closed carries the whole; while it goes on, the stream
    has what was read of the file, and has ended at the server only if the file
    landed. *)
Definition client_ok (src : option (FileSource * bool)) (w : list Z) (sa : option StreamState) (landed : bool) : Prop :=
  (∀ s, sa = Some s → s_send_fin s = true → w = whole) ∧
  ∀ fs sf, src = Some (fs, sf) → r_file fs = i ∧
    match sa with
    | None => landed = true
    | Some s => w = take (r_pos fs) whole ∧ s_send_fin s = sf ∧ s_reset s = false ∧
        (s_peer_fin s ≠ HOpen ∨ s_close_received s = true → landed = true)
    end.

(** The server: the stream ends after the whole, and is closed in our direction only
    if the file landed, or it is reset too. *)
Definition server_ok (sink : option FileSink) (w : list Z) (sb : option StreamState) (landed : bool) : Prop :=
  (∀ s, sb = Some s → (s_peer_fin s ≠ HOpen → w = whole) ∧
    (s_reset s = false → s_send_fin s = true ∨ s_close_status s ≠ None → landed = true)) ∧
  (is_Some sink → ∃ s, sb = Some s ∧ s_send_fin s = false ∧ s_reset s = false).

(** The disk: the sink has what was read from the stream. *)
Definition disk_ok (sink : option FileSink) (g : list Z) (landed : bool) (f : Fs) : Prop :=
  match sink with
  | None => at_rest pid path either (now_there landed) f
  | Some s => sink_has pid path either (now_there landed) g s f ∧ k_pos s = length g
  end.

(** The frames that end a stream. *)
Definition ends (f : Frame) : Prop :=
  (∃ offset data, f = StreamData id offset data true) ∨ (∃ status, f = StreamClose id status).

Record up_inv (u : upload) : Prop := {
  vi_net : net_inv (u_net u);
  vi_id : id mod 2 = local_parity (n_a (u_net u));
  vi_used : id < next_local_id (n_a (u_net u));
  vi_disk : disk_ok (u_sink u) (got (u_net u) !!! id) (u_landed u) (u_fs u);
  vi_seen : Forall I (u_seen u);
  vi_client : client_ok (u_src u) (wrote (u_net u) !!! id) (streams (n_a (u_net u)) !! id) (u_landed u);
  vi_wire offset data : StreamData id offset data true ∈ wire_ab (u_net u) → wrote (u_net u) !!! id = whole;
  vi_server : server_ok (u_sink u) (wrote (u_net u) !!! id) (streams (n_b (u_net u)) !! id) (u_landed u);
  vi_ba f : f ∈ u_ba u → ends f → u_landed u = true;
}.

(** ** The parts, step by step *)

Lemma client_poll src w l m wr :
  mux_wf wr m → client_ok src w (streams m !! id) l → client_ok src w (streams (poll_transmit m).2 !! id) l.
Proof.
  intros Hwf [Hf Hc]. pose proof (poll_stream id wr m Hwf) as Hp.
  destruct (streams m !! id) as [s|]; [|by rewrite Hp].
  destruct (streams (poll_transmit m).2 !! id) as [s'|].
  - destruct Hp as [[] _]. split.
    + intros s0 [= <-] ?. apply (Hf s); congruence.
    + intros fs sf Hs. destruct (Hc fs sf Hs) as (? & ? & ? & ? & ?). split_and!; try congruence.
      intros [?|?]; [|]; match goal with Hl : _ → l = true |- _ => apply Hl; [left + right; congruence] end.
  - split; [done|]. intros fs sf Hs. destruct (Hc fs sf Hs) as (? & ? & ? & Hr & Hl). split; [done|].
    destruct Hp as [Hp|[_ Hp]]; [congruence|by apply Hl].
Qed.

Lemma client_frame src w l m f :
  (ends f → l = true) → f ≠ StreamReset id → opens m f id = false →
  client_ok src w (streams m !! id) l → client_ok src w (streams (on_frame m f) !! id) l.
Proof.
  intros He Hr Ho [Hf Hc]. destruct (streams m !! id) as [s|] eqn:Hs.
  - destruct (on_frame_stream id m f s Hs) as (s' & -> & Hfin & _ & Hreset & Hclose & Hpeer). split.
    + intros s0 [= <-] ?. apply (Hf s); congruence.
    + intros fs sf Hsrc. destruct (Hc fs sf Hsrc) as (? & ? & ? & ? & Hl). split_and!; try congruence.
      * by destruct Hreset as [->|[_ ->]].
      * intros [Hp|Hp].
        -- destruct Hpeer as [Hpeer|(o & d & ->)]; [apply Hl; left; congruence|apply He; left; eauto].
        -- destruct Hclose as [Hclose|[st ->]]; [apply Hl; right; congruence|apply He; right; eauto].
  - by rewrite on_frame_absent.
Qed.

Lemma server_poll sink w l m wr :
  mux_wf wr m → server_ok sink w (streams m !! id) l → server_ok sink w (streams (poll_transmit m).2 !! id) l.
Proof.
  intros Hwf [Hs Hk]. pose proof (poll_stream id wr m Hwf) as Hp. split.
  - intros s' Hs'. destruct (streams m !! id) as [s|]; [|congruence]. rewrite Hs' in Hp. destruct Hp as [[] _].
    destruct (Hs s eq_refl) as [Hw Hl]. split; [intros ?; apply Hw; congruence|].
    intros ? [?|?]; apply Hl; [congruence|left; congruence|congruence|right; congruence].
  - intros Hsome. destruct (Hk Hsome) as (s & Hsm & Hf & Hr). rewrite Hsm in Hp.
    destruct (streams (poll_transmit m).2 !! id) as [s'|].
    + destruct Hp as [[] _]. exists s'. split_and!; congruence.
    + destruct Hp as [?|[? _]]; congruence.
Qed.

Lemma server_frame sink w l m f :
  (∀ offset data, f = StreamData id offset data true → w = whole) →
  (f = StreamReset id → sink = None) → opens m f id = false →
  server_ok sink w (streams m !! id) l → server_ok sink w (streams (on_frame m f) !! id) l.
Proof.
  intros Hw Hr Ho [Hs Hk]. destruct (streams m !! id) as [s|] eqn:Hsm.
  - destruct (on_frame_stream id m f s Hsm) as (s' & -> & Hfin & Hst & Hreset & _ & Hpeer).
    destruct (Hs s eq_refl) as [Hws Hl]. split.
    + intros s0 [= <-]. split.
      * intros Hp. destruct Hpeer as [Hpeer|(o & d & ->)]; [apply Hws; congruence|by eapply Hw].
      * rewrite Hfin, Hst. destruct Hreset as [->|[-> _]]; [exact Hl|done].
    + intros Hsome. destruct (Hk Hsome) as (s0 & [= <-] & ? & ?). exists s'. split_and!; [done|congruence|].
      destruct Hreset as [->|[_ He]]; [done|]. rewrite (Hr He) in Hsome. by destruct Hsome.
  - by rewrite on_frame_absent.
Qed.

(** The sink is given up, or the stream closed or reset. *)
Lemma server_no_sink sink w sb l : server_ok sink w sb l → server_ok None w sb l.
Proof. intros [Hs _]. split; [done|]. by intros [? ?]. Qed.

Lemma server_reset sink w l m :
  server_ok sink w (streams m !! id) l → server_ok None w (streams (mux_reset m id) !! id) l.
Proof.
  intros [Hs _]. unfold mux_reset. rewrite with_stream_lookup, bool_decide_eq_true_2 by done.
  split; [|by intros [? ?]]. intros s' (s & Hsm & ->)%fmap_Some. by split; [apply (Hs s)|].
Qed.

Lemma server_close sink w m l : server_ok sink w (streams m !! id) l →
  server_ok None w (streams (mux_close m id 0) !! id) true.
Proof.
  intros [Hs _]. unfold mux_close. rewrite with_stream_lookup, bool_decide_eq_true_2 by done.
  split; [|by intros [? ?]]. intros s' (s & Hsm & ->)%fmap_Some. by split; [apply (Hs s)|].
Qed.

(** The stream was closed, and is reset. *)
Lemma server_close_reset sink w m l : server_ok sink w (streams m !! id) l →
  server_ok None w (streams (mux_reset (mux_close m id 0) id) !! id) l.
Proof.
  intros [Hs _]. unfold mux_reset, mux_close. rewrite !with_stream_lookup, !bool_decide_eq_true_2 by done.
  split; [|by intros [? ?]]. intros s' (s1 & (s & Hsm & ->)%fmap_Some & ->)%fmap_Some. by split; [apply (Hs s)|].
Qed.

Lemma server_landed sink w sb l : server_ok sink w sb l → server_ok sink w sb true.
Proof. intros [Hs Hk]. split; [|done]. intros s Hsb. by split; [apply (Hs s)|]. Qed.
Lemma client_landed src w sa l : client_ok src w sa l → client_ok src w sa true.
Proof.
  intros [Hf Hc]. split; [done|]. intros fs sf Hs. destruct (Hc fs sf Hs) as [? Hm].
  split; [done|]. destruct sa; [|done]. destruct Hm as (? & ? & ? & _). by split_and!.
Qed.

Lemma server_read sink w l n d n1 :
  @reads Z net end_b id n d n1 → server_ok sink w (streams (n_b n) !! id) l →
  is_Some (streams (n_b n) !! id) → server_ok sink w (streams (n_b n1) !! id) l.
Proof.
  intros Hr [Hs Hk] [s Hb]. destruct (reads_b_stream id _ _ _ _ Hr Hb) as [r ->]. split.
  - intros s' [= <-]. by apply (Hs s).
  - intros Hsome. destruct (Hk Hsome) as (s0 & Hs0 & ? & ?). rewrite Hb in Hs0. injection Hs0 as <-.
    by eexists.
Qed.

(** A program on the server's disk. *)
Lemma on_server_runs {A} (m : Io A) ans u (Q : A → Fs → Prop) :
  Forall I (u_seen u) → I (u_fs u) → runs m I Q (u_fs u) →
  ∃ a f seen, on_server m ans u =
      (a, mkUpload (u_net u) (u_ba u) (u_src u) (u_sink u) f seen (u_landed u)) ∧
    Q a f ∧ Forall I seen.
Proof.
  intros Hs Hf Hm. destruct (runs_states m I Q ans (u_fs u) Hf Hm) as [Ht Hq].
  eexists _, _, _. split; [reflexivity|]. split; [exact Hq|by apply Forall_app_2].
Qed.

Lemma disk_ok_holds sink g l f : disk_ok sink g l f → I f.
Proof.
  destruct sink; [intros [Hs _]; by eapply holds_was, has_was|intros [_ _ Hh _]; by apply holds_was].
Qed.

Lemma arrived_rest f : arrived pid path either whole f → at_rest pid path either (now_there true) f.
Proof.
  intros [Hwf Hfree Hh Hc]. split; try done. eapply holds_one_weaken; [|exact Hh].
  intros c [Hc'| ->]; [done|by right].
Qed.

(** A step of the network in which the first end keeps its ids. *)
Lemma net_part n n' :
  net_inv n → net_step n n' → id mod 2 = local_parity (n_a n) → id < next_local_id (n_a n) →
  net_inv n' ∧ id mod 2 = local_parity (n_a n') ∧ id < next_local_id (n_a n').
Proof.
  intros Hn Hs Hp Hu. destruct (net_step_fin id n n' Hn Hs Hp Hu) as (_ & Hp' & Hn').
  split_and!; [by eapply net_inv_step|congruence|lia].
Qed.

Lemma opens_a n f : id mod 2 = local_parity (n_a n) → opens (n_a n) f id = false.
Proof.
  intros Hp. destruct (opens (n_a n) f id) eqn:Ho; [|done]. by destruct (opens_spec _ _ _ Ho) as (_ & ? & _).
Qed.

Lemma net_poll_a n : net_step n (poll_a n).
Proof. apply net_a, ls_poll. Qed.
Lemma net_poll_b n : net_step n (poll_b n).
Proof. exact (net_b n _ _ _ (ls_poll (wrote_b n) (n_b n))). Qed.

(** The steps of the network. *)
Lemma step_poll_a u : up_inv u → up_inv (set_u_net (poll_a (u_net u)) u).
Proof.
  intros [Hn Hid Hu Hd Hs Hc Hw Hb Hba]. destruct (net_part _ _ Hn (net_poll_a _) Hid Hu) as (? & ? & ?).
  split; cbn; try done; [by eapply client_poll; [apply (ni_a _ Hn)|]|].
  intros o d [?|Hin]%elem_of_app; [by eapply Hw|].
  destruct (poll_ends _ _ _ (ni_a _ Hn) Hin) as (s & Hsa & _ & Hfin). by apply (proj1 Hc s).
Qed.

Lemma step_other_a u w m :
  local_step (wrote (u_net u)) (n_a (u_net u)) w m [] →
  streams m !! id = streams (n_a (u_net u)) !! id → w !!! id = wrote (u_net u) !!! id →
  up_inv u → up_inv (set_u_net (set_n_a m w (u_net u)) u).
Proof.
  intros Hl Hsm Hw0 [Hn Hid Hu Hd Hs Hc Hw Hb Hba].
  destruct (net_part _ _ Hn (quiet_a _ _ _ Hl) Hid Hu) as (? & ? & ?).
  split; cbn; rewrite ?Hw0, ?Hsm; done.
Qed.

Lemma step_frame_a u f src :
  f ∈ u_ba u → frame_wf f → (f = StreamReset id → src = None) → (src = u_src u ∨ src = None) →
  up_inv u → up_inv (set_u_src src (set_u_net (frame_to_a f (u_net u)) u)).
Proof.
  intros Hin Hf Hr Hsrc [Hn Hid Hu Hd Hs Hc Hw Hb Hba]. pose proof (opens_a _ f Hid) as Ho.
  destruct (net_part _ (frame_to_a f (u_net u)) Hn (net_a_frame _ f Hf) Hid Hu) as (? & ? & ?).
  split; cbn; try done; rewrite on_open_lookup, Ho; [|done..].
  assert (client_ok src (wrote (u_net u) !!! id) (streams (n_a (u_net u)) !! id) (u_landed u)) as Hc'.
  { destruct Hsrc as [-> | ->]; [done|]. by split; [apply Hc|]. }
  destruct (decide (f = StreamReset id)) as [->|Hne].
  - rewrite Hr by done. split; [|done]. intros s' Hs' Hfin.
    destruct (streams (n_a (u_net u)) !! id) as [s|] eqn:Hsm; [|by rewrite on_frame_absent in Hs'].
    destruct (on_frame_stream id (n_a (u_net u)) (StreamReset id) s Hsm) as (s2 & Hs2 & Hf2 & _).
    rewrite Hs2 in Hs'. injection Hs' as ->. apply (proj1 Hc s); congruence.
  - apply client_frame; try done. by apply Hba.
Qed.

Lemma step_gives_up u : up_inv u → up_inv (set_u_src None u).
Proof. intros [Hn Hid Hu Hd Hs Hc Hw Hb Hba]. split; try done. by split; [apply Hc|]. Qed.

Lemma step_poll_b u :
  up_inv u → up_inv (sent_ba (poll_transmit (n_b (u_net u))).1 (set_u_net (poll_b (u_net u)) u)).
Proof.
  intros [Hn Hid Hu Hd Hs Hc Hw Hb Hba]. destruct (net_part _ _ Hn (net_poll_b _) Hid Hu) as (? & ? & ?).
  split; cbn; try done; [by eapply server_poll; [apply (ni_b _ Hn)|]|].
  intros f [?|Hin]%elem_of_app He; [by eapply Hba|]. pose proof (poll_ends _ _ _ (ni_b _ Hn) Hin) as Hp.
  destruct He as [(o & d & ->)|[st ->]]; destruct Hp as (s & Hsb & Hr & Hend); apply (proj1 Hb s Hsb); auto.
Qed.

Lemma step_other_b u w m :
  local_step (wrote_b (u_net u)) (n_b (u_net u)) w m [] →
  streams m !! id = streams (n_b (u_net u)) !! id →
  up_inv u → up_inv (set_u_net (set_n_b m w (got (u_net u)) (u_net u)) u).
Proof.
  intros Hl Hsm [Hn Hid Hu Hd Hs Hc Hw Hb Hba].
  destruct (net_part _ _ Hn (quiet_b _ _ _ Hl) Hid Hu) as (? & ? & ?). split; cbn; rewrite ?Hsm; done.
Qed.

Lemma step_read_b u k : k ≠ id → up_inv u → up_inv (set_u_net (@port_read Z net end_b (u_net u) k).2 u).
Proof.
  intros Hk [Hn Hid Hu Hd Hs Hc Hw Hb Hba].
  destruct (net_part _ _ Hn (net_b_read _ k) Hid Hu) as (? & ? & ?).
  split; cbn; rewrite ?lookup_total_insert_ne, ?mux_read_other by done; done.
Qed.

Lemma step_frame_b u f :
  f ∈ wire_ab (u_net u) → opens (n_b (u_net u)) f id = false → (f = StreamReset id → u_sink u = None) →
  up_inv u → up_inv (set_u_net (frame_to_b f (u_net u)) u).
Proof.
  intros Hin Ho Hr [Hn Hid Hu Hd Hs Hc Hw Hb Hba].
  destruct (net_part _ (frame_to_b f (u_net u)) Hn (net_b_frame _ f Hin) Hid Hu) as (? & ? & ?).
  split; cbn; try done; [by rewrite on_open_lookup, Ho|].
  apply server_frame; try done. intros o d ->. by eapply Hw.
Qed.

(** ** The sink's steps *)

Lemma net_reset_b n : net_step n (reset_b id n).
Proof. apply (quiet_b n (wrote_b n)). apply ls_reset. Qed.
Lemma net_close_b n : net_step n (@port_close Z net end_b n id).
Proof. apply (quiet_b n (wrote_b n)). apply ls_close. Qed.

(** The server resets the stream, its sink gone. *)
Lemma step_reset u : u_sink u = None → up_inv u → up_inv (set_u_net (reset_b id (u_net u)) u).
Proof.
  intros Hsink [Hn Hid Hu Hd Hs Hc Hw Hb Hba].
  destruct (net_part _ _ Hn (net_reset_b _) Hid Hu) as (? & ? & ?).
  split; cbn; try done. rewrite Hsink in *. by eapply server_reset.
Qed.

Lemma step_open u f ans :
  f ∈ wire_ab (u_net u) → opens (n_b (u_net u)) f id = true →
  up_inv u → up_inv (open_upload id pid path ans (set_u_net (frame_to_b f (u_net u)) u)).
Proof.
  intros Hin Ho [Hn Hid Hu Hd Hs Hc Hw Hb Hba].
  destruct (net_part _ (frame_to_b f (u_net u)) Hn (net_b_frame _ f Hin) Hid Hu) as (Hn' & Hid' & Hu').
  destruct (opens_spec _ _ _ Ho) as (_ & _ & Hnone).
  assert (u_sink u = None) as Hsink.
  { destruct (u_sink u) eqn:Hsink; [|done]. destruct (proj2 Hb (mk_is_Some _ _ eq_refl)) as (s & Hsb & _). congruence. }
  set (u1 := set_u_net (frame_to_b f (u_net u)) u).
  destruct (on_server_runs (sink_create pid path) ans u1
    (λ r f, match r with
            | Some s => sink_has pid path either (now_there (u_landed u)) [] s f ∧ k_pos s = 0%nat
            | None => at_rest pid path either (now_there (u_landed u)) f
            end)) as (r & f1 & seen & He & Hr & Hseen); [done|by eapply disk_ok_holds|..].
  { rewrite Hsink in Hd. eapply runs_create; [exact Hd|by apply temp_path_ne|done|exact Hd]. }
  destruct (on_frame_opens id _ _ Ho) as (kind & meta & Hopen).
  unfold open_upload. rewrite He. destruct r as [s|].
  - split; cbn; try done; [by rewrite on_open_lookup, Ho|]. rewrite Hopen. split.
    + intros s' [= <-]. split; [done|]. intros _ [?|?]; done.
    + intros _. by eexists.
  - apply (step_reset (mkUpload _ _ _ None _ _ _)); [done|]. split; cbn; try done.
    rewrite Hopen. split; [|by intros [? ?]]. intros s' [= <-]. split; [done|]. intros _ [?|?]; done.
Qed.

Lemma step_drop u ans : up_inv u → up_inv (drop_upload ans u).
Proof.
  intros Hinv. unfold drop_upload. destruct (u_sink u) as [s|] eqn:Hsink; [|done].
  destruct Hinv as [Hn Hid Hu Hd Hs Hc Hw Hb Hba]. rewrite Hsink in *. destruct Hd as [Hd Hp].
  destruct (on_server_runs (sink_drop s) ans u
    (λ _, at_rest pid path either (now_there (u_landed u)))) as (r & f1 & seen & -> & Hr & Hseen);
    [done|by eapply holds_was, has_was|by eapply runs_drop|].
  split; cbn; try done. by eapply server_no_sink.
Qed.

(** The end of the stream at the server: everything was read. *)
Lemma read_whole u d n1 :
  up_inv u → is_Some (u_sink u) → @reads Z net end_b id (u_net u) d n1 → finished_b n1 id = true →
  got (u_net u) !!! id ++ d = whole.
Proof.
  intros [Hn Hid Hu Hd Hs Hc Hw Hb Hba] Hsome Hr Hfin.
  destruct (reads_b id _ _ _ Hr) as (Hst & Hwr & _ & Ha & Hg & _).
  destruct (proj2 Hb Hsome) as (s & Hsb & _). destruct (reads_b_stream id _ _ _ _ Hr Hsb) as [r Hs1].
  rewrite <- Ha in Hid. pose proof (ni_view _ (rtc_net_inv _ _ Hn Hst) id Hid) as Hv.
  destruct (v_b _ _ _ _ _ _ _ Hv _ Hs1) as (Hh & Hg1 & Hat).
  unfold finished_b, is_recv_finished in Hfin. rewrite Hs1 in Hfin. unfold recv_finished in Hfin.
  cbn [s_peer_fin set_recv s_recv] in *. destruct (s_peer_fin s) as [|at_] eqn:Hpeer; [done|].
  destruct (Hat at_ eq_refl) as [-> _]. apply andb_true_iff in Hfin as [Hle%Z.leb_le _].
  rewrite <- Hg, Hg1, take_ge by lia. rewrite Hwr. apply (proj1 Hb s Hsb). by rewrite Hpeer.
Qed.

(** After the turn's reads, with what it made of the sink and the disk. *)
Lemma after_reads u d n1 sink f seen l :
  up_inv u → is_Some (u_sink u) → @reads Z net end_b id (u_net u) d n1 →
  l = u_landed u ∨ l = true → disk_ok sink (got (u_net u) !!! id ++ d) l f → Forall I seen →
  up_inv (mkUpload n1 (u_ba u) (u_src u) sink f seen l).
Proof.
  intros [Hn Hid Hu Hd Hs Hc Hw Hb Hba] Hsome Hr Hl Hd1 Hs1.
  destruct (reads_b id _ _ _ Hr) as (Hst & Hwr & _ & Ha & Hg & _).
  assert (wire_ab n1 = wire_ab (u_net u)) as Hwire.
  { clear -Hr. induction Hr as [|n d m1 ds m2 Hr _ IH]; [done|]. injection Hr as _ <-. exact IH. }
  destruct (proj2 Hb Hsome) as (s & Hsb & Hf & Hrs).
  assert (server_ok sink (wrote (u_net u) !!! id) (streams (n_b n1) !! id) (u_landed u)) as Hb1.
  { destruct (server_read (u_sink u) _ _ _ _ _ Hr Hb (mk_is_Some _ _ Hsb)) as [Hb1 Hk1].
    split; [exact Hb1|]. intros _. by apply Hk1. }
  split; cbn; rewrite ?Hwr, ?Ha, ?Hg, ?Hwire; try done; [by eapply rtc_net_inv|..]; destruct Hl as [-> | ->]; try done.
  - by eapply client_landed.
  - by eapply server_landed.
Qed.

(** The server closes its half: the file has landed. *)
Lemma step_close u :
  u_sink u = None → u_landed u = true → up_inv u → up_inv (set_u_net (@port_close Z net end_b (u_net u) id) u).
Proof.
  intros Hsink Hl [Hn Hid Hu Hd Hs Hc Hw Hb Hba].
  destruct (net_part _ _ Hn (net_close_b _) Hid Hu) as (? & ? & ?).
  split; cbn; try done. rewrite Hsink, Hl in *. by eapply server_close.
Qed.

(** It closes it, and resets the stream. *)
Lemma step_close_reset u : u_sink u = None → up_inv u →
  up_inv (set_u_net (reset_b id (@port_close Z net end_b (u_net u) id)) u).
Proof.
  intros Hsink [Hn Hid Hu Hd Hs Hc Hw Hb Hba].
  destruct (net_part _ _ Hn (net_close_b _) Hid Hu) as (Hn1 & Hid1 & Hu1).
  destruct (net_part _ _ Hn1 (net_reset_b _) Hid1 Hu1) as (? & ? & ?).
  split; cbn; try done. rewrite Hsink in *. by eapply server_close_reset.
Qed.

Lemma step_pump u ans s : u_sink u = Some s → up_inv u → up_inv (pump_upload id ans s u).
Proof.
  intros Hsink Hinv. pose proof (vi_disk _ Hinv) as Hd. rewrite Hsink in Hd. destruct Hd as [Hd Hp].
  assert (is_Some (u_sink u)) as Hsome by by rewrite Hsink.
  destruct (on_server_runs (@put_turn Z net end_b finished_b id s (u_net u)) ans u
    (@turned pid path either whole (now_there (u_landed u)) Z net end_b finished_b id
      (got (u_net u) !!! id) (u_net u))) as ([t n] & f1 & seen & He & (d & n1 & Hr & Ht) & Hseen);
    [apply Hinv|by eapply holds_was, has_was| |].
  { apply runs_put_turn; [done..|]. intros d n1 Hr Hf. by apply (read_whole u d n1). }
  unfold pump_upload. rewrite He. clear He. cbn in Ht.
  pose proof (λ sink l, after_reads u d n1 sink f1 seen l Hinv Hsome Hr) as Hafter.
  destruct t as [s'| |[]].
  - destruct Ht as (-> & Hs' & Hp'). by apply (Hafter (Some s') (u_landed u)); [left|split|].
  - destruct Ht as (-> & Hrest). by apply (step_reset (mkUpload n1 _ _ None _ _ _)), (Hafter None); [|left|..].
  - destruct Ht as (-> & _ & Hok). apply (step_close (mkUpload n1 _ _ None _ _ true)); [done..|].
    by apply (Hafter None true); [right|apply arrived_rest|].
  - destruct Ht as (-> & _ & Hrest). by apply (step_close_reset (mkUpload n1 _ _ None _ _ _)), (Hafter None); [|left|..].
Qed.

(** ** The source's steps *)

Lemma net_close_a n : net_step n (@port_close Z net end_a n id).
Proof. apply (quiet_a n (wrote n)). apply ls_close. Qed.

(** The client ends the stream: all of the file is in it. *)
Lemma step_source_end u src :
  u_src u = Some (src, false) → drop (r_pos src) whole = [] → up_inv u →
  up_inv (set_u_src (Some (src, true)) (set_u_net (@port_close Z net end_a (u_net u) id) u)).
Proof.
  intros Hsrc Hend [Hn Hid Hu Hd Hs Hc Hw Hb Hba].
  destruct (net_part _ _ Hn (net_close_a _) Hid Hu) as (? & ? & ?).
  split; cbn; try done. destruct Hc as [Hf Hc]. destruct (Hc _ _ Hsrc) as [Hi Hm].
  unfold mux_close. rewrite with_stream_lookup, bool_decide_eq_true_2 by done.
  destruct (streams (n_a (u_net u)) !! id) as [s|]; cbn; [|by split; [|intros ?? [= <- <-]]].
  destruct Hm as (Hwr & Hsf & Hr & Hl).
  assert (wrote (u_net u) !!! id = whole) as Hall.
  { rewrite Hwr, <- (app_nil_r (take _ _)), <- Hend. apply take_drop. }
  split; [done|]. intros ?? [= <- <-]. split; [done|]. split_and!; [by rewrite <- Hwr|done..].
Qed.

(** The client writes the next piece. *)
Lemma step_source_more u src n chunk :
  u_src u = Some (src, false) → chunk = take n (drop (r_pos src) whole) → up_inv u →
  up_inv (set_u_src (Some (mkFileSource (r_file src) (r_pos src + length chunk), false))
    (set_u_net (@port_write Z net end_a (u_net u) id chunk) u)).
Proof.
  intros Hsrc Hchunk [Hn Hid Hu Hd Hs Hc Hw Hb Hba]. destruct (proj2 Hc _ _ Hsrc) as [Hi Hm].
  destruct (streams (n_a (u_net u)) !! id) as [s|] eqn:Hsa; cbn [port_write end_a]; rewrite Hsa.
  - destruct Hm as (Hwr & Hsf & Hr & Hl).
    assert (wrote (u_net u) !!! id ++ chunk = take (r_pos src + length chunk) whole) as Hw'.
    { rewrite Hwr, <- take_take_drop. f_equal. rewrite Hchunk.
      generalize (drop (r_pos src) whole). intros rest. rewrite length_take.
      destruct (decide (n ≤ length rest)%nat); [f_equal; lia|]. by rewrite !take_ge by lia. }
    assert (zlen (wrote (u_net u) !!! id ++ chunk) < 2 ^ 63) as Hl63.
    { rewrite Hw'. eapply Z.le_lt_trans; [|exact Hlen]. apply inj_le. rewrite length_take. lia. }
    assert (net_step (u_net u) (set_n_a (mux_write (n_a (u_net u)) id chunk)
      (<[id := wrote (u_net u) !!! id ++ chunk]> (wrote (u_net u))) (u_net u))) as Hst
      by by apply quiet_a, (ls_write _ _ id s chunk).
    destruct (net_part _ _ Hn Hst Hid Hu) as (? & ? & ?).
    pose proof (ni_view _ Hn id Hid) as Hv.
    assert (¬ closed (streams (n_a (u_net u)) !! id)) as Hopen.
    { intros Hcl. specialize (Hcl s Hsa). congruence. }
    split; cbn; try done; rewrite ?lookup_total_insert_eq, Hw'.
    + unfold mux_write. rewrite with_stream_lookup, bool_decide_eq_true_2, Hsa by done. cbn.
      split; [intros ? [= <-]; cbn; congruence|]. intros ?? [= <- <-]. by split_and!.
    + intros o d Hin. destruct (v_wire _ _ _ _ _ _ _ Hv _ _ _ Hin) as [_ Hfin]. by destruct Hfin.
    + split; [|apply Hb]. intros sb Hsb. split; [|by apply Hb].
      intros Hp. destruct (v_b _ _ _ _ _ _ _ Hv _ Hsb) as (_ & _ & Hat).
      destruct (s_peer_fin sb) as [|at_]; [done|]. by destruct (Hat at_ eq_refl).
  - split; cbn; try done. rewrite Hsa. split; [done|]. by intros ?? [= <- <-].
Qed.

Lemma step_send u ans src sf :
  u_src u = Some (src, sf) → up_inv u → up_inv (send_upload id local ans src sf u).
Proof.
  intros Hsrc Hinv. unfold send_upload. destruct (proj2 (vi_client _ Hinv) _ _ Hsrc) as [Hi _].
  destruct (@upload_send_result Z net end_a id src sf (u_net u) ans local) as
    [-> |[-> |(-> & n & chunk & Hn & Hchunk & ->)]]; [by apply step_gives_up| |].
  - rewrite <- Hsrc. by destruct u, Hinv.
  - rewrite Hi in Hchunk. destruct chunk as [|b chunk]; cbn [length].
    + rewrite bool_decide_eq_true_2, Nat.add_0_r by done.
      assert (mkFileSource (r_file src) (r_pos src) = src) as -> by by destruct src.
      apply step_source_end; [done| |done].
      destruct n; [lia|]. by destruct (drop (r_pos src) whole).
    + rewrite bool_decide_eq_false_2 by done. by eapply step_source_more.
Qed.

(** The frame that resets the stream and the drop of the sink that it causes. *)
Lemma step_resets u ans :
  StreamReset id ∈ wire_ab (u_net u) → up_inv u →
  up_inv (drop_upload ans (set_u_net (frame_to_b (StreamReset id) (u_net u)) u)).
Proof.
  intros Hin Hinv. pose proof (step_drop u ans Hinv) as Hd.
  assert (drop_upload ans (set_u_net (frame_to_b (StreamReset id) (u_net u)) u) =
    set_u_net (frame_to_b (StreamReset id) (u_net u)) (drop_upload ans u) ∧
    u_net (drop_upload ans u) = u_net u ∧ u_sink (drop_upload ans u) = None) as (-> & Hnet & Hsink).
  { unfold drop_upload. cbn. by destruct (u_sink u) eqn:Hsink; [|rewrite Hsink]. }
  rewrite <- Hnet in *. by apply step_frame_b.
Qed.

Lemma upload_step_inv u u' : up_inv u → step u u' → up_inv u'.
Proof.
  intros Hinv Hstep. destruct Hstep.
  - by apply step_poll_a.
  - by apply step_other_a.
  - apply (step_frame_a u f (u_src u)); auto; by destruct u.
  - by apply (step_frame_a u); [..|right|].
  - by apply step_send.
  - by apply step_gives_up.
  - by apply step_poll_b.
  - by apply step_other_b.
  - by apply step_read_b.
  - by apply step_frame_b.
  - by apply step_open.
  - by apply step_resets.
  - by apply step_pump.
  - by apply step_drop.
Qed.
End proof.

(** ** From a fresh client *)

(** The client has opened its first stream for the file [i] of its disk. *)
Definition upload_start (meta : list Z) (i : Z) (f : Fs) : upload :=
  mkUpload (set_n_a (mux_open (mux_new true) FileTransfer meta).2 (<[0 := []]> ∅) (net_new true))
    [] (Some (mkFileSource i 0, false)) None f [f] false.

Lemma upload_start_inv pid path local i old meta f :
  fs_wf f → tmp_free path (temp_path pid path) f → holds_one path (λ c, c = old) f →
  up_inv 0 pid path local i old (upload_start meta i f).
Proof.
  intros Hwf Hfree Hf.
  assert (holds_one path (either local i old) f) as Hh by (apply (holds_one_weaken _ (λ c, c = old)); [by intros c ?; left|exact Hf]).
  assert (net_step (net_new true) (u_net (upload_start meta i f))) as Hst.
  { exact (quiet_a (net_new true) _ _ (ls_open ∅ (mux_new true) FileTransfer meta ltac:(cbn; lia))). }
  split; cbn; try done.
  - eapply net_inv_step; [apply net_new_inv|exact Hst].
  - split; [done..|]. by apply holds_one_content in Hf.
  - constructor; [by apply holds_was|done].
  - split; [by intros s [= <-]|]. intros fs sf [= <- <-]. split; [done|].
    rewrite lookup_insert_eq. split_and!; [done..|]. by intros [?|?].
  - by intros o d ?%not_elem_of_nil.
  - intros f0 Hin. by apply not_elem_of_nil in Hin.
Qed.

(** C16 A file sent to the server, end to end, by the only upload to its destination:
    whatever the network does with the frames, the operating systems answer and the
    other streams do, the destination holds its old content or the whole file, also
    after a crash between any two calls; and once the client counts the transfer as
    done, because it has sent the end and the server has closed its half, the
    destination is the whole file. *)
Theorem upload_delivers pid path local i old meta f u :
  is_u32 pid → zlen (file_at local i) < 2 ^ 63 →
  fs_wf f → tmp_free path (temp_path pid path) f → holds_one path (λ c, c = old) f →
  rtc (upload_step 0 pid path local) (upload_start meta i f) u →
  (∀ g g', g ∈ u_seen u → crash g g' → content g' path = old ∨ content g' path = Some (file_at local i)) ∧
  content (u_fs u) path = (if u_landed u then Some (file_at local i) else old) ∧
  ∀ src, u_src u = Some (src, true) → is_recv_finished (n_a (u_net u)) 0 = true →
    content (u_fs u) path = Some (file_at local i).
Proof.
  intros Hpid Hlen Hwf Hfree Hf Hr.
  assert (up_inv 0 pid path local i old u) as [Hn Hid Hu Hd Hs Hc Hw Hb Hba].
  { eapply (rtc_invariant _ (up_inv 0 pid path local i old)); [exact (upload_start_inv _ _ local i _ meta _ Hwf Hfree Hf)| |exact Hr].
    intros u1 u2. by apply upload_step_inv. }
  assert (content (u_fs u) path = now_there local i old (u_landed u)) as Hnow.
  { destruct (u_sink u); [destruct Hd as [[] _]|destruct Hd]; done. }
  split_and!; [|done|].
  - intros g g' Hg Hcr. apply (proj1 (Forall_forall _ _) Hs) in Hg.
    apply (holds_one_crash _ _ _ _ Hg) in Hcr. unfold either in Hcr. tauto.
  - intros src Hsrc Hfin. destruct (proj2 Hc _ _ Hsrc) as [_ Hm].
    assert (u_landed u = true) as Hl; [|by rewrite Hnow, Hl].
    unfold is_recv_finished in Hfin. destruct (streams (n_a (u_net u)) !! 0) as [s|]; [|done].
    apply Hm. left. unfold recv_finished in Hfin. by destruct (s_peer_fin s).
Qed.

(** ** A run

    A file of three bytes replaces one of three others. *)
Definition sample_local : Fs := mkFs {[ [103] := 1 ]} {[ 1 := [4; 5; 6] ]} {[ 1 ]} [].
Definition sample_path : Path := [102].

Definition run0 : upload := upload_start [] 1 sample_disk.
Definition run1 : upload := send_upload 0 sample_local [] (mkFileSource 1 0) false run0.
Definition run2 : upload := send_upload 0 sample_local [] (mkFileSource 1 3) false run1.
Definition run3 : upload := set_u_net (poll_a (u_net run2)) run2.
Definition run4 : upload :=
  open_upload 0 1 sample_path [] (set_u_net (frame_to_b (StreamOpen 0 FileTransfer []) (u_net run3)) run3).
Definition run5 : upload := set_u_net (frame_to_b (StreamData 0 0 [4; 5; 6] true) (u_net run4)) run4.
Definition run6 : upload := pump_upload 0 [] (default (mkFileSink 0 0 [] []) (u_sink run5)) run5.
Definition run7 : upload := sent_ba (poll_transmit (n_b (u_net run6))).1 (set_u_net (poll_b (u_net run6)) run6).
Definition run8 : upload := set_u_net (frame_to_a (StreamData 0 0 [] true) (u_net run7)) run7.

Lemma run8_reached : rtc (upload_step 0 1 sample_path sample_local) run0 run8.
Proof.
  eapply rtc_l; [apply (up_send _ _ _ _ run0 [] (mkFileSource 1 0) false); vm_compute; reflexivity|].
  eapply rtc_l; [apply (up_send _ _ _ _ run1 [] (mkFileSource 1 3) false); vm_compute; reflexivity|].
  eapply rtc_l; [apply (up_poll_a _ _ _ _ run2)|].
  eapply rtc_l; [apply (up_open _ _ _ _ run3 (StreamOpen 0 FileTransfer []) []); [in_wire|vm_compute; reflexivity]|].
  eapply rtc_l; [apply (up_frame_b _ _ _ _ run4 (StreamData 0 0 [4; 5; 6] true)); [in_wire|vm_compute; reflexivity|done]|].
  eapply rtc_l; [apply (up_pump _ _ _ _ run5 []); vm_compute; reflexivity|].
  eapply rtc_l; [apply (up_poll_b _ _ _ _ run6)|].
  eapply rtc_l; [apply (up_frame_a _ _ _ _ run7 (StreamData 0 0 [] true)); [in_wire|cbn; lia_ints|done]|].
  apply rtc_refl.
Qed.

Lemma upload_delivers_witness :
  is_recv_finished (n_a (u_net run8)) 0 = true ∧ content (u_fs run8) sample_path = Some [4; 5; 6].
Proof.
  assert (is_recv_finished (n_a (u_net run8)) 0 = true) as Hfin by (vm_compute; reflexivity).
  split; [exact Hfin|].
  assert (∃ src, u_src run8 = Some (src, true)) as [src Hsrc] by (eexists; vm_compute; reflexivity).
  exact (proj2 (proj2 (upload_delivers 1 sample_path sample_local 1 (Some [7; 8; 9]) [] sample_disk run8
    ltac:(lia_ints) ltac:(vm_compute; reflexivity) sample_disk_wf
    ltac:(intros j Hj; vm_compute in Hj; discriminate Hj) sample_disk_holds run8_reached)) src Hsrc Hfin).
Defined.
