(* ===== verification/ServerDriver.v ===== *)
(** * The server's driver ([src/server.rs])

    [Server]: the core together with the resources it drives for its sessions, which
    are port forwards, agent sockets, file transfers and remote commands.  One
    [pump_forwards] accepts, dials, starts and pumps them; [poll_once] is one round
    of the daemon's loop.  Sockets, processes and files answer through [Env], and
    what the driver does to the outside is its log; files are those of [Files]. *)

From stdpp Require Import gmap.
From S2P Require Import Prelude Wire Replay Input NoiseCore Session Handshake Reassembler Stream Mux Cell Text Grid GridOps Diff Predict Shell Control Auth Pty Runtime Server Forward Forwarder Exec Files Xfer.

(** What happens outside. *)
Inductive DriverEffect :=
| Listening (port : Z)
| Dialed (target : list Z)
| AgentBound (path : list Z)
| AgentUnlinked (path : list Z)
| Spawned (cmd : ExecCommand)
| Killed (k : SessionId * Z)
| StdinFed (k : SessionId * Z) (bytes : list Z)
| StdinClosed (k : SessionId * Z).

(** One command's answers to a pump: the writes of what was read from the stream,
    the last flush, the two outputs, the wait. *)
Record ExecAns := mkExecAns {
  xa_feed : list WriteAns;
  xa_flush : list WriteAns;
  xa_stdout : list ReadAns;
  xa_stderr : list ReadAns;
  xa_wait : option (option Z * option Z);
}.

(** The operating system's answers to one [pump_forwards], and the orders in which
    the hash maps are visited. [env_bind] gives the port that is bound; the accepts
    say of each connection whether it can be made non-blocking. *)
Record Env := mkEnv {
  env_pid : Z;
  env_home : option (list Z);
  env_bind : Z → option Z;
  env_accept : nat → list bool;
  env_agent_bind : list Z → bool;
  env_agent_accept : nat → list bool;
  env_dial : list Z → bool;
  env_spawn : list Z → bool;
  env_close_stdin : list WriteAns;
  env_sock : SessionId * Z → SocketAns;
  env_agent_sock : SessionId * Z → SocketAns;
  env_exec : SessionId * Z → ExecAns;
  ord_forwards : list (SessionId * Z);
  ord_xfers : list (SessionId * Z);
  ord_agents : list (SessionId * Z);
  ord_execs : list (SessionId * Z);
}.

(** @ src/server.rs:680-683 XferState *)
Inductive XferState := XPut (sink : FileSink) | XGet (src : FileSource).

(** @ src/server.rs:687-690 ExecState *)
Record ExecState := mkExecState { x_proc : ExecProc; err_id : Z }.

(** A remote listener: its port, session and target. *)
Record RemoteListener := mkRemoteListener { l_port : Z; l_sid : SessionId; l_target : list Z }.

(** @ src/server.rs:970-970 Server::pump_forwards *)
Definition SEND_CAP : Z := 512 * 1024.

(** Lookups and updates on a table of resources. *)
Abbreviation Key := (SessionId * Z)%type.

Section driver.
Context (char_width : Z → nat) {V : Vte} {N : Snow} {SocketAddr : Type} (p : Process).
Local Abbreviation ServerCore := (ServerCore (SocketAddr := SocketAddr)).

(** [disk] is the file system that transfers use. The files of agent sockets (the
    directory that is made and checked, the socket that is bound and unlinked) are not
    on it: whether binding one succeeded is an answer.
    @ src/server.rs:655-677 Server *)
Record Server := mkServer {
  core : ServerCore;
  forwards : gmap Key ForwardConn;
  remote_listeners : list RemoteListener;
  xfers : gmap Key XferState;
  agent_listeners : list (SessionId * list Z);
  agent_conns : gmap Key ForwardConn;
  execs : gmap Key ExecState;
  disk : Fs;
  disk_ans : list Ans;
  d_log : list DriverEffect;
}.

Definition set_core v d := mkServer v (forwards d) (remote_listeners d) (xfers d) (agent_listeners d)
  (agent_conns d) (execs d) (disk d) (disk_ans d) (d_log d).
Definition set_forwards v d := mkServer (core d) v (remote_listeners d) (xfers d) (agent_listeners d)
  (agent_conns d) (execs d) (disk d) (disk_ans d) (d_log d).
Definition set_listeners v d := mkServer (core d) (forwards d) v (xfers d) (agent_listeners d)
  (agent_conns d) (execs d) (disk d) (disk_ans d) (d_log d).
Definition set_xfers v d := mkServer (core d) (forwards d) (remote_listeners d) v (agent_listeners d)
  (agent_conns d) (execs d) (disk d) (disk_ans d) (d_log d).
Definition set_agent_listeners v d := mkServer (core d) (forwards d) (remote_listeners d) (xfers d) v
  (agent_conns d) (execs d) (disk d) (disk_ans d) (d_log d).
Definition set_agent_conns v d := mkServer (core d) (forwards d) (remote_listeners d) (xfers d)
  (agent_listeners d) v (execs d) (disk d) (disk_ans d) (d_log d).
Definition set_execs v d := mkServer (core d) (forwards d) (remote_listeners d) (xfers d)
  (agent_listeners d) (agent_conns d) v (disk d) (disk_ans d) (d_log d).
Definition set_disk v a d := mkServer (core d) (forwards d) (remote_listeners d) (xfers d)
  (agent_listeners d) (agent_conns d) (execs d) v a (d_log d).
Definition note (es : list DriverEffect) d := mkServer (core d) (forwards d) (remote_listeners d) (xfers d)
  (agent_listeners d) (agent_conns d) (execs d) (disk d) (disk_ans d) (d_log d ++ es).

(** Run a program over the files. *)
Definition on_disk {A} (m : Io A) (d : Server) : A * Server :=
  let '(_, a, f, ans) := m (disk_ans d) (disk d) in (a, set_disk f ans d).

(** @ src/server.rs:693-706 Server::bind *)
Definition server_bind (c : ServerCore) (bound : bool) (files : Fs) (ans : list Ans) :
    result RuntimeError Server :=
  if bound then Ok (mkServer c ∅ [] ∅ [] ∅ ∅ files ans []) else Err RtIo.

(** The core as the owner of the streams of all sessions. *)
#[export] Instance server_port : StreamPort Key ServerCore := {
  port_read c k := stream_read k.1 k.2 c;
  port_write c k data := stream_write k.1 k.2 data c;
  port_close c k := stream_close k.1 k.2 c;
  port_in_flight c k := stream_in_flight c k.1 k.2;
}.

(** ** Listeners *)

(** @ src/server.rs:773-784 Server::pump_forwards *)
Definition remote_request (env : Env) (d : Server) (req : SessionId * Z * list Z) : Server :=
  let '(sid, bind_port, target) := req in
  if existsb (λ l, bool_decide (l_sid l = sid) && (l_port l =? bind_port)) (remote_listeners d) then d
  else
    match env_bind env bind_port with
    | Some port =>
      note [Listening bind_port]
        (set_listeners (remote_listeners d ++ [mkRemoteListener port sid target]) d)
    | None => d
    end.

(** One accepted connection. The stream is opened first, and stays open with no
    connection when the socket cannot be used.
    @ src/server.rs:800-806 Server::pump_forwards *)
Definition remote_accepted (d : Server) (a : SessionId * list Z * bool) : Server :=
  let '(sid, target, usable) := a in
  let '(id, c) := open_forward sid target (core d) in
  let d := set_core c d in
  match id, (usable : bool) with
  | Some id, true => set_forwards (<[(sid, id) := from_stream]> (forwards d)) d
  | _, _ => d
  end.

(** What the listeners accept, listener by listener.
    @ src/server.rs:790-799 Server::pump_forwards *)
Definition accepted {L} (ans : nat → list bool) (info : L → SessionId * list Z) (ls : list L) :
    list (SessionId * list Z * bool) :=
  concat (imap (λ i l, pair (info l) <$> ans i) ls).

(** @ src/server.rs:773-806 Server::pump_forwards *)
Definition serve_listeners (env : Env) (d : Server) : Server :=
  let '(reqs, c) := take_remote_forward_requests (core d) in
  let d := foldl (remote_request env) (set_core c d) reqs in
  let d := set_listeners (filter (λ l, has_session (core d) (l_sid l) = true) (remote_listeners d)) d in
  foldl remote_accepted d (accepted (env_accept env) (λ l, (l_sid l, l_target l)) (remote_listeners d)).

(** @ src/server.rs:813-820 Server::pump_forwards *)
Definition agent_request (env : Env) (d : Server) (req : SessionId * list Z) : Server :=
  if env_agent_bind env req.2
  then note [AgentBound req.2] (set_agent_listeners (agent_listeners d ++ [req]) d)
  else d.

(** @ src/server.rs:842-855 Server::pump_forwards *)
Definition agent_accepted (d : Server) (a : SessionId * list Z * bool) : Server :=
  let '(sid, _, usable) := a in
  let '(id, c) := open_agent sid (core d) in
  let d := set_core c d in
  match id with
  | None => d
  | Some id =>
    if (usable : bool) then set_agent_conns (<[(sid, id) := from_stream]> (agent_conns d)) d
    else set_core (stream_reset sid id (core d)) d
  end.

(** @ src/server.rs:813-855 Server::pump_forwards *)
Definition serve_agents (env : Env) (d : Server) : Server :=
  let '(reqs, c) := take_agent_socket_requests (core d) in
  let d := foldl (agent_request env) (set_core c d) reqs in
  let '(gone, kept) := (filter (λ l, has_session (core d) l.1 ≠ true) (agent_listeners d),
    filter (λ l, has_session (core d) l.1 = true) (agent_listeners d)) in
  let d := note (AgentUnlinked ∘ snd <$> gone) (set_agent_listeners kept d) in
  foldl agent_accepted d (accepted (env_agent_accept env) id kept).

(** ** Stream events *)

(** A new transfer: the destination is created, or the source opened.
    @ src/server.rs:888-908 Server::pump_forwards *)
Definition start_transfer (env : Env) (k : Key) (meta : list Z) (d : Server) : Server :=
  match parse_xfer meta with
  | Some (Put path _) =>
    match on_disk (sink_create (env_pid env) (as_bytes path)) d with
    | (Some sink, d) => set_xfers (<[k := XPut sink]> (xfers d)) d
    | (None, d) => set_core (stream_reset k.1 k.2 (core d)) d
    end
  | Some (Get path) =>
    match on_disk (source_open (as_bytes path)) d with
    | (Some src, d) => set_xfers (<[k := XGet src]> (xfers d)) d
    | (None, d) => set_core (stream_reset k.1 k.2 (core d)) d
    end
  | None => set_core (stream_reset k.1 k.2 (core d)) d
  end.

(** A new command. @ src/server.rs:923-938 Server::pump_forwards *)
Definition start_exec (env : Env) (k : Key) (meta : list Z) (d : Server) : Server :=
  let cmd := from_utf8_lossy meta in
  match exec_spawn (env_home env) cmd (env_spawn env cmd) with
  | None => set_core (stream_reset k.1 k.2 (core d)) d
  | Some (command, proc) =>
    let d := note [Spawned command] d in
    match open_exec k.1 (core d) with
    | (Some err_id, c) => set_execs (<[k := mkExecState proc err_id]> (execs d)) (set_core c d)
    | (None, c) => note [Killed k] (set_core (stream_reset k.1 k.2 c) d)
    end
  end.

(** Dropping a sink that is not finalized removes its temporary file. *)
Definition drop_xfer (k : Key) (d : Server) : Server :=
  match xfers d !! k with
  | Some (XPut sink) =>
    let '(_, d) := on_disk (sink_drop sink) d in set_xfers (delete k (xfers d)) d
  | _ => set_xfers (delete k (xfers d)) d
  end.

(** The client closed its half. @ src/server.rs:942-956 Server::pump_forwards *)
Definition event_closed (env : Env) (k : Key) (d : Server) : Server :=
  let d := set_forwards (alter mark_peer_closed k (forwards d)) d in
  let d := set_agent_conns (alter mark_peer_closed k (agent_conns d)) d in
  match execs d !! k with
  | Some e =>
    let '(w, proc) := close_stdin (env_close_stdin env) (x_proc e) in
    note [StdinFed k w; StdinClosed k]
      (set_execs (<[k := mkExecState proc (err_id e)]> (execs d)) d)
  | None => d
  end.

(** @ src/server.rs:957-965 Server::pump_forwards *)
Definition event_reset (k : Key) (d : Server) : Server :=
  let d := drop_xfer k (set_forwards (delete k (forwards d)) d) in
  let d := set_agent_conns (delete k (agent_conns d)) d in
  match execs d !! k with
  | Some e =>
    note [Killed k] (set_core (stream_reset k.1 (err_id e) (core d)) (set_execs (delete k (execs d)) d))
  | None => d
  end.

(** @ src/server.rs:858-967 Server::pump_forwards *)
Definition driver_event (env : Env) (d : Server) (ev : SessionId * StreamEvent) : Server :=
  let '(sid, ev) := ev in
  match ev with
  | EvOpened id Forward meta =>
    let k := (sid, id) in
    match from_utf8 meta with
    | Some target =>
      if env_dial env target
      then note [Dialed target] (set_forwards (<[k := from_stream]> (forwards d)) d)
      else set_core (stream_close sid id (core d)) d
    | None => set_core (stream_close sid id (core d)) d
    end
  | EvOpened id FileTransfer meta =>
    if privsep_active (core d) then set_core (stream_reset sid id (core d)) d
    else start_transfer env (sid, id) meta d
  | EvOpened id Wire.Exec meta =>
    if privsep_active (core d) then set_core (stream_reset sid id (core d)) d
    else start_exec env (sid, id) meta d
  | EvReadable _ => d
  | EvClosed id _ => event_closed env (sid, id) d
  | EvReset id => event_reset (sid, id) d
  | _ => d
  end.

(** ** Pumps *)

Definition live (d : Server) (k : Key) : bool := has_session (core d) k.1.

(** Resources of sessions that are gone are dropped.
    @ src/server.rs:974-984 Server::pump_forwards *)
Definition drop_dead (d : Server) : Server :=
  let dead := filter (λ k, live d k = false) ((map_to_list (forwards d)).*1 ++ (map_to_list (xfers d)).*1) in
  foldl (λ d k, drop_xfer k (set_forwards (delete k (forwards d)) d)) d dead.

(** @ src/server.rs:985-1011 Server::pump_forwards *)
Definition pump_conns (env : Env) (d : Server) : Server :=
  let '(_, cs, c) := pump_all (env_sock env) (ord_forwards env) (forwards d) (core d) in
  set_forwards cs (set_core c d).

(** What a transfer's turn comes to: it goes on, is aborted, or is complete. *)
Inductive XferTurn := XGoesOn | XAborted | XComplete.

(** @ src/server.rs:1019-1052 Server::pump_forwards *)
Definition xfer_turn (k : Key) (st : XferState) (d : Server) : XferTurn * XferState * Server :=
  let get_has_window := stream_in_flight (core d) k.1 k.2 <? SEND_CAP in
  match st with
  | XPut sink =>
    let '(sink, abort, c, d) := on_disk (drain_upload DRAIN_ROUNDS k sink (core d)) d in
    let d := set_core c d in
    (if abort then XAborted
     else if stream_recv_finished (core d) k.1 k.2 then XComplete else XGoesOn, XPut sink, d)
  | XGet src =>
    if get_has_window then
      match on_disk (read_chunk (64 * 1024) src) d with
      | (Some (data, src), d) =>
        match data with
        | [] => (XComplete, XGet src, d)
        | _ => (XGoesOn, XGet src, set_core (stream_write k.1 k.2 data (core d)) d)
        end
      | (None, d) => (XAborted, XGet src, d)
      end
    else (XGoesOn, XGet src, d)
  end.

(** @ src/server.rs:1016-1072 Server::pump_forwards *)
Definition pump_xfer (d : Server) (k : Key) : Server :=
  match xfers d !! k with
  | None => d
  | Some st =>
    let '(turn, st, d) := xfer_turn k st d in
    let d := set_xfers (<[k := st]> (xfers d)) d in
    match turn with
    | XGoesOn => d
    | XAborted => drop_xfer k (set_core (stream_reset k.1 k.2 (core d)) d)
    | XComplete =>
      let d := set_xfers (delete k (xfers d)) (set_core (stream_close k.1 k.2 (core d)) d) in
      match st with
      | XPut sink =>
        match on_disk (sink_finalize sink) d with
        | (true, d) => d
        | (false, d) => set_core (stream_reset k.1 k.2 (core d)) d
        end
      | XGet _ => d
      end
    end
  end.

(** The turn of an upload is the one of [Xfer.put_turn]; a failure resets the stream. *)
Lemma pump_xfer_put d k sink :
  xfers d !! k = Some (XPut sink) →
  pump_xfer d k =
    let '((t, c), d1) :=
      on_disk (put_turn (λ c k, stream_recv_finished c k.1 k.2) k sink (core d)) d in
    match t with
    | PutGoesOn s => set_xfers (<[k := XPut s]> (xfers d1)) (set_core c d1)
    | PutEnded true => set_xfers (delete k (xfers d1)) (set_core c d1)
    | _ => set_xfers (delete k (xfers d1)) (set_core (stream_reset k.1 k.2 c) d1)
    end.
Proof.
  intros Hk. unfold pump_xfer. rewrite Hk. cbn [xfer_turn]. unfold put_turn, on_disk, io_bind.
  destruct (drain_upload DRAIN_ROUNDS k sink (core d) (disk_ans d) (disk d)) as [[[t1 [[s bad] c]] f] ans].
  destruct bad; cbn.
  - unfold drop_xfer. cbn. rewrite lookup_insert_eq. unfold on_disk. cbn.
    destruct (sink_drop s ans f) as [[[t2 []] f2] ans2]. cbn. by rewrite delete_insert_eq.
  - destruct (stream_recv_finished c k.1 k.2); cbn; [|done].
    destruct (sink_finalize s ans f) as [[[t2 ok] f2] ans2]. destruct ok; cbn; by rewrite delete_insert_eq.
Qed.

(** @ src/server.rs:1076-1109 Server::pump_forwards *)
Definition pump_agents (env : Env) (d : Server) : Server :=
  let alive := filter (λ '(k, _), live d k = true) (agent_conns d) in
  let '(_, cs, c) := pump_all (env_agent_sock env) (ord_agents env) alive (core d) in
  set_agent_conns cs (set_core c d).

(** The client's bytes go into the command while its buffer is small.
    @ src/server.rs:1129-1135 Server::pump_forwards *)
Fixpoint feed_exec (fuel : nat) (ans : list WriteAns) (k : Key) (proc : ExecProc) (c : ServerCore) :
    list Z * ExecProc * ServerCore * list WriteAns :=
  match fuel with
  | O => ([], proc, c, ans)
  | S fuel =>
    if Z.of_nat (stdin_buffered proc) <? SEND_CAP then
      let '(data, c) := stream_read k.1 k.2 c in
      match data with
      | [] => ([], proc, c, ans)
      | _ =>
        let '(w1, proc, ans) := write_stdin ans data proc in
        let '(w2, proc, c, ans) := feed_exec fuel ans k proc c in
        (w1 ++ w2, proc, c, ans)
      end
    else ([], proc, c, ans)
  end.

(** Output of a command, to its stream if that has room.
    @ src/server.rs:1138-1143 Server::pump_forwards *)
Definition forward_output (k : Key) (read : ExecProc → list Z * ExecProc) (proc : ExecProc) (c : ServerCore) :
    ExecProc * ServerCore :=
  if stream_in_flight c k.1 k.2 <? SEND_CAP then
    let '(out, proc) := read proc in
    (proc, match out with [] => c | _ => stream_write k.1 k.2 out c end)
  else (proc, c).

(** One command's turn: what it was fed, it and the core afterwards.
    @ src/server.rs:1129-1152 Server::pump_forwards *)
Definition exec_turn (ans : ExecAns) (k : Key) (e : ExecState) (c : ServerCore) :
    list Z * ExecState * ServerCore :=
  let '(w1, proc, c, _) := feed_exec DRAIN_ROUNDS (xa_feed ans) k (x_proc e) c in
  let '(w2, proc, _) := flush_stdin (xa_flush ans) proc in
  let '(proc, c) := forward_output k (read_stdout (xa_stdout ans)) proc c in
  let '(proc, c) := forward_output (k.1, err_id e) (read_stderr (xa_stderr ans)) proc c in
  (w1 ++ w2, mkExecState (poll_exit (xa_wait ans) proc) (err_id e), c).

(** @ src/server.rs:1115-1161 Server::pump_forwards *)
Definition pump_exec (env : Env) (d : Server) (k : Key) : Server :=
  match execs d !! k with
  | None => d
  | Some e =>
    if negb (live d k) then note [Killed k] (set_execs (delete k (execs d)) d)
    else
      let '(w, e, c) := exec_turn (env_exec env k) k e (core d) in
      let d := note [StdinFed k w] (set_execs (<[k := e]> (execs d)) (set_core c d)) in
      if exec_finished (x_proc e) then
        let c := stream_close_status k.1 k.2 (exit_code (x_proc e)) (core d) in
        set_execs (delete k (execs d)) (set_core (stream_close k.1 (err_id e) c) d)
      else d
  end.

(** @ src/server.rs:766-1162 Server::pump_forwards *)
Definition pump_forwards (env : Env) (d : Server) : Server :=
  let d := serve_agents env (serve_listeners env d) in
  let '(evs, c) := take_stream_events (core d) in
  let d := drop_dead (foldl (driver_event env) (set_core c d) evs) in
  let d := foldl pump_xfer (pump_conns env d) (ord_xfers env) in
  foldl (pump_exec env) (pump_agents env d) (ord_execs env).

(** The first half of a round: a datagram, if there is one, and the resources.
    A panic of the core is [None]. @ src/server.rs:1175-1189 Server::poll_once *)
Definition poll_receive (order : list SessionId) (dgram : option (SocketAddr * list Z)) (env : Env) (d : Server) :
    option (list (SocketAddr * list Z) * Server) :=
  '(out, c) ← match dgram with
              | Some (src, buf) => handle_packet p order src buf (core d)
              | None => Some ([], core d)
              end;
  Some (out, pump_forwards env (set_core c d)).

(** One round of the daemon's loop; it ends when receiving fails for good
    ([received] is [None]). [order1] and [order2] are the orders of the sessions.
    @ src/server.rs:1174-1194 Server::poll_once *)
Definition poll_once (order1 order2 : list SessionId) (received : option (option (SocketAddr * list Z)))
    (env : Env) (io : TickIo) (d : Server) : option (bool * list (SocketAddr * list Z) * Server) :=
  match received with
  | None => Some (false, [], d)
  | Some dgram =>
    '(out1, d) ← poll_receive order1 dgram env d;
    '(out2, c) ← tick char_width p order2 io (core d);
    Some (true, out1 ++ out2, set_core c d)
  end.
End driver.
