(* ===== verification/Drain.v ===== *)
(** * The driver's drain loops end

    In every state that a server reaches no two pieces a receiver buffers overlap or
    touch ([ServerMux]); with it one read takes everything that is in order, so that
    the loops which read a stream until it is empty end in their second round. *)

From stdpp Require Import gmap relations.
From S2P Require Import Prelude Wire Replay Input NoiseCore Session Handshake Reassembler Stream Mux Cell Text Grid GridOps Diff Predict Shell Control Auth Pty Runtime Server ServerInv ServerMux ServerProps Forward Forwarder Exec Files Xfer ServerDriver.

(** ** One read takes everything *)

#[export] Instance server_port_laws {V : Vte} {N : Snow} {SocketAddr : Type} :
  StreamPortLaws Key (@ServerCore V N SocketAddr).
Proof.
  refine {| port_wf := muxes buffers_ok |}.
  - intros c k Hc.
    apply (driver_call_muxes buffers_ok (all_streams (λ _, True)) c); [exact Hc|apply muxes_any|apply call_read].
  - intros c k Hc. cbn. unfold stream_read. destruct (sessions c !! k.1) as [s|] eqn:Hs; [|cbn; by rewrite Hs].
    assert ((mux_read (mux_read (mux s) k.2).2 k.2).1 = []) as Hr
      by exact (port_read_all (StreamPortLaws := mux_port_laws) (mux s) k.2 (Hc _ _ Hs)).
    destruct (mux_read (mux s) k.2) as [d m]. cbn [snd sessions put_session set_sessions].
    rewrite lookup_insert_eq. cbn [mux set_mux]. cbn [snd] in Hr. by destruct (mux_read m k.2).
Defined.

Lemma drain_upload_rounds `{StreamPortLaws K M} fuel (k : K) sink m ans f :
  port_wf m → (DRAIN_ROUNDS ≤ fuel)%nat →
  drain_upload fuel k sink m ans f = drain_upload DRAIN_ROUNDS k sink m ans f.
Proof.
  intros Hwf Hf. destruct fuel as [|[|fuel]]; [cbv in Hf; lia..|]. unfold DRAIN_ROUNDS.
  pose proof (port_read_all m k Hwf) as Hall. cbn [drain_upload].
  destruct (port_read m k) as [[|b d] m1]; [done|]. cbn [fst snd] in Hall. unfold io_bind.
  destruct (sink_write (b :: d) sink ans f) as [[[t w] f1] ans1]. destruct w as [sink1|]; [|done].
  destruct (port_read m1 k) as [d2 m2]. cbn [fst] in Hall. by subst d2.
Qed.

Lemma feed_exec_rounds {V : Vte} {N : Snow} {SocketAddr : Type} fuel ans (k : Key) proc
    (c : @ServerCore V N SocketAddr) :
  port_wf (K := Key) c → (DRAIN_ROUNDS ≤ fuel)%nat →
  feed_exec fuel ans k proc c = feed_exec DRAIN_ROUNDS ans k proc c.
Proof.
  intros Hwf Hf. destruct fuel as [|[|fuel]]; [cbv in Hf; lia..|]. unfold DRAIN_ROUNDS.
  pose proof (port_read_all c k Hwf) as Hall. cbn [feed_exec port_read server_port] in *.
  destruct (_ <? _); [|done]. destruct (stream_read k.1 k.2 c) as [[|b d] c1]; [done|]. cbn [fst snd] in Hall.
  destruct (write_stdin ans (b :: d) proc) as [[w1 proc1] ans1].
  destruct (_ <? _); [|done]. destruct (stream_read k.1 k.2 c1) as [d2 c2]. cbn [fst] in Hall. by subst d2.
Qed.

(** C24 The driver's loops end: in every state the server reaches, and so during any
    pump, the loops that read a stream until it is empty, for a forwarded or agent
    connection, an upload or a command's input, stop by their second round: however
    many rounds they are allowed the result is that of two. *)
Theorem drain_loops_end (char_width : Z → nat) {V : Vte} {N : Snow} {SocketAddr : Type} (p : Process)
    kp keys login cmd u (c : @ServerCore V N SocketAddr) (k : Key) fuel :
  rtc (server_step char_width p any_traffic) (server_start kp keys login cmd u) c → (2 ≤ fuel)%nat →
  (∀ ans conn, drain_stream fuel ans k conn c = drain_stream DRAIN_ROUNDS ans k conn c) ∧
  (∀ sink ans f, drain_upload fuel k sink c ans f = drain_upload DRAIN_ROUNDS k sink c ans f) ∧
  (∀ ans proc, feed_exec fuel ans k proc c = feed_exec DRAIN_ROUNDS ans k proc c).
Proof.
  intros Hrun Hf. assert (port_wf (K := Key) c) as Hwf.
  { cbn. by eapply reachable_buffers. }
  split_and!; intros; [by apply drain_stream_rounds|by apply drain_upload_rounds|by apply feed_exec_rounds].
Qed.

Lemma drain_loops_end_witness :
  keys_of sample_core = [sample_sid] ∧
  ∀ ans conn, drain_stream 9 ans (sample_sid, 0) conn sample_core =
    drain_stream DRAIN_ROUNDS ans (sample_sid, 0) conn sample_core.
Proof.
  split; [vm_compute; reflexivity|].
  apply (drain_loops_end sample_width sample_process (mkKeypair sample_static sample_static)
    [(replicate 32 5, [])] [Ok 100; Err PtyPty; Ok 101] None None sample_core (sample_sid, 0) 9);
    [by apply after_runs|lia].
Defined.
