(* ===== verification/Daemon.v ===== *)
(** * Properties of the server's driver

    The driver uses the core only through its calls, so that everything that holds
    of the core's runs holds of the daemon; resources belong to live sessions; with
    privilege separation nothing is run and no file is touched. *)

From stdpp Require Import gmap relations.
From S2P Require Import Prelude Wire Replay Input NoiseCore Session Handshake Reassembler Stream Mux Cell Text Grid GridOps Diff Predict Shell Control Auth Pty Runtime Server ServerInv ServerMux ServerProps Forward Forwarder Exec Files Xfer ServerDriver Drain.

Section daemon.
Context (char_width : Z → nat) {V : Vte} {N : Snow} {SocketAddr : Type} (p : Process).
Local Abbreviation ServerCore := (@ServerCore V N SocketAddr).
Local Abbreviation Server := (@Server V N SocketAddr).
Implicit Types (c : ServerCore) (d : Server).

(** Any number of calls. *)
Definition calls : relation ServerCore := rtc driver_call.

Lemma calls_one c c' : driver_call c c' → calls c c'.
Proof. apply rtc_once. Qed.
Hint Resolve calls_one : noissh.
Hint Constructors driver_call : noissh.

Lemma calls_fold {A} (f : Server → A → Server) l d :
  (∀ d a, calls (core d) (core (f d a))) → calls (core d) (core (foldl f d l)).
Proof.
  intros Hf. revert d. induction l as [|a l IH]; intros d; cbn; [apply rtc_refl|].
  etrans; [apply Hf|apply IH].
Qed.

(** What every call leaves alone. *)
Lemma driver_call_same c c' :
  driver_call c c' → user c' = user c ∧ ∀ sid, has_session c' sid = has_session c sid.
Proof.
  assert (∀ sid s s', sessions c !! sid = Some s →
    ∀ sid', has_session (put_session sid s' c) sid' = has_session c sid') as Hput.
  { intros sid s s' Hs sid'. unfold has_session. cbn. destruct (decide (sid' = sid)) as [->|].
    - rewrite lookup_insert_eq, Hs. by rewrite !bool_decide_eq_true_2 by by eexists.
    - by rewrite lookup_insert_ne. }
  assert (∀ sid f, user (with_mux sid f c) = user c ∧ ∀ sid', has_session (with_mux sid f c) sid' = has_session c sid') as Hmux.
  { intros sid f. unfold with_mux. destruct (sessions c !! sid) eqn:Hs; [|done]. split; [done|by eapply Hput]. }
  assert (∀ sid kind meta, user (mux_open_in sid kind meta c).2 = user c ∧
    ∀ sid', has_session (mux_open_in sid kind meta c).2 sid' = has_session c sid') as Hopen.
  { intros sid kind meta. unfold mux_open_in. destruct (sessions c !! sid) eqn:Hs; [|done].
    destruct (mux_open _ _ _). split; [done|by eapply Hput]. }
  destruct 1; try apply Hmux; try apply Hopen; try done.
  unfold stream_read. destruct (sessions c !! sid) eqn:Hs; [|done].
  destruct (mux_read _ _). split; [done|by eapply Hput].
Qed.

Lemma calls_same c c' : calls c c' → user c' = user c ∧ ∀ sid, has_session c' sid = has_session c sid.
Proof.
  induction 1 as [|c c1 c2 H _ [IHu IHs]]; [done|]. destruct (driver_call_same _ _ H) as [Hu Hs].
  split; [congruence|]. intros sid. by rewrite IHs.
Qed.

(** ** The pumps are calls *)

(** A call of the core and what is done with its result. *)
Ltac one_call :=
  apply calls_one;
  lazymatch goal with
  | |- driver_call _ (stream_close _ _ _) => apply call_close
  | |- driver_call _ (stream_close_status _ _ _ _) => apply call_close_status
  | |- driver_call _ (stream_reset _ _ _) => apply call_reset
  | |- driver_call _ (stream_write _ _ _ _) => apply call_write
  | |- driver_call _ (stream_read _ _ _).2 => apply call_read
  | |- driver_call _ (port_read _ _).2 => apply call_read
  | |- driver_call _ (port_write _ _ _) => apply call_write
  | |- driver_call _ (port_close _ _) => apply call_close
  | |- _ => constructor
  end.

Lemma reads_calls (k : Key) c data c' : reads k c data c' → calls c c'.
Proof.
  induction 1 as [|c data c1 ds c2 Hr _ IH]; [apply rtc_refl|]. etrans; [|exact IH].
  apply calls_one. change (port_read c k) with (stream_read k.1 k.2 c) in Hr.
  rewrite <- (f_equal snd Hr : _ = c1). apply call_read.
Qed.

Lemma pump_conn_calls wans rans (k : Key) conn c w data conn' c' :
  pump_conn wans rans k conn c = (w, data, conn', c') → calls c c'.
Proof.
  intros (dr & c1 & c2 & Hr%reads_calls & -> & _ & Hc & _)%pump_conn_parts.
  etrans; [exact Hr|].
  assert (calls c1 (match data with [] => c1 | _ => port_write c1 k data end)) as Hw.
  { destruct data; [apply rtc_refl|]. one_call. }
  destruct Hc as [->|[-> _]]; [done|]. etrans; [exact Hw|]. one_call.
Qed.

Lemma pump_one_calls (ans : Key → SocketAns) (st : PumpState (K := Key) (M := ServerCore)) k :
  calls st.2 (pump_one ans st k).2 ∧ (∀ k', is_Some ((pump_one ans st k).1.2 !! k') → is_Some (st.1.2 !! k')).
Proof.
  destruct st as [[io conns] c]. cbn [pump_one fst snd]. destruct (conns !! k) as [conn|] eqn:Hk; [|by split; [apply rtc_refl|]].
  destruct (pump_conn (ans k).1 (ans k).2 k conn c) as [[[w data] conn'] c'] eqn:Hp.
  split; [by eapply pump_conn_calls|]. cbn. intros k'.
  destruct (conn_finished conn').
  - intros [v [_ Hv]%lookup_delete_Some]. by eexists.
  - intros [v [[<- _]|[_ Hv]]%lookup_insert_Some]; [by rewrite Hk|by eexists].
Qed.

Lemma pump_all_calls (ans : Key → SocketAns) order conns c io conns' c' :
  pump_all ans order conns c = (io, conns', c') →
  calls c c' ∧ ∀ k : Key, is_Some (conns' !! k) → is_Some (conns !! k).
Proof.
  unfold pump_all. intros H.
  assert (∀ st : PumpState, calls st.2 (foldl (pump_one ans) st order).2 ∧
    ∀ k, is_Some ((foldl (pump_one ans) st order).1.2 !! k) → is_Some (st.1.2 !! k)) as Hf.
  { clear. induction order as [|k order IH]; intros st; cbn [foldl]; [by split; [apply rtc_refl|]|].
    destruct (IH (pump_one ans st k)) as [H1 H2], (pump_one_calls ans st k) as [H3 H4].
    split; [by etrans|]. auto. }
  specialize (Hf (∅, conns, c)). rewrite H in Hf. exact Hf.
Qed.

Lemma on_disk_core {A} (m : Io A) d : core (on_disk m d).2 = core d.
Proof. unfold on_disk. by destruct (m (disk_ans d) (disk d)) as [[[t a] f] ans]. Qed.

Lemma drop_xfer_core k d : core (drop_xfer k d) = core d.
Proof.
  unfold drop_xfer. destruct (xfers d !! k) as [[sink|src]|]; [|done..].
  pose proof (on_disk_core (sink_drop sink) d). by destruct (on_disk (sink_drop sink) d).
Qed.

Lemma serve_listeners_calls env d : calls (core d) (core (serve_listeners env d)).
Proof.
  unfold serve_listeners. destruct (take_remote_forward_requests (core d)) as [reqs c] eqn:Ht.
  assert (calls (core d) c) as Hc by (rewrite <- (f_equal snd Ht : _ = c); one_call).
  etrans; [exact Hc|]. etrans; [|apply calls_fold].
  - cbn. clear. assert (∀ d, calls (core d) (core (foldl (remote_request env) d reqs))) as Hf.
    { intros d0. apply calls_fold. intros d1 [[sid port] target]. unfold remote_request.
      destruct (existsb _ _); [apply rtc_refl|]. destruct (env_bind env port); apply rtc_refl. }
    apply (Hf (set_core c d)).
  - intros d1 [[sid target] usable]. unfold remote_accepted.
    pose proof (call_open_forward (core d1) sid target) as Ho.
    destruct (open_forward sid target (core d1)) as [[id|] c1]; [destruct usable|]; by apply calls_one.
Qed.

Lemma serve_agents_calls env d : calls (core d) (core (serve_agents env d)).
Proof.
  unfold serve_agents. destruct (take_agent_socket_requests (core d)) as [reqs c] eqn:Ht.
  assert (calls (core d) c) as Hc by (rewrite <- (f_equal snd Ht : _ = c); one_call).
  etrans; [exact Hc|]. etrans; [|apply calls_fold].
  - cbn. clear. assert (∀ d, calls (core d) (core (foldl (agent_request env) d reqs))) as Hf.
    { intros d0. apply calls_fold. intros d1 req. unfold agent_request.
      destruct (env_agent_bind env req.2); apply rtc_refl. }
    apply (Hf (set_core c d)).
  - intros d1 [[sid path] usable]. unfold agent_accepted.
    pose proof (call_open_agent (core d1) sid) as Ho.
    destruct (open_agent sid (core d1)) as [[id|] c1]; [|by apply calls_one].
    etrans; [by apply calls_one|]. destruct usable; [apply rtc_refl|]. cbn. one_call.
Qed.

Lemma driver_event_calls env d ev : calls (core d) (core (driver_event env d ev)).
Proof.
  assert (∀ sid id, calls (core d) (stream_reset sid id (core d))) as Hreset by (intros; one_call).
  destruct ev as [sid ev]. destruct ev as [id kind meta|id|id status|id]; cbn [driver_event].
  - destruct kind; try apply rtc_refl.
    + destruct (from_utf8 meta) as [target|]; [destruct (env_dial env target); [apply rtc_refl|]|]; cbn; one_call.
    + destruct (privsep_active (core d)); [apply Hreset|]. unfold start_transfer.
      destruct (parse_xfer meta) as [[path sz|path]|]; [| |apply Hreset].
      * pose proof (on_disk_core (sink_create (env_pid env) (as_bytes path)) d) as Hc.
        destruct (on_disk _ d) as [[sink|] d1]; cbn in *; rewrite ?Hc; [apply rtc_refl|apply Hreset].
      * pose proof (on_disk_core (source_open (as_bytes path)) d) as Hc.
        destruct (on_disk _ d) as [[src|] d1]; cbn in *; rewrite ?Hc; [apply rtc_refl|apply Hreset].
    + destruct (privsep_active (core d)); [apply Hreset|]. unfold start_exec.
      destruct (exec_spawn _ _ _) as [[command proc]|]; [|apply Hreset]. cbn [core note].
      pose proof (call_open_exec (core d) sid) as Ho.
      change ((sid, id).1) with sid. change ((sid, id).2) with id.
      destruct (open_exec sid (core d)) as [[err|] c1]; [by apply calls_one|].
      etrans; [by apply calls_one|]. cbn. one_call.
  - apply rtc_refl.
  - unfold event_closed. cbn [execs set_agent_conns set_forwards].
    destruct (execs d !! (sid, id)) as [e|]; [|apply rtc_refl].
    destruct (close_stdin (env_close_stdin env) (x_proc e)). apply rtc_refl.
  - unfold event_reset. cbn [execs set_agent_conns].
    pose proof (drop_xfer_core (sid, id) (set_forwards (delete (sid, id) (forwards d)) d)) as Hd.
    destruct (execs (drop_xfer _ _) !! (sid, id)) as [e|]; cbn [core note set_core set_execs set_agent_conns];
      rewrite Hd; [apply Hreset|apply rtc_refl].
Qed.

Lemma drop_dead_core d : core (drop_dead d) = core d.
Proof.
  unfold drop_dead. generalize (filter (λ k, live d k = false) ((map_to_list (forwards d)).*1 ++ (map_to_list (xfers d)).*1)).
  intros l. revert d. induction l as [|k l IH]; intros d; [done|]. cbn [foldl]. rewrite IH.
  by rewrite drop_xfer_core.
Qed.

Lemma pump_conns_calls env d : calls (core d) (core (pump_conns env d)).
Proof.
  unfold pump_conns. destruct (pump_all _ _ _ _) as [[io cs] c] eqn:Hp.
  exact (proj1 (pump_all_calls _ _ _ _ _ _ _ Hp)).
Qed.

Lemma pump_agents_calls env d : calls (core d) (core (pump_agents env d)).
Proof.
  unfold pump_agents. destruct (pump_all _ _ _ _) as [[io cs] c] eqn:Hp.
  exact (proj1 (pump_all_calls _ _ _ _ _ _ _ Hp)).
Qed.

Lemma drain_upload_calls fuel : ∀ (k : Key) sink c ans f,
  calls c (drain_upload fuel k sink c ans f).1.1.2.2.
Proof.
  induction fuel as [|fuel IH]; intros k sink c ans f; cbn [drain_upload]; [apply rtc_refl|].
  assert (calls c (port_read c k).2) as Hr by one_call.
  destruct (port_read c k) as [[|b data] c1]; [exact Hr|]. etrans; [exact Hr|]. unfold io_bind.
  destruct (sink_write (b :: data) sink ans f) as [[[t w] f1] ans1]. destruct w as [sink1|]; [|apply rtc_refl].
  specialize (IH k sink1 c1 ans1 f1).
  by destruct (drain_upload fuel k sink1 c1 ans1 f1) as [[[t2 [[s2 b2] c2]] f2] ans2].
Qed.

Lemma xfer_turn_calls k st d : calls (core d) (core (xfer_turn k st d).2).
Proof.
  destruct st as [sink|src]; cbn [xfer_turn].
  - unfold on_disk. pose proof (drain_upload_calls DRAIN_ROUNDS k sink (core d) (disk_ans d) (disk d)) as Hd.
    destruct (drain_upload _ _ _ _ _ _) as [[[t [[sink' abort] c]] f] ans]. exact Hd.
  - destruct (_ <? _); [|apply rtc_refl].
    pose proof (on_disk_core (read_chunk (64 * 1024) src) d) as Hc.
    destruct (on_disk _ d) as [[[[|b data] src']|] d1]; cbn in *; rewrite ?Hc; [apply rtc_refl|one_call|apply rtc_refl].
Qed.

Lemma pump_xfer_calls d k : calls (core d) (core (pump_xfer d k)).
Proof.
  unfold pump_xfer. destruct (xfers d !! k) as [st|]; [|apply rtc_refl].
  pose proof (xfer_turn_calls k st d) as Ht. destruct (xfer_turn k st d) as [[turn st'] d1].
  etrans; [exact Ht|]. cbn [snd core set_xfers]. destruct turn; [apply rtc_refl| |].
  - rewrite drop_xfer_core. cbn. one_call.
  - assert (calls (core d1) (stream_close k.1 k.2 (core d1))) as Hc by one_call.
    destruct st' as [sink|src]; [|exact Hc]. etrans; [exact Hc|].
    set (d2 := set_xfers _ (set_core (stream_close _ _ _) _)).
    pose proof (on_disk_core (sink_finalize sink) d2) as Hd. change (stream_close k.1 k.2 (core d1)) with (core d2).
    destruct (on_disk (sink_finalize sink) d2) as [[] d3]; cbn in *; rewrite Hd; [apply rtc_refl|one_call].
Qed.

Lemma feed_exec_calls fuel : ∀ ans (k : Key) proc c, calls c (feed_exec fuel ans k proc c).1.2.
Proof.
  induction fuel as [|fuel IH]; intros ans k proc c; cbn [feed_exec]; [apply rtc_refl|].
  destruct (_ <? _); [|apply rtc_refl].
  assert (calls c (stream_read k.1 k.2 c).2) as Hr by one_call.
  destruct (stream_read k.1 k.2 c) as [[|b data] c1]; [exact Hr|]. etrans; [exact Hr|].
  destruct (write_stdin ans (b :: data) proc) as [[w1 proc1] ans1]. specialize (IH ans1 k proc1 c1).
  by destruct (feed_exec fuel ans1 k proc1 c1) as [[[w2 proc2] c2] ans2].
Qed.

Lemma forward_output_calls k rd proc c : calls c (forward_output k rd proc c).2.
Proof.
  unfold forward_output. destruct (_ <? _); [|apply rtc_refl]. destruct (rd proc) as [[|b out] proc1];
    [apply rtc_refl|one_call].
Qed.

Lemma exec_turn_calls ans k e c : calls c (exec_turn ans k e c).2.
Proof.
  unfold exec_turn. pose proof (feed_exec_calls DRAIN_ROUNDS (xa_feed ans) k (x_proc e) c) as H1.
  destruct (feed_exec _ _ _ _ _) as [[[w1 proc1] c1] ans1]. etrans; [exact H1|]. cbn [fst snd].
  destruct (flush_stdin _ proc1) as [[w2 proc2] ans2].
  pose proof (forward_output_calls k (read_stdout (xa_stdout ans)) proc2 c1) as H2.
  destruct (forward_output k _ proc2 c1) as [proc3 c2]. etrans; [exact H2|]. cbn [fst snd].
  pose proof (forward_output_calls (k.1, err_id e) (read_stderr (xa_stderr ans)) proc3 c2) as H3.
  by destruct (forward_output _ _ proc3 c2) as [proc4 c3].
Qed.

Lemma pump_exec_calls env d k : calls (core d) (core (pump_exec env d k)).
Proof.
  unfold pump_exec. destruct (execs d !! k) as [e|]; [|apply rtc_refl].
  destruct (negb _); [apply rtc_refl|].
  pose proof (exec_turn_calls (env_exec env k) k e (core d)) as He.
  destruct (exec_turn _ _ _ _) as [[w e1] c1]. etrans; [exact He|]. cbn [snd].
  destruct (exec_finished (x_proc e1)); [|apply rtc_refl]. cbn.
  etrans; [|apply calls_one, call_close]. one_call.
Qed.

Lemma pump_forwards_calls env d : calls (core d) (core (pump_forwards env d)).
Proof.
  unfold pump_forwards. etrans; [apply serve_listeners_calls|]. etrans; [apply serve_agents_calls|].
  destruct (take_stream_events (core (serve_agents env (serve_listeners env d)))) as [evs c] eqn:Ht.
  assert (calls (core (serve_agents env (serve_listeners env d))) c) as Hc
    by (rewrite <- (f_equal snd Ht : _ = c); one_call).
  etrans; [exact Hc|].
  etrans; [|apply calls_fold, pump_exec_calls]. etrans; [|apply pump_agents_calls].
  etrans; [|apply calls_fold, pump_xfer_calls]. etrans; [|apply pump_conns_calls].
  rewrite drop_dead_core. etrans; [|apply calls_fold, driver_event_calls]. apply rtc_refl.
Qed.

(** ** Rounds *)

(** A round of the daemon with any datagram and any answers; the orders are those
    of the session map. *)
Inductive daemon_step d : Server → Prop :=
| daemon_round order1 order2 dgram env io out1 d1 out2 d2 :
  session_order order1 (core d) → poll_receive p order1 dgram env d = Some (out1, d1) →
  session_order order2 (core d1) →
  poll_once char_width p order1 order2 (Some dgram) env io d = Some (true, out2, d2) →
  daemon_step d d2.

Lemma calls_steps c c' : calls c c' → rtc (server_step char_width p any_traffic) c c'.
Proof. apply rtc_subrel. intros c1 c2 H. by apply step_driver. Qed.

Lemma daemon_step_runs d d' : daemon_step d d' → rtc (server_step char_width p any_traffic) (core d) (core d').
Proof.
  intros [order1 order2 dgram env io out1 d1 out2 d2 Ho1 Hr Ho2 Hp]. unfold poll_once in Hp. rewrite Hr in Hp.
  cbn [mbind option_bind] in Hp. destruct (tick _ _ _ _ _) as [[out3 c3]|] eqn:Ht; [|done].
  injection Hp as <- <-. cbn [core set_core].
  assert (∃ c, rtc (server_step char_width p any_traffic) (core d) c ∧ d1 = pump_forwards env (set_core c d)) as (c & Hc & ->).
  { unfold poll_receive in Hr. destruct dgram as [[src buf]|].
    - destruct (handle_packet p order1 src buf (core d)) as [[out c]|] eqn:Hh; [|done]. injection Hr as <- <-.
      exists c. split; [|done]. apply rtc_once. by eapply step_packet.
    - injection Hr as <- <-. exists (core d). split; [apply rtc_refl|done]. }
  etrans; [exact Hc|]. etrans; [apply calls_steps, (pump_forwards_calls env (set_core c d))|].
  apply rtc_once. by eapply step_tick.
Qed.

(** ** Resources belong to live sessions *)

(** Nothing new, and the same listeners and sessions. *)
Record shrinks d d' : Prop := {
  sh_remote : remote_listeners d' = remote_listeners d;
  sh_agent : agent_listeners d' = agent_listeners d;
  sh_forwards k : is_Some (forwards d' !! k) → is_Some (forwards d !! k);
  sh_xfers k : is_Some (xfers d' !! k) → is_Some (xfers d !! k);
  sh_agents k : is_Some (agent_conns d' !! k) → is_Some (agent_conns d !! k);
  sh_execs k : is_Some (execs d' !! k) → is_Some (execs d !! k);
  sh_sessions sid : has_session (core d') sid = has_session (core d) sid;
}.

#[export] Instance shrinks_preorder : PreOrder shrinks.
Proof. split; [by split|]. intros d1 d2 d3 [] []. split; try congruence; auto. Qed.

Lemma shrinks_fold {A} (f : Server → A → Server) l d :
  (∀ d a, shrinks d (f d a)) → shrinks d (foldl f d l).
Proof.
  intros Hf. revert d. induction l as [|a l IH]; intros d; cbn; [done|]. etrans; [apply Hf|apply IH].
Qed.

Lemma delete_shrinks {A} (m : gmap Key A) k k' : is_Some (delete k m !! k') → is_Some (m !! k').
Proof. intros [v [_ Hv]%lookup_delete_Some]. by eexists. Qed.
Lemma insert_shrinks {A} (m : gmap Key A) k k' v v' :
  m !! k = Some v → is_Some (<[k := v']> m !! k') → is_Some (m !! k').
Proof. intros Hk [w [[<- _]|[_ Hw]]%lookup_insert_Some]; by eexists. Qed.

Lemma set_disk_shrinks f ans d : shrinks d (set_disk f ans d).
Proof. by split. Qed.
Lemma on_disk_shrinks {A} (m : Io A) d : shrinks d (on_disk m d).2.
Proof. unfold on_disk. destruct (m (disk_ans d) (disk d)) as [[[t a] f] ans]. by split. Qed.

Lemma core_shrinks c d : calls (core d) c → shrinks d (set_core c d).
Proof. intros Hc. split; try done. cbn. intros sid. by apply calls_same. Qed.

Lemma drop_xfer_shrinks k d : shrinks d (drop_xfer k d).
Proof.
  assert (∀ d, shrinks d (set_xfers (delete k (xfers d)) d)) as Hd.
  { intros d0. split; try done. cbn. intros k'. apply delete_shrinks. }
  unfold drop_xfer. destruct (xfers d !! k) as [[sink|src]|]; [|apply Hd..].
  pose proof (on_disk_shrinks (sink_drop sink) d) as Hs. destruct (on_disk (sink_drop sink) d) as [u d1].
  etrans; [exact Hs|apply Hd].
Qed.

Lemma drop_xfer_gone k d : xfers (drop_xfer k d) !! k = None ∧ forwards (drop_xfer k d) = forwards d.
Proof.
  unfold drop_xfer. destruct (xfers d !! k) as [[sink|src]|]; [|split; [apply lookup_delete_eq|done]..].
  assert (forwards (on_disk (sink_drop sink) d).2 = forwards d) as Hf.
  { unfold on_disk. by destruct (sink_drop sink (disk_ans d) (disk d)) as [[[t a] f] ans]. }
  destruct (on_disk (sink_drop sink) d) as [u d1]. split; [apply lookup_delete_eq|exact Hf].
Qed.

Lemma drop_dead_shrinks d : shrinks d (drop_dead d).
Proof.
  unfold drop_dead. apply shrinks_fold. intros d1 k. etrans; [|apply drop_xfer_shrinks].
  split; try done. cbn. intros k'. apply delete_shrinks.
Qed.

Lemma drop_dead_live d k :
  is_Some (forwards (drop_dead d) !! k) ∨ is_Some (xfers (drop_dead d) !! k) → live d k = true.
Proof.
  intros Hk. destruct (live d k) eqn:Hl; [done|]. exfalso.
  pose proof (drop_dead_shrinks d) as Hs. revert Hk Hs. unfold drop_dead.
  set (dead := filter _ _). intros Hk Hs.
  assert (k ∈ dead) as Hin.
  { apply list_elem_of_filter. split; [done|]. rewrite elem_of_app, !list_elem_of_fmap.
    destruct Hk as [Hk|Hk]; [left; apply (sh_forwards _ _ Hs) in Hk|right; apply (sh_xfers _ _ Hs) in Hk];
      destruct Hk as [v Hv]; exists (k, v); (split; [done|]); by apply elem_of_map_to_list. }
  clear Hs Hl. clearbody dead. revert d Hk Hin. induction dead as [|k' dead IH]; intros d Hk Hin;
    [by apply not_elem_of_nil in Hin|]. cbn [foldl] in Hk.
  apply elem_of_cons in Hin as [<-|Hin]; [|by eapply IH].
  set (d1 := drop_xfer k (set_forwards (delete k (forwards d)) d)) in *.
  assert (shrinks d1 (foldl (λ d k, drop_xfer k (set_forwards (delete k (forwards d)) d)) d1 dead)) as Hs.
  { apply shrinks_fold. intros d2 k2. etrans; [|apply drop_xfer_shrinks].
    split; try done. cbn. intros k3. apply delete_shrinks. }
  destruct (drop_xfer_gone k (set_forwards (delete k (forwards d)) d)) as [Hx Hf]. fold d1 in Hx, Hf.
  destruct Hk as [Hk|Hk]; [apply (sh_forwards _ _ Hs) in Hk|apply (sh_xfers _ _ Hs) in Hk].
  - rewrite Hf in Hk. cbn in Hk. rewrite lookup_delete_eq in Hk. by destruct Hk.
  - rewrite Hx in Hk. by destruct Hk.
Qed.

Lemma pump_conns_shrinks env d : shrinks d (pump_conns env d).
Proof.
  unfold pump_conns. destruct (pump_all _ _ _ _) as [[io cs] c] eqn:Hp.
  destruct (pump_all_calls _ _ _ _ _ _ _ Hp) as [Hc Hk]. apply calls_same in Hc as [_ Hc].
  split; try done.
Qed.

Lemma pump_agents_shrinks env d : shrinks d (pump_agents env d).
Proof.
  unfold pump_agents. destruct (pump_all _ _ _ _) as [[io cs] c] eqn:Hp.
  destruct (pump_all_calls _ _ _ _ _ _ _ Hp) as [Hc Hk]. apply calls_same in Hc as [_ Hc].
  split; try done. cbn. intros k [v [Hv _]%map_lookup_filter_Some]%Hk. by eexists.
Qed.

Lemma pump_agents_live env d k : is_Some (agent_conns (pump_agents env d) !! k) → live d k = true.
Proof.
  unfold pump_agents. destruct (pump_all _ _ _ _) as [[io cs] c] eqn:Hp.
  destruct (pump_all_calls _ _ _ _ _ _ _ Hp) as [_ Hk]. cbn.
  by intros [v [_ Hv]%map_lookup_filter_Some]%Hk.
Qed.

Lemma xfer_turn_shrinks k st d : shrinks d (xfer_turn k st d).2 ∧ xfers (xfer_turn k st d).2 = xfers d.
Proof.
  pose proof (xfer_turn_calls k st d) as Hc. apply calls_same in Hc as [_ Hc].
  assert (∀ d1, remote_listeners d1 = remote_listeners d ∧ agent_listeners d1 = agent_listeners d ∧
    forwards d1 = forwards d ∧ xfers d1 = xfers d ∧ agent_conns d1 = agent_conns d ∧ execs d1 = execs d →
    (∀ sid, has_session (core d1) sid = has_session (core d) sid) → shrinks d d1 ∧ xfers d1 = xfers d) as Hs.
  { intros d1 (? & ? & Hf & Hx & Ha & He) ?. split; [|done]. split; try done; intros k0; congruence. }
  apply Hs; [|exact Hc]. clear Hs Hc. destruct st as [sink|src]; cbn [xfer_turn].
  - unfold on_disk. by destruct (drain_upload _ _ _ _ _ _) as [[[t [[sink' abort] c]] f] ans].
  - destruct (_ <? _); [|done]. unfold on_disk.
    by destruct (read_chunk _ _ _ _) as [[[t [[[|b data] src']|]] f] ans].
Qed.

Lemma pump_xfer_shrinks d k : shrinks d (pump_xfer d k).
Proof.
  unfold pump_xfer. destruct (xfers d !! k) as [st|] eqn:Hk; [|done].
  destruct (xfer_turn_shrinks k st d) as [Hs Hx]. destruct (xfer_turn k st d) as [[turn st'] d1].
  cbn [snd] in Hs, Hx.
  assert (shrinks d1 (set_xfers (<[k := st']> (xfers d1)) d1)) as H1.
  { split; try done. cbn. intros k'. rewrite Hx. by apply (insert_shrinks _ _ _ st). }
  etrans; [exact Hs|]. etrans; [exact H1|]. set (d2 := set_xfers _ d1). destruct turn; [done| |].
  - etrans; [|apply drop_xfer_shrinks]. apply core_shrinks. one_call.
  - set (d3 := set_xfers (delete k _) _).
    assert (shrinks d2 d3) as H3.
    { etrans; [apply (core_shrinks (stream_close k.1 k.2 (core d2))); one_call|].
      split; try done. cbn. intros k'. apply delete_shrinks. }
    destruct st' as [sink|src]; [|exact H3]. etrans; [exact H3|].
    pose proof (on_disk_shrinks (sink_finalize sink) d3) as H4.
    destruct (on_disk (sink_finalize sink) d3) as [[] d4]; [exact H4|]. etrans; [exact H4|].
    apply core_shrinks. one_call.
Qed.

Lemma pump_exec_shrinks env d k : shrinks d (pump_exec env d k).
Proof.
  pose proof (pump_exec_calls env d k) as Hc. apply calls_same in Hc as [_ Hc]. revert Hc.
  unfold pump_exec. destruct (execs d !! k) as [e|] eqn:Hk; [|done].
  destruct (negb (live d k)).
  { intros Hc. split; try done. cbn. intros k'. apply delete_shrinks. }
  destruct (exec_turn _ _ _ _) as [[w e1] c1]. destruct (exec_finished (x_proc e1)); intros Hc; split; try done.
  - cbn. intros k' Hk'. apply delete_shrinks in Hk'. by apply (insert_shrinks _ _ _ e) in Hk'.
  - cbn. intros k'. by apply (insert_shrinks _ _ _ e).
Qed.

(** A command's turn: gone with its session. *)
Lemma pump_exec_live env d k : is_Some (execs (pump_exec env d k) !! k) → live d k = true.
Proof.
  unfold pump_exec. destruct (execs d !! k) as [e|] eqn:Hk; [|rewrite Hk; by intros []].
  destruct (live d k); [done|]. cbn. rewrite lookup_delete_eq. by intros [].
Qed.

Lemma pump_execs_live env order d k :
  k ∈ order → is_Some (execs (foldl (pump_exec env) d order) !! k) → live d k = true.
Proof.
  revert d. induction order as [|k' order IH]; intros d Hk Hs; [by apply not_elem_of_nil in Hk|].
  cbn [foldl] in Hs. apply elem_of_cons in Hk as [<-|Hk].
  - apply (sh_execs _ _ (shrinks_fold (pump_exec env) order _ (pump_exec_shrinks env))) in Hs.
    by apply pump_exec_live in Hs.
  - apply IH in Hs; [|done]. unfold live in *. by rewrite (sh_sessions _ _ (pump_exec_shrinks env d k')) in Hs.
Qed.

Lemma on_disk_listeners {A} (m : Io A) d :
  remote_listeners (on_disk m d).2 = remote_listeners d ∧ agent_listeners (on_disk m d).2 = agent_listeners d.
Proof. unfold on_disk. by destruct (m (disk_ans d) (disk d)) as [[[t a] f] ans]. Qed.

Lemma driver_event_listeners env d ev :
  remote_listeners (driver_event env d ev) = remote_listeners d ∧
  agent_listeners (driver_event env d ev) = agent_listeners d.
Proof.
  destruct ev as [sid ev]. destruct ev as [id kind meta|id|id status|id]; cbn [driver_event]; [|done| |].
  - destruct kind; try done.
    + destruct (from_utf8 meta) as [target|]; [by destruct (env_dial env target)|done].
    + destruct (privsep_active (core d)); [done|]. unfold start_transfer.
      destruct (parse_xfer meta) as [[path sz|path]|]; [| |done].
      * pose proof (on_disk_listeners (sink_create (env_pid env) (as_bytes path)) d) as Hl.
        by destruct (on_disk _ d) as [[sink|] d1].
      * pose proof (on_disk_listeners (source_open (as_bytes path)) d) as Hl.
        by destruct (on_disk _ d) as [[src|] d1].
    + destruct (privsep_active (core d)); [done|]. unfold start_exec.
      destruct (exec_spawn _ _ _) as [[command proc]|]; [|done].
      by destruct (open_exec _ _) as [[err|] c1].
  - unfold event_closed. cbn [execs set_agent_conns set_forwards].
    destruct (execs d !! (sid, id)) as [e|]; [|done].
    by destruct (close_stdin (env_close_stdin env) (x_proc e)).
  - unfold event_reset. set (d0 := set_forwards _ d).
    pose proof (drop_xfer_shrinks (sid, id) d0) as [Hr Ha _ _ _ _ _].
    by destruct (execs (set_agent_conns _ _) !! (sid, id)).
Qed.

(** Accepting leaves the listeners alone. *)
Lemma fold_remote_accepted l d :
  remote_listeners (foldl remote_accepted d l) = remote_listeners d ∧
  (∀ sid, has_session (core (foldl remote_accepted d l)) sid = has_session (core d) sid).
Proof.
  revert d. induction l as [|[[sid target] usable] l IH]; intros d; [done|]. cbn [foldl].
  destruct (IH (remote_accepted d (sid, target, usable))) as [-> Hs]. unfold remote_accepted in *.
  pose proof (calls_same _ _ (calls_one _ _ (call_open_forward (core d) sid target))) as [_ Ho].
  destruct (open_forward sid target (core d)) as [[id|] c]; [destruct usable|];
    (split; [done|]); intros sid'; rewrite Hs; apply Ho.
Qed.
Lemma fold_agent_accepted l d :
  agent_listeners (foldl agent_accepted d l) = agent_listeners d ∧
  remote_listeners (foldl agent_accepted d l) = remote_listeners d.
Proof.
  revert d. induction l as [|[[sid path] usable] l IH]; intros d; [done|]. cbn [foldl].
  destruct (IH (agent_accepted d (sid, path, usable))) as [-> ->]. unfold agent_accepted.
  destruct (open_agent sid (core d)) as [[id|] c]; [by destruct usable|done].
Qed.

(** Requests leave the core alone, and agent requests the remote listeners. *)
Lemma fold_remote_request env l d : core (foldl (remote_request env) d l) = core d.
Proof.
  revert d. induction l as [|[[sid port] target] l IH]; intros d; [done|]. cbn [foldl]. rewrite IH.
  unfold remote_request. destruct (existsb _ _); [done|]. by destruct (env_bind env port).
Qed.
Lemma fold_agent_request env l d :
  core (foldl (agent_request env) d l) = core d ∧
  remote_listeners (foldl (agent_request env) d l) = remote_listeners d.
Proof.
  revert d. induction l as [|r l IH]; intros d; [done|]. cbn [foldl].
  destruct (IH (agent_request env d r)) as [-> ->]. unfold agent_request. by destruct (env_agent_bind env r.2).
Qed.

Definition listeners_live d : Prop :=
  (∀ l, l ∈ remote_listeners d → has_session (core d) (l_sid l) = true) ∧
  (∀ l, l ∈ agent_listeners d → has_session (core d) l.1 = true).

(** After both kinds of listeners have been served they are those of live sessions. *)
Lemma serve_live env d : listeners_live (serve_agents env (serve_listeners env d)).
Proof.
  set (d0 := serve_listeners env d).
  pose proof (serve_agents_calls env d0) as [_ Hc]%calls_same.
  pose proof (serve_listeners_calls env d) as [_ Hc0]%calls_same. fold d0 in Hc0.
  split; intros l Hl; rewrite Hc.
  - assert (remote_listeners (serve_agents env d0) = remote_listeners d0) as Hr.
    { unfold serve_agents. destruct (take_agent_socket_requests (core d0)) as [reqs c].
      rewrite (proj2 (fold_agent_accepted _ _)). cbn. by rewrite (proj2 (fold_agent_request _ _ _)). }
    rewrite Hr in Hl. rewrite Hc0. revert Hl. unfold d0, serve_listeners.
    pose proof (proj2 (calls_same _ _ (calls_one _ _ (call_forwards (core d))))) as Ht.
    destruct (take_remote_forward_requests (core d)) as [reqs c]. rewrite (proj1 (fold_remote_accepted _ _)).
    intros [Hs _]%list_elem_of_filter. rewrite fold_remote_request in Hs. by rewrite <- Ht.
  - revert Hl. unfold serve_agents.
    pose proof (proj2 (calls_same _ _ (calls_one _ _ (call_agents (core d0))))) as Ht.
    destruct (take_agent_socket_requests (core d0)) as [reqs c]. rewrite (proj1 (fold_agent_accepted _ _)).
    cbn. intros [Hs _]%list_elem_of_filter. rewrite (proj1 (fold_agent_request _ _ _)) in Hs. by rewrite <- Ht.
Qed.

(** Every resource the driver holds is of a session the core has. *)
Definition resources_live (ks : list Key) d : Prop :=
  listeners_live d ∧
  ∀ k, is_Some (forwards d !! k) ∨ is_Some (xfers d !! k) ∨ is_Some (agent_conns d !! k) ∨
    (is_Some (execs d !! k) ∧ k ∈ ks) → has_session (core d) k.1 = true.

Lemma fold_event_listeners env evs d :
  remote_listeners (foldl (driver_event env) d evs) = remote_listeners d ∧
  agent_listeners (foldl (driver_event env) d evs) = agent_listeners d.
Proof.
  revert d. induction evs as [|ev evs IH]; intros d; [done|]. cbn [foldl].
  destruct (IH (driver_event env d ev)) as [-> ->]. apply driver_event_listeners.
Qed.

Lemma shrinks_listeners d d' : shrinks d d' → listeners_live d → listeners_live d'.
Proof. intros Hs [Hr Ha]. split; intros l Hl; rewrite (sh_sessions _ _ Hs); [rewrite (sh_remote _ _ Hs) in Hl|rewrite (sh_agent _ _ Hs) in Hl]; auto. Qed.

(** ** Privilege separation *)

(** What touches a program that was started for a client. *)
Definition runs_program (e : DriverEffect) : bool :=
  match e with Spawned _ | Killed _ | StdinFed _ _ | StdinClosed _ => true | _ => false end.

(** With privilege separation: no transfer, no command, the files as they were. *)
Record confined (f : Fs) d : Prop := {
  cf_active : privsep_active (core d) = true;
  cf_xfers : xfers d = ∅;
  cf_execs : execs d = ∅;
  cf_disk : disk d = f;
  cf_log : Forall (λ e, runs_program e = false) (d_log d);
}.

Create HintDb confined.

Lemma confined_user f c d : user c = user (core d) → confined f d → confined f (set_core c d).
Proof. intros Hu []. split; try done. unfold privsep_active in *. cbn. by rewrite Hu. Qed.
Lemma confined_core f c d : calls (core d) c → confined f d → confined f (set_core c d).
Proof. intros [Hu _]%calls_same. by apply confined_user. Qed.
Lemma confined_note f es d :
  Forall (λ e, runs_program e = false) es → confined f d → confined f (note es d).
Proof. intros Hes []. split; try done. cbn. by apply Forall_app_2. Qed.
Lemma confined_listeners f v d : confined f d → confined f (set_listeners v d).
Proof. by intros []. Qed.
Lemma confined_agent_listeners f v d : confined f d → confined f (set_agent_listeners v d).
Proof. by intros []. Qed.
Lemma confined_forwards f v d : confined f d → confined f (set_forwards v d).
Proof. by intros []. Qed.
Lemma confined_agent_conns f v d : confined f d → confined f (set_agent_conns v d).
Proof. by intros []. Qed.
Hint Resolve confined_core confined_note confined_listeners confined_agent_listeners
  confined_forwards confined_agent_conns : confined.

Lemma confined_fold {A} f (g : Server → A → Server) l d :
  (∀ d a, confined f d → confined f (g d a)) → confined f d → confined f (foldl g d l).
Proof. intros Hg. revert d. induction l as [|a l IH]; intros d Hd; cbn; auto. Qed.

Lemma confined_drop_xfer f k d : confined f d → confined f (drop_xfer k d).
Proof.
  intros []. unfold drop_xfer. rewrite cf_xfers0, lookup_empty. split; try done.
Qed.

Lemma serve_listeners_confined f env d : confined f d → confined f (serve_listeners env d).
Proof.
  intros Hd. unfold serve_listeners.
  pose proof (calls_one _ _ (call_forwards (core d))) as Hc.
  destruct (take_remote_forward_requests (core d)) as [reqs c]. apply confined_fold.
  - intros d1 [[sid target] usable] H1. unfold remote_accepted.
    pose proof (calls_one _ _ (call_open_forward (core d1) sid target)) as Ho.
    destruct (open_forward sid target (core d1)) as [[id|] c1]; [destruct usable|]; auto with confined.
  - apply confined_listeners, confined_fold; [|auto with confined].
    intros d1 [[sid port] target] H1. unfold remote_request. destruct (existsb _ _); [done|].
    destruct (env_bind env port); auto with confined.
Qed.

Lemma serve_agents_confined f env d : confined f d → confined f (serve_agents env d).
Proof.
  intros Hd. unfold serve_agents.
  pose proof (calls_one _ _ (call_agents (core d))) as Hc.
  destruct (take_agent_socket_requests (core d)) as [reqs c]. apply confined_fold.
  - intros d1 [[sid path] usable] H1. unfold agent_accepted.
    pose proof (calls_one _ _ (call_open_agent (core d1) sid)) as Ho.
    destruct (open_agent sid (core d1)) as [[id|] c1]; [|auto with confined].
    destruct usable; [auto with confined|]. apply confined_core; [cbn; one_call|auto with confined].
  - apply confined_note; [|apply confined_agent_listeners, confined_fold; [|auto with confined]].
    { apply Forall_forall. intros e (l & -> & _)%list_elem_of_fmap. done. }
    intros d1 req H1. unfold agent_request. destruct (env_agent_bind env req.2); auto with confined.
Qed.

Lemma driver_event_confined f env d ev : confined f d → confined f (driver_event env d ev).
Proof.
  intros Hd. pose proof (cf_active _ _ Hd) as Hu.
  assert (∀ sid id, confined f (set_core (stream_close sid id (core d)) d)) as Hclose
    by (intros; apply confined_core; [one_call|done]).
  assert (∀ sid id, confined f (set_core (stream_reset sid id (core d)) d)) as Hreset
    by (intros; apply confined_core; [one_call|done]).
  destruct ev as [sid ev]. destruct ev as [id kind meta|id|id status|id]; cbn [driver_event]; [|done| |].
  - destruct kind; rewrite ?Hu; auto.
    destruct (from_utf8 meta) as [target|]; [destruct (env_dial env target)|]; auto with confined.
  - unfold event_closed. cbn [execs set_agent_conns set_forwards]. rewrite (cf_execs _ _ Hd), lookup_empty.
    auto with confined.
  - unfold event_reset. set (d1 := drop_xfer _ _).
    assert (confined f d1) as H1 by (apply confined_drop_xfer; auto with confined).
    cbn [execs set_agent_conns]. rewrite (cf_execs _ _ H1), lookup_empty. auto with confined.
Qed.

Lemma pump_forwards_confined f env d : confined f d → confined f (pump_forwards env d).
Proof.
  intros Hd. unfold pump_forwards.
  assert (confined f (serve_agents env (serve_listeners env d))) as H1
    by by apply serve_agents_confined, serve_listeners_confined.
  set (d1 := serve_agents _ _) in *. clearbody d1.
  pose proof (calls_one _ _ (call_events (core d1))) as Hc.
  destruct (take_stream_events (core d1)) as [evs c].
  assert (confined f (drop_dead (foldl (driver_event env) (set_core c d1) evs))) as H2.
  { apply confined_fold; [|apply confined_fold; [apply driver_event_confined|auto with confined]].
    intros d2 k Hd2. apply confined_drop_xfer. auto with confined. }
  apply confined_fold.
  { intros d2 k Hd2. unfold pump_exec. by rewrite (cf_execs _ _ Hd2), lookup_empty. }
  unfold pump_agents. set (d3 := foldl pump_xfer _ _).
  assert (confined f d3) as H3.
  { apply confined_fold.
    { intros d2 k Hd2. unfold pump_xfer. by rewrite (cf_xfers _ _ Hd2), lookup_empty. }
    unfold pump_conns. destruct (pump_all _ _ _ _) as [[io cs] c3] eqn:Hp.
    apply pump_all_calls in Hp as [Hp _]. auto with confined. }
  destruct (pump_all _ _ _ _) as [[io cs] c3] eqn:Hp.
  apply pump_all_calls in Hp as [Hp _]. auto with confined.
Qed.

Lemma daemon_step_confined f d d' : daemon_step d d' → confined f d → confined f d'.
Proof.
  intros [order1 order2 dgram env io out1 d1 out2 d2 Ho1 Hr Ho2 Hp] Hd. unfold poll_once in Hp. rewrite Hr in Hp.
  cbn [mbind option_bind] in Hp. destruct (tick _ _ _ _ _) as [[out3 c3]|] eqn:Ht; [|done].
  injection Hp as <- <-. destruct (tick_spec _ _ _ _ _ _ _ Ho2 Ht) as (Hrest & _).
  apply confined_user; [by injection (rest_config _ _ Hrest)|].
  unfold poll_receive in Hr. destruct dgram as [[src buf]|].
  - destruct (handle_packet p order1 src buf (core d)) as [[out c]|] eqn:Hh; [|done]. injection Hr as <- <-.
    apply pump_forwards_confined, confined_user; [|done].
    by injection (handle_packet_config _ _ _ _ _ _ _ Hh).
  - injection Hr as <- <-. by apply pump_forwards_confined, confined_user.
Qed.
End daemon.

(** Rounds in which the datagrams of one address arrive, one at a time, and the
    system gives the same answers each time. *)
Section play.
Context (char_width : Z → nat) {V : Vte} {N : Snow} {SocketAddr : Type} (p : Process).
Local Abbreviation Server := (@Server V N SocketAddr).

Definition play_round (src : SocketAddr) (env : Env) (io : TickIo) (buf : list Z) (d : Server) : option Server :=
  '(_, d1) ← poll_receive p (keys_of (core d)) (Some (src, buf)) env d;
  '(_, _, d2) ← poll_once char_width p (keys_of (core d)) (keys_of (core d1)) (Some (Some (src, buf))) env io d;
  Some d2.

Fixpoint play_rounds (src : SocketAddr) (env : Env) (io : TickIo) (bufs : list (list Z)) (d : Server) : Server :=
  match bufs with
  | [] => d
  | buf :: bufs => default d (play_rounds src env io bufs <$> play_round src env io buf d)
  end.

Lemma play_rounds_runs src env io bufs : ∀ d, rtc (daemon_step char_width p) d (play_rounds src env io bufs d).
Proof.
  induction bufs as [|buf bufs IH]; intros d; cbn [play_rounds]; [apply rtc_refl|].
  destruct (play_round src env io buf d) as [d2|] eqn:H; [|apply rtc_refl]. cbn.
  eapply rtc_l; [|apply IH]. revert H. unfold play_round.
  destruct (poll_receive _ _ _ _ _) as [[out1 d1]|] eqn:Hr; [|done]. cbn [mbind option_bind].
  destruct (poll_once _ _ _ _ _ _ _ _) as [[[b out2] d3]|] eqn:Hp; [|done]. cbn [mbind option_bind]. intros [= <-].
  assert (b = true) as ->.
  { revert Hp. unfold poll_once. rewrite Hr. cbn [mbind option_bind].
    destruct (tick _ _ _ _ _) as [[out3 c3]|]; [|done]. by intros [= <- _ _]. }
  eapply daemon_round; [apply keys_of_order|exact Hr|apply keys_of_order|exact Hp].
Qed.
End play.

(** ** A command's standard input *)

(** A command whose pipe is closed is fed nothing, and its pipe stays closed. *)
Lemma closed_stdin_flush ans proc : x_stdin proc = false →
  (flush_stdin ans proc).1.1 = [] ∧ x_stdin (flush_stdin ans proc).1.2 = false.
Proof. intros Hx. unfold flush_stdin. by rewrite Hx. Qed.

Lemma closed_stdin_feed {V : Vte} {N : Snow} {SocketAddr : Type} fuel :
  ∀ ans (k : Key) proc (c : @ServerCore V N SocketAddr),
  x_stdin proc = false →
  (feed_exec fuel ans k proc c).1.1.1 = [] ∧ (feed_exec fuel ans k proc c).1.1.2 = proc.
Proof.
  induction fuel as [|fuel IH]; intros ans k proc c Hx; cbn [feed_exec]; [done|].
  destruct (_ <? _); [|done]. destruct (stream_read k.1 k.2 c) as [[|b data] c1]; [done|].
  unfold write_stdin. rewrite Hx. destruct (IH ans k proc c1 Hx) as [Hw Hp].
  destruct (feed_exec fuel ans k proc c1) as [[[w2 proc2] c2] ans2]. by cbn in *; subst.
Qed.

(** While its buffer is small what the client sent is taken all the same. *)
Lemma feed_takes_all {V : Vte} {N : Snow} {SocketAddr : Type} ans (k : Key) proc (c : @ServerCore V N SocketAddr) :
  muxes buffers_ok c → x_stdin proc = false → Z.of_nat (stdin_buffered proc) < SEND_CAP →
  (stream_read k.1 k.2 (feed_exec DRAIN_ROUNDS ans k proc c).1.2).1 = [].
Proof.
  intros Hc Hx Hb. pose proof (port_read_all (K := Key) c k Hc) as Hr. cbn [port_read server_port] in Hr.
  unfold DRAIN_ROUNDS. cbn [feed_exec]. rewrite (proj2 (Z.ltb_lt _ _)) by done.
  destruct (stream_read k.1 k.2 c) as [[|b data] c1] eqn:H1; [exact Hr|]. cbn [snd] in Hr.
  unfold write_stdin. rewrite Hx. cbn zeta iota beta. rewrite (proj2 (Z.ltb_lt _ _)) by done.
  assert (muxes buffers_ok c1) as Hc1 by (pose proof (port_read_wf (K := Key) c k Hc) as Hw; cbn [port_read server_port] in Hw; by rewrite H1 in Hw).
  pose proof (port_read_all (K := Key) c1 k Hc1) as Hr2. cbn [port_read server_port] in Hr2.
  destruct (stream_read k.1 k.2 c1) as [d2 c2]. cbn [fst] in Hr. by subst d2.
Qed.

Lemma flush_stdin_loop_prefix ans : ∀ proc, (flush_stdin_loop ans proc).1.1 `prefix_of` stdin_buf proc.
Proof.
  induction ans as [|a ans IH]; intros proc; cbn [flush_stdin_loop];
    (destruct (stdin_buf proc) as [|b buf] eqn:Hb; [done|]); [apply prefix_nil|].
  destruct a as [[|n]| | |]; try apply prefix_nil.
  - specialize (IH (set_x_stdin (x_stdin proc) (drop (S n) (b :: buf)) proc)).
    destruct (flush_stdin_loop ans _) as [[w proc'] ans']. cbn [fst stdin_buf set_x_stdin] in *.
    destruct IH as [k Hk]. exists k. by rewrite <- app_assoc, <- Hk, take_drop.
  - rewrite <- Hb. apply IH.
Qed.
Lemma flush_stdin_prefix ans proc : (flush_stdin ans proc).1.1 `prefix_of` stdin_buf proc.
Proof. unfold flush_stdin. destruct (x_stdin proc); [apply flush_stdin_loop_prefix|apply prefix_nil]. Qed.

(** C22 No orphaned resources: when a round's pump is over, every listener, forward,
    transfer, agent connection and (among those the pump visited) command belongs to a
    session the core still has, whatever happened before and whatever the system
    answered, so that a session that ended leaves nothing behind on the host. *)
Theorem resources_are_live {V : Vte} {N : Snow} {SocketAddr : Type} (env : Env)
    (d : @Server V N SocketAddr) :
  resources_live (ord_execs env) (pump_forwards env d).
Proof.
  unfold pump_forwards. pose proof (serve_live env d) as Hl. set (d1 := serve_agents _ _) in *.
  pose proof (proj2 (calls_same _ _ (calls_one _ _ (call_events (core d1))))) as Hc.
  destruct (take_stream_events (core d1)) as [evs c]. cbn [snd] in Hc.
  set (d2 := foldl (driver_event env) (set_core c d1) evs).
  assert (listeners_live d2) as Hl2.
  { destruct (fold_event_listeners env evs (set_core c d1)) as [Hr Ha].
    pose proof (calls_same _ _ (calls_fold (driver_event env) evs (set_core c d1) (driver_event_calls env))) as [_ He].
    destruct Hl as [Hl1 Hl2]. split; intros l; fold d2 in Hr, Ha, He; rewrite ?Hr, ?Ha, He; cbn [core set_core]; rewrite Hc; auto. }
  set (d3 := pump_conns env (drop_dead d2)).
  set (d4 := foldl pump_xfer d3 (ord_xfers env)). set (d5 := pump_agents env d4).
  assert (shrinks (drop_dead d2) d4) as H24.
  { etrans; [apply pump_conns_shrinks|]. apply shrinks_fold, pump_xfer_shrinks. }
  assert (shrinks d4 d5) as H45 by apply pump_agents_shrinks.
  assert (shrinks d5 (foldl (pump_exec env) d5 (ord_execs env))) as H56 by apply shrinks_fold, pump_exec_shrinks.
  pose proof (drop_dead_shrinks d2) as H22.
  split.
  { eapply shrinks_listeners; [|exact Hl2]. etrans; [exact H22|]. etrans; [exact H24|]. by etrans. }
  intros k Hk. rewrite (sh_sessions _ _ H56). destruct Hk as [Hk|[Hk|[Hk|[Hk Hin]]]].
  - apply (sh_forwards _ _ H56), (sh_forwards _ _ H45), (sh_forwards _ _ H24) in Hk.
    rewrite (sh_sessions _ _ H45), (sh_sessions _ _ H24), (sh_sessions _ _ H22). apply drop_dead_live. by left.
  - apply (sh_xfers _ _ H56), (sh_xfers _ _ H45), (sh_xfers _ _ H24) in Hk.
    rewrite (sh_sessions _ _ H45), (sh_sessions _ _ H24), (sh_sessions _ _ H22). apply drop_dead_live. by right.
  - apply (sh_agents _ _ H56) in Hk. rewrite (sh_sessions _ _ H45). by eapply pump_agents_live.
  - by eapply pump_execs_live.
Qed.

(** C21 Privilege separation confines the driver: a daemon that runs shells as another
    user never starts a program for a client, never feeds or kills one, holds no
    transfer and leaves every file of the transfers' file system as it found it,
    whatever packets arrive and whatever the system answers; the refusals are in the
    driver, which has the daemon's own (possibly root) identity. (Agent sockets are
    not part of that file system; that none is ever asked for is
    [server_keeps_invariant].) *)
Theorem privsep_runs_nothing (char_width : Z → nat) {V : Vte} {N : Snow} {SocketAddr : Type} (p : Process)
    kp keys login cmd u files ans (d0 d : @Server V N SocketAddr) :
  server_bind (server_start kp keys login cmd (Some u)) true files ans = Ok d0 →
  rtc (daemon_step char_width p) d0 d →
  xfers d = ∅ ∧ execs d = ∅ ∧ disk d = files ∧ Forall (λ e, runs_program e = false) (d_log d).
Proof.
  intros [= <-] Hrun.
  assert (confined files d) as []; [|done]. revert Hrun.
  apply (rtc_invariant _ (confined files)); [by split|]. intros d1 d2 Hd Hs. by eapply daemon_step_confined.
Qed.

(** The rounds of the loop, with all that the driver does for forwards, agents,
    transfers and commands, are runs of the core's own steps (a packet, a tick, a call
    of the driver), so that whatever holds of the core's reachable states holds of the
    daemon's. *)
Lemma daemon_refines_core (char_width : Z → nat) {V : Vte} {N : Snow} {SocketAddr : Type} (p : Process)
    (d d' : @Server V N SocketAddr) :
  rtc (daemon_step char_width p) d d' → rtc (server_step char_width p any_traffic) (core d) (core d').
Proof.
  induction 1 as [|d1 d2 d3 H _ IH]; [apply rtc_refl|]. etrans; [by eapply daemon_step_runs|exact IH].
Qed.

(** The end of a command's input overtakes the input: when the client has closed its
    half, the driver closes the command's pipe at once, having offered it only what it
    had already taken from the stream; whatever is read from the stream after that,
    in the same pump or later, is taken and never reaches the command. The close is
    announced as soon as it is asked for, before the data it ends. *)
Theorem exec_stdin_cut {V : Vte} {N : Snow} {SocketAddr : Type} (env : Env) (k : Key) e
    (d : @Server V N SocketAddr) :
  execs d !! k = Some e →
  ∃ e1 w, execs (event_closed env k d) !! k = Some e1 ∧
    d_log (event_closed env k d) = d_log d ++ [StdinFed k w; StdinClosed k] ∧
    w `prefix_of` stdin_buf (x_proc e) ∧
    (∀ ans (c : @ServerCore V N SocketAddr), (exec_turn ans k e1 c).1.1 = [] ∧
      x_stdin (x_proc (exec_turn ans k e1 c).1.2) = false) ∧
    (∀ ans (c : @ServerCore V N SocketAddr), muxes buffers_ok c →
      Z.of_nat (stdin_buffered (x_proc e1)) < SEND_CAP →
      (stream_read k.1 k.2 (feed_exec DRAIN_ROUNDS ans k (x_proc e1) c).1.2).1 = []).
Proof.
  intros Hk. unfold event_closed. cbn [execs set_agent_conns set_forwards]. rewrite Hk. unfold close_stdin.
  pose proof (flush_stdin_prefix (env_close_stdin env) (x_proc e)) as Hw.
  destruct (flush_stdin _ _) as [[w proc] ans1]. cbn [fst] in Hw.
  eexists _, w. split_and!; [apply lookup_insert_eq|done|done| |].
  2: intros ans c Hc Hb; by apply feed_takes_all.
  intros ans c. unfold exec_turn. cbn [x_proc err_id].
  set (proc1 := set_x_stdin false (stdin_buf proc) proc). assert (x_stdin proc1 = false) as Hx by done.
  destruct (closed_stdin_feed DRAIN_ROUNDS (xa_feed ans) k proc1 c Hx) as [H1 H2].
  destruct (feed_exec _ _ _ _ _) as [[[w1 proc2] c1] ans2]. cbn [fst snd] in H1, H2. subst w1 proc2.
  destruct (closed_stdin_flush (xa_flush ans) proc1 Hx) as [H3 H4].
  destruct (flush_stdin _ _) as [[w3 proc3] ans3]. cbn [fst snd] in H3, H4. subst w3.
  assert (∀ k' rd proc' (c' : @ServerCore V N SocketAddr), (∀ p, x_stdin (rd p).2 = x_stdin p) →
    x_stdin (forward_output k' rd proc' c').1 = x_stdin proc') as Hf.
  { intros k' rd proc' c' Hrd. unfold forward_output. destruct (_ <? _); [|done].
    specialize (Hrd proc'). by destruct (rd proc'). }
  pose proof (Hf k (read_stdout (xa_stdout ans)) proc3 c1) as H5.
  destruct (forward_output k _ proc3 c1) as [proc4 c2].
  pose proof (Hf (k.1, err_id e) (read_stderr (xa_stderr ans)) proc4 c2) as H6.
  destruct (forward_output _ _ proc4 c2) as [proc5 c3]. split; [done|]. cbn in *.
  unfold poll_exit. assert (x_stdin proc5 = false) as H7.
  { rewrite H6, H5, H4; [done|..]; intros q; unfold read_stdout, read_stderr; by destruct (read_pipe _ _). }
  by destruct (x_exit proc5), (xa_wait ans) as [[]|].
Qed.

(** ** Witnesses *)

(** A client that asks for a command and pipes four bytes to it. *)
Definition quiet_sock : SocketAns := ([], []).
Definition quiet_exec : ExecAns := mkExecAns [WBytes 4] [WBytes 4] [] [] None.
Definition sample_env : Env := mkEnv 7 None (λ _, None) (λ _, []) (λ _, false) (λ _, []) (λ _, false)
  (λ _, true) [WBytes 4] (λ _, quiet_sock) (λ _, quiet_sock) (λ _, quiet_exec) [] [] [] [(sample_sid, 0)].
Definition quiet_tick : TickIo := mkTickIo (λ _, []) (λ _, Ok None).

Definition sample_daemon (u : option (list Z)) : @Server sample_vte sample_xx nat :=
  mkServer (server_start (mkKeypair sample_static sample_static) [(replicate 32 5, [])] [] None u)
    ∅ [] ∅ [] ∅ ∅ (mkFs ∅ ∅ ∅ []) [] [].

(** The packets of the client's multiplexer: the command, its input where there is
    some, and the close of the client's half where it is closed. *)
Definition exec_packets (data : list Z) (closed : bool) : list (list Z) :=
  let '(id, m) := mux_open (mux_new true) Wire.Exec [99; 97; 116] in
  let m := mux_write m id data in
  let m := if closed then mux_close m id 0 else m in
  match (seal_many (@session_new sample_xx nat sample_sid (@mkNoiseSession sample_xx 7 []) None)
           (poll_transmit m).1 MAX_DATAGRAM_PLAINTEXT).1 with
  | Ok pkts => pkts
  | Err _ => []
  end.
Definition play_exec (data : list Z) (closed : bool) (u : option (list Z)) : @Server sample_vte sample_xx nat :=
  play_rounds sample_width sample_process 1%nat sample_env quiet_tick
    ([sample_init (replicate 32 5) sample_sid; sample_last (replicate 32 5) sample_sid] ++ exec_packets data closed)
    (sample_daemon u).

(** Four bytes are piped to a command that the daemon starts, with the end of the
    input: nothing reaches the command, and the bytes are gone. *)
Lemma piped_input_is_lost :
  rtc (daemon_step sample_width sample_process) (sample_daemon None) (play_exec [1; 2; 3; 4] true None) ∧
  d_log (play_exec [1; 2; 3; 4] true None) =
    [Spawned (exec_command None [99; 97; 116]); StdinFed (sample_sid, 0) []; StdinClosed (sample_sid, 0);
     StdinFed (sample_sid, 0) []] ∧
  (stream_read sample_sid 0 (core (play_exec [1; 2; 3; 4] true None))).1 = [].
Proof. split; [apply play_rounds_runs|]. split; vm_compute; reflexivity. Qed.

(** Without the close they arrive. *)
Lemma open_input_arrives :
  d_log (play_exec [1; 2; 3; 4] false None) =
    [Spawned (exec_command None [99; 97; 116]); StdinFed (sample_sid, 0) [1; 2; 3; 4]].
Proof. vm_compute. reflexivity. Qed.

Lemma privsep_runs_nothing_witness :
  keys_of (core (play_exec [1; 2; 3; 4] false (Some [117]))) = [sample_sid] ∧
  execs (play_exec [1; 2; 3; 4] false (Some [117])) = ∅.
Proof.
  split; [vm_compute; reflexivity|].
  apply (privsep_runs_nothing sample_width sample_process (mkKeypair sample_static sample_static)
    [(replicate 32 5, [])] [] None [117] (mkFs ∅ ∅ ∅ []) [] (sample_daemon (Some [117]))
    (play_exec [1; 2; 3; 4] false (Some [117]))); [reflexivity|apply play_rounds_runs].
Defined.

Lemma sample_exec_runs : is_Some (execs (play_exec [] false None) !! (sample_sid, 0)).
Proof. apply (bool_decide_unpack _). by vm_compute. Qed.

Lemma exec_stdin_cut_witness :
  ∃ e1 w, execs (event_closed sample_env (sample_sid, 0) (play_exec [] false None)) !! (sample_sid, 0) = Some e1 ∧
    (exec_turn quiet_exec (sample_sid, 0) e1 (core (play_exec [] false None))).1.1 = w ∧ w = [].
Proof.
  destruct sample_exec_runs as [e He].
  destruct (exec_stdin_cut sample_env (sample_sid, 0) e (play_exec [] false None) He)
    as (e1 & w & H1 & _ & _ & H2 & _).
  exists e1, []. split; [exact H1|]. split; [apply H2|reflexivity].
Defined.
