(* ===== verification/ClientDriver.v ===== *)
(** * The client's driver ([src/client.rs])

    What [Client] does around its core: connecting, one turn of a transfer, of a
    remote command and of forwarding. The datagrams that arrive, the clock, the
    sockets, the pipes and the files answer as data; the datagrams that are sent are
    results. Sending never fails and receiving only says that there is nothing. *)

From Stdlib Require Import Ascii String.
From stdpp Require Import gmap.
From S2P Require Import Prelude Wire Input NoiseCore Session Handshake Reassembler Stream Mux Cell Text Literal Socks Grid GridOps Diff Predict Shell Control Auth Runtime Client Forward Forwarder Files Xfer.

Section driver.
Context {N : Snow} {SocketAddr : Type}.
Local Abbreviation ClientCore := (ClientCore (SocketAddr := SocketAddr)).
Implicit Types (c : ClientCore).

(** ** Datagrams *)

(** What was sent, whether it went well, the core afterwards. *)
Definition Sent : Type := list (list Z) * result RuntimeError unit * ClientCore.

(** [dgram] is the datagram that is there, if one is.
    @ src/client.rs:979-994 Client::recv_and_handle *)
Definition recv_and_handle (dgram : option (list Z)) c : Sent :=
  match dgram with
  | Some buf =>
    match c_handle_packet buf c with
    | (Ok pkts, c) => (pkts, Ok (), c)
    | (Err e, c) => ([], Err e, c)
    end
  | None => ([], Ok (), c)
  end.

(** All the datagrams that are there. @ src/client.rs:664-664 Client::run_forwards *)
Fixpoint recv_all (dgrams : list (list Z)) c : Sent :=
  match dgrams with
  | [] => ([], Ok (), c)
  | buf :: dgrams =>
    match recv_and_handle (Some buf) c with
    | (out, Err e, c) => (out, Err e, c)
    | (out1, Ok _, c) => let '(out2, r, c) := recv_all dgrams c in (out1 ++ out2, r, c)
    end
  end.

(** @ src/client.rs:997-1002 Client::flush *)
Definition flush c : list (list Z) * ClientCore := c_tick c.

(** @ src/client.rs:1005-1010 Client::send_keepalive *)
Definition send_keepalive c : list (list Z) * ClientCore :=
  let '(pkt, c) := keepalive c in (match pkt with Some p => [p] | None => [] end, c).

(** @ src/client.rs:1014-1017 Client::pump_once *)
Definition pump_once (dgram : option (list Z)) c : Sent :=
  match recv_and_handle dgram c with
  | (out, Err e, c) => (out, Err e, c)
  | (out1, Ok _, c) => let '(out2, c) := flush c in (out1 ++ out2, Ok (), c)
  end.

(** The end of a turn. *)
Definition end_turn (keepalive_due : bool) c : list (list Z) * ClientCore :=
  let '(out1, c) := flush c in
  if keepalive_due then let '(out2, c) := send_keepalive c in (out1 ++ out2, c) else (out1, c).

(** One of the rounds of [say_bye]; what goes wrong is passed over. *)
Definition bye_round (st : list (list Z) * ClientCore) (dgram : option (list Z)) : list (list Z) * ClientCore :=
  let '(out, c) := st in
  let '(out1, c) := flush c in
  let '(out2, _, c) := recv_and_handle dgram c in (out ++ out1 ++ out2, c).

(** [dgrams] are what is there in each of the six rounds.
    @ src/client.rs:956-963 Client::say_bye *)
Definition say_bye (dgrams : nat → option (list Z)) c : list (list Z) * ClientCore :=
  foldl bye_round ([], send_bye c) (dgrams <$> List.seq 0 6).

(** ** Connecting *)

(** The rounds there is time for; when they are over it is a timeout.
    @ src/client.rs:508-513 Client::connect_with *)
Fixpoint connect_loop (dgrams : list (option (list Z))) c : Sent :=
  if established c then ([], Ok (), c)
  else
    match dgrams with
    | [] => ([], Err Timeout, c)
    | dgram :: dgrams =>
      match pump_once dgram c with
      | (out, Err e, c) => (out, Err e, c)
      | (out1, Ok _, c) => let '(out2, r, c) := connect_loop dgrams c in (out1 ++ out2, r, c)
      end
    end.

(** [bound] is whether the socket could be bound.
    @ src/client.rs:465-515 Client::connect_with *)
Definition connect_with (bound : bool) (sid : SessionId) (term_var : option (list Z)) (keypair : Keypair)
    (known : KnownHosts) (host_label : list Z) (addr : SocketAddr) (rows cols : Z) (prediction : DisplayMode)
    (want_shell : bool) (agent_sock : option (list Z)) (dgrams : list (option (list Z))) :
    list (list Z) * result RuntimeError ClientCore :=
  if negb bound then ([], Err RtIo)
  else
    match client_core_new sid term_var keypair known host_label addr rows cols prediction with
    | Err e => ([], Err e)
    | Ok (c, first) =>
      let c := set_want_agent (bool_decide (is_Some agent_sock)) (set_want_shell want_shell c) in
      let '(out, r, c) := connect_loop dgrams c in
      (first :: out, match r with Ok _ => Ok c | Err e => Err e end)
    end.

(** @ src/client.rs:1023-1042 Client::wait_for_server_version *)
Fixpoint wait_for_server_version (dgrams : list (option (list Z))) c :
    list (list Z) * option (list Z) * ClientCore :=
  match server_version c, dgrams with
  | None, dgram :: dgrams =>
    match pump_once dgram c with
    | (out, Err _, c) => (out, server_version c, c)
    | (out1, Ok _, c) => let '(out2, v, c) := wait_for_server_version dgrams c in (out1 ++ out2, v, c)
    end
  | v, _ => ([], v, c)
  end.

(** ** Transfers *)

Definition is_reset (id : Z) (ev : StreamEvent) : bool := match ev with EvReset eid => eid =? id | _ => false end.

(** What the loop of a transfer keeps. *)
Record TransferRun := mkTransferRun {
  tr_id : Z;
  tr_source : option FileSource;
  tr_sink : option FileSink;
  tr_sent_fin : bool;
}.

(** What a turn finds: the datagrams, whether a keepalive is due, and the rounds of a
    farewell, should it come to that. *)
Record TurnIn := mkTurnIn {
  ti_dgrams : list (list Z);
  ti_keepalive : bool;
  ti_bye : nat → option (list Z);
}.

(** A turn goes on with a new state, or ends the loop. *)
Inductive Turn (S A : Type) := GoesOn (s : S) | Finished (r : result RuntimeError A).
Arguments GoesOn {S A} s.
Arguments Finished {S A} r.

Local Open Scope io_scope.

(** The stream is opened before the local file is.
    @ src/client.rs:702-711 Client::run_transfer *)
Definition transfer_begin (pid : Z) (req : XferRequest) (local : list Z) c :
    Io (result RuntimeError TransferRun * ClientCore) :=
  let '(id, c) := c_open_xfer req c in
  match req with
  | Put _ _ =>
    do src <- source_open (as_bytes local);
    io_ret (match src with Some src => Ok (mkTransferRun id (Some src) None false) | None => Err RtIo end, c)
  | Get _ =>
    do snk <- sink_create pid (as_bytes local);
    io_ret (match snk with Some snk => Ok (mkTransferRun id None (Some snk) false) | None => Err RtIo end, c)
  end.

Definition REJECTED : RuntimeError :=
  Transfer (str "remote rejected the transfer (no such file or permission denied)").

(** An error return drops the sink, and with it its temporary file. *)
Definition fail {A} (e : RuntimeError) (st : TransferRun) c : Io (list (list Z) * Turn TransferRun A * ClientCore) :=
  match tr_sink st with
  | Some snk => do _ <- sink_drop snk; io_ret ([], Finished (Err e), c)
  | None => io_ret ([], Finished (Err e), c)
  end.

(** What a turn does with the files, after the datagrams and events.
    @ src/client.rs:753-802 Client::run_transfer *)
Definition transfer_move (i : TurnIn) (st : TransferRun) c :
    Io (list (list Z) * Turn TransferRun unit * ClientCore) :=
  let id := tr_id st in
  match tr_source st, tr_sink st with
  | Some src, _ =>
    do r <- upload_send id src (tr_sent_fin st) c;
    match r with
    | None => fail RtIo st c
    | Some (src, sent_fin, c) =>
      if sent_fin && c_stream_recv_finished id c then
        let '(out1, c) := flush c in
        let '(out2, c) := say_bye (ti_bye i) c in
        io_ret (out1 ++ out2, Finished (Ok ()), c)
      else
        let '(out, c) := end_turn (ti_keepalive i) c in
        io_ret (out, GoesOn (mkTransferRun id (Some src) (tr_sink st) sent_fin), c)
    end
  | None, Some snk =>
    do (snk, bad, c) <- drain_upload DRAIN_ROUNDS id snk c;
    if (bad : bool) then fail RtIo (mkTransferRun id None (Some snk) false) c
    else if c_stream_recv_finished id c then
      let c := c_stream_close id c in
      let '(out1, c) := flush c in
      let '(out2, c) := say_bye (ti_bye i) c in
      do ok <- sink_finalize snk;
      io_ret (out1 ++ out2, Finished (if (ok : bool) then Ok () else Err RtIo), c)
    else
      let '(out, c) := end_turn (ti_keepalive i) c in
      io_ret (out, GoesOn (mkTransferRun id None (Some snk) (tr_sent_fin st)), c)
  | None, None =>
    let '(out, c) := end_turn (ti_keepalive i) c in io_ret (out, GoesOn st, c)
  end.

(** The turn of a download is the one of [Xfer.put_turn], with a farewell at its end. *)
Lemma transfer_move_get i id snk sent_fin c ans f :
  transfer_move i (mkTransferRun id None (Some snk) sent_fin) c ans f =
    (do (t, c) <- put_turn (λ c id, c_stream_recv_finished id c) id snk c;
     match t with
     | PutGoesOn snk =>
       let '(out, c) := end_turn (ti_keepalive i) c in
       io_ret (out, GoesOn (mkTransferRun id None (Some snk) sent_fin), c)
     | PutFailed => io_ret ([], Finished (Err RtIo), c)
     | PutEnded ok =>
       let '(out1, c) := flush c in
       let '(out2, c) := say_bye (ti_bye i) c in
       io_ret (out1 ++ out2, Finished (if (ok : bool) then Ok () else Err RtIo), c)
     end) ans f.
Proof.
  unfold transfer_move, put_turn, io_bind, fail. cbn [tr_source tr_sink tr_id tr_sent_fin].
  generalize end_turn flush say_bye. intros turn fl bye.
  destruct (drain_upload DRAIN_ROUNDS id snk c ans f) as [[[t1 [[s bad] c1]] f1] ans1].
  destruct bad; cbn.
  - unfold io_bind. destruct (sink_drop s ans1 f1) as [[[t2 []] f2] ans2]. cbn. by rewrite ?app_nil_r.
  - change (port_close c1 id) with (c_stream_close id c1). destruct (c_stream_recv_finished id c1); cbn.
    + destruct (fl (c_stream_close id c1)) as [out1 c2] eqn:E1.
      destruct (bye (ti_bye i) c2) as [out2 c3] eqn:E2.
      unfold io_bind. destruct (sink_finalize s ans1 f1) as [[[t2 ok] f2] ans2]. cbn.
      rewrite E1, E2. cbn.
      by rewrite ?app_nil_r.
    + destruct (turn (ti_keepalive i) c1) as [o c2]. cbn. rewrite ?app_nil_r. reflexivity.
Qed.

(** One round of the loop. @ src/client.rs:739-803 Client::run_transfer *)
Definition transfer_turn (i : TurnIn) (st : TransferRun) c :
    Io (list (list Z) * Turn TransferRun unit * ClientCore) :=
  match recv_all (ti_dgrams i) c with
  | (out, Err e, c) => do (o, t, c) <- fail e st c; io_ret (out ++ o, t, c)
  | (out, Ok _, c) =>
    let '(evs, c) := c_take_stream_events c in
    if existsb (is_reset (tr_id st)) evs then
      do (o, t, c) <- fail REJECTED st c; io_ret (out ++ o, t, c)
    else
      do (o, t, c) <- transfer_move i st c; io_ret (out ++ o, t, c)
  end.

(** The loop, as long as there are turns; [None] while it has not ended. *)
Fixpoint transfer_loop (turns : list TurnIn) (st : TransferRun) c :
    Io (list (list Z) * option (result RuntimeError unit) * ClientCore) :=
  match turns with
  | [] => io_ret ([], None, c)
  | i :: turns =>
    do (out1, t, c) <- transfer_turn i st c;
    match t with
    | Finished r => io_ret (out1, Some r, c)
    | GoesOn st => do (out2, r, c) <- transfer_loop turns st c; io_ret (out1 ++ out2, r, c)
    end
  end.

(** @ src/client.rs:687-804 Client::run_transfer *)
Definition run_transfer (pid : Z) (req : XferRequest) (local : list Z) (turns : list TurnIn) c :
    Io (list (list Z) * option (result RuntimeError unit) * ClientCore) :=
  do (r, c) <- transfer_begin pid req local c;
  match r with
  | Err e => io_ret ([], Some (Err e), c)
  | Ok st => transfer_loop turns st c
  end.

(** ** Forwarding and remote commands *)

(** What a turn of the forwarder finds: connections, dialled targets, sockets, and the
    order in which its table is visited. *)
Record ForwardIn := mkForwardIn {
  fi_accepted : list (list bool);
  fi_socks : list (list bool);
  fi_negotiate : nat → SocksAns;
  fi_dial : list Z → bool;
  fi_sock : Z → SocketAns;
  fi_order : list Z;
}.

(** @ src/client.rs:667-669 Client::run_forwards *)
Definition forward_event (i : ForwardIn) (st : Forwarder * ClientCore) (ev : StreamEvent) : Forwarder * ClientCore :=
  let '(_, f, c) := f_handle_event (fi_dial i) ev st.1 st.2 in (f, c).

(** One round of the loop of a session that only forwards.
    @ src/client.rs:661-677 Client::run_forwards *)
Definition forwards_turn (i : ForwardIn) (dgrams : list (list Z)) (keepalive_due : bool) (f : Forwarder) c :
    list (list Z) * result RuntimeError Forwarder * ClientCore :=
  let '(f, c) := accept (fi_accepted i) (fi_socks i) (fi_negotiate i) f c in
  match recv_all dgrams c with
  | (out, Err e, c) => (out, Err e, c)
  | (out1, Ok _, c) =>
    let '(evs, c) := c_take_stream_events c in
    let '(f, c) := foldl (forward_event i) (f, c) evs in
    let '(_, f, c) := f_pump (fi_sock i) (fi_order i) f c in
    let '(out2, c) := end_turn keepalive_due c in
    (out1 ++ out2, Ok f, c)
  end.

(** @ src/client.rs:1056-1066 ExecOptions *)
Record ExecOptions := mkExecOptions {
  o_local : list (Z * list Z);
  o_remote : list (Z * list Z);
  o_dynamic : list (list Z * Z);
  o_null_stdin : bool;
}.

(** What the loop of a command keeps. *)
Record ExecRun := mkExecRun {
  er_id : Z;
  er_err : option Z;
  er_code : option Z;
  er_eof : bool;
  er_fwd : Forwarder;
}.
Definition set_er_fwd v (r : ExecRun) := mkExecRun (er_id r) (er_err r) (er_code r) (er_eof r) v.
Definition set_er_err v (r : ExecRun) := mkExecRun (er_id r) v (er_code r) (er_eof r) (er_fwd r).
Definition set_er_code v (r : ExecRun) := mkExecRun (er_id r) (er_err r) v (er_eof r) (er_fwd r).
Definition set_er_eof v (r : ExecRun) := mkExecRun (er_id r) (er_err r) (er_code r) v (er_fwd r).

(** [local_ok] and [dynamic_ok] are the answers of the listeners.
    @ src/client.rs:825-844 Client::run_exec_with *)
Definition exec_begin (cmd : list Z) (opts : ExecOptions) (local_ok dynamic_ok : list bool) c :
    result RuntimeError ExecRun * ClientCore :=
  match forwarder_bind (o_local opts) (o_remote opts) (o_dynamic opts) local_ok dynamic_ok c with
  | (Err e, c) => (Err e, c)
  | (Ok f, c) =>
    let '(e, c) := c_open_exec cmd c in
    let c := if o_null_stdin opts then c_stream_close e c else c in
    (Ok (mkExecRun e None None (o_null_stdin opts) f), c)
  end.

Definition NOT_STARTED : RuntimeError := Runtime.Exec (str "remote refused or could not start the command").

(** The events of a turn: those of forwards go to the forwarder, and a reset of the
    command's stream ends it. @ src/client.rs:876-899 Client::run_exec_with *)
Fixpoint exec_events (i : ForwardIn) (evs : list StreamEvent) (r : ExecRun) c :
    result RuntimeError ExecRun * ClientCore :=
  match evs with
  | [] => (Ok r, c)
  | ev :: evs =>
    let '(left_, f, c) := f_handle_event (fi_dial i) ev (er_fwd r) c in
    let r := set_er_fwd f r in
    match left_ with
    | Some (EvOpened id Wire.Exec _) => exec_events i evs (set_er_err (Some id) r) c
    | Some (EvReset id) => if id =? er_id r then (Err NOT_STARTED, c) else exec_events i evs r c
    | Some (EvClosed id status) =>
      exec_events i evs (if id =? er_id r then set_er_code (Some status) r else r) c
    | _ => exec_events i evs r c
    end
  end.

(** What was read from our input goes to the command, until it ends.
    @ src/client.rs:915-928 Client::run_exec_with *)
Definition forward_stdin (a : ReadAns) (r : ExecRun) c : ExecRun * ClientCore :=
  if er_eof r then (r, c)
  else
    match a with
    | RBytes [] | RInterrupted | RError => (set_er_eof true r, c_stream_close (er_id r) c)
    | RBytes bs => (r, c_stream_write (er_id r) bs c)
    | RWouldBlock => (r, c)
    end.

(** What a turn of a command finds. *)
Record ExecIn := mkExecIn {
  xi_forward : ForwardIn;
  xi_turn : TurnIn;
  xi_stdout_ok : bool;
  xi_stderr_ok : bool;
  xi_stdin : ReadAns;
}.

(** Whether the command is over: its status is there and its outputs are read.
    @ src/client.rs:939-946 Client::run_exec_with *)
Definition exec_done (r : ExecRun) c : option Z :=
  match er_code r with
  | Some code =>
    if c_stream_recv_finished (er_id r) c &&
       match er_err r with Some s => c_stream_recv_finished s c | None => true end
    then Some code else None
  | None => None
  end.

(** The outputs of the command that are there, and whether they could be written.
    @ src/client.rs:903-912 Client::run_exec_with *)
Definition exec_output (i : ExecIn) (r : ExecRun) c : list Z * list Z * bool * ClientCore :=
  let '(out, c) := c_stream_read (er_id r) c in
  if negb (bool_decide (out = [])) && negb (xi_stdout_ok i) then (out, [], false, c)
  else
    match er_err r with
    | None => (out, [], true, c)
    | Some s =>
      let '(er, c) := c_stream_read s c in
      (out, er, bool_decide (er = []) || xi_stderr_ok i, c)
    end.

(** One round of the loop: the datagrams sent, the bytes for our two outputs, the
    state or the exit code. @ src/client.rs:872-949 Client::run_exec_with *)
Definition exec_round (i : ExecIn) (r : ExecRun) c :
    list (list Z) * (list Z * list Z) * Turn ExecRun Z * ClientCore :=
  let fi := xi_forward i in
  let '(f, c) := accept (fi_accepted fi) (fi_socks fi) (fi_negotiate fi) (er_fwd r) c in
  match recv_all (ti_dgrams (xi_turn i)) c with
  | (out, Err e, c) => (out, ([], []), Finished (Err e), c)
  | (out1, Ok _, c) =>
    let '(evs, c) := c_take_stream_events c in
    match exec_events fi evs (set_er_fwd f r) c with
    | (Err e, c) => (out1, ([], []), Finished (Err e), c)
    | (Ok r, c) =>
      let '(so, se, ok, c) := exec_output i r c in
      if negb ok then (out1, (so, se), Finished (Err RtIo), c)
      else
        let '(r, c) := forward_stdin (xi_stdin i) r c in
        let '(_, f, c) := f_pump (fi_sock fi) (fi_order fi) (er_fwd r) c in
        let r := set_er_fwd f r in
        let '(out2, c) := end_turn (ti_keepalive (xi_turn i)) c in
        match exec_done r c with
        | Some code =>
          let '(out3, c) := say_bye (ti_bye (xi_turn i)) c in
          (out1 ++ out2 ++ out3, (so, se), Finished (Ok code), c)
        | None => (out1 ++ out2, (so, se), GoesOn r, c)
        end
    end
  end.

(** The loop, as long as there are rounds; [None] while it has not ended. *)
Fixpoint exec_loop (rounds : list ExecIn) (r : ExecRun) c :
    (list Z * list Z) * option (result RuntimeError Z) * ClientCore :=
  match rounds with
  | [] => (([], []), None, c)
  | i :: rounds =>
    match exec_round i r c with
    | (_, io, Finished res, c) => (io, Some res, c)
    | (_, io, GoesOn r, c) =>
      let '(io2, res, c) := exec_loop rounds r c in ((io.1 ++ io2.1, io.2 ++ io2.2), res, c)
    end
  end.

(** @ src/client.rs:818-951 Client::run_exec_with *)
Definition run_exec_with (cmd : list Z) (opts : ExecOptions) (local_ok dynamic_ok : list bool)
    (rounds : list ExecIn) c : (list Z * list Z) * option (result RuntimeError Z) * ClientCore :=
  match exec_begin cmd opts local_ok dynamic_ok c with
  | (Err e, c) => (([], []), Some (Err e), c)
  | (Ok r, c) => exec_loop rounds r c
  end.
End driver.
