(* ===== verification/Script.v ===== *)
(** * Programs that ask the outside

    A program as a tree of calls whose answers choose its branch.  [wp] quantifies
    over all answers and records the calls that were made, so that a theorem can
    say in which order, and after which answers, a program does something. *)

From stdpp Require Import list.
From S2P Require Import Prelude.

Section script.
Context {Call : Type} {answer : Call → Type}.

Inductive Script (A : Type) : Type :=
| Done (a : A)
| Do (c : Call) (k : answer c → Script A).
Arguments Done {A} a.
Arguments Do {A} c k.

Fixpoint bind {A B} (m : Script A) (f : A → Script B) : Script B :=
  match m with
  | Done a => f a
  | Do c k => Do c (λ r, bind (k r) f)
  end.

Definition call (c : Call) : Script (answer c) := Do c Done.

(** A call and its answer. *)
Definition Step : Type := sigT answer.

(** [Q] holds of the result and of the calls that were made, whatever the answers. *)
Fixpoint wp {A} (m : Script A) (tr : list Step) (Q : A → list Step → Prop) : Prop :=
  match m with
  | Done a => Q a tr
  | Do c k => ∀ r, wp (k r) (tr ++ [existT c r]) Q
  end.

(** A run, where [h] answers. *)
Fixpoint run {A} (h : ∀ c, answer c) (m : Script A) : list Step * A :=
  match m with
  | Done a => ([], a)
  | Do c k => let '(tr, a) := run h (k (h c)) in (existT c (h c) :: tr, a)
  end.

Lemma wp_mono {A} (m : Script A) : ∀ tr (Q1 Q2 : A → list Step → Prop),
  (∀ a tr, Q1 a tr → Q2 a tr) → wp m tr Q1 → wp m tr Q2.
Proof. induction m as [a|c k IH]; intros tr Q1 Q2 HQ; cbn; [apply HQ|]. intros H r. by eapply IH. Qed.

Lemma wp_bind {A B} (m : Script A) (f : A → Script B) : ∀ tr Q,
  wp m tr (λ a tr, wp (f a) tr Q) → wp (bind m f) tr Q.
Proof. induction m as [a|c k IH]; intros tr Q; cbn; [done|]. intros H r. by apply IH. Qed.

Lemma wp_call c tr (Q : answer c → list Step → Prop) : (∀ r, Q r (tr ++ [existT c r])) → wp (call c) tr Q.
Proof. exact id. Qed.

Lemma wp_run {A} h (m : Script A) : ∀ tr Q, wp m tr Q → Q (run h m).2 (tr ++ (run h m).1).
Proof.
  induction m as [a|c k IH]; intros tr Q; cbn; [by rewrite app_nil_r|].
  intros H. specialize (IH (h c) _ _ (H (h c))). destruct (run h (k (h c))) as [tr' a]. cbn in *.
  by rewrite <- (assoc_L (++)) in IH.
Qed.
End script.
Arguments Script {Call} answer A.
Arguments Step {Call} answer.
Arguments Done {Call answer A} a.
Arguments Do {Call answer A} c k.

(** A program whose calls are some of a larger set. *)
Fixpoint lift {C1 C2} {a1 : C1 → Type} {a2 : C2 → Type} {A} (f : C1 → C2) (g : ∀ c, a2 (f c) → a1 c)
    (m : Script a1 A) : Script a2 A :=
  match m with
  | Done a => Done a
  | Do c k => Do (f c) (λ r, lift f g (k (g c r)))
  end.

Lemma wp_lift {C1 C2} {a1 : C1 → Type} {a2 : C2 → Type} {A} (f : C1 → C2) (g : ∀ c, a2 (f c) → a1 c)
    (m : Script a1 A) : ∀ tr (Q : A → list (Step a2) → Prop),
  (∀ a tr', Forall (λ s, ∃ c, projT1 s = f c) tr' → Q a (tr ++ tr')) → wp (lift f g m) tr Q.
Proof.
  induction m as [a|c k IH]; intros tr Q HQ; cbn.
  - rewrite <- (app_nil_r tr). apply HQ. constructor.
  - intros r. apply IH. intros a tr' Ht. rewrite <- (assoc_L (++)). apply HQ. constructor; [by exists c|done].
Qed.

Declare Scope script_scope.
Delimit Scope script_scope with script.
Notation "'ask' x <- m ; k" := (bind m (λ x, k))
  (at level 20, x pattern, m at level 100, k at level 200, right associativity) : script_scope.
Notation "'need' x <- m ; k" := (bind m (λ r, match r with Ok x => k | Err e => Done (Err e) end))
  (at level 20, x name, m at level 100, k at level 200, right associativity) : script_scope.
