(* ===== verification/Ssh.v ===== *)
(** * The ssh bootstrap ([src/ssh.rs])

    The lines the one-shot server prints, versions, and the programs that run ssh
    to start, install or upgrade the server and to copy a key.  A program is a tree
    of calls on the outside (commands, the terminal, name resolution) whose answers
    choose its branch; [wp] quantifies over all of them. Progress messages on the
    standard error and [daemonize] are left out. *)

From Stdlib Require Import Ascii String.
From stdpp Require Import list.
From S2P Require Import Prelude Script Literal NoiseCore Cell Text Auth Session Handshake Runtime.

(** ** Programs *)

Record SshCommand := mkSshCommand { prog : list Z; args : list (list Z) }.

(** What a finished command leaves: its exit code unless a signal killed it, and its
    two outputs. *)
Record ProcOutput := mkProcOutput { code : option Z; out : list Z; err : list Z }.

Section script.
Context {SocketAddr : Type}.

(** The calls: run a command and collect its output, or let it have the terminal; is
    the input a terminal; ask, and read a line; resolve a name. *)
Inductive Call :=
| CallOutput (cmd : SshCommand)
| CallStatus (cmd : SshCommand)
| CallIsTerminal
| CallAsk (question : list Z)
| CallResolve (host : list Z) (port : Z).

(** Their answers; [None] is an error of the system. *)
Definition answer (c : Call) : Type :=
  match c with
  | CallOutput _ => option ProcOutput
  | CallStatus _ => option (option Z)
  | CallIsTerminal => bool
  | CallAsk _ => option (list Z)
  | CallResolve _ _ => option (option SocketAddr)
  end.

End script.
Abbreviation SshScript S := (Script (@answer S)).
Abbreviation SshStep S := (Step (@answer S)).

(** ** Lines the server prints *)

(** ["NOISSH"], ["CONNECT"], ["VERSION"] *)
Definition S_NOISSH : list Z := str "NOISSH".
Definition S_CONNECT : list Z := str "CONNECT".
Definition S_VERSION : list Z := str "VERSION".

(** @ src/ssh.rs:18-18 CONNECT_PREFIX *)
Definition CONNECT_PREFIX : list Z := str "NOISSH CONNECT".
(** @ src/ssh.rs:41-41 VERSION_PREFIX *)
Definition VERSION_PREFIX : list Z := str "NOISSH VERSION".

(** The first element, from the end of the list, that gives something. *)
Fixpoint find_last {A B} (f : A → option B) (l : list A) : option B :=
  match l with
  | [] => None
  | a :: l => match find_last f l with Some b => Some b | None => f a end
  end.

Definition is_ascii_alphanumeric (c : Z) : bool :=
  is_digit c || ((65 <=? c) && (c <=? 90)) || ((97 <=? c) && (c <=? 122)).

(** A character of a version: also dot, minus and plus. *)
Definition version_char (c : Z) : bool := is_ascii_alphanumeric c || existsb (Z.eqb c) [46; 45; 43].

Section lines.
Context `{B64 : Base64}.

(** @ src/ssh.rs:21-23 connect_line *)
Definition connect_line (port : Z) (server_pubkey : list Z) : list Z :=
  CONNECT_PREFIX ++ 32 :: digits port ++ 32 :: b64_encode server_pubkey.

(** @ src/ssh.rs:26-37 parse_connect_line *)
Definition parse_connect_line (line : list Z) : option (Z * list Z) :=
  match split_whitespace line with
  | w1 :: w2 :: rest =>
    if bool_decide (w1 ≠ S_NOISSH) || bool_decide (w2 ≠ S_CONNECT) then None
    else
      match rest with
      | w3 :: rest =>
        port ← parse_uint 65535 w3;
        match rest with
        | w4 :: _ =>
          pubkey ← b64_decode w4;
          if bool_decide (length pubkey ≠ 32%nat) then None else Some (port, pubkey)
        | [] => None
        end
      | [] => None
      end
  | _ => None
  end.
End lines.

(** @ src/ssh.rs:44-46 version_line *)
Definition version_line (version : list Z) : list Z := VERSION_PREFIX ++ 32 :: version.

(** @ src/ssh.rs:49-70 parse_version_line *)
Definition parse_version_line (line : list Z) : option (list Z) :=
  match split_whitespace line with
  | w1 :: w2 :: rest =>
    if bool_decide (w1 ≠ S_NOISSH) || bool_decide (w2 ≠ S_VERSION) then None
    else
      match rest with
      | v :: _ =>
        match v with
        | c :: _ =>
          if negb (is_digit c) then None
          else if (32 <? length (as_bytes v))%nat || negb (forallb version_char v) then None
          else Some v
        | [] => None
        end
      | [] => None
      end
  | _ => None
  end.

(** ** Versions *)

Fixpoint take_while (f : Z → bool) (s : list Z) : list Z :=
  match s with
  | c :: s => if f c then c :: take_while f s else []
  | [] => []
  end.

(** @ src/ssh.rs:73-76 version_component *)
Definition version_component (part : list Z) : Z := default 0 (parse_uint u32_max (take_while is_digit part)).

(** [v.split('.')]; there is always a first part. *)
Fixpoint split_dots (part v : list Z) : list (list Z) :=
  match v with
  | [] => [part]
  | c :: v => if c =? 46 then part :: split_dots [] v else split_dots (part ++ [c]) v
  end.

(** @ src/ssh.rs:79-86 version_triple *)
Definition version_triple (v : list Z) : Z * Z * Z :=
  let parts := split_dots [] v in
  let part i := version_component (default [48] (parts !! i)) in
  (part 0%nat, part 1%nat, part 2%nat).

(** Tuples compare lexicographically. @ src/ssh.rs:89-91 version_is_older *)
Definition version_is_older (remote ours : list Z) : bool :=
  let '(a1, b1, c1) := version_triple remote in
  let '(a2, b2, c2) := version_triple ours in
  (a1 <? a2) || ((a1 =? a2) && ((b1 <? b2) || ((b1 =? b2) && (c1 <? c2)))).

(** The part after the last at sign. @ src/ssh.rs:94-99 host_of *)
Fixpoint host_of (target : list Z) : list Z :=
  match target with
  | [] => []
  | c :: rest => if existsb (Z.eqb 64) rest then host_of rest else if c =? 64 then rest else target
  end.

(** ** Running ssh *)

(** What the environment gives: the variables [NOISSH_SSH] and
    [NOISSH_REMOTE_NOISSHD], and the version of this build. *)
Record SshEnv := mkSshEnv {
  noissh_ssh : option (list Z);
  noissh_remote_noisshd : option (list Z);
  pkg_version : list Z;
}.

(** [s.contains(p)] *)
Fixpoint contains (p s : list Z) : bool :=
  match strip_prefix p s with
  | Some _ => true
  | None => match s with [] => false | _ :: s => contains p s end
  end.

(** [char::is_control] *)
Definition is_control (c : Z) : bool := ((0 <=? c) && (c <=? 31)) || ((127 <=? c) && (c <=? 159)).

Definition success (st : option Z) : bool := bool_decide (st = Some 0).

(** The last line that is not blank, trimmed. *)
Definition last_line (ls : list (list Z)) : option (list Z) :=
  find_last (λ l, match trim l with [] => None | l => Some l end) ls.

(** @ src/ssh.rs:126-137 failure_reason *)
Definition failure_reason (output : ProcOutput) : list Z :=
  match last_line (lines (from_utf8_lossy (err output))) with
  | Some l => str "the SSH bootstrap failed: " ++ l
  | None => str "the SSH bootstrap failed (ssh produced no output — check your SSH access to the host)"
  end.

(** @ src/ssh.rs:163-165 is_default_server_cmd *)
Definition is_default_server_cmd (remote_server_cmd : list (list Z)) : bool :=
  bool_decide (remote_server_cmd = [str "noisshd"]).

(** @ src/ssh.rs:102-108 Bootstrap *)
Record Bootstrap {SocketAddr : Type} := mkBootstrap {
  b_server_addr : SocketAddr;
  b_server_pubkey : list Z;
  b_server_version : option (list Z);
}.
Arguments Bootstrap SocketAddr : clear implicits.
Arguments mkBootstrap {SocketAddr} _ _ _.

(** @ src/ssh.rs:111-121 Attempt *)
Inductive Attempt {SocketAddr : Type} :=
| Connected (b : Bootstrap SocketAddr)
| NotFound
| Failed (why : list Z).
Arguments Attempt SocketAddr : clear implicits.

(** The shell scripts that run at the other end.
    @ src/ssh.rs:240-243 install_remote *)
Definition installer_url (env : SshEnv) : list Z :=
  str "https://raw.githubusercontent.com/gedigi/noissh/v" ++ pkg_version env ++ str "/install.sh".
(** @ src/ssh.rs:253-260 install_remote *)
Definition install_script (env : SshEnv) : list Z :=
  shell_text "set -e; tmp=$(mktemp); trap 'rm -f `$tmp`' EXIT; if command -v curl >/dev/null 2>&1; then curl -fsSL '" ++
  installer_url env ++ shell_text "' -o `$tmp`; elif command -v wget >/dev/null 2>&1; then wget -qO `$tmp` '" ++
  installer_url env ++
  shell_text "'; else echo 'noissh: remote has neither curl nor wget to install noisshd' >&2; exit 3; fi; NOISSH_VERSION='v" ++
  pkg_version env ++ shell_text "' NOISSH_BIN_DIR=`$HOME/.local/bin` sh `$tmp` --yes".
(** @ src/ssh.rs:473-479 copy_id *)
Definition copy_script (pubkey_line : list Z) : list Z :=
  shell_text "set -e; dir=`${XDG_CONFIG_HOME:-$HOME/.config}/noissh`; mkdir -p `$dir`; chmod 700 `$dir` 2>/dev/null || true; ak=`$dir/authorized_keys`; touch `$ak`; chmod 600 `$ak` 2>/dev/null || true; if grep -qxF '" ++
  pubkey_line ++ shell_text "' `$ak`; then echo 'noissh: key already authorized'; else echo '" ++
  pubkey_line ++ shell_text "' >> `$ak`; echo 'noissh: key added'; fi".

Section bootstrap.
Context {SocketAddr : Type} {N : Snow} `{B64 : Base64} (to_lowercase : list Z → list Z) (env : SshEnv).
Local Abbreviation Script := (SshScript SocketAddr).
Local Open Scope script_scope.

(** @ src/ssh.rs:140-142 ssh_prog *)
Definition ssh_prog : list Z := default (str "ssh") (noissh_ssh env).

(** @ src/ssh.rs:147-159 looks_like_missing_command *)
Definition looks_like_missing_command (output : ProcOutput) : bool :=
  if bool_decide (code output = Some 127) then true
  else
    let s := to_lowercase (from_utf8_lossy (err output)) ++ to_lowercase (from_utf8_lossy (out output)) in
    contains (str "command not found") s || contains (str ": not found") s
    || contains (str "no such file or directory") s.

(** The command of one attempt. @ src/ssh.rs:181-198 attempt *)
Definition attempt_command (target : list Z) (remote_server_cmd : list (list Z)) (client_pubkey : list Z)
    (extra_ssh_args : list (list Z)) (bind_port : option Z) : SshCommand :=
  mkSshCommand ssh_prog
    (extra_ssh_args ++ [str "--"; target] ++ remote_server_cmd
     ++ [str "--one-shot"; str "--authorize"; b64_encode client_pubkey]
     ++ match bind_port with Some p => [str "--bind"; str "0.0.0.0:" ++ digits p] | None => [] end).

(** @ src/ssh.rs:173-227 attempt *)
Definition attempt (target udp_host : list Z) (remote_server_cmd : list (list Z)) (client_pubkey : list Z)
    (extra_ssh_args : list (list Z)) (bind_port : option Z) :
    Script (result RuntimeError (Attempt SocketAddr)) :=
  ask r <- call (CallOutput (attempt_command target remote_server_cmd client_pubkey extra_ssh_args bind_port));
  match r with
  | None => Done (Err RtIo)
  | Some output =>
    let stdout := lines (from_utf8_lossy (out output)) in
    match find_last parse_connect_line stdout with
    | Some (port, server_pubkey) =>
      ask a <- call (CallResolve udp_host port);
      match a with
      | None => Done (Err RtIo)
      | Some None =>
        Done (Err (BadAddress (str "connected over SSH but could not resolve " ++ udp_host ++ 58 :: digits port
          ++ str " for the UDP session")))
      | Some (Some server_addr) =>
        Done (Ok (Connected (mkBootstrap server_addr server_pubkey (find_last parse_version_line stdout))))
      end
    | None =>
      if looks_like_missing_command output then Done (Ok NotFound)
      else Done (Ok (Failed (failure_reason output)))
    end
  end.

Definition install_command (target : list Z) (extra_ssh_args : list (list Z)) : SshCommand :=
  mkSshCommand ssh_prog (extra_ssh_args ++ [str "--"; target; install_script env]).

(** @ src/ssh.rs:234-275 install_remote *)
Definition install_remote (target : list Z) (extra_ssh_args : list (list Z)) : Script (result RuntimeError unit) :=
  ask r <- call (CallStatus (install_command target extra_ssh_args));
  match r with
  | None => Done (Err RtIo)
  | Some st =>
    if success st then Done (Ok ())
    else Done (Err (SshFailed (str "failed to install noisshd on the remote (see the installer output above)")))
  end.

(** @ src/ssh.rs:279-284 installed_noisshd_cmd *)
Definition installed_noisshd_cmd : list (list Z) :=
  [default (str "$HOME/.local/bin/noisshd") (noissh_remote_noisshd env)].

(** @ src/ssh.rs:434-446 prompt_yes_no *)
Definition prompt_yes_no (question : list Z) : Script bool :=
  ask t <- call CallIsTerminal;
  if negb t then Done false
  else
    ask r <- call (CallAsk question);
    Done match r with
         | None => false
         | Some line => bool_decide (trim line ∈ [str "y"; str "Y"; str "yes"; str "Yes"; str "YES"])
         end.

Definition upgrade_question (target server_version : list Z) : list Z :=
  str "noissh: noisshd on " ++ host_of target ++ str " is v" ++ server_version ++ str ", but this client is v"
  ++ pkg_version env ++ str ". Upgrade it now?".

(** @ src/ssh.rs:366-398 maybe_offer_upgrade *)
Definition maybe_offer_upgrade (target : list Z) (extra_ssh_args : list (list Z)) (offer : bool)
    (b : Bootstrap SocketAddr) : Script (result RuntimeError (Bootstrap SocketAddr)) :=
  let older := match b_server_version b with Some v => version_is_older v (pkg_version env) | None => false end in
  if negb (offer && older) then Done (Ok b)
  else
    ask yes <- prompt_yes_no (upgrade_question target (default (str "?") (b_server_version b)));
    if negb yes then Done (Ok b)
    else ask _ <- install_remote target extra_ssh_args; Done (Ok b).

(** @ src/ssh.rs:291-357 bootstrap *)
Definition bootstrap (target udp_host : list Z) (remote_server_cmd : list (list Z)) (client_pubkey : list Z)
    (extra_ssh_args : list (list Z)) (auto_install : bool) (bind_port : option Z) :
    Script (result RuntimeError (Bootstrap SocketAddr)) :=
  let offer := auto_install && is_default_server_cmd remote_server_cmd in
  need a <- attempt target udp_host remote_server_cmd client_pubkey extra_ssh_args bind_port;
  match a with
  | Connected b => maybe_offer_upgrade target extra_ssh_args offer b
  | NotFound =>
    if auto_install && is_default_server_cmd remote_server_cmd then
      need a2 <- attempt target udp_host installed_noisshd_cmd client_pubkey extra_ssh_args bind_port;
      match a2 with
      | Connected b => maybe_offer_upgrade target extra_ssh_args offer b
      | _ =>
        need _ <- install_remote target extra_ssh_args;
        need a3 <- attempt target udp_host installed_noisshd_cmd client_pubkey extra_ssh_args bind_port;
        match a3 with
        | Connected b => Done (Ok b)
        | Failed reason => Done (Err (SshFailed reason))
        | NotFound =>
          Done (Err (SshFailed (str "installed noisshd but it still could not be launched on the remote")))
        end
      end
    else
      Done (Err (SshFailed (str "noisshd was not found on " ++ host_of target ++
        str ". Install it there, or omit --no-install / --server-cmd to let noissh install it over SSH.")))
  | Failed reason => Done (Err (SshFailed reason))
  end.

(** @ src/ssh.rs:406-430 maybe_offer_direct_upgrade *)
Definition maybe_offer_direct_upgrade (target : list Z) (extra_ssh_args : list (list Z)) (server_version : list Z) :
    Script unit :=
  if negb (version_is_older server_version (pkg_version env)) then Done ()
  else
    ask yes <- prompt_yes_no (upgrade_question target server_version);
    if negb yes then Done ()
    else ask _ <- install_remote target extra_ssh_args; Done ().

(** @ src/ssh.rs:457-496 copy_id *)
Definition copy_id (target pubkey_line : list Z) (extra_ssh_args : list (list Z)) :
    Script (result RuntimeError unit) :=
  if existsb (Z.eqb 39) pubkey_line || existsb is_control pubkey_line then
    Done (Err (SshFailed (str "refusing to copy a key line containing quotes or control characters")))
  else
    ask r <- call (CallOutput (mkSshCommand ssh_prog
      (extra_ssh_args ++ [str "--"; target; copy_script pubkey_line])));
    match r with
    | None => Done (Err RtIo)
    | Some output =>
      if success (code output) then Done (Ok ()) else Done (Err (SshFailed (failure_reason output)))
    end.
End bootstrap.

(** ** Lines *)

Lemma find_last_app {A B} (f : A → option B) l1 l2 :
  find_last f (l1 ++ l2) = match find_last f l2 with Some b => Some b | None => find_last f l1 end.
Proof. induction l1 as [|a l1 IH]; cbn; [by destruct (find_last f l2)|]. rewrite IH. by destruct (find_last f l2). Qed.

Lemma find_last_none {A B} (f : A → option B) l : Forall (λ a, f a = None) l → find_last f l = None.
Proof. induction 1 as [|a l Ha _ IH]; cbn; [done|]. by rewrite IH. Qed.

Lemma lines_from_newline x y : ∀ w, lines_from w (x ++ 10 :: y) = lines_from w (x ++ [10]) ++ lines y.
Proof.
  induction x as [|c x IH]; intros w; cbn; [done|]. destruct (c =? 10); [|apply IH].
  cbn. f_equal. apply IH.
Qed.

(** A line feed is never part of another character, valid or not. *)
Lemma lossy_newline n : ∀ a b, (length a < n)%nat →
  from_utf8_lossy (a ++ 10 :: b) = from_utf8_lossy a ++ 10 :: from_utf8_lossy b.
Proof.
  induction n as [|n IH]; intros a b Hn; [lia|].
  destruct a as [|b0 a]; [done|]. cbn [length] in Hn. cbn [app from_utf8_lossy].
  destruct (b0 <? 0x80); [cbn; f_equal; apply IH; lia|].
  assert (∀ lo hi, utf8_lead b0 = Some (2%nat, lo, hi) ∨ utf8_lead b0 = Some (3%nat, lo, hi) ∨
    utf8_lead b0 = Some (4%nat, lo, hi) → (lo <=? 10) && (10 <=? hi) = false) as Hlo.
  { intros lo hi. unfold utf8_lead. repeat case_match; naive_solver. }
  destruct (utf8_lead b0) as [[[k lo] hi]|] eqn:Hl; [|cbn; f_equal; apply IH; lia].
  assert ((lo <=? 10) && (10 <=? hi) = false) as Hlh.
  { apply Hlo. revert Hl. unfold utf8_lead. repeat case_match; intros; simplify_eq; auto. }
  destruct a as [|b1 a]; [cbn [app]; rewrite Hlh; done|]. cbn [app length] in *.
  destruct ((lo <=? b1) && (b1 <=? hi)); cbn [negb];
    [|cbn; f_equal; apply (IH (b1 :: a)); cbn; lia].
  destruct (k =? 2)%nat; [cbn; f_equal; apply IH; lia|].
  destruct a as [|b2 a]; [done|]. cbn [app length] in *.
  destruct (continuation b2); cbn [negb]; [|cbn; f_equal; apply (IH (b2 :: a)); cbn; lia].
  destruct (k =? 3)%nat; [cbn; f_equal; apply IH; lia|].
  destruct a as [|b3 a]; [done|]. cbn [app length] in *.
  destruct (continuation b3); cbn [negb]; [|cbn; f_equal; apply (IH (b3 :: a)); cbn; lia].
  cbn. f_equal. apply IH. lia.
Qed.

(** Words that single spaces separate. *)
Lemma words_cons w s : solid w → w ≠ [] → split_whitespace (w ++ 32 :: s) = w :: split_whitespace s.
Proof.
  intros Hw Hne. unfold split_whitespace. rewrite words_solid_app by done. cbn [app words].
  change (is_whitespace 32) with true. cbn match. by destruct w.
Qed.
Lemma words_one w : solid w → w ≠ [] → split_whitespace w = [w].
Proof.
  intros Hw Hne. unfold split_whitespace. rewrite <- (app_nil_r w) at 1.
  rewrite words_solid_app by done. by destruct w.
Qed.

Lemma solid_by_test s : forallb (λ c, negb (is_whitespace c)) s = true → solid s.
Proof.
  intros H. apply Forall_forall. intros c Hc%list_elem_of_In.
  by apply (proj1 (forallb_forall _ _) H), negb_true_iff in Hc.
Qed.

Lemma digits_solid n : is_u64 n → solid (digits n).
Proof.
  intros (_ & Hd & _)%digits_spec. eapply Forall_impl; [exact Hd|]. intros c. unfold is_digit, is_whitespace. lia.
Qed.

Lemma prefix_words : (solid S_NOISSH ∧ S_NOISSH ≠ []) ∧ solid S_CONNECT ∧ S_CONNECT ≠ [].
Proof. split_and!; [apply solid_by_test|intros Hn|apply solid_by_test|intros Hn]; vm_compute in *; done. Qed.

Section connect_line.
Context `{B64 : Base64, !Base64Laws}.

(** The line reads back. *)
Lemma connect_line_roundtrip port key :
  0 ≤ port < 2 ^ 16 → Forall is_u8 key → length key = 32%nat →
  parse_connect_line (connect_line port key) = Some (port, key).
Proof.
  intros Hp Hk Hl. assert (is_u64 port) as Hu by lia_ints.
  destruct (digits_spec port Hu) as (Hne & _ & Hparse).
  unfold connect_line, parse_connect_line.
  change CONNECT_PREFIX with (S_NOISSH ++ 32 :: S_CONNECT). rewrite <- (assoc_L (++)). cbn [app].
  rewrite (words_cons S_NOISSH) by apply prefix_words.
  rewrite (words_cons S_CONNECT) by apply prefix_words.
  rewrite (words_cons (digits port)) by (done || by apply digits_solid).
  rewrite (words_one (b64_encode key)) by (by apply b64_solid || (apply b64_nonempty; by destruct key)).
  rewrite !bool_decide_false by (intros Hn; by apply Hn). cbn [orb].
  rewrite Hparse by lia. cbn [mbind option_bind]. rewrite b64_decode_encode by done. cbn [mbind option_bind].
  by rewrite bool_decide_false by (intros Hn; by apply Hn).
Qed.

Lemma connect_line_plain port key :
  0 ≤ port < 2 ^ 16 → Forall is_u8 key → length key = 32%nat →
  Forall is_char (connect_line port key) ∧ (10 ∉ connect_line port key) ∧
  strip_cr (connect_line port key) = connect_line port key.
Proof.
  intros Hp Hk Hl. assert (is_u64 port) as Hu by lia_ints.
  destruct (digits_spec port Hu) as (_ & Hd & _).
  assert (b64_encode key ≠ []) as Hne by (apply b64_nonempty; by destruct key).
  pose proof (b64_solid key Hk) as Hs. pose proof (b64_ascii key Hk) as Ha. unfold connect_line. split_and!.
  - apply Forall_app_2; [apply (bool_decide_unpack _); vm_compute; exact I|].
    apply (Forall_app_2 _ [32]); [apply (bool_decide_unpack _); vm_compute; exact I|].
    apply Forall_app_2; [eapply Forall_impl; [exact Hd|]; unfold is_digit, is_char; intros; lia|].
    apply (Forall_app_2 _ [32]); [apply (bool_decide_unpack _); vm_compute; exact I|].
    eapply Forall_impl; [exact Ha|]. unfold is_char. intros. lia.
  - rewrite !not_elem_of_app, !not_elem_of_cons, not_elem_of_app, not_elem_of_cons.
    assert (10 ∉ CONNECT_PREFIX) by (apply (bool_decide_unpack _); vm_compute; exact I).
    split_and!; try done; [by eapply solid_not_in, digits_solid|by eapply solid_not_in].
  - destruct (exists_last Hne) as (l & c & Hlc). apply (strip_cr_id _ c).
    + rewrite Hlc, <- (last_snoc c (CONNECT_PREFIX ++ 32 :: digits port ++ 32 :: l)).
      by rewrite <- !(assoc_L (++)), <- !app_comm_cons, <- !(assoc_L (++)).
    + rewrite Hlc in Hs. apply Forall_app in Hs as [_ Hs]. apply Forall_cons in Hs as [Hs _].
      by intros ->.
Qed.
End connect_line.

(** ** What the client believes *)

Lemma lossy_lines a b :
  lines (from_utf8_lossy (a ++ 10 :: b)) = lines (from_utf8_lossy (a ++ [10])) ++ lines (from_utf8_lossy b).
Proof.
  rewrite (lossy_newline (S (length a)) a b), (lossy_newline (S (length a)) a []) by lia.
  cbn [from_utf8_lossy]. apply lines_from_newline.
Qed.

(** A forged connect line in a banner loses: whatever bytes come before it (a banner
    with connect lines of its own, broken UTF-8), and as long as no later line is a
    connect line, the client takes the port and the key of the line that the one-shot
    server printed. *)
Lemma last_line_wins `{B64 : Base64, !Base64Laws} banner port key after :
  0 ≤ port < 2 ^ 16 → Forall is_u8 key → length key = 32%nat →
  Forall (λ l, parse_connect_line l = None) (lines (from_utf8_lossy after)) →
  find_last parse_connect_line
    (lines (from_utf8_lossy (banner ++ 10 :: as_bytes (connect_line port key) ++ 10 :: after))) = Some (port, key).
Proof.
  intros Hp Hk Hl Ha. destruct (connect_line_plain port key Hp Hk Hl) as (Hc & Hn & Hs).
  rewrite lossy_lines, find_last_app.
  rewrite (lossy_newline (S (length (as_bytes (connect_line port key))))) by lia.
  rewrite lossy_as_bytes by done. unfold lines. rewrite lines_from_app by done.
  rewrite app_nil_l, Hs. cbn [find_last]. fold (lines (from_utf8_lossy after)).
  by rewrite find_last_none, connect_line_roundtrip.
Qed.

(** Versions are strictly ordered. *)
Lemma version_is_older_irrefl v : version_is_older v v = false.
Proof. unfold version_is_older. destruct (version_triple v) as [[a b] c]. lia. Qed.
Lemma version_is_older_trans u v w :
  version_is_older u v = true → version_is_older v w = true → version_is_older u w = true.
Proof.
  unfold version_is_older. destruct (version_triple u) as [[a1 b1] c1], (version_triple v) as [[a2 b2] c2],
    (version_triple w) as [[a3 b3] c3]. lia.
Qed.

(** What goes into the upgrade prompt has no control characters. *)
Lemma version_is_printable line v :
  parse_version_line line = Some v → Forall (λ c, is_control c = false ∧ is_whitespace c = false) v.
Proof.
  unfold parse_version_line. destruct (split_whitespace line) as [|w1 [|w2 [|[|c v0] rest]]]; try done;
    destruct (_ || _); try done. destruct (negb (is_digit c)); [done|].
  destruct ((32 <? _)%nat || _) eqn:Hv; [done|]. intros [= <-].
  apply orb_false_iff in Hv as [_ Hv%negb_false_iff]. apply Forall_forall. intros x Hx%list_elem_of_In.
  apply (proj1 (forallb_forall _ _) Hv) in Hx. revert Hx.
  unfold version_char, is_ascii_alphanumeric, is_digit, is_control, is_whitespace. cbn [existsb]. lia.
Qed.

Section programs.
Context {SocketAddr : Type} {N : Snow} {B64 : Base64} (to_lowercase : list Z → list Z) (env : SshEnv).
Local Abbreviation Step := (SshStep SocketAddr).
Local Abbreviation attempt := (attempt (SocketAddr := SocketAddr) to_lowercase env).
Local Abbreviation bootstrap := (bootstrap (SocketAddr := SocketAddr) to_lowercase env).

(** A step that runs a command and lets it have the terminal: an installation. *)
Definition installs (s : Step) : bool := match s with existT (CallStatus _) _ => true | _ => false end.

(** What one attempt did, and what its result means. *)
Record attempted target udp_host cmd pk extra port (r : result RuntimeError (Attempt SocketAddr)) (tr : list Step) : Prop := {
  at_quiet : Forall (λ s, installs s = false) tr;
  at_result : match r with
    | Ok (Connected b) => ∃ o p,
        existT (CallOutput (attempt_command env target cmd pk extra port)) (Some o) ∈ tr ∧
        find_last parse_connect_line (lines (from_utf8_lossy (out o))) = Some (p, b_server_pubkey b) ∧
        existT (CallResolve udp_host p) (Some (Some (b_server_addr b))) ∈ tr ∧
        b_server_version b = find_last parse_version_line (lines (from_utf8_lossy (out o)))
    | Ok NotFound => ∃ o,
        existT (CallOutput (attempt_command env target cmd pk extra port)) (Some o) ∈ tr ∧
        find_last parse_connect_line (lines (from_utf8_lossy (out o))) = None ∧
        looks_like_missing_command to_lowercase o = true
    | _ => True
    end;
}.

Lemma attempt_wp target udp_host cmd pk extra port tr Q :
  (∀ r tr', attempted target udp_host cmd pk extra port r tr' → Q r (tr ++ tr')) →
  wp (attempt target udp_host cmd pk extra port) tr Q.
Proof.
  intros HQ. unfold Ssh.attempt. cbn [bind call wp]. intros [o|]; cbn [wp].
  2: { apply HQ. split; [by repeat constructor|done]. }
  destruct (find_last _ _) as [[p key]|] eqn:Hf.
  - cbn [bind call wp]. intros [[addr|]|]; cbn [wp]; rewrite <- (assoc_L (++)); apply HQ;
      (split; [by repeat constructor|]); try done.
    exists o, p. cbn. split_and!; [by left|done|by right; left|done].
  - destruct (looks_like_missing_command _ _) eqn:Hm; cbn [wp]; apply HQ; (split; [by repeat constructor|]); [|done].
    exists o. split_and!; [by left|done|done].
Qed.

Lemma install_wp target extra tr Q :
  (∀ r s, installs s = true → projT1 s = CallStatus (install_command env target extra) → Q r (tr ++ [s])) →
  wp (install_remote env target extra) tr Q.
Proof.
  intros HQ. unfold install_remote. cbn [bind call wp]. intros [st|]; cbn [wp]; [|by apply HQ].
  destruct (success st); cbn [wp]; by apply HQ.
Qed.

(** The user said yes. *)
Definition agreed (tr : list Step) : Prop := ∃ q line, existT (CallAsk q) (Some line) ∈ tr ∧
  trim line ∈ [str "y"; str "Y"; str "yes"; str "Yes"; str "YES"].

Lemma upgrade_wp target extra offer b tr Q :
  (∀ tr', Forall (λ s, installs s = false) tr' ∨
    (offer = true ∧ ∃ tr1 s, tr' = tr1 ++ [s] ∧ Forall (λ s, installs s = false) tr1 ∧ agreed tr1 ∧
      projT1 s = CallStatus (install_command env target extra)) → Q (Ok b) (tr ++ tr')) →
  wp (maybe_offer_upgrade env target extra offer b) tr Q.
Proof.
  intros HQ. unfold maybe_offer_upgrade. destruct (negb _) eqn:Ho; cbn [wp].
  { rewrite <- (app_nil_r tr). apply HQ. by left. }
  apply negb_false_iff, andb_true_iff in Ho as [-> _].
  unfold prompt_yes_no. cbn [bind call wp]. intros []; cbn [negb bind wp].
  2: { apply HQ. left. by repeat constructor. }
  cbn [call bind wp]. intros [line|]; cbn [bind wp negb].
  2: { rewrite <- (assoc_L (++)). apply HQ. left. by repeat constructor. }
  case_bool_decide as Hl; cbn [negb wp].
  2: { rewrite <- (assoc_L (++)). apply HQ. left. by repeat constructor. }
  apply wp_bind, install_wp. intros r s _ Hs. cbn [wp]. rewrite <- !(assoc_L (++)). apply HQ. right.
  split; [done|]. eexists (_ ++ _), s. rewrite <- (assoc_L (++)). split_and!; [done|by repeat constructor| |done].
  eexists _, line. split; [right; left|done].
Qed.

(** The server the session is pinned to. *)
Definition pinned target udp_host cmd pk extra port (b : Bootstrap SocketAddr) (tr : list Step) : Prop :=
  ∃ o p, existT (CallOutput (attempt_command env target cmd pk extra port)) (Some o) ∈ tr ∧
    find_last parse_connect_line (lines (from_utf8_lossy (out o))) = Some (p, b_server_pubkey b) ∧
    existT (CallResolve udp_host p) (Some (Some (b_server_addr b))) ∈ tr.

(** Nothing is installed, or once and for a reason. *)
Definition installed_once target cmd pk extra port (allowed : bool) (tr : list Step) : Prop :=
  Forall (λ s, installs s = false) tr ∨
  (allowed = true ∧ ∃ t1 s t2, tr = t1 ++ s :: t2 ∧
    Forall (λ s, installs s = false) t1 ∧ Forall (λ s, installs s = false) t2 ∧
    projT1 s = CallStatus (install_command env target extra) ∧
    (agreed t1 ∨ ∃ o, existT (CallOutput (attempt_command env target cmd pk extra port)) (Some o) ∈ t1 ∧
      looks_like_missing_command to_lowercase o = true)).

Lemma pinned_app target udp_host cmd pk extra port b tr tr1 tr2 :
  pinned target udp_host cmd pk extra port b tr → pinned target udp_host cmd pk extra port b (tr1 ++ tr ++ tr2).
Proof. intros (o & p & ? & ? & ?). exists o, p. rewrite !elem_of_app. auto. Qed.

Lemma attempted_pinned target udp_host cmd pk extra port b tr :
  attempted target udp_host cmd pk extra port (Ok (Connected b)) tr → pinned target udp_host cmd pk extra port b tr.
Proof. intros [_ (o & p & ? & ? & ? & _)]. by exists o, p. Qed.

Lemma agreed_app tr1 tr2 : agreed tr2 → agreed (tr1 ++ tr2).
Proof. intros (q & l & ? & ?). exists q, l. rewrite elem_of_app. auto. Qed.
End programs.

Lemma connect_key_length `{B64 : Base64} line p key : parse_connect_line line = Some (p, key) → length key = 32%nat.
Proof.
  unfold parse_connect_line. destruct (split_whitespace line) as [|w1 [|w2 [|w3 [|w4 rest]]]]; try done;
    destruct (_ || _); try done; cbn; destruct (parse_uint _ _); try done; cbn.
  destruct (b64_decode w4); [|done]. cbn. case_bool_decide as Hl; [done|]. intros [= _ <-].
  by destruct (decide (length l = 32%nat)).
Qed.

Lemma find_last_some {A B} (f : A → option B) l b : find_last f l = Some b → ∃ a, a ∈ l ∧ f a = Some b.
Proof.
  induction l as [|a l IH]; cbn; [done|]. destruct (find_last f l) as [b'|].
  - intros [= ->]. destruct IH as (a' & ? & ?); [done|]. exists a'. split; [by right|done].
  - intros Ha. exists a. split; [by left|done].
Qed.

Section careful.
Context {SocketAddr : Type} {N : Snow} {B64 : Base64} (to_lowercase : list Z → list Z) (env : SshEnv).
Local Abbreviation pinned := (pinned (SocketAddr := SocketAddr) env).
Local Abbreviation installed_once := (installed_once (SocketAddr := SocketAddr) to_lowercase env).

Lemma pinned_result target udp_host cmd cmd' pk extra port b tr :
  (cmd' = cmd ∨ cmd' = installed_noisshd_cmd env) → pinned target udp_host cmd' pk extra port b tr →
  length (b_server_pubkey b) = 32%nat ∧ ∃ cmd', (cmd' = cmd ∨ cmd' = installed_noisshd_cmd env) ∧
    pinned target udp_host cmd' pk extra port b tr.
Proof.
  intros Hc Hp. split; [|by exists cmd'].
  destruct Hp as (o & p & _ & (l & _ & Hl)%find_last_some & _). by eapply connect_key_length.
Qed.

(** The offer of an upgrade after runs that installed nothing. *)
Lemma upgrade_once target cmd pk extra port allowed tr tr' :
  Forall (λ s : SshStep SocketAddr, installs s = false) tr →
  Forall (λ s, installs s = false) tr' ∨
    (allowed = true ∧ ∃ tr1 s, tr' = tr1 ++ [s] ∧ Forall (λ s, installs s = false) tr1 ∧ agreed tr1 ∧
      projT1 s = CallStatus (install_command env target extra)) →
  installed_once target cmd pk extra port allowed (tr ++ tr').
Proof.
  intros Hq [Hq'|(Ha & tr1 & s & -> & Hq' & Hag & Hs)]; [left; by apply Forall_app_2|].
  right. split; [done|]. exists (tr ++ tr1), s, []. rewrite <- (assoc_L (++)).
  split_and!; [done|by apply Forall_app_2|done|done|]. left. by apply agreed_app.
Qed.

(** The last branch of [bootstrap]: install, and one more attempt. *)
Definition reinstall target udp_host pk extra port : SshScript SocketAddr (result RuntimeError (Bootstrap SocketAddr)) :=
  (need _ <- install_remote env target extra;
   need a3 <- attempt to_lowercase env target udp_host (installed_noisshd_cmd env) pk extra port;
   match a3 with
   | Connected b => Done (Ok b)
   | Failed reason => Done (Err (SshFailed reason))
   | NotFound => Done (Err (SshFailed (str "installed noisshd but it still could not be launched on the remote")))
   end)%script.

Lemma reinstall_wp target udp_host cmd pk extra port (tr : list (SshStep SocketAddr)) :
  Forall (λ s, installs s = false) tr →
  (∃ o, existT (CallOutput (attempt_command env target cmd pk extra port)) (Some o) ∈ tr ∧
    looks_like_missing_command to_lowercase o = true) →
  wp (reinstall target udp_host pk extra port) tr (λ r tr,
    match r with
    | Ok b => length (b_server_pubkey b) = 32%nat ∧ ∃ cmd', (cmd' = cmd ∨ cmd' = installed_noisshd_cmd env) ∧
        pinned target udp_host cmd' pk extra port b tr
    | Err _ => True
    end ∧ installed_once target cmd pk extra port true tr).
Proof.
  intros Hq Hm.
  assert (∀ s t3, Forall (λ s : SshStep SocketAddr, installs s = false) t3 →
    projT1 s = CallStatus (install_command env target extra) →
    installed_once target cmd pk extra port true ((tr ++ [s]) ++ t3)) as Hone.
  { intros s t3 H3 Hs. right. split; [done|]. exists tr, s, t3. rewrite <- (assoc_L (++)).
    split_and!; [done..|]. by right. }
  apply wp_bind, install_wp. intros [[]|e] s _ Hs; cbn [wp].
  2: { split; [done|]. rewrite <- (app_nil_r (tr ++ [s])). by apply Hone. }
  apply wp_bind, attempt_wp. intros r3 t3 [Hq3 H3].
  destruct r3 as [[b| |why]|e]; cbn [wp]; (split; [|by apply Hone]); try done.
  eapply (pinned_result _ _ _ (installed_noisshd_cmd env)); [by right|].
  rewrite <- (app_nil_r t3), (assoc_L (++)), <- (assoc_L (++)).
  apply (pinned_app _ _ _ _ _ _ _ _ t3 (tr ++ [s]) []). eapply (attempted_pinned to_lowercase). by split.
Qed.
End careful.

(** What the bootstrap does, whatever the answers. *)
Lemma bootstrap_spec {SocketAddr : Type} {N : Snow} {B64 : Base64} (to_lowercase : list Z → list Z)
    (env : SshEnv) target udp_host cmd pk extra auto_install port :
  wp (bootstrap (SocketAddr := SocketAddr) to_lowercase env target udp_host cmd pk extra auto_install port) []
    (λ r tr,
      match r with
      | Ok b => length (b_server_pubkey b) = 32%nat ∧
          ∃ cmd', (cmd' = cmd ∨ cmd' = installed_noisshd_cmd env) ∧
            pinned env target udp_host cmd' pk extra port b tr
      | Err _ => True
      end ∧
      installed_once to_lowercase env target cmd pk extra port (auto_install && is_default_server_cmd cmd) tr).
Proof.
  set (allowed := auto_install && is_default_server_cmd cmd). unfold bootstrap. fold allowed.
  apply wp_bind, attempt_wp. intros r1 t1 [Hq1 H1]. rewrite app_nil_l.
  destruct r1 as [[b| |why]|e]; cbn [wp]; [| |split; [done|by left]..].
  { apply upgrade_wp. intros tr' Hup. split.
    - eapply (pinned_result _ _ _ _ cmd); [by left|]. apply (pinned_app _ _ _ _ _ _ _ _ t1 [] tr').
      eapply (attempted_pinned to_lowercase). by split.
    - by apply upgrade_once. }
  destruct allowed; [|cbn [wp]; split; [done|by left]].
  destruct H1 as (o & Ho & _ & Hmiss).
  apply wp_bind, attempt_wp. intros r2 t2 [Hq2 H2].
  assert (Forall (λ s, installs s = false) (t1 ++ t2)) as Hq12 by by apply Forall_app_2.
  assert (wp (reinstall to_lowercase env target udp_host pk extra port) (t1 ++ t2)
    (λ r tr, match r with
      | Ok b => length (b_server_pubkey b) = 32%nat ∧
          ∃ cmd', (cmd' = cmd ∨ cmd' = installed_noisshd_cmd env) ∧ pinned env target udp_host cmd' pk extra port b tr
      | Err _ => True
      end ∧ installed_once to_lowercase env target cmd pk extra port true tr)) as Hre.
  { apply reinstall_wp; [done|]. exists o. rewrite elem_of_app. auto. }
  destruct r2 as [[b| |why]|e]; cbn [wp]; [|exact Hre..|split; [done|by left]].
  apply upgrade_wp. intros tr' Hup. split.
  - eapply (pinned_result _ _ _ _ (installed_noisshd_cmd env)); [by right|].
    rewrite <- (assoc_L (++)). apply (pinned_app _ _ _ _ _ _ _ _ t2 t1 tr'). eapply (attempted_pinned to_lowercase). by split.
  - by apply upgrade_once.
Qed.

(** C20 The bootstrap, whatever ssh, the remote host, the resolver and the user answer.
    A server it returns has the key, of 32 bytes, and the port of the last connect
    line that an ssh run of its own printed, at an address the resolver gave for the
    session's host. Software is installed on the remote at most once, by that exact
    command, only where installing is allowed and the server command is the default,
    and only after the first run showed that the server is missing or the user agreed. *)
Theorem bootstrap_is_careful {SocketAddr : Type} {N : Snow} {B64 : Base64} (to_lowercase : list Z → list Z)
    (env : SshEnv) target udp_host cmd pk extra auto_install port :
  wp (bootstrap (SocketAddr := SocketAddr) to_lowercase env target udp_host cmd pk extra auto_install port) []
    (λ r tr,
      match r with
      | Ok b => length (b_server_pubkey b) = 32%nat ∧
          ∃ cmd', (cmd' = cmd ∨ cmd' = installed_noisshd_cmd env) ∧
            pinned env target udp_host cmd' pk extra port b tr
      | Err _ => True
      end ∧
      installed_once to_lowercase env target cmd pk extra port (auto_install && is_default_server_cmd cmd) tr).
Proof. apply bootstrap_spec. Qed.

(** The line that is copied is inside its quotes: it has none of its own, and no
    control character, or nothing is run. *)
Lemma copy_id_quoted {SocketAddr : Type} {N : Snow} (env : SshEnv) target line extra :
  wp (copy_id (SocketAddr := SocketAddr) env target line extra) [] (λ r tr,
    tr = [] ∧ r ≠ Ok () ∨
    (39 ∉ line) ∧ Forall (λ c, is_control c = false) line ∧
    ∃ a, tr = [existT (CallOutput (mkSshCommand (ssh_prog env) (extra ++ [str "--"; target; copy_script line]))) a]).
Proof.
  unfold copy_id. destruct (existsb (Z.eqb 39) line) eqn:Hq; [by left|].
  destruct (existsb is_control line) eqn:Hc; [by left|]. cbn [orb bind call wp]. intros r.
  assert (39 ∉ line) as H39.
  { intros Hin%list_elem_of_In. assert (existsb (Z.eqb 39) line = true); [|congruence].
    apply existsb_exists. by exists 39. }
  assert (Forall (λ c, is_control c = false) line) as Hcs.
  { apply Forall_forall. intros c Hin%list_elem_of_In. destruct (is_control c) eqn:Hx; [|done].
    assert (existsb is_control line = true); [|congruence]. apply existsb_exists. by exists c. }
  destruct r as [o|]; [destruct (success (code o))|]; cbn [wp]; right; (split; [done|]); (split; [done|]); by eexists.
Qed.

(** ** Runs *)

Section runs.
Context {N : Snow}.

(** A host without the server, where installing does not help. *)
Definition bare_host (c : Call) : answer (SocketAddr := nat) c :=
  match c with
  | CallOutput _ => Some (mkProcOutput (Some 127) [] [])
  | CallStatus _ => Some (Some 0)
  | CallIsTerminal => true
  | CallAsk _ => Some [110]
  | CallResolve _ _ => Some (Some 5%nat)
  end.
Definition sample_ssh_env : SshEnv := mkSshEnv None None (str "0.6.1").
Definition bare_run := @run _ _ _ bare_host
  (@bootstrap nat N sample_base64 id sample_ssh_env (str "u@h") (str "h") [str "noisshd"] (replicate 32 7) [] true None).

Lemma bare_host_run :
  (λ s, (installs s, match projT1 s with CallOutput c => nth 2 (args c) [] | _ => [] end)) <$> bare_run.1 =
    [(false, str "noisshd"); (false, str "$HOME/.local/bin/noisshd"); (true, []);
     (false, str "$HOME/.local/bin/noisshd")].
Proof. vm_compute. reflexivity. Qed.
End runs.

(** A banner with a connect line of its own, and bytes that are no text. *)
Definition forged_banner : list Z := as_bytes (connect_line (B64 := sample_base64) 7 (replicate 32 66)) ++ [10; 0xC3; 0xFF].

Lemma forged_banner_loses :
  find_last (parse_connect_line (B64 := sample_base64))
    (lines (from_utf8_lossy (forged_banner ++ 10 :: as_bytes (connect_line (B64 := sample_base64) 60001 (replicate 32 9))
      ++ 10 :: as_bytes (str "bye")))) = Some (60001, replicate 32 9).
Proof.
  apply (@last_line_wins sample_base64 sample_base64_laws).
  - lia.
  - apply (bool_decide_unpack _). by vm_compute.
  - reflexivity.
  - apply (bool_decide_unpack _). by vm_compute.
Qed.
