(* ===== verification/Cli.v ===== *)
(** * The command line ([src/bin/noissh.rs])

    How the arguments of the client are read: its own options, those it shares with
    ssh, the host, and the command after it.  The characters are those of the
    arguments; the size of a file to send is the answer of the file system.  Help
    and version texts and the wording of complaints are left out. *)

From Stdlib Require Import Ascii String.
From stdpp Require Import list.
From S2P Require Import Prelude Text Literal Control SshConfig.

(** ** The arguments *)

(** @ src/bin/noissh.rs:64-106 Args *)
Record Args := mkArgs {
  a_ssh : bool;
  a_port : Z;
  a_target : option (list Z);
  a_server_cmd : list Z;
  a_ssh_args : list (list Z);
  a_local_forwards : list (Z * list Z);
  a_remote_forwards : list (Z * list Z);
  a_dynamic_forwards : list (list Z * Z);
  a_transfer : option (XferRequest * list Z);
  a_forward_agent : bool;
  a_no_install : bool;
  a_command : list (list Z);
  a_direct : bool;
  a_server_port : option Z;
  a_verbose : bool;
  a_forget_host : option (list Z);
  a_copy_id : bool;
  a_no_command : bool;
  a_null_stdin : bool;
  a_ssh_config : option (list Z);
}.

Definition set_a_ssh v (a : Args) := mkArgs v (a_port a) (a_target a) (a_server_cmd a) (a_ssh_args a)
  (a_local_forwards a) (a_remote_forwards a) (a_dynamic_forwards a) (a_transfer a) (a_forward_agent a)
  (a_no_install a) (a_command a) (a_direct a) (a_server_port a) (a_verbose a) (a_forget_host a) (a_copy_id a)
  (a_no_command a) (a_null_stdin a) (a_ssh_config a).
Definition set_a_port v (a : Args) := mkArgs (a_ssh a) v (a_target a) (a_server_cmd a) (a_ssh_args a)
  (a_local_forwards a) (a_remote_forwards a) (a_dynamic_forwards a) (a_transfer a) (a_forward_agent a)
  (a_no_install a) (a_command a) (a_direct a) (a_server_port a) (a_verbose a) (a_forget_host a) (a_copy_id a)
  (a_no_command a) (a_null_stdin a) (a_ssh_config a).
Definition set_a_target v (a : Args) := mkArgs (a_ssh a) (a_port a) v (a_server_cmd a) (a_ssh_args a)
  (a_local_forwards a) (a_remote_forwards a) (a_dynamic_forwards a) (a_transfer a) (a_forward_agent a)
  (a_no_install a) (a_command a) (a_direct a) (a_server_port a) (a_verbose a) (a_forget_host a) (a_copy_id a)
  (a_no_command a) (a_null_stdin a) (a_ssh_config a).
Definition set_a_server_cmd v (a : Args) := mkArgs (a_ssh a) (a_port a) (a_target a) v (a_ssh_args a)
  (a_local_forwards a) (a_remote_forwards a) (a_dynamic_forwards a) (a_transfer a) (a_forward_agent a)
  (a_no_install a) (a_command a) (a_direct a) (a_server_port a) (a_verbose a) (a_forget_host a) (a_copy_id a)
  (a_no_command a) (a_null_stdin a) (a_ssh_config a).
Definition set_a_ssh_args v (a : Args) := mkArgs (a_ssh a) (a_port a) (a_target a) (a_server_cmd a) v
  (a_local_forwards a) (a_remote_forwards a) (a_dynamic_forwards a) (a_transfer a) (a_forward_agent a)
  (a_no_install a) (a_command a) (a_direct a) (a_server_port a) (a_verbose a) (a_forget_host a) (a_copy_id a)
  (a_no_command a) (a_null_stdin a) (a_ssh_config a).
Definition set_a_local_forwards v (a : Args) := mkArgs (a_ssh a) (a_port a) (a_target a) (a_server_cmd a)
  (a_ssh_args a) v (a_remote_forwards a) (a_dynamic_forwards a) (a_transfer a) (a_forward_agent a)
  (a_no_install a) (a_command a) (a_direct a) (a_server_port a) (a_verbose a) (a_forget_host a) (a_copy_id a)
  (a_no_command a) (a_null_stdin a) (a_ssh_config a).
Definition set_a_remote_forwards v (a : Args) := mkArgs (a_ssh a) (a_port a) (a_target a) (a_server_cmd a)
  (a_ssh_args a) (a_local_forwards a) v (a_dynamic_forwards a) (a_transfer a) (a_forward_agent a)
  (a_no_install a) (a_command a) (a_direct a) (a_server_port a) (a_verbose a) (a_forget_host a) (a_copy_id a)
  (a_no_command a) (a_null_stdin a) (a_ssh_config a).
Definition set_a_dynamic_forwards v (a : Args) := mkArgs (a_ssh a) (a_port a) (a_target a) (a_server_cmd a)
  (a_ssh_args a) (a_local_forwards a) (a_remote_forwards a) v (a_transfer a) (a_forward_agent a)
  (a_no_install a) (a_command a) (a_direct a) (a_server_port a) (a_verbose a) (a_forget_host a) (a_copy_id a)
  (a_no_command a) (a_null_stdin a) (a_ssh_config a).
Definition set_a_transfer v (a : Args) := mkArgs (a_ssh a) (a_port a) (a_target a) (a_server_cmd a)
  (a_ssh_args a) (a_local_forwards a) (a_remote_forwards a) (a_dynamic_forwards a) v (a_forward_agent a)
  (a_no_install a) (a_command a) (a_direct a) (a_server_port a) (a_verbose a) (a_forget_host a) (a_copy_id a)
  (a_no_command a) (a_null_stdin a) (a_ssh_config a).
Definition set_a_forward_agent v (a : Args) := mkArgs (a_ssh a) (a_port a) (a_target a) (a_server_cmd a)
  (a_ssh_args a) (a_local_forwards a) (a_remote_forwards a) (a_dynamic_forwards a) (a_transfer a) v
  (a_no_install a) (a_command a) (a_direct a) (a_server_port a) (a_verbose a) (a_forget_host a) (a_copy_id a)
  (a_no_command a) (a_null_stdin a) (a_ssh_config a).
Definition set_a_no_install v (a : Args) := mkArgs (a_ssh a) (a_port a) (a_target a) (a_server_cmd a)
  (a_ssh_args a) (a_local_forwards a) (a_remote_forwards a) (a_dynamic_forwards a) (a_transfer a)
  (a_forward_agent a) v (a_command a) (a_direct a) (a_server_port a) (a_verbose a) (a_forget_host a)
  (a_copy_id a) (a_no_command a) (a_null_stdin a) (a_ssh_config a).
Definition set_a_command v (a : Args) := mkArgs (a_ssh a) (a_port a) (a_target a) (a_server_cmd a)
  (a_ssh_args a) (a_local_forwards a) (a_remote_forwards a) (a_dynamic_forwards a) (a_transfer a)
  (a_forward_agent a) (a_no_install a) v (a_direct a) (a_server_port a) (a_verbose a) (a_forget_host a)
  (a_copy_id a) (a_no_command a) (a_null_stdin a) (a_ssh_config a).
Definition set_a_direct v (a : Args) := mkArgs (a_ssh a) (a_port a) (a_target a) (a_server_cmd a)
  (a_ssh_args a) (a_local_forwards a) (a_remote_forwards a) (a_dynamic_forwards a) (a_transfer a)
  (a_forward_agent a) (a_no_install a) (a_command a) v (a_server_port a) (a_verbose a) (a_forget_host a)
  (a_copy_id a) (a_no_command a) (a_null_stdin a) (a_ssh_config a).
Definition set_a_server_port v (a : Args) := mkArgs (a_ssh a) (a_port a) (a_target a) (a_server_cmd a)
  (a_ssh_args a) (a_local_forwards a) (a_remote_forwards a) (a_dynamic_forwards a) (a_transfer a)
  (a_forward_agent a) (a_no_install a) (a_command a) (a_direct a) v (a_verbose a) (a_forget_host a)
  (a_copy_id a) (a_no_command a) (a_null_stdin a) (a_ssh_config a).
Definition set_a_verbose v (a : Args) := mkArgs (a_ssh a) (a_port a) (a_target a) (a_server_cmd a)
  (a_ssh_args a) (a_local_forwards a) (a_remote_forwards a) (a_dynamic_forwards a) (a_transfer a)
  (a_forward_agent a) (a_no_install a) (a_command a) (a_direct a) (a_server_port a) v (a_forget_host a)
  (a_copy_id a) (a_no_command a) (a_null_stdin a) (a_ssh_config a).
Definition set_a_forget_host v (a : Args) := mkArgs (a_ssh a) (a_port a) (a_target a) (a_server_cmd a)
  (a_ssh_args a) (a_local_forwards a) (a_remote_forwards a) (a_dynamic_forwards a) (a_transfer a)
  (a_forward_agent a) (a_no_install a) (a_command a) (a_direct a) (a_server_port a) (a_verbose a) v
  (a_copy_id a) (a_no_command a) (a_null_stdin a) (a_ssh_config a).
Definition set_a_copy_id v (a : Args) := mkArgs (a_ssh a) (a_port a) (a_target a) (a_server_cmd a)
  (a_ssh_args a) (a_local_forwards a) (a_remote_forwards a) (a_dynamic_forwards a) (a_transfer a)
  (a_forward_agent a) (a_no_install a) (a_command a) (a_direct a) (a_server_port a) (a_verbose a)
  (a_forget_host a) v (a_no_command a) (a_null_stdin a) (a_ssh_config a).
Definition set_a_no_command v (a : Args) := mkArgs (a_ssh a) (a_port a) (a_target a) (a_server_cmd a)
  (a_ssh_args a) (a_local_forwards a) (a_remote_forwards a) (a_dynamic_forwards a) (a_transfer a)
  (a_forward_agent a) (a_no_install a) (a_command a) (a_direct a) (a_server_port a) (a_verbose a)
  (a_forget_host a) (a_copy_id a) v (a_null_stdin a) (a_ssh_config a).
Definition set_a_null_stdin v (a : Args) := mkArgs (a_ssh a) (a_port a) (a_target a) (a_server_cmd a)
  (a_ssh_args a) (a_local_forwards a) (a_remote_forwards a) (a_dynamic_forwards a) (a_transfer a)
  (a_forward_agent a) (a_no_install a) (a_command a) (a_direct a) (a_server_port a) (a_verbose a)
  (a_forget_host a) (a_copy_id a) (a_no_command a) v (a_ssh_config a).
Definition set_a_ssh_config v (a : Args) := mkArgs (a_ssh a) (a_port a) (a_target a) (a_server_cmd a)
  (a_ssh_args a) (a_local_forwards a) (a_remote_forwards a) (a_dynamic_forwards a) (a_transfer a)
  (a_forward_agent a) (a_no_install a) (a_command a) (a_direct a) (a_server_port a) (a_verbose a)
  (a_forget_host a) (a_copy_id a) (a_no_command a) (a_null_stdin a) v.

(** How reading the arguments ends: with them, with a text and success, or with a
    complaint and status 2. *)
Inductive Complaint :=
| WantsPort (flag got : list Z)
| NeedsPort (flag : list Z)
| NeedsValue (flag : list Z)
| WantsForward (flag : list Z)
| WantsTransfer (flag : list Z)
| UnknownOption (arg : list Z).
Inductive Outcome (A : Type) := Parsed (a : A) | ShowHelp | ShowVersion | UsageExit (why : Complaint).
Arguments Parsed {A} a.
Arguments ShowHelp {A}.
Arguments ShowVersion {A}.
Arguments UsageExit {A} why.

#[export] Instance outcome_bind : MBind Outcome := λ A B f m,
  match m with
  | Parsed a => f a
  | ShowHelp => ShowHelp
  | ShowVersion => ShowVersion
  | UsageExit why => UsageExit why
  end.

(** ** Values *)

(** [s.rsplit_once(f)] *)
Definition rsplit_once (f : Z → bool) (s : list Z) : option (list Z * list Z) :=
  '(b, a) ← split_once f (rev s); Some (rev a, rev b).

Definition is_colon (c : Z) : bool := c =? 58.

(** @ src/bin/noissh.rs:109-116 parse_forward *)
Definition parse_forward (s : list Z) : option (Z * list Z) :=
  '(lport, target) ← split_once is_colon s;
  port ← parse_uint 65535 lport;
  if bool_decide (target = []) then None else Some (port, target).

(** @ src/bin/noissh.rs:119-126 parse_dynamic *)
Definition parse_dynamic (s : list Z) : option (list Z * Z) :=
  match rsplit_once is_colon s with
  | Some ([], port) => (str "127.0.0.1",.) <$> parse_uint 65535 port
  | Some (bind, port) => (bind,.) <$> parse_uint 65535 port
  | None => (str "127.0.0.1",.) <$> parse_uint 65535 s
  end.

(** @ src/bin/noissh.rs:198-205 port_value *)
Definition port_value (v : option (list Z)) (flag : list Z) : Outcome Z :=
  match v with
  | Some s =>
    match parse_uint 65535 s with
    | Some p => if 0 <? p then Parsed p else UsageExit (WantsPort flag s)
    | None => UsageExit (WantsPort flag s)
    end
  | None => UsageExit (NeedsPort flag)
  end.

(** @ src/bin/noissh.rs:208-210 string_value *)
Definition string_value (v : option (list Z)) (flag : list Z) : Outcome (list Z) :=
  match v with Some s => Parsed s | None => UsageExit (NeedsValue flag) end.

(** @ src/bin/noissh.rs:309-322 SSH_OPTIONS_NOT_PASSED *)
Definition SSH_OPTIONS_NOT_PASSED : list (list Z) :=
  [str "remotecommand"; str "requesttty"; str "sessiontype"; str "localforward"; str "remoteforward";
   str "dynamicforward"; str "forwardagent"; str "stdinnull"; str "forkafterauthentication";
   str "controlmaster"; str "controlpath"; str "controlpersist"].

(** @ src/bin/noissh.rs:325-330 ssh_option_name *)
Definition ssh_option_name (opt : list Z) : list Z :=
  lower match split_once (λ c, (c =? 61) || is_whitespace c) opt with Some (name, _) => name | None => opt end.

(** ** Single letters *)

(** The character after a dash. *)
Definition letter (s : string) : Z := default 0 (head (str s)).
Definition dash (c : Z) : list Z := [45; c].

(** The letters of [s]. *)
Definition among (c : Z) (s : string) : bool := bool_decide (c ∈ str s).

(** The letters whose value follows. @ src/bin/noissh.rs:345-348 parse_short_options *)
Definition takes_value (c : Z) : bool := among c "LRDbBcEFiJlmope".

(** @ src/bin/noissh.rs:388-418 apply_valued_option *)
Definition apply_valued_option (c : Z) (value : list Z) (a : Args) : Outcome Args :=
  if c =? letter "L" then
    match parse_forward value with
    | Some spec => Parsed (set_a_local_forwards (a_local_forwards a ++ [spec]) a)
    | None => UsageExit (WantsForward (dash c))
    end
  else if c =? letter "R" then
    match parse_forward value with
    | Some spec => Parsed (set_a_remote_forwards (a_remote_forwards a ++ [spec]) a)
    | None => UsageExit (WantsForward (dash c))
    end
  else if c =? letter "D" then
    match parse_dynamic value with
    | Some spec => Parsed (set_a_dynamic_forwards (a_dynamic_forwards a ++ [spec]) a)
    | None => UsageExit (WantsForward (dash c))
    end
  else if c =? letter "e" then Parsed a
  else if c =? letter "o" then
    if bool_decide (ssh_option_name value ∈ SSH_OPTIONS_NOT_PASSED) then Parsed a
    else Parsed (set_a_ssh_args (a_ssh_args a ++ [str "-o"; value]) a)
  else
    let a := if c =? letter "F" then set_a_ssh_config (Some value) a else a in
    Parsed (set_a_ssh_args (a_ssh_args a ++ [dash c; value]) a).

(** A letter without a value. @ src/bin/noissh.rs:364-383 parse_short_options *)
Definition plain_option (c : Z) (a : Args) : Outcome Args :=
  if c =? letter "h" then ShowHelp
  else if c =? letter "V" then ShowVersion
  else if c =? letter "v" then Parsed (set_a_verbose true a)
  else if c =? letter "A" then Parsed (set_a_forward_agent true a)
  else if c =? letter "N" then Parsed (set_a_no_command true a)
  else if c =? letter "n" then Parsed (set_a_null_stdin true a)
  else if among c "46aCgkKqsTtxXYy" then Parsed a
  else UsageExit (UnknownOption (dash c)).

(** The letters of one argument, its dash taken off; [next] is the argument after
    it, and the flag says whether it was used.
    @ src/bin/noissh.rs:342-385 parse_short_options *)
Fixpoint parse_short_options (flags : list Z) (next : option (list Z)) (a : Args) : Outcome (Args * bool) :=
  match flags with
  | [] => Parsed (a, false)
  | c :: rest =>
    if takes_value c then
      match rest, next with
      | [], Some value => a ← apply_valued_option c value a; Parsed (a, true)
      | [], None => UsageExit (NeedsValue (dash c))
      | _, _ => a ← apply_valued_option c rest a; Parsed (a, false)
      end
    else a ← plain_option c a; parse_short_options rest next a
  end.

(** ** The whole *)

(** An argument of single letters. *)
Definition is_short (arg : list Z) : bool :=
  match arg with d :: c :: _ => (d =? 45) && negb (c =? 45) | _ => false end.

Definition starts_dash (arg : list Z) : bool := match arg with d :: _ => d =? 45 | [] => false end.

(** LOCAL:REMOTE or REMOTE:LOCAL *)
Definition file_pair (v : option (list Z)) : option (list Z * list Z) :=
  s ← v; '(x, y) ← split_once is_colon s;
  if bool_decide (x = []) || bool_decide (y = []) then None else Some (x, y).

Section args.
Context (file_size : list Z → option Z).

(** The options that take the next argument. *)
Definition valued_option (arg : list Z) (v : option (list Z)) (a : Args) : option (Outcome Args) :=
  if bool_decide (arg = str "--forget-host") then
    Some (s ← string_value v arg; Parsed (set_a_forget_host (Some s) a))
  else if bool_decide (arg = str "--port") then Some (p ← port_value v arg; Parsed (set_a_port p a))
  else if bool_decide (arg = str "--server-cmd") then Some (s ← string_value v arg; Parsed (set_a_server_cmd s a))
  else if bool_decide (arg = str "--server-port") then
    Some (p ← port_value v arg; Parsed (set_a_server_port (Some p) a))
  else if bool_decide (arg = str "--put") then
    Some match file_pair v with
         | Some (local, remote) =>
           Parsed (set_a_transfer (Some (Put remote (default 0 (file_size local)), local)) a)
         | None => UsageExit (WantsTransfer arg)
         end
  else if bool_decide (arg = str "--get") then
    Some match file_pair v with
         | Some (remote, local) => Parsed (set_a_transfer (Some (Get remote, local)) a)
         | None => UsageExit (WantsTransfer arg)
         end
  else None.

(** The others by name. *)
Definition named_option (arg : list Z) (a : Args) : option (Outcome Args) :=
  if bool_decide (arg = str "--help") then Some ShowHelp
  else if bool_decide (arg = str "--version") then Some ShowVersion
  else if bool_decide (arg = str "--ssh") then Some (Parsed (set_a_ssh true a))
  else if bool_decide (arg = str "--direct") then Some (Parsed (set_a_direct true a))
  else if bool_decide (arg = str "--verbose") then Some (Parsed (set_a_verbose true a))
  else if bool_decide (arg = str "--copy-id") then Some (Parsed (set_a_copy_id true a))
  else if bool_decide (arg = str "--no-install") then Some (Parsed (set_a_no_install true a))
  else if bool_decide (arg = str "--forward-agent") then Some (Parsed (set_a_forward_agent true a))
  else None.

(** The loop. @ src/bin/noissh.rs:238-302 parse_args *)
Fixpoint parse_loop (it : list (list Z)) (a : Args) : Outcome Args :=
  match it with
  | [] => Parsed a
  | arg :: it =>
    if bool_decide (is_Some (a_target a)) && negb (bool_decide (arg = str "--")) then
      Parsed (set_a_command (a_command a ++ arg :: it) a)
    else if bool_decide (arg = str "--") then Parsed (set_a_ssh_args (a_ssh_args a ++ it) a)
    else
      match named_option arg a with
      | Some r => a ← r; parse_loop it a
      | None =>
        match valued_option arg (head it) a with
        | Some r => a ← r; match it with _ :: it => parse_loop it a | [] => Parsed a end
        | None =>
          if is_short arg then
            '(a, used) ← parse_short_options (drop 1 arg) (head it) a;
            match used, it with true, _ :: it => parse_loop it a | _, _ => parse_loop it a end
          else if bool_decide (a_target a = None) && negb (starts_dash arg) then
            parse_loop it (set_a_target (Some arg) a)
          else UsageExit (UnknownOption arg)
        end
      end
  end.

(** [config_port] is the port the settings file gives.
    @ src/bin/noissh.rs:212-304 parse_args *)
Definition parse_args (config_port : option Z) (argv : list (list Z)) : Outcome Args :=
  parse_loop argv
    (mkArgs false (default 51820 config_port) None (str "noisshd") [] [] [] [] None false false [] false None
       false None false false false None).
End args.

(** ** Letters *)

Lemma takes_value_ascii c : takes_value c = true → c ≠ 45 ∧ c ≠ letter "h".
Proof.
  unfold takes_value, among. rewrite bool_decide_eq_true. intros Hc.
  split; intros ->; revert Hc; apply (bool_decide_unpack _); vm_compute; exact I.
Qed.

Lemma plain_dash a : plain_option 45 a = UsageExit (UnknownOption (dash 45)).
Proof. vm_compute. reflexivity. Qed.

Lemma plain_target c a a' : plain_option c a = Parsed a' → a_target a' = a_target a.
Proof. unfold plain_option. repeat case_match; try done; by intros [= <-]. Qed.

Section loop.
Context (file_size : list Z → option Z).
Local Abbreviation parse_loop := (parse_loop file_size).
Local Abbreviation valued_option := (valued_option file_size).

(** An argument of letters has no other meaning. *)
Lemma short_named c s a : c ≠ 45 → named_option (45 :: c :: s) a = None.
Proof.
  intros Hc. unfold named_option.
  repeat (rewrite bool_decide_eq_false_2 by (intros [= ? _]; by apply Hc)). done.
Qed.
Lemma short_valued c s v a : c ≠ 45 → valued_option (45 :: c :: s) v a = None.
Proof.
  intros Hc. unfold Cli.valued_option.
  repeat (rewrite bool_decide_eq_false_2 by (intros [= ? _]; by apply Hc)). done.
Qed.

Lemma parse_short c s it a :
  c ≠ 45 → a_target a = None →
  parse_loop ((45 :: c :: s) :: it) a =
    '(a, used) ← parse_short_options (c :: s) (head it) a;
    match used, it with true, _ :: it => parse_loop it a | _, _ => parse_loop it a end.
Proof.
  intros Hc Ht. cbn [Cli.parse_loop]. rewrite Ht.
  rewrite bool_decide_eq_false_2 by by intros [? ?]. cbn [andb].
  rewrite bool_decide_eq_false_2 by (intros [= ? _]; by apply Hc).
  rewrite short_named, short_valued by done. cbn [is_short]. rewrite Z.eqb_refl.
  by rewrite (proj2 (Z.eqb_neq c 45) Hc).
Qed.
End loop.

(** ** Long hand

    ssh's ways of writing single letters, undone: one letter per argument, and every
    value an argument of its own. *)

(** A cluster apart, and whether its last letter waits for the next argument. A dash
    inside a cluster, which is an unknown letter, stays where it is. *)
Fixpoint spread (flags : list Z) : list (list Z) * bool :=
  match flags with
  | [] => ([], false)
  | c :: rest =>
    if takes_value c then match rest with [] => ([dash c], true) | _ => ([dash c; rest], false) end
    else
      match rest with
      | [] => ([dash c], false)
      | d :: _ =>
        if d =? 45 then ([45 :: c :: rest], false)
        else let '(l, u) := spread rest in (dash c :: l, u)
      end
  end.

Definition takes_next (arg : list Z) : bool :=
  bool_decide (arg ∈ [str "--forget-host"; str "--port"; str "--server-cmd"; str "--server-port"; str "--put"; str "--get"]).

(** The arguments in long hand, up to the host or the escape. *)
Fixpoint longhand (it : list (list Z)) : list (list Z) :=
  match it with
  | [] => []
  | arg :: it =>
    if bool_decide (arg = str "--") then arg :: it
    else if is_short arg then
      let '(l, u) := spread (drop 1 arg) in
      l ++ (if (u : bool) then match it with v :: it => v :: longhand it | [] => [] end else longhand it)
    else if takes_next arg then arg :: match it with v :: it => v :: longhand it | [] => [] end
    else if starts_dash arg then arg :: longhand it
    else arg :: it
  end.

Lemma apply_target c v a a' : apply_valued_option c v a = Parsed a' → a_target a' = a_target a.
Proof. unfold apply_valued_option. repeat case_match; try done; intros [= <-]; by repeat case_match. Qed.

Lemma bind_parsed {A B} (m : Outcome A) (f : A → Outcome B) b :
  m ≫= f = Parsed b → ∃ a, m = Parsed a ∧ f a = Parsed b.
Proof. destruct m; try done. by exists a. Qed.

Lemma bind_ext {A B} (m : Outcome A) (f g : A → Outcome B) :
  (∀ a, m = Parsed a → f a = g a) → m ≫= f = m ≫= g.
Proof. destruct m; cbn; auto. Qed.

Lemma short_target flags : ∀ next a a' u, parse_short_options flags next a = Parsed (a', u) → a_target a' = a_target a.
Proof.
  induction flags as [|c rest IH]; intros next a a' u; cbn [parse_short_options]; [by intros [= <- _]|].
  destruct (takes_value c).
  - destruct rest, next; try done; intros (b & Hb & [= <- _])%bind_parsed; by eapply apply_target.
  - intros (b & Hb & Hr)%bind_parsed. rewrite (IH _ _ _ _ Hr). by eapply plain_target.
Qed.

(** The next argument is used by a cluster that waits for it, and only by it. *)
Lemma short_waits flags : ∀ next next' a,
  ((spread flags).2 = false → parse_short_options flags next a = parse_short_options flags next' a) ∧
  ∀ a' u, parse_short_options flags next a = Parsed (a', u) → u = (spread flags).2.
Proof.
  induction flags as [|c rest IH]; intros next next' a; cbn [parse_short_options spread];
    [split; [done|by intros ?? [= _ <-]]|].
  destruct (takes_value c) eqn:Hc.
  - destruct rest as [|d rest]; cbn.
    + split; [done|]. intros a' u. destruct next; [|done]. by intros (b & _ & [= _ <-])%bind_parsed.
    + split; [by destruct next, next'|]. intros a' u. destruct next; by intros (b & _ & [= _ <-])%bind_parsed.
  - destruct rest as [|d rest]; [|destruct (Z.eqb_spec d 45) as [->|Hd]].
    + cbn. split; [done|]. intros a' u. by intros (b & _ & [= _ <-])%bind_parsed.
    + cbn [snd]. change (parse_short_options (45 :: rest)) with
        (λ next a, a ← plain_option 45 a; parse_short_options rest next a). cbn beta.
      split; [intros _; apply bind_ext; intros; by rewrite !plain_dash|].
      intros a' u (b & _ & Hb)%bind_parsed. by rewrite plain_dash in Hb.
    + assert ((let '(l, u) := spread (d :: rest) in (dash c :: l, u)).2 = (spread (d :: rest)).2) as ->
        by by destruct (spread (d :: rest)).
      split; [intros Hu; apply bind_ext; intros; by apply IH|].
      intros a' u (b & _ & Hb)%bind_parsed. by eapply IH in Hb.
Qed.

(** A cluster that waits is an error without a next argument. *)
Lemma short_needs flags : ∀ a b, parse_short_options flags None a ≠ Parsed (b, true).
Proof.
  induction flags as [|c rest IH]; intros a b; cbn [parse_short_options]; [done|].
  destruct (takes_value c).
  - destruct rest; [done|]. by intros (x & _ & ?)%bind_parsed.
  - intros (x & _ & Hx)%bind_parsed. by apply IH in Hx.
Qed.

(** Two literals differ. *)
Ltac lit := apply (bool_decide_unpack _); vm_compute; exact I.

Section longhand.
Context (file_size : list Z → option Z).
Local Abbreviation parse_loop := (parse_loop file_size).
Local Abbreviation valued_option := (valued_option file_size).

(** The loop after an argument that may have used the next one. *)
Definition go_on (it : list (list Z)) (r : Args * bool) : Outcome Args :=
  match r.2, it with true, _ :: it => parse_loop it r.1 | _, _ => parse_loop it r.1 end.

Lemma parse_cluster c s it a :
  c ≠ 45 → a_target a = None →
  parse_loop ((45 :: c :: s) :: it) a = parse_short_options (c :: s) (head it) a ≫= go_on it.
Proof. intros. rewrite parse_short by done. apply bind_ext. by intros []. Qed.

Lemma spread_cons c rest : spread (c :: rest) =
  if takes_value c then match rest with [] => ([dash c], true) | _ => ([dash c; rest], false) end
  else
    match rest with
    | [] => ([dash c], false)
    | d :: _ =>
      if d =? 45 then ([45 :: c :: rest], false) else let '(l, u) := spread rest in (dash c :: l, u)
    end.
Proof. done. Qed.
Lemma short_cons c rest next a : parse_short_options (c :: rest) next a =
  if takes_value c then
    match rest, next with
    | [], Some value => a ← apply_valued_option c value a; Parsed (a, true)
    | [], None => UsageExit (NeedsValue (dash c))
    | _, _ => a ← apply_valued_option c rest a; Parsed (a, false)
    end
  else a ← plain_option c a; parse_short_options rest next a.
Proof. done. Qed.

Lemma spread_parse it s : ∀ c a,
  c ≠ 45 → a_target a = None →
  parse_loop ((spread (c :: s)).1 ++ it) a = parse_short_options (c :: s) (head it) a ≫= go_on it.
Proof.
  induction s as [|d s IH]; intros c a Hc Ht; rewrite spread_cons, short_cons.
  - destruct (takes_value c) eqn:Hv; cbn [fst app]; unfold dash; rewrite parse_cluster, short_cons by done;
      by rewrite Hv.
  - destruct (takes_value c) eqn:Hv; cbn [fst app].
    + unfold dash. rewrite parse_cluster, short_cons by done. cbn [head]. rewrite Hv.
      by destruct (apply_valued_option c (d :: s) a).
    + destruct (Z.eqb_spec d 45) as [->|Hd]; cbn [fst app].
      * rewrite parse_cluster, short_cons by done. by rewrite Hv.
      * pose proof (IH d) as IHd. destruct (spread (d :: s)) as [l u]. cbn [fst app] in *. unfold dash.
        rewrite parse_cluster, short_cons by done. rewrite Hv.
        destruct (plain_option c a) as [b| | |] eqn:Hb; try done.
        transitivity (parse_loop (l ++ it) b); [done|].
        rewrite (IHd b) by (done || by rewrite (plain_target _ _ _ Hb)). done.
Qed.

Lemma named_target arg a r a' : named_option arg a = Some r → r = Parsed a' → a_target a' = a_target a.
Proof. unfold named_option. repeat case_match; try done; by intros [= <-] [= <-]. Qed.

Lemma valued_target arg v a r a' : valued_option arg v a = Some r → r = Parsed a' → a_target a' = a_target a.
Proof.
  unfold Cli.valued_option. intros Hr ->. revert Hr.
  repeat (case_bool_decide; [intros [= Hr]|]); try done.
  1-4: apply bind_parsed in Hr as (x & _ & [= <-]); done.
  all: repeat case_match; try done; by injection Hr as <-.
Qed.

(** The options that take the next argument are none of the others. *)
Lemma takes_next_valued arg v a : takes_next arg = true →
  named_option arg a = None ∧ is_Some (valued_option arg v a) ∧ is_short arg = false ∧ arg ≠ str "--" ∧
  (v = None → ∀ r a', valued_option arg v a = Some r → r ≠ Parsed a').
Proof.
  unfold takes_next. rewrite bool_decide_eq_true. intros Harg.
  assert (named_option arg a = None ∧ is_short arg = false ∧ arg ≠ str "--") as (? & ? & ?).
  { rewrite !elem_of_cons in Harg. unfold named_option.
    destruct Harg as [->|[->|[->|[->|[->|[->|[]%elem_of_nil]]]]]];
      (split; [repeat (rewrite bool_decide_eq_false_2 by lit); reflexivity|split; [vm_compute; reflexivity|lit]]). }
  rewrite !elem_of_cons in Harg. split_and!; try done; unfold Cli.valued_option.
  - repeat (case_bool_decide; [by eexists|]). exfalso. by destruct Harg as [?|[?|[?|[?|[?|[?|[]%elem_of_nil]]]]]].
  - intros -> r a'. by repeat (case_bool_decide; [by intros [= <-]|]).
Qed.
Lemma not_valued arg v a : takes_next arg = false → valued_option arg v a = None.
Proof.
  unfold takes_next. rewrite bool_decide_eq_false, !elem_of_cons. intros Hn. unfold Cli.valued_option.
  repeat (rewrite bool_decide_eq_false_2 by (intros ->; apply Hn; tauto)). done.
Qed.
End longhand.

Section equivalence.
Context (file_size : list Z → option Z).
Local Abbreviation parse_loop := (parse_loop file_size).
Local Abbreviation go_on := (go_on file_size).

(** The rest of the arguments, where they agree with their long hand. *)
Definition agrees (n : nat) : Prop :=
  ∀ it a, (length it < n)%nat → a_target a = None → parse_loop it a = parse_loop (longhand it) a.

Definition after_cluster (u : bool) (it : list (list Z)) : list (list Z) :=
  if u then match it with v :: it => v :: longhand it | [] => [] end else longhand it.

Lemma longhand_cluster n c s it a :
  agrees n → (length it < n)%nat → c ≠ 45 → a_target a = None →
  parse_loop ((45 :: c :: s) :: it) a =
    parse_loop ((spread (c :: s)).1 ++ after_cluster (spread (c :: s)).2 it) a.
Proof.
  intros Hn Hlen Hc Ht. rewrite spread_parse, parse_cluster by done.
  destruct (short_waits (c :: s) (head it) (head (after_cluster (spread (c :: s)).2 it)) a) as [Hsame Hused].
  assert (parse_short_options (c :: s) (head it) a =
    parse_short_options (c :: s) (head (after_cluster (spread (c :: s)).2 it)) a) as <-.
  { destruct (spread (c :: s)).2; [by destruct it|by apply Hsame]. }
  apply bind_ext. intros [b u] Hb. pose proof (Hused _ _ Hb) as ->. apply short_target in Hb.
  unfold Cli.go_on. cbn [fst snd]. destruct (spread (c :: s)).2; cbn [after_cluster].
  - destruct it as [|v it]; [done|]. apply Hn; [cbn in Hlen; lia|congruence].
  - apply Hn; [done|congruence].
Qed.

Lemma is_short_spec arg : is_short arg = true → ∃ c s, arg = 45 :: c :: s ∧ c ≠ 45.
Proof.
  unfold is_short. destruct arg as [|d [|c s]]; try done.
  intros [->%Z.eqb_eq Hc%negb_true_iff%Z.eqb_neq]%andb_true_iff. by exists c, s.
Qed.

(** C30 Every way of writing the options means its long hand: letters in one argument
    are the letters apart, and a value attached to its letter is the value as the
    next argument; from the host or the escape on, the arguments are left alone. *)
Theorem options_mean_longhand argv a :
  a_target a = None → parse_loop argv a = parse_loop (longhand argv) a.
Proof.
  assert (∀ n, agrees n) as H; [|apply (H (S (length argv))); lia].
  clear. induction n as [|n IH]; intros it a Hlen Ht; [lia|].
  destruct it as [|arg it]; [done|]. cbn in Hlen. cbn [longhand].
  case_bool_decide as Hdd; [done|]. destruct (is_short arg) eqn:Hs.
  { destruct (is_short_spec _ Hs) as (c & s & -> & Hc). change (drop 1 (45 :: c :: s)) with (c :: s).
    rewrite (longhand_cluster n) by (done || lia). by destruct (spread (c :: s)). }
  assert (∀ it, parse_loop (arg :: it) a =
    match named_option arg a with
    | Some r => a ← r; parse_loop it a
    | None =>
      match valued_option file_size arg (head it) a with
      | Some r => a ← r; match it with _ :: it => parse_loop it a | [] => Parsed a end
      | None =>
        if bool_decide (a_target a = None) && negb (starts_dash arg) then
          parse_loop it (set_a_target (Some arg) a)
        else UsageExit (UnknownOption arg)
      end
    end) as Hone.
  { intros it'. cbn [Cli.parse_loop]. rewrite Ht, Hs.
    rewrite bool_decide_eq_false_2 by by intros [? ?]. cbn [andb]. by rewrite bool_decide_eq_false_2. }
  destruct (takes_next arg) eqn:Hn.
  { destruct (takes_next_valued file_size arg (head it) a Hn) as (Hnam & Hval & _ & _ & Hnone).
    rewrite !Hone, Hnam. destruct it as [|v it]; [done|]. cbn [head].
    destruct Hval as [r Hr]. cbn [head] in Hr. rewrite Hr. apply bind_ext. intros b Hb.
    apply IH; [cbn in Hlen; lia|]. rewrite (valued_target _ _ _ _ _ _ Hr Hb). done. }
  rewrite !Hone, !not_valued by done. destruct (starts_dash arg) eqn:Hd.
  { rewrite Hone, not_valued by done. rewrite andb_false_r. destruct (named_option arg a) as [r|] eqn:Hr; [|done].
    apply bind_ext. intros b Hb. apply IH; [lia|]. rewrite (named_target _ _ _ _ Hr Hb). done. }
  by rewrite Hone, not_valued.
Qed.

Lemma parse_one arg it a :
  a_target a = None → arg ≠ str "--" →
  parse_loop (arg :: it) a =
    match named_option arg a with
    | Some r => a ← r; parse_loop it a
    | None =>
      match valued_option file_size arg (head it) a with
      | Some r => a ← r; match it with _ :: it => parse_loop it a | [] => Parsed a end
      | None =>
        if is_short arg then parse_short_options (drop 1 arg) (head it) a ≫= go_on it
        else if negb (starts_dash arg) then parse_loop it (set_a_target (Some arg) a)
        else UsageExit (UnknownOption arg)
      end
    end.
Proof.
  intros Ht Hdd. cbn [Cli.parse_loop]. rewrite Ht. rewrite bool_decide_eq_false_2 by by intros [? ?]. cbn [andb].
  rewrite (bool_decide_eq_false_2 (arg = _)) by done. rewrite bool_decide_eq_true_2 by done.
  destruct (named_option arg a); [done|]. destruct (valued_option file_size arg (head it) a); [done|].
  destruct (is_short arg); [|done]. apply bind_ext. by intros [].
Qed.

(** The host is no option. *)
Lemma plain_word w v a : starts_dash w = false →
  named_option w a = None ∧ valued_option file_size w v a = None ∧ is_short w = false ∧ w ≠ str "--".
Proof.
  intros Hw. assert (∀ s, starts_dash (str s) = true → w ≠ str s) as Hne by (intros s Hs ->; congruence).
  split_and!.
  - unfold named_option. repeat (rewrite bool_decide_eq_false_2 by (apply Hne; vm_compute; reflexivity)). done.
  - unfold Cli.valued_option. repeat (rewrite bool_decide_eq_false_2 by (apply Hne; vm_compute; reflexivity)). done.
  - destruct w as [|d [|c s]]; try done. cbn in *. by rewrite Hw.
  - apply Hne. vm_compute. reflexivity.
Qed.

Lemma target_stays it a b : is_Some (a_target a) → parse_loop it a = Parsed b → is_Some (a_target b).
Proof.
  intros Ht. destruct it as [|arg it]; cbn [Cli.parse_loop]; [by intros [= <-]|].
  rewrite (bool_decide_eq_true_2 (is_Some _)) by done. cbn [andb].
  destruct (decide (arg = str "--")); [rewrite bool_decide_eq_true_2 by done|rewrite bool_decide_eq_false_2 by done];
    cbn [negb]; by intros [= <-].
Qed.

(** Options that were read go on with what follows. *)
Lemma parse_app n : ∀ opts more a b,
  (length opts < n)%nat → a_target a = None → a_target b = None → str "--" ∉ opts →
  parse_loop opts a = Parsed b → parse_loop (opts ++ more) a = parse_loop more b.
Proof.
  induction n as [|n IH]; intros opts more a b Hlen Ha Hb Hdd; [lia|].
  destruct opts as [|arg opts]; [by intros [= <-]|]. cbn in Hlen. apply not_elem_of_cons in Hdd as [Harg Hdd].
  cbn [app]. rewrite !parse_one by done.
  destruct (named_option arg a) as [r|] eqn:Hn.
  { intros (c & -> & Hc)%bind_parsed. cbn. apply IH; try done; [lia|]. by rewrite (named_target _ _ _ _ Hn eq_refl). }
  destruct opts as [|v opts]; cbn [app head].
  - destruct (takes_next arg) eqn:Htn.
    { destruct (takes_next_valued file_size arg None a Htn) as (_ & [r Hr] & _ & _ & Hno). rewrite Hr.
      intros (c & -> & _)%bind_parsed. by destruct (Hno eq_refl _ c Hr). }
    rewrite !not_valued by done. destruct (is_short arg).
    + intros ([c u] & Hc & Hgo)%bind_parsed.
      destruct (short_waits (drop 1 arg) None (head more) a) as [Hsame Hused].
      pose proof (Hused _ _ Hc) as Hu. pose proof (short_target _ _ _ _ _ Hc) as Hct.
      assert (u = false) as ->.
      { destruct u; [|done]. exfalso. by eapply short_needs. }
      rewrite <- Hsame, Hc by done. unfold Cli.go_on in *. cbn [fst snd] in *. injection Hgo as ->. done.
    + destruct (negb _); [|done]. intros Hp. apply target_stays in Hp; [|by eexists]. rewrite Hb in Hp. by destruct Hp.
  - destruct (valued_option file_size arg (Some v) a) as [r|] eqn:Hr.
    { intros (c & -> & Hc)%bind_parsed. cbn. apply not_elem_of_cons in Hdd as [_ Hdd].
      apply IH; try done; [cbn in Hlen; lia|]. by rewrite (valued_target _ _ _ _ _ _ Hr eq_refl). }
    destruct (is_short arg).
    + intros ([c u] & Hc & Hgo)%bind_parsed. rewrite Hc. cbn. pose proof (short_target _ _ _ _ _ Hc) as Hct.
      unfold Cli.go_on in *. cbn [fst snd] in *. destruct u.
      * apply not_elem_of_cons in Hdd as [_ Hdd]. apply IH; try done; [cbn in Hlen; lia|congruence].
      * apply (IH (v :: opts)); try done; [lia|congruence].
    + destruct (negb _); [|done]. intros Hp. apply target_stays in Hp; [|by eexists]. rewrite Hb in Hp. by destruct Hp.
Qed.

(** C31 The command is what follows the host, word for word, whatever its words look
    like, and the options before the host are read as if they stood alone. *)
Theorem command_is_verbatim opts host word words a b :
  parse_loop opts a = Parsed b → a_target a = None → a_target b = None → str "--" ∉ opts →
  starts_dash host = false → word ≠ str "--" →
  parse_loop (opts ++ host :: word :: words) a =
    Parsed (set_a_command (a_command b ++ word :: words) (set_a_target (Some host) b)).
Proof.
  intros Hp Ha Hb Hdd Hh Hw. rewrite (parse_app (S (length opts)) _ _ _ b) by (done || lia).
  destruct (plain_word host (Some word) b Hh) as (Hn & Hv & Hs & Hne).
  rewrite parse_one by done. cbn [head]. rewrite Hn, Hv, Hs, Hh. cbn [negb Cli.parse_loop].
  rewrite bool_decide_eq_true_2 by by eexists. by rewrite bool_decide_eq_false_2.
Qed.
End equivalence.

(** ** What the arguments are *)
















Section typed.
Context (file_size : list Z → option Z).
Local Abbreviation parse_loop := (parse_loop file_size).






End typed.

(** ** Runs *)

(** [noissh -NTD1080 -o ForwardAgent=yes -p 2222 u@h -v --ssh] *)
Definition sample_argv : list (list Z) :=
  [str "-NTD1080"; str "-o"; str "ForwardAgent=yes"; str "-p2222"; str "u@h"; str "-v"; str "--ssh"].
Definition sample_args : Outcome Args := parse_args (λ _, None) None sample_argv.

Lemma sample_longhand : longhand sample_argv =
  [str "-N"; str "-T"; str "-D"; str "1080"; str "-o"; str "ForwardAgent=yes"; str "-p"; str "2222"; str "u@h"; str "-v"; str "--ssh"].
Proof. vm_compute. reflexivity. Qed.

Lemma sample_parsed : ∃ a, sample_args = Parsed a ∧ a_no_command a = true ∧
  a_dynamic_forwards a = [(str "127.0.0.1", 1080)] ∧ a_ssh_args a = [str "-p"; str "2222"] ∧
  a_command a = [str "-v"; str "--ssh"] ∧ a_verbose a = false.
Proof. eexists. split; [vm_compute; reflexivity|]. vm_compute. by split_and!. Qed.

(** A blank before its name hides an option from the filter. *)
Lemma blank_hides_option : ssh_option_name (str " RemoteCommand=x") = [] ∧
  ssh_option_name (str "RemoteCommand=x") ∈ SSH_OPTIONS_NOT_PASSED.
Proof. split; [vm_compute; reflexivity|]. apply (bool_decide_unpack _). vm_compute. exact I. Qed.

Definition no_args : Args :=
  mkArgs false 51820 None (str "noisshd") [] [] [] [] None false false [] false None false None false false false None.

Lemma options_mean_longhand_witness :
  parse_loop (λ _, None) [str "-NT"; str "-D1080"; str "h"] no_args =
  parse_loop (λ _, None) [str "-N"; str "-T"; str "-D"; str "1080"; str "h"] no_args.
Proof. exact (options_mean_longhand (λ _, None) [str "-NT"; str "-D1080"; str "h"] no_args eq_refl). Defined.

Lemma command_is_verbatim_witness :
  parse_loop (λ _, None) ([str "-N"] ++ str "h" :: str "-v" :: [str "--ssh"]) no_args =
  Parsed (set_a_command [str "-v"; str "--ssh"] (set_a_target (Some (str "h")) (set_a_no_command true no_args))).
Proof.
  apply (command_is_verbatim (λ _, None) [str "-N"] (str "h") (str "-v") [str "--ssh"] no_args
    (set_a_no_command true no_args)); [vm_compute; reflexivity|reflexivity|reflexivity|lit|vm_compute; reflexivity|lit].
Defined.

