(* ===== verification/Tty.v ===== *)
(** * The local terminal ([src/tty.rs])

    Writing to a terminal that may be non-blocking, and the incremental renderer: what
    it writes, and what a terminal that receives it shows. The operating system's
    answers are data; the terminal is the program's own emulator. *)

From S2P Require Import Prelude Cell Text Grid GridOps.

(** ** Writing *)

(** The answers to [write], and whether the wait for room succeeds. *)
Inductive WriteAns := Wrote (n : nat) | Interrupted | WouldBlock (waited : bool) | WriteFailed.

(** What was written, and how it ended; [None] while more answers are needed.
    @ src/tty.rs:81-95 write_all_fd *)
Fixpoint write_all_fd (answers : list WriteAns) (buf : list Z) : list Z * option bool :=
  match buf with
  | [] => ([], Some true)
  | _ =>
    match answers with
    | [] => ([], None)
    | Wrote O :: _ => ([], Some false)
    | Wrote n :: answers => let '(out, r) := write_all_fd answers (drop n buf) in (take n buf ++ out, r)
    | Interrupted :: answers => write_all_fd answers buf
    | WouldBlock true :: answers => write_all_fd answers buf
    | WouldBlock false :: _ => ([], Some false)
    | WriteFailed :: _ => ([], Some false)
    end
  end.

(** The number of bytes taken, with the answers that are left.
    @ src/tty.rs:59-72 TtyWriter::write *)
Fixpoint tty_write (answers : list WriteAns) : option (option nat * list WriteAns) :=
  match answers with
  | [] => None
  | Wrote n :: answers => Some (Some n, answers)
  | Interrupted :: answers => tty_write answers
  | WouldBlock true :: answers => tty_write answers
  | WouldBlock false :: answers => Some (None, answers)
  | WriteFailed :: answers => Some (None, answers)
  end.

(** The standard library's [write_all] over it: one call per round. *)
Fixpoint tty_write_all (fuel : nat) (answers : list WriteAns) (buf : list Z) : list Z * option bool :=
  match fuel, buf with
  | _, [] => ([], Some true)
  | O, _ => ([], None)
  | S fuel, _ =>
    match tty_write answers with
    | None => ([], None)
    | Some (None, _) | Some (Some O, _) => ([], Some false)
    | Some (Some n, answers) =>
      let '(out, r) := tty_write_all fuel answers (drop n buf) in (take n buf ++ out, r)
    end
  end.

(** What the terminal says its size is, if it says so.
    @ src/tty.rs:107-112 terminal_size *)
Definition terminal_size (answer : option (Z * Z)) : Z * Z :=
  match answer with
  | Some (w, h) => if (0 <? w) && (0 <? h) then (w, h) else (80, 24)
  | None => (80, 24)
  end.

(** ** Painting *)

Definition ESC_ : list Z := [27; 91].
Definition HIDE_CURSOR : list Z := [27; 91; 63; 50; 53; 108].
Definition SHOW_CURSOR : list Z := [27; 91; 63; 50; 53; 104].
Definition CLEAR_LINE : list Z := [27; 91; 50; 75].
Definition RESET_SGR : list Z := [27; 91; 48; 109].

Definition has (cell_flags bits : Z) : bool := negb (Z.land cell_flags bits =? 0).

(** [";38;5;{n}"] and the like. *)
Definition color_text (head : list Z) (c : Color) : list Z :=
  match c with
  | Default => []
  | Indexed n => 59 :: head ++ [59; 53; 59] ++ digits n
  | Rgb r g b => 59 :: head ++ [59; 50; 59] ++ digits r ++ 59 :: digits g ++ 59 :: digits b
  end.

(** @ src/tty.rs:114-142 sgr_for *)
Definition sgr_for (cell_flags : Z) (fg bg : Color) : list Z :=
  [27; 91; 48]
  ++ (if has cell_flags BOLD then [59; 49] else [])
  ++ (if has cell_flags DIM then [59; 50] else [])
  ++ (if has cell_flags ITALIC then [59; 51] else [])
  ++ (if has cell_flags (Z.lor UNDERLINE PREDICTED) then [59; 52] else [])
  ++ (if has cell_flags REVERSE then [59; 55] else [])
  ++ color_text [51; 56] fg
  ++ color_text [52; 56] bg
  ++ [109].

(** @ src/tty.rs:146-148 Renderer *)
Record Renderer := mkRenderer { last_grid : option Grid }.

(** @ src/tty.rs:151-153 Renderer::new *)
Definition renderer_new : Renderer := mkRenderer None.

(** @ src/tty.rs:241-243 Renderer::invalidate *)
Definition invalidate (r : Renderer) : Renderer := mkRenderer None.

(** The whole screen is to be drawn. @ src/tty.rs:164-167 Renderer::paint *)
Definition paint_full (r : Renderer) (g : Grid) : bool :=
  match last_grid r with
  | Some prev => negb (rows prev =? rows g)%nat || negb (cols prev =? cols g)%nat
  | None => true
  end.

(** @ src/tty.rs:169-177 Renderer::paint *)
Definition changed_rows (r : Renderer) (g : Grid) : list nat :=
  filter (λ row, Is_true (paint_full r g ||
      match last_grid r with
      | Some p => existsb (λ c, bool_decide (cell p row c ≠ cell g row c)) (seq 0 (cols g))
      | None => true
      end)) (seq 0 (rows g)).

(** The cursor moved; its visibility changed. @ src/tty.rs:178-184 Renderer::paint *)
Definition cursor_changes (r : Renderer) (g : Grid) : bool * bool :=
  match last_grid r with
  | Some p =>
    (negb (cursor_row p =? cursor_row g)%nat || negb (cursor_col p =? cursor_col g)%nat,
     negb (Bool.eqb (cursor_visible p) (cursor_visible g)))
  | None => (true, true)
  end.

Definition attrs (c : Cell) : Z * Color * Color := (flags c, fg c, bg c).

(** The cells of a row; [cur] are the attributes in force, once there are any.
    @ src/tty.rs:197-208 Renderer::paint *)
Fixpoint paint_cells (cs : list Cell) (cur : option (Z * Color * Color)) : list Z :=
  match cs with
  | [] => []
  | c :: cs =>
    (if bool_decide (cur = Some (attrs c)) then [] else sgr_for (flags c) (fg c) (bg c))
    ++ ch c :: paint_cells cs (Some (attrs c))
  end.

Definition row_cells (g : Grid) (row : nat) : list Cell := cell g row <$> seq 0 (cols g).

Definition move_text (row col : nat) : list Z :=
  ESC_ ++ digits (Z.of_nat row + 1) ++ 59 :: digits (Z.of_nat col + 1) ++ [72].

(** @ src/tty.rs:196-209 Renderer::paint *)
Definition paint_row (g : Grid) (row : nat) : list Z :=
  ESC_ ++ digits (Z.of_nat row + 1) ++ [59; 49; 72] ++ CLEAR_LINE ++ paint_cells (row_cells g row) None ++ RESET_SGR.

(** What is drawn, if anything. @ src/tty.rs:164-233 Renderer::paint *)
Definition paint_text (r : Renderer) (g : Grid) : option (list Z) :=
  let changed := changed_rows r g in
  let '(cursor_moved, vis_changed) := cursor_changes r g in
  let repainting := negb (bool_decide (changed = [])) in
  if negb repainting && negb cursor_moved && negb vis_changed then None
  else Some (
    (if repainting then HIDE_CURSOR else [])
    ++ concat (paint_row g <$> changed)
    ++ (if repainting || cursor_moved then move_text (cursor_row g) (cursor_col g) else [])
    ++ (if repainting then if cursor_visible g then SHOW_CURSOR else []
        else if vis_changed then if cursor_visible g then SHOW_CURSOR else HIDE_CURSOR
        else [])).

(** What is handed to the writer, how it ended ([wrote] is the writer's answer), and
    the renderer afterwards. @ src/tty.rs:163-238 Renderer::paint *)
Definition paint (wrote : bool) (g : Grid) (r : Renderer) : list Z * bool * Renderer :=
  match paint_text r g with
  | None => ([], true, r)
  | Some text => if wrote then (text, true, mkRenderer (Some g)) else (text, false, r)
  end.

(** ** What the writers write *)

(** No answer counts more bytes than there were. *)
Definition honest_write (a : WriteAns) (len : nat) : Prop := match a with Wrote n => (n ≤ len)%nat | _ => True end.

(** What was written is the beginning of the text, and all of it exactly when the
    writer says so. *)
Lemma write_all_fd_prefix answers : ∀ buf out r,
  write_all_fd answers buf = (out, r) → (∃ rest, buf = out ++ rest) ∧ (r = Some true → out = buf).
Proof.
  induction answers as [|a answers IH]; intros [|b buf] out r; cbn; try (intros [= <- <-]; by split; [eexists|]).
  assert (∀ buf0 : list Z, ([], Some false) = (out, r) → (∃ rest, buf0 = out ++ rest) ∧ (r = Some true → out = buf0)) as Hf.
  { intros buf0 [= <- <-]. split; [by eexists|done]. }
  destruct a as [[|n]| |[]|]; try apply Hf; try apply IH.
  destruct (write_all_fd answers _) as [out1 r1] eqn:Hr. intros [= <- <-].
  destruct (IH _ _ _ Hr) as [[rest Hrest] Hall]. split.
  - exists rest. cbn in *. by rewrite <- (assoc_L (++)), <- Hrest, take_drop.
  - intros ->%Hall. cbn. by rewrite take_drop.
Qed.

(** The two ways of writing everything are one. *)
Lemma tty_write_all_same answers : ∀ fuel buf,
  (length answers ≤ fuel)%nat → tty_write_all fuel answers buf = write_all_fd answers buf.
Proof.
  assert (∀ n answers fuel buf, (length answers ≤ n)%nat → (n ≤ fuel)%nat →
    tty_write_all fuel answers buf = write_all_fd answers buf) as H; [|by intros; apply (H (length answers))].
  clear. induction n as [|n IH]; intros answers fuel buf Hn Hf.
  { destruct answers; [|cbn in Hn; lia]. by destruct fuel, buf. }
  destruct fuel as [|fuel]; [lia|]. destruct buf as [|b buf]; [by destruct answers|].
  induction answers as [|a answers IHa]; [done|]. cbn in Hn.
  destruct a as [[|m]| |[]|]; try done; try (apply IHa; cbn; lia).
  cbn. rewrite IH by lia. done.
Qed.

(** ** A terminal that understands what is written *)

(** A control sequence with numbers. *)
Definition params_text (nums : list Z) : list Z :=
  match nums with [] => [] | n :: nums => digits n ++ concat ((λ n, 59 :: digits n) <$> nums) end.
Definition csi (private : bool) (nums : list Z) (final : Z) : list Z :=
  ESC_ ++ (if private then [63] else []) ++ params_text nums ++ [final].

Definition printable (c : Z) : Prop := is_char c ∧ 32 ≤ c ∧ ¬ (127 ≤ c < 160).

(** What [vte] documents: between sequences, a control sequence with up to 32 numbers
    of 16 bits is dispatched with them, a printable character is printed, and a NUL is
    executed. *)
Class VteLaws (V : Vte) := {
  ground : Parser → Prop;
  ground_new : ground parser_new;
  parse_nothing q : ground q → parse q [] = ([], q);
  parse_csi q private nums final : ground q →
    nums ≠ [] → (length nums ≤ 32)%nat → Forall is_u16 nums → 64 ≤ final < 127 →
    ∃ q', ground q' ∧ ∀ rest, parse q (csi private nums final ++ rest) =
      let '(acts, q2) := parse q' rest in
      (CsiDispatch ((λ n, [n]) <$> nums) (if private then [63] else []) final :: acts, q2);
  parse_char q c : ground q → printable c →
    ∃ q', ground q' ∧ ∀ rest, parse q (utf8_char c ++ rest) =
      let '(acts, q2) := parse q' rest in (Print c :: acts, q2);
  parse_nul q : ground q →
    ∃ q', ground q' ∧ ∀ rest, parse q (0 :: rest) =
      let '(acts, q2) := parse q' rest in (Execute 0 :: acts, q2);
}.

Section shows.
Context (char_width : Z → nat) {V : Vte} {VL : VteLaws V}.
Local Abbreviation perform := (perform char_width).

(** Text that takes the terminal's grid from one state to another. *)
Definition turns (s : list Z) (g g' : Grid) : Prop := ∃ acts,
  (∀ q, ground q → ∃ q', ground q' ∧ ∀ rest, parse q (as_bytes s ++ rest) =
     let '(acts2, q2) := parse q' rest in (acts ++ acts2, q2)) ∧
  for_each acts perform g = Some g'.

Lemma turns_nil g : turns [] g g.
Proof.
  exists []. split; [|done]. intros q Hq. exists q. split; [done|]. intros rest. cbn. by destruct (parse q rest).
Qed.

Lemma turns_app s1 s2 g1 g2 g3 : turns s1 g1 g2 → turns s2 g2 g3 → turns (s1 ++ s2) g1 g3.
Proof.
  intros (a1 & H1 & R1) (a2 & H2 & R2). exists (a1 ++ a2). split.
  - intros q Hq. destruct (H1 q Hq) as (q1 & Hq1 & P1). destruct (H2 q1 Hq1) as (q2 & Hq2 & P2).
    exists q2. split; [done|]. intros rest. rewrite as_bytes_app, <- (assoc_L (++)), P1, P2.
    destruct (parse q2 rest). by rewrite (assoc_L (++)).
  - clear H1 H2. revert g1 R1. induction a1 as [|a a1 IH]; intros g1; cbn; [by intros [= ->]|].
    destruct (perform a g1) as [g|]; [apply IH|done].
Qed.

(** One action. *)
Lemma turns_one s a g g' :
  (∀ q, ground q → ∃ q', ground q' ∧ ∀ rest, parse q (as_bytes s ++ rest) =
     let '(acts2, q2) := parse q' rest in (a :: acts2, q2)) →
  perform a g = Some g' → turns s g g'.
Proof. intros Hs Hp. exists [a]. split; [done|]. cbn. by rewrite Hp. Qed.

Lemma as_bytes_ascii s : Forall (λ c, 0 ≤ c < 128) s → as_bytes s = s.
Proof.
  induction 1 as [|c s Hc Hs IH]; [done|]. unfold as_bytes in *. cbn. rewrite IH. unfold utf8_char.
  by rewrite (proj2 (Z.ltb_lt _ _)) by lia.
Qed.

Lemma digits_ascii n : is_u64 n → Forall (λ c, 0 ≤ c < 128) (digits n).
Proof.
  intros H. destruct (digits_spec n H) as (_ & Hd & _). eapply Forall_impl; [exact Hd|].
  intros c. unfold is_digit. lia.
Qed.

Lemma csi_ascii private nums final : Forall is_u16 nums → 64 ≤ final < 127 →
  Forall (λ c, 0 ≤ c < 128) (csi private nums final).
Proof.
  intros Hn Hf. unfold csi, ESC_. repeat apply Forall_app_2.
  - repeat constructor; lia.
  - destruct private; repeat constructor; lia.
  - destruct nums as [|n nums]; [constructor|]. cbn [params_text]. apply Forall_cons in Hn as [H0 Hn].
    apply Forall_app_2; [apply digits_ascii; unfold is_u16, is_u64 in *; lia|]. induction Hn as [|m nums Hm Hn IH]; cbn; [constructor|].
    constructor; [lia|]. apply Forall_app_2; [apply digits_ascii; unfold is_u16, is_u64 in *; lia|done].
  - repeat constructor; lia.
Qed.

Lemma turns_csi (private : bool) (nums : list Z) final g g' :
  nums ≠ [] → (length nums ≤ 32)%nat → Forall is_u16 nums → 64 ≤ final < 127 →
  csi_dispatch ((λ n, [n]) <$> nums) (if private then [63] else []) final g = Some g' →
  turns (csi private nums final) g g'.
Proof.
  intros Hne Hl Hn Hf Hd.
  apply (turns_one _ (CsiDispatch ((λ n, [n]) <$> nums) (if private then [63] else []) final)); [|exact Hd]. intros q Hq.
  rewrite as_bytes_ascii by by apply csi_ascii. by apply parse_csi.
Qed.

Lemma turns_char c g g' : printable c → put_char char_width c g = Some g' → turns [c] g g'.
Proof.
  intros Hc Hp. apply (turns_one _ (Print c)); [|done]. intros q Hq. unfold as_bytes. cbn. rewrite app_nil_r.
  by apply parse_char.
Qed.

Lemma turns_nul g : turns [0] g g.
Proof. apply (turns_one _ (Execute 0)); [|done]. intros q Hq. by apply parse_nul. Qed.
End shows.

(** ** What a cell looks like *)

(** A guess is underlined; concealed and struck-out text have no rendition. *)
Definition shown_flags (f : Z) : Z :=
  let lit (bits as_ acc : Z) := if has f bits then Z.lor acc as_ else acc in
  lit REVERSE REVERSE (lit (Z.lor UNDERLINE PREDICTED) UNDERLINE (lit ITALIC ITALIC (lit DIM DIM (lit BOLD BOLD 0)))).
Definition shown (c : Cell) : Cell := mkCell (ch c) (fg c) (bg c) (shown_flags (flags c)).
(** The pen that draws it. *)
Definition shown_pen (c : Cell) : Cell := with_ch 32 (shown c).

Definition color_codes (head : Z) (c : Color) : list Z :=
  match c with Default => [] | Indexed n => [head; 5; n] | Rgb r g b => [head; 2; r; g; b] end.
Definition sgr_codes (b d i u r : bool) (fg bg : Color) : list Z :=
  (if b then [1] else []) ++ (if d then [2] else []) ++ (if i then [3] else [])
  ++ (if u then [4] else []) ++ (if r then [7] else []) ++ color_codes 38 fg ++ color_codes 48 bg.
Definition cell_codes (c : Cell) : list Z :=
  let f := flags c in
  sgr_codes (has f BOLD) (has f DIM) (has f ITALIC) (has f (Z.lor UNDERLINE PREDICTED)) (has f REVERSE) (fg c) (bg c).

Lemma color_text_codes h c : color_text (digits h) c = concat ((λ n, 59 :: digits n) <$> color_codes h c).
Proof.
  destruct c; cbn [color_codes fmap list_fmap concat color_text]; rewrite ?app_nil_r, <- ?(assoc_L (++)); reflexivity.
Qed.

Lemma sgr_for_csi c : sgr_for (flags c) (fg c) (bg c) = csi false (0 :: cell_codes c) 109.
Proof.
  unfold sgr_for, csi, params_text, cell_codes, sgr_codes.
  rewrite !fmap_app, !concat_app, <- !(assoc_L (++)).
  assert (∀ b n, (if b : bool then 59 :: digits n else []) = concat ((λ n, 59 :: digits n) <$> (if b then [n] else []))) as Hb.
  { intros [] n; cbn; [by rewrite app_nil_r|done]. }
  rewrite <- !Hb, <- (color_text_codes 38), <- (color_text_codes 48). reflexivity.
Qed.

Lemma color_codes_u16 h c : is_u16 h → color_wf c → Forall is_u16 (color_codes h c).
Proof. intros Hh. destruct c; cbn; [constructor|..]; intros; repeat constructor; unfold is_u8, is_u16 in *; lia. Qed.

Lemma sgr_codes_u16 b d i u r fg bg : color_wf fg → color_wf bg → Forall is_u16 (sgr_codes b d i u r fg bg).
Proof.
  intros Hf Hb. unfold sgr_codes.
  repeat apply Forall_app_2; try (apply color_codes_u16; [unfold is_u16; lia|done]);
    match goal with |- context [if ?x then _ else _] => destruct x end; repeat constructor; unfold is_u16; lia.
Qed.

Lemma length_sgr_codes b d i u r fg bg : (length (sgr_codes b d i u r fg bg) ≤ 15)%nat.
Proof.
  unfold sgr_codes. rewrite !length_app.
  assert (∀ h c, (length (color_codes h c) ≤ 5)%nat) as H by (intros h []; cbn; lia).
  pose proof (H 38 fg). pose proof (H 48 bg). destruct b, d, i, u, r; cbn [length]; lia.
Qed.

(** The attribute codes of the one side are what the other side reads. *)
Lemma sgr_codes_pen b d i u r fg bg p : color_wf fg → color_wf bg →
  let nums := 0 :: sgr_codes b d i u r fg bg in
  sgr_loop (length ((λ n, [n]) <$> nums)) ((λ n, [n]) <$> nums) 0 p =
    mkCell 32 fg bg
      (let lit (x : bool) as_ acc := if x then Z.lor acc as_ else acc in
       lit r REVERSE (lit u UNDERLINE (lit i ITALIC (lit d DIM (lit b BOLD 0))))).
Proof.
  intros Hf Hb.
  assert (∀ n, is_u8 n → as_u8 n = n) as Hu8 by apply as_u8_id.
  destruct fg as [|n|x y z], bg as [|n'|x' y' z']; cbn in Hf, Hb;
    destruct b, d, i, u, r; cbv -[as_u8]; rewrite ?Hu8 by tauto; reflexivity.
Qed.

Lemma turns_sgr (char_width : Z → nat) {V : Vte} {VL : VteLaws V} c g : cell_wf c →
  turns char_width (sgr_for (flags c) (fg c) (bg c)) g (set_pen (shown_pen c) g).
Proof.
  intros (_ & Hf & Hb & _). rewrite sgr_for_csi. apply turns_csi.
  - done.
  - pose proof (length_sgr_codes (has (flags c) BOLD) (has (flags c) DIM) (has (flags c) ITALIC)
      (has (flags c) (Z.lor UNDERLINE PREDICTED)) (has (flags c) REVERSE) (fg c) (bg c)). cbn. unfold cell_codes. lia.
  - constructor; [unfold is_u16; lia|by apply sgr_codes_u16].
  - lia.
  - unfold csi_dispatch. cbn [Z.eqb Pos.eqb orb andb head bool_decide]. unfold set_sgr. cbn [fmap list_fmap].
    f_equal. f_equal. unfold shown_pen, shown, with_ch, shown_flags. cbn [Cell.flags Cell.fg Cell.bg].
    apply (sgr_codes_pen (has (flags c) BOLD) (has (flags c) DIM) (has (flags c) ITALIC)
      (has (flags c) (Z.lor UNDERLINE PREDICTED)) (has (flags c) REVERSE) (fg c) (bg c) (pen g) Hf Hb).
Qed.

(** ** Rows on the terminal *)

Lemma inserts_lt {A} (x : A) i xs : ∀ j l, (i < j)%nat →
  list_inserts j xs (<[i := x]> l) = <[i := x]> (list_inserts j xs l).
Proof.
  induction xs as [|y xs IH]; intros j l Hj; [done|]. cbn. rewrite IH by lia. by rewrite list_insert_insert_ne by lia.
Qed.

Section rows.
Context (char_width : Z → nat) {V : Vte} {VL : VteLaws V}.
Local Abbreviation turns := (turns char_width).
Local Abbreviation put_char := (put_char char_width).

(** The cells of a row that a terminal can show: single-width glyphs, and
    double-width ones with their spacer. *)
Inductive drawable : list Cell → Prop :=
| drawable_nil : drawable []
| drawable_narrow c cs :
    cell_wf c → printable (ch c) → char_width (ch c) = 1%nat → drawable cs → drawable (c :: cs)
| drawable_wide c s cs :
    cell_wf c → printable (ch c) → char_width (ch c) = 2%nat → ch s = 0 → attrs s = attrs c →
    drawable cs → drawable (c :: s :: cs).

(** What painting a row leaves alone. *)
Definition kept (g : Grid) := (rows g, cols g, cursor_row g, cursor_visible g, autowrap g, length (cells g)).

(** The cursor is at column [k] and the next glyph goes there. *)
Definition at_col (k : nat) (g : Grid) : Prop := (k < cols g)%nat → cursor_col g = k ∧ wrap_pending g = false.

Definition on_grid (g : Grid) : Prop := length (cells g) = (rows g * cols g)%nat ∧ (cursor_row g < rows g)%nat.

Lemma kept_on_grid g g' : kept g' = kept g → on_grid g → on_grid g'.
Proof. unfold kept, on_grid. intros [= H1 H2 H3 _ _ H6] [? ?]. rewrite H1, H2, H3, H6. done. Qed.

Lemma put_narrow c k g :
  char_width c = 1%nat → on_grid g → at_col k g → (k < cols g)%nat →
  ∃ g', put_char c g = Some g' ∧ cells g' = <[(cursor_row g * cols g + k)%nat := with_ch c (pen g)]> (cells g) ∧
    kept g' = kept g ∧ pen g' = pen g ∧ at_col (S k) g'.
Proof.
  intros Hw [Hl Hr] Hat Hk. destruct (Hat Hk) as [Hc Hp]. unfold Grid.put_char. rewrite Hw, Hp.
  cbn [Nat.eqb andb mbind option_bind]. rewrite ?Hc, put_cell_at_spec by (unfold idx; nia).
  cbn [mbind option_bind cursor_col cols autowrap set_cells]. rewrite ?Hc.
  set (l := <[idx g (cursor_row g) k := with_ch c (pen g)]> (cells g)).
  assert (length l = length (cells g)) as Hll by (unfold l; by rewrite length_insert).
  destruct (k + 1 <? cols g)%nat eqn:Hlt.
  - eexists. split; [done|]. split; [done|]. unfold kept, at_col. cbn. rewrite Hll. split_and!; [done|done|].
    intros _. split; [lia|done].
  - apply Nat.ltb_ge in Hlt. destruct (autowrap g); (eexists; split; [done|]; split; [done|]);
      unfold kept, at_col; cbn; rewrite Hll; split_and!; try done; lia.
Qed.

Lemma put_wide c k g :
  char_width c = 2%nat → on_grid g → at_col k g → (S k < cols g)%nat →
  ∃ g', put_char c g = Some g' ∧
    cells g' = <[(cursor_row g * cols g + S k)%nat := with_ch 0 (pen g)]>
                 (<[(cursor_row g * cols g + k)%nat := with_ch c (pen g)]> (cells g)) ∧
    kept g' = kept g ∧ pen g' = pen g ∧ at_col (S (S k)) g'.
Proof.
  intros Hw [Hl Hr] Hat Hk. destruct (Hat ltac:(lia)) as [Hc Hp]. unfold Grid.put_char. rewrite Hw, Hp.
  cbn [Nat.eqb andb mbind option_bind]. rewrite ?Hc, (proj2 (Nat.leb_gt _ _)) by lia. cbn [mbind option_bind].
  rewrite ?Hc. rewrite put_cell_at_spec by (unfold idx; nia). cbn [mbind option_bind].
  rewrite put_cell_at_spec by (unfold idx; cbn; rewrite length_insert; nia).
  cbn [mbind option_bind cursor_col cols autowrap set_cells cells cursor_row].
  replace (idx _ (cursor_row g) (k + 1)) with (cursor_row g * cols g + S k)%nat by (unfold idx; cbn; lia).
  set (l := <[(cursor_row g * cols g + S k)%nat := _]> _).
  assert (length l = length (cells g)) as Hll by (unfold l; by rewrite !length_insert).
  destruct (k + 2 <? cols g)%nat eqn:Hlt.
  - eexists. split; [done|]. split; [done|]. unfold kept, at_col. cbn. rewrite Hll. split_and!; [done|done|].
    intros _. split; [lia|done].
  - apply Nat.ltb_ge in Hlt. destruct (autowrap g); (eexists; split; [done|]; split; [done|]);
      unfold kept, at_col; cbn; rewrite Hll; split_and!; try done; lia.
Qed.

(** The attributes in force are the pen's. *)
Definition pen_is (cur : option (Z * Color * Color)) (g : Grid) : Prop :=
  ∀ c, cur = Some (attrs c) → pen g = shown_pen c.

Lemma shown_pen_attrs c c' : attrs c = attrs c' → shown_pen c = shown_pen c'.
Proof. unfold attrs, shown_pen, shown, with_ch. intros [= H1 H2 H3]. cbn. by rewrite H1, H2, H3. Qed.

Lemma with_shown_pen c : with_ch (ch c) (shown_pen c) = shown c.
Proof. done. Qed.

Lemma turns_attrs cur c g : cell_wf c → pen_is cur g →
  turns (if bool_decide (cur = Some (attrs c)) then [] else sgr_for (flags c) (fg c) (bg c)) g (set_pen (shown_pen c) g).
Proof.
  intros Hc Hp. case_bool_decide as Hcur; [|by apply turns_sgr].
  rewrite <- (Hp c Hcur). replace (set_pen (pen g) g) with g by by destruct g. apply turns_nil.
Qed.

Lemma paint_cells_turns cs : drawable cs → ∀ k cur g,
  on_grid g → at_col k g → (k + length cs ≤ cols g)%nat → pen_is cur g →
  ∃ g', turns (paint_cells cs cur) g g' ∧ kept g' = kept g ∧
    cells g' = list_inserts (cursor_row g * cols g + k) (shown <$> cs) (cells g).
Proof.
  induction 1 as [|c cs Hwf Hpr Hw _ IH|c s cs Hwf Hpr Hw Hs0 Hsa _ IH]; intros k cur g Hg Hat Hk Hp; cbn in Hk.
  - exists g. split; [apply turns_nil|done].
  - cbn [paint_cells]. pose proof (turns_attrs cur c g Hwf Hp) as Ht. set (g1 := set_pen (shown_pen c) g) in Ht.
    destruct (put_narrow (ch c) k g1) as (g2 & Hput & Hcells & Hkept & Hpen & Hat2); [done|done|done|cbn; lia|].
    destruct (IH (S k) (Some (attrs c)) g2) as (g3 & Ht3 & Hk3 & Hc3).
    + by eapply kept_on_grid.
    + done.
    + assert (cols g2 = cols g) as -> by (unfold kept in Hkept; cbn in Hkept; congruence). lia.
    + intros c' [= H1 H2 H3]. rewrite Hpen. cbn. apply shown_pen_attrs. unfold attrs. congruence.
    + exists g3. split; [|split].
      * eapply turns_app; [exact Ht|]. change (ch c :: ?l) with ([ch c] ++ l). eapply turns_app; [|exact Ht3].
        by apply turns_char.
      * by rewrite Hk3, Hkept.
      * rewrite Hc3, Hcells. assert (cols g2 = cols g ∧ cursor_row g2 = cursor_row g) as [-> ->]
          by (unfold kept in Hkept; cbn in Hkept; split; congruence).
        cbn [cursor_row cols cells pen set_pen g1 fmap list_fmap list_inserts]. rewrite with_shown_pen, Nat.add_succ_r.
        apply inserts_lt. lia.
  - cbn [paint_cells]. pose proof (turns_attrs cur c g Hwf Hp) as Ht. set (g1 := set_pen (shown_pen c) g) in Ht.
    destruct (put_wide (ch c) k g1) as (g2 & Hput & Hcells & Hkept & Hpen & Hat2); [done|done|done|cbn; lia|].
    destruct (IH (S (S k)) (Some (attrs s)) g2) as (g3 & Ht3 & Hk3 & Hc3).
    + by eapply kept_on_grid.
    + done.
    + assert (cols g2 = cols g) as -> by (unfold kept in Hkept; cbn in Hkept; congruence). lia.
    + intros c' [= H1 H2 H3]. rewrite Hpen. cbn. apply shown_pen_attrs. unfold attrs in *. congruence.
    + exists g3. split; [|split].
      * eapply turns_app; [exact Ht|]. change (ch c :: ?l) with ([ch c] ++ l). eapply turns_app; [by apply turns_char|].
        rewrite bool_decide_eq_true_2 by by rewrite Hsa. rewrite app_nil_l, Hs0.
        change (0 :: ?l) with ([0] ++ l). eapply turns_app; [apply turns_nul|exact Ht3].
      * by rewrite Hk3, Hkept.
      * rewrite Hc3, Hcells. assert (cols g2 = cols g ∧ cursor_row g2 = cursor_row g) as [-> ->]
          by (unfold kept in Hkept; cbn in Hkept; split; congruence).
        cbn [cursor_row cols cells pen set_pen g1 fmap list_fmap list_inserts].
        rewrite with_shown_pen, !Nat.add_succ_r.
        assert (with_ch 0 (shown_pen c) = shown s) as ->.
        { rewrite <- with_shown_pen, Hs0. by rewrite (shown_pen_attrs s c). }
        rewrite !inserts_lt by lia. apply list_insert_insert_ne. lia.
Qed.
End rows.

(** ** Frames on the terminal *)

Section frames.
Context (char_width : Z → nat) {V : Vte} {VL : VteLaws V}.
Local Abbreviation turns := (turns char_width).

(** What painting the rows leaves alone. *)
Definition kept_rows (g : Grid) := (rows g, cols g, cursor_visible g, autowrap g, length (cells g)).

(** Sizes that a terminal can have. *)
Definition sized (R C : nat) (g : Grid) : Prop :=
  0 < Z.of_nat R < 2 ^ 16 ∧ 0 < Z.of_nat C < 2 ^ 16 ∧ rows g = R ∧ cols g = C.
Definition canvas (R C : nat) (t : Grid) : Prop := sized R C t ∧ length (cells t) = (R * C)%nat.

Lemma turns_move row col R C g : sized R C g → (row < R)%nat → (col < C)%nat →
  turns (csi false [Z.of_nat row + 1; Z.of_nat col + 1] 72) g
    (set_wrap_pending false (set_cursor_col col (set_cursor_row row g))).
Proof.
  intros (HR & HC & Hr & Hc) Hrow Hcol. apply turns_csi; [done|cbn; lia| |lia|].
  { repeat constructor; unfold is_u16; lia. }
  unfold csi_dispatch, arg_index, arg, param. cbn [fmap list_fmap head lookup list_lookup mbind option_bind Z.eqb Pos.eqb orb].
  rewrite !(proj2 (Z.eqb_neq _ _)) by lia. unfold move_to. rewrite Hr. cbn [cols set_cursor_row]. rewrite Hc.
  rewrite !Nat.min_l by lia. replace (Z.to_nat (Z.of_nat row + 1 - 1)) with row by lia.
  by replace (Z.to_nat (Z.of_nat col + 1 - 1)) with col by lia.
Qed.

Lemma move_csi row col : move_text row col = csi false [Z.of_nat row + 1; Z.of_nat col + 1] 72.
Proof. unfold move_text, csi, params_text. cbn [fmap list_fmap concat app]. by rewrite app_nil_r, <- !(assoc_L (++)). Qed.

Lemma move_home row : ESC_ ++ digits (Z.of_nat row + 1) ++ [59; 49; 72] = csi false [Z.of_nat row + 1; Z.of_nat 0 + 1] 72.
Proof. rewrite <- move_csi. reflexivity. Qed.

(** A row painted: its cells are shown, every other row is as it was. *)
Lemma paint_row_turns src row R C t :
  canvas R C t → sized R C src → (row < R)%nat → drawable char_width (row_cells src row) →
  ∃ t', turns (paint_row src row) t t' ∧ kept_rows t' = kept_rows t ∧
    ∀ r c, (r < R)%nat → (c < C)%nat → cells t' !! (r * C + c)%nat =
      if decide (r = row) then Some (shown (cell src row c)) else cells t !! (r * C + c)%nat.
Proof.
  intros [Ht Hlen] Hsrc Hrow Hd. pose proof Ht as (HR & HC & Hr & Hc). pose proof Hsrc as (_ & _ & _ & Hcs).
  set (t1 := set_wrap_pending false (set_cursor_col 0 (set_cursor_row row t))).
  assert (turns (csi false [Z.of_nat row + 1; Z.of_nat 0 + 1] 72) t t1) as H1 by (eapply turns_move; done || lia).
  destruct (blank_row_spec row t1) as (l & Hblank & Hl & Hcells); [cbn; congruence|cbn; lia|].
  set (t2 := set_cells l t1) in *.
  assert (turns CLEAR_LINE t1 t2) as H2.
  { change CLEAR_LINE with (csi false [2] 75). apply turns_csi; [done|cbn; lia|repeat constructor; unfold is_u16; lia|lia|].
    unfold csi_dispatch, arg_raw, param. cbn [fmap list_fmap head lookup list_lookup mbind option_bind Z.eqb Pos.eqb orb].
    exact Hblank. }
  destruct (paint_cells_turns char_width (row_cells src row) Hd 0 None t2) as (t3 & H3 & Hk3 & Hc3).
  { split; cbn; [|lia]. rewrite Hl. cbn. congruence. }
  { intros _. done. }
  { unfold row_cells. rewrite length_fmap, length_seq. cbn. lia. }
  { done. }
  exists (set_pen blank t3). split; [|split].
  - unfold paint_row. rewrite (assoc_L (++) (digits _)), (assoc_L (++) ESC_), move_home. eapply turns_app; [exact H1|].
    eapply turns_app; [exact H2|]. eapply turns_app; [exact H3|]. change RESET_SGR with (csi false [0] 109).
    apply turns_csi; [done|cbn; lia|repeat constructor; unfold is_u16; lia|lia|reflexivity].
  - unfold kept in Hk3. unfold kept_rows. cbn in *. rewrite Hl in Hk3. injection Hk3 as -> -> _ -> -> ->. done.
  - intros r c Hr' Hc'. cbn [cells set_pen]. rewrite Hc3, Nat.add_0_r.
    change (cursor_row t2) with row. change (cols t2) with (cols t). rewrite Hc.
    assert (length (shown <$> row_cells src row) = C) as Hlr.
    { unfold row_cells. by rewrite !length_fmap, length_seq. }
    case_decide as Heq.
    + subst r. rewrite list_lookup_inserts; [|lia|change (cells t2) with l; rewrite Hl; cbn; nia].
      replace (row * C + c - row * C)%nat with c by lia. unfold row_cells. rewrite !list_lookup_fmap.
      rewrite (lookup_seq_lt _ _ _) by lia. done.
    + assert (cells t2 !! (r * C + c)%nat = cells t !! (r * C + c)%nat) as <-.
      { specialize (Hcells r c). change (cols t1) with (cols t) in Hcells. rewrite Hc in Hcells.
        change (cells t2) with l. rewrite Hcells by lia. by rewrite decide_False. }
      destruct (decide (r < row)%nat).
      * apply list_lookup_inserts_lt. nia.
      * apply list_lookup_inserts_ge. rewrite Hlr. nia.
Qed.

Lemma canvas_kept R C t t' : kept_rows t' = kept_rows t → canvas R C t → canvas R C t'.
Proof. unfold kept_rows, canvas, sized. intros [= H1 H2 _ _ H3]. by rewrite H1, H2, H3. Qed.

Lemma paint_rows_turns src R C rs : sized R C src → (∀ r, (r < R)%nat → drawable char_width (row_cells src r)) →
  Forall (λ r, (r < R)%nat) rs → ∀ t, canvas R C t →
  ∃ t', turns (concat (paint_row src <$> rs)) t t' ∧ kept_rows t' = kept_rows t ∧
    ∀ r c, (r < R)%nat → (c < C)%nat → cells t' !! (r * C + c)%nat =
      if decide (r ∈ rs) then Some (shown (cell src r c)) else cells t !! (r * C + c)%nat.
Proof.
  intros Hsrc Hd. induction 1 as [|row rs Hrow Hrs IH]; intros t Ht.
  { exists t. split; [apply turns_nil|]. split; [done|]. intros r c _ _. by rewrite decide_False by apply not_elem_of_nil. }
  destruct (paint_row_turns src row R C t Ht Hsrc Hrow (Hd _ Hrow)) as (t1 & H1 & Hk1 & Hc1).
  destruct (IH t1 (canvas_kept _ _ _ _ Hk1 Ht)) as (t2 & H2 & Hk2 & Hc2).
  exists t2. split; [by eapply turns_app|]. split; [congruence|]. intros r c Hr Hc. rewrite Hc2, Hc1 by done.
  destruct (decide (r ∈ rs)).
  - by rewrite decide_True by by right.
  - case_decide as Heq; [subst r; by rewrite decide_True by by left|]. rewrite decide_False; [done|].
    by intros [?|?]%elem_of_cons.
Qed.

(** The terminal shows the grid. *)
Record shows (t g : Grid) : Prop := {
  sh_cells r c : (r < rows g)%nat → (c < cols g)%nat → cells t !! (r * cols g + c)%nat = Some (shown (cell g r c));
  sh_row : cursor_row t = cursor_row g;
  sh_col : cursor_col t = cursor_col g;
  sh_visible : cursor_visible t = cursor_visible g;
}.

(** A grid that can be painted. *)
Definition paintable (R C : nat) (g : Grid) : Prop :=
  sized R C g ∧ (cursor_row g < R)%nat ∧ (cursor_col g < C)%nat ∧
  ∀ r, (r < R)%nat → drawable char_width (row_cells g r).

Lemma turns_visible (b : bool) g : turns (if b then SHOW_CURSOR else HIDE_CURSOR) g (set_cursor_visible b g).
Proof.
  assert ((if b then SHOW_CURSOR else HIDE_CURSOR) = csi true [25] (if b then 104 else 108)) as -> by by destruct b.
  destruct b; apply turns_csi; try done; try lia; try (cbn; lia); repeat constructor; unfold is_u16; lia.
Qed.
End frames.

Section painting.
Context (char_width : Z → nat) {V : Vte} {VL : VteLaws V}.
Local Abbreviation turns := (turns char_width).
Local Abbreviation paintable := (paintable char_width).

(** What the renderer remembers is on the terminal. *)
Definition remembers (R C : nat) (rd : Renderer) (t : Grid) : Prop :=
  ∀ p, last_grid rd = Some p → sized R C p ∧ shows t p.

Lemma unchanged_row rd g row : (row < rows g)%nat → row ∉ changed_rows rd g →
  ∃ p, last_grid rd = Some p ∧ ∀ c, (c < cols g)%nat → cell p row c = cell g row c.
Proof.
  intros Hr Hn. unfold changed_rows in Hn. rewrite list_elem_of_filter, elem_of_seq in Hn.
  destruct (paint_full rd g); [destruct Hn; split; [done|lia]|].
  destruct (last_grid rd) as [p|]; [|destruct Hn; split; [done|lia]].
  exists p. split; [done|]. intros c Hc. destruct (decide (cell p row c = cell g row c)) as [|Hne]; [done|].
  destruct Hn. split; [|lia]. apply Is_true_true, existsb_exists. exists c. split.
  - apply in_seq. lia.
  - by apply bool_decide_eq_true.
Qed.

Lemma changed_rows_lt rd g : Forall (λ r, (r < rows g)%nat) (changed_rows rd g).
Proof. apply Forall_forall. intros r. unfold changed_rows. rewrite list_elem_of_filter, elem_of_seq. lia. Qed.

(** The rows on the terminal, with the cursor hidden while there are any. *)
Lemma paint_changed R C rd g t :
  paintable R C g → canvas R C t → remembers R C rd t →
  let busy := negb (bool_decide (changed_rows rd g = [])) in
  ∃ t', turns ((if busy then HIDE_CURSOR else []) ++ concat (paint_row g <$> changed_rows rd g)) t t' ∧
    canvas R C t' ∧ (busy = false → t' = t) ∧ (busy = true → cursor_visible t' = false) ∧
    ∀ r c, (r < rows g)%nat → (c < cols g)%nat → cells t' !! (r * cols g + c)%nat = Some (shown (cell g r c)).
Proof.
  intros (Hsz & _ & _ & Hd) Ht Hrem busy. pose proof Hsz as (_ & _ & Hr & Hc).
  assert (∀ t', (∀ r c, (r < R)%nat → (c < C)%nat → cells t' !! (r * C + c)%nat =
      if decide (r ∈ changed_rows rd g) then Some (shown (cell g r c)) else cells t !! (r * C + c)%nat) →
    ∀ r c, (r < rows g)%nat → (c < cols g)%nat → cells t' !! (r * cols g + c)%nat = Some (shown (cell g r c))) as Hall.
  { intros t' Hcells r c Hrr Hcc. rewrite Hr, Hc in *. rewrite Hcells by done. case_decide as Hin; [done|].
    destruct (unchanged_row rd g r) as (p & Hp & Hsame); [by rewrite Hr|done|].
    destruct (Hrem _ Hp) as [(_ & _ & Hpr & Hpc) Hs]. rewrite <- Hsame by by rewrite Hc.
    pose proof (sh_cells _ _ Hs r c) as H. rewrite Hpr, Hpc in H. by apply H. }
  destruct busy eqn:Hb; unfold busy in Hb.
  - pose proof (turns_visible char_width false t) as Hh. cbn in Hh. set (t1 := set_cursor_visible false t) in Hh.
    destruct (paint_rows_turns char_width g R C (changed_rows rd g) Hsz Hd) with (t := t1) as (t2 & H2 & Hk & Hcells).
    { rewrite <- Hr. apply changed_rows_lt. }
    { exact Ht. }
    exists t2. split; [by eapply turns_app|]. split; [by eapply canvas_kept|]. split; [done|]. split.
    + intros _. unfold kept_rows in Hk. cbn in Hk. congruence.
    + by apply Hall.
  - apply negb_false_iff, bool_decide_eq_true in Hb. rewrite Hb in *. exists t.
    split; [apply turns_nil|]. split; [done|]. split; [done|]. split; [done|]. apply Hall. intros r c _ _.
    by rewrite decide_False by apply not_elem_of_nil.
Qed.

(** A frame: whatever is drawn, the terminal shows the grid afterwards. *)
Lemma paint_frame R C rd g t :
  paintable R C g → canvas R C t → remembers R C rd t →
  ∃ t', turns (default [] (paint_text rd g)) t t' ∧ canvas R C t' ∧ shows t' g.
Proof.
  intros Hg Ht Hrem. destruct (paint_changed R C rd g t Hg Ht Hrem) as (t1 & H1 & Hcan & Hsame & Hhid & Hcells).
  destruct Hg as (Hsz & Hrow & Hcol & _). unfold paint_text.
  destruct (cursor_changes rd g) as [moved vis] eqn:Hcc. set (busy := negb (bool_decide (changed_rows rd g = []))) in *.
  assert (moved = false → busy = false → cursor_row t = cursor_row g ∧ cursor_col t = cursor_col g) as Hmoved.
  { intros -> Hb. unfold cursor_changes in Hcc. destruct (last_grid rd) as [p|] eqn:Hp; [|done].
    injection Hcc as Hm _. apply orb_false_iff in Hm as [Hm1%negb_false_iff%Nat.eqb_eq Hm2%negb_false_iff%Nat.eqb_eq].
    destruct (Hrem _ Hp) as [_ [_ Hs2 Hs3 _]]. split; congruence. }
  assert (vis = false → cursor_visible t = cursor_visible g) as Hvis.
  { intros ->. unfold cursor_changes in Hcc. destruct (last_grid rd) as [p|] eqn:Hp; [|done].
    injection Hcc as _ Hm. apply negb_false_iff, eqb_prop in Hm. destruct (Hrem _ Hp) as [_ [_ _ _ Hs4]]. congruence. }
  destruct (negb busy && negb moved && negb vis) eqn:Hidle.
  { apply andb_true_iff in Hidle as [[Hb%negb_true_iff Hm%negb_true_iff]%andb_true_iff Hv%negb_true_iff].
    exists t. rewrite (Hsame Hb) in Hcells. split; [apply turns_nil|]. split; [done|].
    split; [done|by apply Hmoved..|by apply Hvis]. }
  cbn [default].
  set (t2 := if busy || moved then set_wrap_pending false (set_cursor_col (cursor_col g) (set_cursor_row (cursor_row g) t1)) else t1).
  assert (turns (if busy || moved then move_text (cursor_row g) (cursor_col g) else []) t1 t2) as H2.
  { unfold t2. destruct (busy || moved); [|apply turns_nil]. rewrite move_csi. eapply turns_move; [apply Hcan|done|done]. }
  assert (cursor_row t2 = cursor_row g ∧ cursor_col t2 = cursor_col g) as [Hr2 Hc2].
  { unfold t2. destruct busy eqn:Hb, moved; try done. cbn. rewrite Hsame by done. by apply Hmoved. }
  assert (cursor_visible t2 = cursor_visible t1 ∧ cells t2 = cells t1) as [Hv2 Hcl2] by (unfold t2; by destruct (busy || moved)).
  set (t3 := set_cursor_visible (cursor_visible g) t2).
  exists t3. split; [|split].
  - rewrite (assoc_L (++)). eapply turns_app; [exact H1|]. eapply turns_app; [exact H2|].
    assert (t3 = set_cursor_visible (cursor_visible g) t2) as Ht3 by done.
    destruct busy eqn:Hb; [destruct (cursor_visible g) eqn:Hvg|].
    + exact (turns_visible char_width true t2).
    + replace t3 with t2; [apply turns_nil|]. rewrite Ht3, <- (Hhid eq_refl), <- Hv2. by destruct t2.
    + destruct vis eqn:Hv.
      * pose proof (turns_visible char_width (cursor_visible g) t2) as H. rewrite <- Ht3 in H. by destruct (cursor_visible g).
      * replace t3 with t2; [apply turns_nil|]. rewrite Ht3, <- (Hvis eq_refl), <- (Hsame eq_refl), <- Hv2. by destruct t2.
  - unfold t3, t2. destruct (busy || moved); exact Hcan.
  - split; [|done..]. unfold t3. cbn [cells set_cursor_visible]. rewrite Hcl2. exact Hcells.
Qed.
End painting.

(** ** A session of frames *)

(** What the client does with its renderer. *)
Inductive Frame := Paint (g : Grid) | Invalidate.

Lemma painted_idle g : paint_text (mkRenderer (Some g)) g = None.
Proof.
  assert (changed_rows (mkRenderer (Some g)) g = []) as Hc.
  { unfold changed_rows, paint_full. cbn [last_grid]. rewrite !Nat.eqb_refl. cbn [negb orb].
    apply elem_of_nil_inv. intros row [(c & _ & H%bool_decide_eq_true)%Is_true_true%existsb_exists _]%list_elem_of_filter.
    done. }
  unfold paint_text. rewrite Hc. unfold cursor_changes. cbn [last_grid]. rewrite !Nat.eqb_refl, Bool.eqb_reflx. done.
Qed.

Section session.
Context (char_width : Z → nat) {V : Vte} {VL : VteLaws V}.

(** The text goes to a terminal. *)
Definition show_frame (f : Frame) (st : Renderer * Terminal) : option (Renderer * Terminal) :=
  let '(rd, t) := st in
  match f with
  | Invalidate => Some (invalidate rd, t)
  | Paint g =>
    let '(text, _, rd) := paint true g rd in
    t ← advance char_width t (as_bytes text); Some (rd, t)
  end.

Definition frame_ok (R C : nat) (f : Frame) : Prop :=
  match f with Paint g => paintable char_width R C g | Invalidate => True end.

Lemma turns_advance s g g' q : turns char_width s g g' → ground q →
  ∃ q', ground q' ∧ advance char_width (mkTerminal q g) (as_bytes s) = Some (mkTerminal q' g').
Proof.
  intros (acts & Hs & Hr) Hq. destruct (Hs q Hq) as (q' & Hq' & Hp). exists q'. split; [done|].
  specialize (Hp []). rewrite app_nil_r, parse_nothing, app_nil_r in Hp by done.
  unfold advance. cbn. rewrite Hp, Hr. done.
Qed.

Definition session_ok (R C : nat) (st : Renderer * Terminal) : Prop :=
  canvas R C (grid st.2) ∧ ground (parser st.2) ∧ remembers R C st.1 (grid st.2).

Lemma show_frame_ok R C f st : session_ok R C st → frame_ok R C f →
  ∃ st', show_frame f st = Some st' ∧ session_ok R C st' ∧
    match f with Paint g => shows (grid st'.2) g ∧ paint_text st'.1 g = None | Invalidate => True end.
Proof.
  destruct st as [rd [q t]]. intros (Ht & Hq & Hrem) Hf. destruct f as [g|]; cbn in *.
  2: { eexists. split; [done|]. split; [|done]. split_and!; [done..|]. by intros p. }
  destruct (paint_frame char_width R C rd g t Hf Ht Hrem) as (t' & Hturn & Ht' & Hs).
  destruct (turns_advance _ _ _ q Hturn Hq) as (q' & Hq' & Had). unfold paint.
  destruct (paint_text rd g) as [text|] eqn:Hp.
  all: change (from_option id [] None) with (@nil Z) in Had; change (from_option id [] (Some ?x)) with x in Had.
  all: cbn -[as_bytes advance]; rewrite Had; eexists;
    (split; [reflexivity|]); (split; [split_and!; [done|done|]|]); cbn; try (by split).
  - intros p [= <-]. split; [apply Hf|done].
  - split; [done|apply painted_idle].
  - intros p Hlast. split; [by apply Hrem|]. destruct (Hrem _ Hlast) as [Hsz Hsp].
    assert (t' = t) as ->; [|done].
    destruct Hturn as (acts & Hpa & Hrun). destruct (Hpa q Hq) as (q2 & Hq2 & Hpa2).
    specialize (Hpa2 []). rewrite app_nil_r, !parse_nothing in Hpa2 by done. injection Hpa2 as Ha _.
    rewrite app_nil_r in Ha. subst acts. by injection Hrun.
Qed.
End session.

(** C28 What the user sees. Any number of grids that can be painted at one size (of
    exactly its rows and columns, with the cursor on them and rows that a terminal can
    show: a wide glyph whole, no control characters) is painted, with forced repaints
    in between, onto a terminal of that size with any contents, the program's own
    emulator behind a parser that keeps to its documentation. Afterwards the terminal
    shows the last grid: each cell with its character, colours and rendition, except
    that concealed and struck-out text, for which nothing is sent, is plain and a guess
    is underlined; the cursor's place and whether it is visible; and painting the grid
    again writes nothing. *)
Theorem painting_shows (char_width : Z → nat) {V : Vte} {VL : VteLaws V} R C frames g (t : Terminal) :
  canvas R C (grid t) → ground (parser t) →
  Forall (frame_ok char_width R C) frames → paintable char_width R C g →
  ∃ rd t', for_each (frames ++ [Paint g]) (show_frame char_width) (renderer_new, t) = Some (rd, t') ∧
    shows (screen t') g ∧ paint true g rd = ([], true, rd).
Proof.
  intros Ht Hq Hfs Hg. assert (session_ok R C (renderer_new, t)) as H0 by by split_and!.
  revert H0. generalize (renderer_new, t). clear t Ht Hq. induction Hfs as [|f fs Hf Hfs IH]; intros st Hst.
  - destruct (show_frame_ok char_width R C (Paint g) st Hst Hg) as ([rd t'] & H1 & _ & Hs & Hidle).
    exists rd, t'. cbn [app for_each]. rewrite H1. cbn in *. split; [done|]. split; [done|]. unfold paint. by rewrite Hidle.
  - destruct (show_frame_ok char_width R C f st Hst Hf) as (st' & H1 & H2 & _).
    destruct (IH st' H2) as (rd & t' & H3 & H4). exists rd, t'. cbn [app for_each]. by rewrite H1.
Qed.

(** ** A parser that keeps to the documentation *)

Definition number (word : list Z) : Z := default 0 (parse_uint 65535 word).

(** The numbers of a control sequence, its last character, and what follows. *)
Fixpoint read_csi (bs word nums : list Z) : option (list Z * Z * list Z) :=
  match bs with
  | [] => None
  | b :: bs =>
    if is_digit b then read_csi bs (word ++ [b]) nums
    else if b =? 59 then read_csi bs [] (nums ++ [number word])
    else Some (nums ++ [number word], b, bs)
  end.

Definition char_len (lead : Z) : nat := if lead <? 0x80 then 1 else if lead <? 0xE0 then 2 else if lead <? 0xF0 then 3 else 4.

Fixpoint sample_actions (fuel : nat) (bs : list Z) : list action :=
  match fuel, bs with
  | S fuel, b :: rest =>
    if (b =? 27) && bool_decide (head rest = Some 91) then
      let private := bool_decide (head (drop 1 rest) = Some 63) in
      match read_csi (drop (if private then 2 else 1) rest) [] [] with
      | Some (nums, final, rest) =>
        CsiDispatch ((λ n, [n]) <$> nums) (if private then [63] else []) final :: sample_actions fuel rest
      | None => []
      end
    else if b <? 32 then Execute b :: sample_actions fuel rest
    else
      match from_utf8 (take (char_len b) (b :: rest)) with
      | Some [c] => Print c :: sample_actions fuel (drop (char_len b) (b :: rest))
      | _ => sample_actions fuel rest
      end
  | _, _ => []
  end.

#[local] Instance sample_parser : Vte := {|
  Parser := unit;
  parser_new := tt;
  parse := λ _ bs, (sample_actions (length bs) bs, tt);
|}.

Lemma read_csi_length bs : ∀ word nums n f rest, read_csi bs word nums = Some (n, f, rest) → (length rest < length bs)%nat.
Proof.
  induction bs as [|b bs IH]; intros word nums n f rest; [done|]. cbn.
  destruct (is_digit b); [intros ?%IH; lia|]. destruct (b =? 59); [intros ?%IH; lia|]. intros [= _ _ <-]. lia.
Qed.

Lemma sample_fuel f1 : ∀ f2 bs, (length bs ≤ f1)%nat → (length bs ≤ f2)%nat → sample_actions f1 bs = sample_actions f2 bs.
Proof.
  induction f1 as [|f1 IH]; intros f2 bs H1 H2.
  { destruct bs; [by destruct f2|cbn in H1; lia]. }
  destruct f2 as [|f2]; [destruct bs; [done|cbn in H2; lia]|]. destruct bs as [|b rest]; [done|]. cbn in H1, H2.
  cbn [sample_actions].
  destruct (_ && _).
  { destruct (read_csi _ _ _) as [[[nums final] rest']|] eqn:Hr; [|done]. apply read_csi_length in Hr.
    rewrite length_drop in Hr. f_equal. apply IH; lia. }
  destruct (b <? 32); [f_equal; apply IH; lia|].
  assert (1 ≤ char_len b)%nat as Hl by (unfold char_len; repeat case_match; lia).
  destruct (from_utf8 _) as [[|c [|]]|]; try (apply IH; lia). f_equal. apply IH; rewrite length_drop; cbn; lia.
Qed.

Lemma sample_parse_step s a rest :
  (∀ fuel, sample_actions (S fuel) (s ++ rest) = a :: sample_actions fuel rest) → s ≠ [] →
  parse tt (s ++ rest) = let '(acts, q2) := parse tt rest in (a :: acts, q2).
Proof.
  intros Hs Hne. cbn. destruct (length (s ++ rest)) as [|n] eqn:Hl; [by destruct s|]. rewrite Hs. do 2 f_equal.
  apply sample_fuel; [|lia]. rewrite length_app in Hl. destruct s; [done|]. cbn in Hl. lia.
Qed.

Lemma read_digits ds : ∀ word nums rest, Forall (λ c, is_digit c = true) ds →
  read_csi (ds ++ rest) word nums = read_csi rest (word ++ ds) nums.
Proof.
  induction ds as [|d ds IH]; intros word nums rest Hd; cbn; [by rewrite app_nil_r|].
  apply Forall_cons in Hd as [-> Hd]. rewrite IH by done. by rewrite <- (assoc_L (++)).
Qed.

Lemma number_digits n : is_u16 n → Forall (λ c, is_digit c = true) (digits n) ∧ number (digits n) = n ∧ digits n ≠ [].
Proof.
  intros Hn. destruct (digits_spec n) as (Hne & Hd & Hp); [unfold is_u16, is_u64 in *; lia|].
  split; [done|]. split; [|done]. unfold number. rewrite Hp; [done|]. unfold is_u16 in Hn. lia.
Qed.

Lemma read_params n nums : Forall is_u16 (n :: nums) → ∀ final rest before,
  64 ≤ final < 127 →
  read_csi (digits n ++ concat ((λ n, 59 :: digits n) <$> nums) ++ final :: rest) [] before = Some (before ++ n :: nums, final, rest).
Proof.
  revert n. induction nums as [|m nums IH]; intros n Hn final rest before Hf; apply Forall_cons in Hn as [Hn Hns];
    destruct (number_digits n Hn) as (Hd & Hnum & _); rewrite read_digits by done;
    cbn [app concat fmap list_fmap read_csi].
  - replace (is_digit final) with false by (unfold is_digit; lia). rewrite (proj2 (Z.eqb_neq _ _)) by lia. by rewrite Hnum.
  - change (is_digit 59) with false. cbn [Z.eqb Pos.eqb]. rewrite Hnum.
    rewrite <- (assoc_L (++)), IH by done. by rewrite <- (assoc_L (++)).
Qed.

Lemma char_len_utf8 c : is_char c → match utf8_char c with b :: l => char_len b = S (length l) ∧ (32 ≤ c → 32 ≤ b) ∧ (b = 27 → c = 27) | [] => False end.
Proof.
  unfold is_char, utf8_char. intros [Hc _].
  assert (∀ b, char_len b = if b <? 0x80 then 1%nat else if b <? 0xE0 then 2%nat else if b <? 0xF0 then 3%nat else 4%nat) as Hl by done.
  pose proof (Z.div_mod c 64 ltac:(lia)). pose proof (Z.mod_pos_bound c 64 ltac:(lia)).
  pose proof (Z.div_mod c 4096 ltac:(lia)). pose proof (Z.mod_pos_bound c 4096 ltac:(lia)).
  pose proof (Z.div_mod c 262144 ltac:(lia)). pose proof (Z.mod_pos_bound c 262144 ltac:(lia)).
  destruct (Z.ltb_spec c 0x80); [|destruct (Z.ltb_spec c 0x800); [|destruct (Z.ltb_spec c 0x10000)]];
    rewrite Hl; repeat case_match; cbn [length]; split_and!; lia.
Qed.

#[local] Instance sample_parser_laws : VteLaws sample_parser.
Proof.
  refine {| ground := λ _, True |}; [done|by intros []|..].
  - intros [] private nums final _ Hne _ Hn Hf. exists tt. split; [done|]. intros rest. apply sample_parse_step; [|done].
    intros fuel. destruct nums as [|n nums]; [done|].
    destruct (number_digits n) as (Hd & _ & Hdn); [by apply Forall_cons in Hn as [? _]|].
    assert (read_csi (params_text (n :: nums) ++ final :: rest) [] [] = Some (n :: nums, final, rest)) as Hr.
    { cbn [params_text]. rewrite <- (assoc_L (++)). by apply read_params. }
    destruct private; cbn [csi ESC_ app].
    + unfold csi, ESC_. rewrite <- !(assoc_L (++)). cbn [app sample_actions head drop Z.eqb Pos.eqb andb].
      rewrite !bool_decide_eq_true_2 by done. cbn [andb drop]. by rewrite drop_0, Hr.
    + unfold csi, ESC_. rewrite <- !(assoc_L (++)). cbn [app sample_actions head drop Z.eqb Pos.eqb andb].
      rewrite bool_decide_eq_true_2 by done. rewrite bool_decide_eq_false_2; [cbn [drop]; by rewrite drop_0, Hr|].
      cbn [params_text]. destruct (digits n) as [|d ds]; [done|]. apply Forall_cons in Hd as [Hd _]. cbn.
      intros [= ->]. done.
  - intros [] c _ (Hc & H32 & _). exists tt. split; [done|]. intros rest. pose proof (char_len_utf8 c Hc) as Hl.
    pose proof (from_utf8_char c [] Hc) as Hu. rewrite app_nil_r in Hu. cbn in Hu.
    apply sample_parse_step; [|by destruct (utf8_char c)]. intros fuel.
    destruct (utf8_char c) as [|b l]; [done|]. destruct Hl as (Hlen & Hb & H27). cbn [app sample_actions].
    rewrite (proj2 (Z.eqb_neq _ _)) by lia. cbn [andb]. rewrite (proj2 (Z.ltb_ge _ _)) by (by apply Hb).
    rewrite Hlen. cbn [take drop]. rewrite take_app_length, drop_app_length, Hu. done.
  - intros [] _. exists tt. split; [done|]. intros rest. by apply (sample_parse_step [0]).
Qed.

(** ** Runs *)

#[local] Instance is_u8_dec n : Decision (is_u8 n).
Proof. unfold is_u8. apply _. Defined.
#[local] Instance color_wf_dec c : Decision (color_wf c).
Proof. destruct c; cbn; apply _. Defined.
#[local] Instance cell_wf_dec c : Decision (cell_wf c).
Proof. unfold cell_wf. apply _. Defined.
#[local] Instance printable_dec c : Decision (printable c).
Proof. unfold printable. apply _. Defined.

Fixpoint drawable_b (char_width : Z → nat) (cs : list Cell) : bool :=
  match cs with
  | [] => true
  | c :: cs =>
    bool_decide (cell_wf c ∧ printable (ch c)) &&
    (((char_width (ch c) =? 1)%nat && drawable_b char_width cs) ||
     ((char_width (ch c) =? 2)%nat &&
      match cs with
      | s :: cs => (ch s =? 0) && bool_decide (attrs s = attrs c) && drawable_b char_width cs
      | [] => false
      end))
  end.

Lemma drawable_by_test char_width cs : drawable_b char_width cs = true → drawable char_width cs.
Proof.
  assert (∀ n cs, (length cs ≤ n)%nat → drawable_b char_width cs = true → drawable char_width cs) as H; [|by apply (H (length cs))].
  clear. induction n as [|n IH]; intros cs Hn; (destruct cs as [|c cs]; [constructor|]); [cbn in Hn; lia|]. cbn in Hn. cbn [drawable_b].
  intros [[Hw Hp]%bool_decide_eq_true [[H1%Nat.eqb_eq H2]%andb_true_iff|[H1%Nat.eqb_eq H2]%andb_true_iff]%orb_true_iff]%andb_true_iff.
  - constructor; try done. apply IH; [lia|done].
  - destruct cs as [|s cs]; [done|]. cbn in Hn.
    apply andb_true_iff in H2 as [[H2%Z.eqb_eq H3%bool_decide_eq_true]%andb_true_iff H4].
    apply drawable_wide; try done. apply IH; [lia|done].
Qed.

Definition wide_width (c : Z) : nat := if c =? 0x4e16 then 2 else 1.
Definition screen_of (R C : nat) (acts : list action) : Grid := default (grid_new R C) (for_each acts (perform wide_width) (grid_new R C)).

(** Bold red text, a double-width glyph, the cursor moved up and hidden. *)
Definition sample_frame : Grid := screen_of 2 5
  [CsiDispatch [[1]; [38]; [5]; [196]] [] 109; Print 104; Print 0x4e16; Print 105; CsiDispatch [[2]; [2]] [] 72; Print 33;
   CsiDispatch [[25]] [63] 108].
Definition dirty_terminal : Terminal := mkTerminal tt (screen_of 2 5 [Print 122; Print 122; Execute 10; Print 122]).

Definition paintable_b (char_width : Z → nat) (R C : nat) (g : Grid) : bool :=
  (0 <? Z.of_nat R) && (Z.of_nat R <? 2 ^ 16) && (0 <? Z.of_nat C) && (Z.of_nat C <? 2 ^ 16) &&
  (rows g =? R)%nat && (cols g =? C)%nat && (cursor_row g <? R)%nat && (cursor_col g <? C)%nat &&
  forallb (λ r, drawable_b char_width (row_cells g r)) (seq 0 R).

Lemma paintable_by_test char_width R C g : paintable_b char_width R C g = true → paintable char_width R C g.
Proof.
  unfold paintable_b. rewrite !andb_true_iff, !Z.ltb_lt, !Nat.eqb_eq, !Nat.ltb_lt.
  intros [[[[[[[[]]]]]]] Hd]. split; [by split_and!|]. split; [done|]. split; [done|].
  intros r Hr. apply drawable_by_test. apply (proj1 (forallb_forall _ _) Hd), in_seq. lia.
Qed.

Lemma painting_shows_witness :
  ∃ rd t', for_each ([Paint (grid_new 2 5); Invalidate] ++ [Paint sample_frame]) (show_frame wide_width) (renderer_new, dirty_terminal) = Some (rd, t') ∧
    shows (screen t') sample_frame ∧ paint true sample_frame rd = ([], true, rd).
Proof.
  apply (painting_shows wide_width 2 5).
  - split; [|reflexivity]. split_and!; try reflexivity; vm_compute; done.
  - apply (ground_new (V := sample_parser)).
  - constructor; [|constructor; [exact I|constructor]]. apply paintable_by_test. vm_compute. reflexivity.
  - apply paintable_by_test. vm_compute. reflexivity.
Defined.

(** A narrow character written over the left half of a double-width glyph leaves the
    spacer in the grid; painted, it takes no column, and the rest of the row is shown
    one column too far to the left. *)
Definition halved : Grid := screen_of 1 4 [Print 0x4e16; Print 120; CsiDispatch [] [] 72; Print 97].
Lemma halved_glyph_shifts_row :
  (ch <$> cells halved) = [97; 0; 120; 32] ∧
  match show_frame wide_width (Paint halved) (renderer_new, mkTerminal tt (grid_new 1 4)) with
  | Some (_, t) => (ch <$> cells (screen t)) = [97; 120; 32; 32]
  | None => False
  end.
Proof. vm_compute. done. Qed.

(** Concealed text is shown like any other. *)
Lemma concealed_text_is_shown :
  match show_frame wide_width (Paint (screen_of 1 2 [CsiDispatch [[8]] [] 109; Print 112])) (renderer_new, mkTerminal tt (grid_new 1 2)) with
  | Some (_, t) => cells (screen t) !! 0%nat = Some (mkCell 112 Default Default 0)
  | None => False
  end.
Proof. vm_compute. done. Qed.
