(* ===== verification/Interactive.v ===== *)
(** * The interactive session ([src/bin/noissh.rs], [interactive_loop])

    One turn of the loop behind the user's terminal: receive, serve the agent, read the
    keyboard, follow the window, send, keep alive, paint, end. The clock, the datagrams,
    the keyboard and the terminal answer as data; times are in nanoseconds. *)

From stdpp Require Import gmap.
From S2P Require Import Prelude Wire NoiseCore Session Handshake Stream Mux Cell Text Grid GridOps Status Predict Shell Control Auth Runtime Client ClientProps Forward Forwarder Files Xfer ClientDriver Tty.

#[local] Open Scope Z_scope.

(** @ src/bin/noissh.rs:756-756 KEEPALIVE *)
Definition KEEPALIVE : Z := 3 * 10 ^ 9.
(** @ src/bin/noissh.rs:759-759 STALE_KEEPALIVE *)
Definition STALE_KEEPALIVE : Z := 1 * 10 ^ 9.
(** @ src/bin/noissh.rs:762-762 STALE_AFTER *)
Definition STALE_AFTER : Z := 2 * 10 ^ 9.

(** [elapsed] and [saturating_duration_since]. *)
Definition since (now then_ : Z) : Z := Z.max 0 (now - then_).

Section loop.
Context {N : Snow} {SocketAddr : Type}.
Local Abbreviation ClientCore := (ClientCore (SocketAddr := SocketAddr)).

(** What the loop keeps: the client with its agent bridges, the renderer, the window,
    when the next keepalive is due, the last contact, and whether the escape key is
    waiting for its command. *)
Record Loop := mkLoop {
  l_core : ClientCore;
  l_agents : gmap Z ForwardConn;
  l_rd : Renderer;
  l_size : Z * Z;
  l_next : Z;
  l_contact : Z;
  l_esc : bool;
}.

(** What a turn finds. The clock is read at the poll, after the datagrams, for the
    keepalive (three times) and for the banner. *)
Record LoopIn := mkLoopIn {
  i_signalled : bool;
  i_now_heard : Z;
  i_dgrams : list (list Z);
  i_dial : list Z → bool;
  i_sockets : Z → SocketAns;
  i_order : list Z;
  i_keys : list (list Z);
  i_size : option (Z * Z);
  i_now_due : Z;
  i_now_stale : Z;
  i_now_next : Z;
  i_now_banner : Z;
  i_wrote : bool;
  i_wrote_end : bool;
}.

(** How the loop ends: the process exits, or with an error. *)
Inductive LoopEnd := Exits (code : Z) | Fails (e : RuntimeError).

(** The datagrams sent, the text for the terminal, and whether the loop goes on. *)
Record LoopOut := mkLoopOut {
  o_dgrams : list (list Z);
  o_tty : list (list Z);
  o_next : Loop + LoopEnd;
}.

(** Show the cursor, start a new line. *)
Definition FAREWELL : list Z := SHOW_CURSOR ++ [13; 10].


(** The keyboard, as far as it has something: keys pass the escape key's filter.
    @ src/bin/noissh.rs:880-896 interactive_loop *)
Fixpoint read_keys (batches : list (list Z)) (esc quit : bool) (c : ClientCore) : bool * bool * ClientCore :=
  match batches with
  | [] => (esc, quit, c)
  | batch :: batches =>
    let '(esc, outcome) := process_input esc batch in
    let c := match forward outcome with [] => c | _ => c_type_input (forward outcome) c end in
    read_keys batches esc (quit || Status.quit outcome) c
  end.

(** The window: a new size is told to the server, and everything is repainted.
    @ src/bin/noissh.rs:909-914 interactive_loop *)
Definition follow_size (size old : Z * Z) (rd : Renderer) (c : ClientCore) : Renderer * ClientCore :=
  if bool_decide (size = old) then (rd, c) else (invalidate rd, c_resize size.1 size.2 c).

(** A keepalive that is due, and when the next one is.
    @ src/bin/noissh.rs:920-928 interactive_loop *)
Definition keep_alive (i : LoopIn) (contact next : Z) (c : ClientCore) : list (list Z) * Z * ClientCore :=
  if next <=? i_now_due i then
    let '(out, c) := send_keepalive c in
    let interval := if STALE_AFTER <=? since (i_now_stale i) contact then STALE_KEEPALIVE else KEEPALIVE in
    (out, i_now_next i + interval, c)
  else ([], next, c).

(** What is shown: the screen with the guesses, and the banner when the link is quiet.
    @ src/bin/noissh.rs:932-935 interactive_loop *)
Definition shown_screen (now contact : Z) (c : ClientCore) : option Grid :=
  overlay ← c_overlay c;
  match status_banner (since now contact) with
  | Some banner => stamp_status overlay banner
  | None => Some overlay
  end.

(** The second half of a turn, after the keyboard.
    @ src/bin/noissh.rs:909-944 interactive_loop *)
Definition finish_turn (i : LoopIn) (out : list (list Z)) (l : Loop) : option LoopOut :=
  let size := terminal_size (i_size i) in
  let '(rd, c) := follow_size size (l_size l) (l_rd l) (l_core l) in
  let '(out1, c) := ClientDriver.flush c in
  let '(out2, next, c) := keep_alive i (l_contact l) (l_next l) c in
  let out := out ++ out1 ++ out2 in
  screen ← shown_screen (i_now_banner i) (l_contact l) c;
  let '(text, ok, rd) := paint (i_wrote i) screen rd in
  Some
    (if negb ok then mkLoopOut out [text] (inr (Fails RtIo))
     else
       match exited c with
       | Some status =>
         mkLoopOut out [text; FAREWELL] (inr (if i_wrote_end i then Exits status else Fails RtIo))
       | None => mkLoopOut out [text] (inl (mkLoop c (l_agents l) rd size next (l_contact l) (l_esc l)))
       end).

(** [agent] is the agent's socket, with [-A]. [None] is a panic.
    @ src/bin/noissh.rs:825-944 interactive_loop *)
Definition turn (agent : option (list Z)) (i : LoopIn) (l : Loop) : option LoopOut :=
  if i_signalled i then Some (mkLoopOut [] [FAREWELL] (inr (Exits 143)))
  else
    match recv_all (i_dgrams i) (l_core l) with
    | (out, Err e, _) => Some (mkLoopOut out [] (inr (Fails e)))
    | (out, Ok _, c) =>
      let contact := if bool_decide (i_dgrams i = []) then l_contact l else i_now_heard i in
      let '(agents, c) :=
        match agent with
        | Some _ => let '(_, agents, c) := pump_agent agent (i_dial i) (i_sockets i) (i_order i) (l_agents l) c in (agents, c)
        | None => (l_agents l, c)
        end in
      let '(esc, quit, c) := read_keys (i_keys i) (l_esc l) false c in
      if (quit : bool) then
        let '(out1, c) := ClientDriver.flush (send_bye c) in
        Some (mkLoopOut (out ++ out1) [FAREWELL] (inr (if i_wrote_end i then Exits 0 else Fails RtIo)))
      else finish_turn i out (mkLoop c agents (l_rd l) (l_size l) (l_next l) contact esc)
    end.

(** The first text: clear the screen, cursor home. *)
Definition CLEAR_SCREEN : list Z := [27; 91; 50; 74; 27; 91; 72].

(** The state before the first turn. @ src/bin/noissh.rs:784-809 interactive_loop *)
Definition loop_begin (c : ClientCore) (size : option (Z * Z)) (now now2 : Z) : Loop :=
  mkLoop c ∅ renderer_new (terminal_size size) (now + KEEPALIVE) now2 false.
End loop.

(** ** What a turn that goes on has done *)

Section goes_on.
Context {N : Snow} {SocketAddr : Type}.
Implicit Types (l : Loop (SocketAddr := SocketAddr)).

Lemma paint_done wrote g rd text rd' :
  paint wrote g rd = (text, true, rd') → paint true g rd = (text, true, rd').
Proof. unfold paint. destruct (paint_text rd g); [by destruct wrote|done]. Qed.


Lemma finish_goes_on i out l o l' :
  finish_turn i out l = Some o → o_next o = inl l' →
  (∃ (c : ClientCore (SocketAddr := SocketAddr)) before,
    l_next l' = (keep_alive i (l_contact l) (l_next l) c).1.2 ∧
    o_dgrams o = before ++ (keep_alive i (l_contact l) (l_next l) c).1.1) ∧
  ∃ g rd, shown_screen (i_now_banner i) (l_contact l') (l_core l') = Some g ∧
    (rd = l_rd l ∨ rd = invalidate (l_rd l)) ∧ paint true g rd = (concat (o_tty o), true, l_rd l').
Proof.
  unfold finish_turn. destruct (follow_size _ _ _ _) as [rd c0] eqn:Hf.
  assert (rd = l_rd l ∨ rd = invalidate (l_rd l)) as Hrd.
  { unfold follow_size in Hf. case_bool_decide; injection Hf as <- _; auto. }
  destruct (ClientDriver.flush c0) as [out1 c1]. destruct (keep_alive i (l_contact l) (l_next l) c1) as [[out2 next] c2] eqn:Hk.
  destruct (shown_screen _ _ c2) as [g|] eqn:Hs; [cbn [mbind option_bind]|done].
  destruct (paint (i_wrote i) g rd) as [[text ok] rd'] eqn:Hp. intros Ho Hn. injection Ho as <-.
  destruct ok; cbn [negb] in Hn |- *; [|done]. destruct (exited c2); [done|]. cbn in Hn. injection Hn as <-. split.
  - exists c1, (out ++ out1). rewrite Hk. cbn. by rewrite (assoc_L (++)).
  - exists g, rd. split; [done|]. split; [done|]. cbn. rewrite app_nil_r. by apply (paint_done (i_wrote i)).
Qed.

(** A turn that goes on gets to its second half, from the same renderer. *)
Lemma turn_goes_on agent i l o l' :
  turn agent i l = Some o → o_next o = inl l' →
  ∃ out l1, l_rd l1 = l_rd l ∧ l_next l1 = l_next l ∧
    l_contact l1 = (if bool_decide (i_dgrams i = []) then l_contact l else i_now_heard i) ∧
    finish_turn i out l1 = Some o.
Proof.
  unfold turn. destruct (i_signalled i); [by intros [= <-]|].
  destruct (recv_all (i_dgrams i) (l_core l)) as [[out [[]|e]] c]; [|by intros [= <-]].
  assert (∃ agents c1, match agent with
    | Some _ => let '(_, agents, c) := pump_agent agent (i_dial i) (i_sockets i) (i_order i) (l_agents l) c in (agents, c)
    | None => (l_agents l, c) end = (agents, c1)) as (agents & c1 & ->).
  { destruct agent; [destruct (pump_agent _ _ _ _ _ _) as [[] ?]|]; by do 2 eexists. }
  destruct (read_keys _ _ _ _) as [[esc quit] c2]. destruct quit.
  - destruct (ClientDriver.flush _). by intros [= <-].
  - intros Hf _. exists out. eexists. split; [|split; [|split; [|exact Hf]]]; reflexivity.
Qed.
End goes_on.

(** ** What the user sees *)

Section seen.
Context (char_width : Z → nat) {V : Vte} {VL : VteLaws V} {N : Snow} {SocketAddr : Type} (agent : option (list Z)).
Local Abbreviation Loop := (Loop (SocketAddr := SocketAddr)).

(** A turn that goes on, and its text on the terminal. *)
Definition session_step (R C : nat) (st st' : Loop * Terminal) : Prop := ∃ i o g,
  turn agent i st.1 = Some o ∧ o_next o = inl st'.1 ∧
  shown_screen (i_now_banner i) (l_contact st'.1) (l_core st'.1) = Some g ∧ paintable char_width R C g ∧
  advance char_width st.2 (as_bytes (concat (o_tty o))) = Some st'.2.

Lemma turn_shown R C i (l l' : Loop) t o g :
  session_ok R C (l_rd l, t) → turn agent i l = Some o → o_next o = inl l' →
  shown_screen (i_now_banner i) (l_contact l') (l_core l') = Some g → paintable char_width R C g →
  ∃ t', advance char_width t (as_bytes (concat (o_tty o))) = Some t' ∧ session_ok R C (l_rd l', t') ∧ shows (screen t') g.
Proof.
  intros Hst Ht Hn Hg Hp. destruct (turn_goes_on _ _ _ _ _ Ht Hn) as (out & l1 & Hrd1 & _ & _ & Hf).
  destruct (finish_goes_on _ _ _ _ _ Hf Hn) as [_ (g' & rd & Hg' & Hrd & Hpaint)].
  rewrite Hg in Hg'. injection Hg' as <-. rewrite Hrd1 in Hrd.
  assert (session_ok R C (rd, t)) as Hst'.
  { destruct Hrd as [-> | ->]; [done|].
    destruct (show_frame_ok char_width R C Invalidate (l_rd l, t) Hst I) as (st' & Heq & H & _). injection Heq as <-. exact H. }
  destruct (show_frame_ok char_width R C (Paint g) (rd, t) Hst' Hp) as ([rd' t'] & Hshow & Hok & Hs & _).
  unfold show_frame in Hshow. rewrite Hpaint in Hshow.
  destruct (advance char_width t _) as [t1|]; [|done]. injection Hshow as <- <-. by exists t1.
Qed.
End seen.

(** C18 The interactive session, as it is seen. The user's terminal, from any contents,
    has and keeps one size, and every screen that was to be shown at an earlier turn
    could be painted at that size: of exactly its rows and columns, with the cursor on
    it and rows that a terminal can show. After any number of such turns, whatever
    arrives, is typed and whenever, each turn that goes on shows some screen: the
    client's with its guesses, under the banner when nothing has been heard for four
    seconds. If that screen too can be painted at the size, the text of the turn is one
    that the terminal, the program's own emulator, takes without failing, and then
    shows it. *)
Theorem session_is_seen (char_width : Z → nat) {V : Vte} {VL : VteLaws V} {N : Snow} {SocketAddr : Type}
    (agent : option (list Z)) R C (c : ClientCore (SocketAddr := SocketAddr)) size now now2 t0 l t i o l' :
  canvas R C (grid t0) → ground (parser t0) →
  rtc (session_step char_width agent R C) (loop_begin c size now now2, t0) (l, t) →
  turn agent i l = Some o → o_next o = inl l' →
  ∃ g, shown_screen (i_now_banner i) (l_contact l') (l_core l') = Some g ∧
    (paintable char_width R C g →
     ∃ t', advance char_width t (as_bytes (concat (o_tty o))) = Some t' ∧ shows (screen t') g).
Proof.
  intros Ht Hq Hr Hturn Hn.
  assert (session_ok R C (l_rd l, t)) as Hok.
  { eapply (rtc_invariant _ (λ st : Loop * Terminal, session_ok R C (l_rd st.1, st.2))) in Hr; [exact Hr|by split_and!|].
    intros [l1 t1] [l2 t2] H1 (i1 & o1 & g1 & H2 & H3 & H4 & H5 & H6). cbn in *.
    destruct (turn_shown char_width agent R C i1 l1 l2 t1 o1 g1 H1 H2 H3 H4 H5) as (t3 & H7 & H8 & _).
    rewrite H6 in H7. by injection H7 as <-. }
  destruct (turn_goes_on _ _ _ _ _ Hturn Hn) as (out & l1 & _ & _ & _ & Hf).
  destruct (finish_goes_on _ _ _ _ _ Hf Hn) as [_ (g & rd & Hg & _)]. exists g. split; [done|]. intros Hp.
  destruct (turn_shown char_width agent R C i l l' t o g Hok Hturn Hn Hg Hp) as (t' & ? & _ & ?). by exists t'.
Qed.

(** ** Keepalives *)

Section clock.
Context {N : Snow} {SocketAddr : Type} (agent : option (list Z)).
Local Abbreviation Loop := (Loop (SocketAddr := SocketAddr)).




End clock.


(** ** Runs *)

(** A turn on a terminal of one row and two columns: a key is typed, the window is
    followed, a keepalive is due and the banner is up. *)
Definition sample_in : LoopIn :=
  mkLoopIn false 0 [] (λ _, false) (λ _, ([], [])) [] [[104]] (Some (2, 1)) 5000000000 5000000000 5000000000 5000000000 true true.
Definition sample_loop : Loop := @loop_begin sample_xx nat (sample_client ∅) None 0 0.
Definition sample_turn : option (LoopOut (SocketAddr := nat)) := turn None sample_in sample_loop.
Definition sample_out : LoopOut := default (mkLoopOut [] [] (inr (Exits 0))) sample_turn.
Definition sample_next : Loop := match o_next sample_out with inl l => l | inr _ => sample_loop end.

Lemma sample_turned : turn None sample_in sample_loop = Some sample_out.
Proof. apply default_by_test. vm_compute. reflexivity. Qed.
Lemma sample_goes_on : o_next sample_out = inl sample_next.
Proof.
  assert (match o_next sample_out with inl _ => true | inr _ => false end = true) as H by (vm_compute; reflexivity).
  unfold sample_next. by destruct (o_next sample_out).
Qed.

Lemma session_is_seen_witness : ∃ g t',
  shown_screen (i_now_banner sample_in) (l_contact sample_next) (l_core sample_next) = Some g ∧
  @advance wide_width sample_parser (@mkTerminal sample_parser tt (grid_new 1 2)) (as_bytes (concat (o_tty sample_out))) = Some t' ∧
  shows (screen t') g.
Proof.
  destruct (@session_is_seen wide_width sample_parser sample_parser_laws sample_xx nat None 1 2 (sample_client ∅) None 0 0
    (@mkTerminal sample_parser tt (grid_new 1 2)) _ _ _ _ _
    ltac:(split; [split_and!|]; reflexivity) (@ground_new _ sample_parser_laws) (rtc_refl _ _) sample_turned sample_goes_on)
    as (g & Hg & Hshow).
  assert (match shown_screen (i_now_banner sample_in) (l_contact sample_next) (l_core sample_next) with
    | Some g => paintable_b wide_width 1 2 g | None => false end = true) as Hp by (vm_compute; reflexivity).
  destruct Hshow as (t' & Ht & Hs).
  - rewrite Hg in Hp. exact (paintable_by_test _ _ _ _ Hp).
  - exists g, t'. exact (conj Hg (conj Ht Hs)).
Defined.

