(* ===== verification/Noisshd.v ===== *)
(** * The server program ([src/bin/noisshd.rs]) and the key generator

    The arguments, the one-shot mode that the client's bootstrap starts and the
    standalone mode, as programs of calls ([Script]), and the loop of the one-shot
    server. The key generator's arguments. What is logged is left out. *)

From Stdlib Require Import Ascii String.
From stdpp Require Import gmap.
From S2P Require Import Prelude Literal Wire NoiseCore Session Handshake Cell Text Grid GridOps Control Auth Pty Runtime Server ServerInv ServerProps Forward Exec Files Xfer ServerDriver Drain Daemon Ssh Script.

(** ** Arguments *)

(** @ src/bin/noisshd.rs:33-43 Args *)
Record DArgs := mkDArgs {
  d_one_shot : bool;
  d_listen : option (list Z);
  d_bind : option (list Z);
  d_key : option (list Z);
  d_authorized_keys : option (list Z);
  d_authorize : option (list Z);
  d_command : option (list (list Z));
  d_user : option (list Z);
  d_verbose : bool;
}.

Definition set_one_shot v a := mkDArgs v (d_listen a) (d_bind a) (d_key a) (d_authorized_keys a) (d_authorize a) (d_command a) (d_user a) (d_verbose a).
Definition set_listen v a := mkDArgs (d_one_shot a) v (d_bind a) (d_key a) (d_authorized_keys a) (d_authorize a) (d_command a) (d_user a) (d_verbose a).
Definition set_bind v a := mkDArgs (d_one_shot a) (d_listen a) v (d_key a) (d_authorized_keys a) (d_authorize a) (d_command a) (d_user a) (d_verbose a).
Definition set_key v a := mkDArgs (d_one_shot a) (d_listen a) (d_bind a) v (d_authorized_keys a) (d_authorize a) (d_command a) (d_user a) (d_verbose a).
Definition set_authorized_keys v a := mkDArgs (d_one_shot a) (d_listen a) (d_bind a) (d_key a) v (d_authorize a) (d_command a) (d_user a) (d_verbose a).
Definition set_authorize v a := mkDArgs (d_one_shot a) (d_listen a) (d_bind a) (d_key a) (d_authorized_keys a) v (d_command a) (d_user a) (d_verbose a).
Definition set_d_command v a := mkDArgs (d_one_shot a) (d_listen a) (d_bind a) (d_key a) (d_authorized_keys a) (d_authorize a) v (d_user a) (d_verbose a).
Definition set_d_user v a := mkDArgs (d_one_shot a) (d_listen a) (d_bind a) (d_key a) (d_authorized_keys a) (d_authorize a) (d_command a) v (d_verbose a).
Definition set_d_verbose v a := mkDArgs (d_one_shot a) (d_listen a) (d_bind a) (d_key a) (d_authorized_keys a) (d_authorize a) (d_command a) (d_user a) v.

Inductive DOutcome := DParsed (a : DArgs) | DHelp | DVersion.

(** The options with a value, which is the next argument whatever it is, or nothing at
    the end. @ src/bin/noisshd.rs:102-107 parse_args *)
Definition d_valued (arg : list Z) : option (option (list Z) → DArgs → DArgs) :=
  if bool_decide (arg = str "--listen") then Some set_listen
  else if bool_decide (arg = str "--bind") then Some set_bind
  else if bool_decide (arg = str "--key") then Some set_key
  else if bool_decide (arg = str "--authorized-keys") then Some set_authorized_keys
  else if bool_decide (arg = str "--authorize") then Some set_authorize
  else if bool_decide (arg = str "--user") then Some set_d_user
  else None.

(** @ src/bin/noisshd.rs:90-114 parse_args *)
Fixpoint d_parse_loop (argv : list (list Z)) (a : DArgs) : DOutcome :=
  match argv with
  | [] => DParsed a
  | arg :: argv =>
    if bool_decide (arg = str "-h") || bool_decide (arg = str "--help") then DHelp
    else if bool_decide (arg = str "-V") || bool_decide (arg = str "--version") then DVersion
    else if bool_decide (arg = str "--one-shot") then d_parse_loop argv (set_one_shot true a)
    else if bool_decide (arg = str "-v") || bool_decide (arg = str "--verbose") then d_parse_loop argv (set_d_verbose true a)
    else if bool_decide (arg = str "--command") then DParsed (set_d_command (Some argv) a)
    else
      match d_valued arg with
      | Some set =>
        match argv with
        | v :: argv => d_parse_loop argv (set (Some v) a)
        | [] => DParsed (set None a)
        end
      | None => d_parse_loop argv a
      end
  end.

(** @ src/bin/noisshd.rs:77-116 parse_args *)
Definition d_parse_args (argv : list (list Z)) : DOutcome :=
  d_parse_loop argv (mkDArgs false None None None None None None None false).

(** What the key generator is to do: with the key's path, if one is given. *)
Inductive KeygenOutcome := KeygenRun (key_path : option (list Z)) | KeygenHelp | KeygenVersion | KeygenUsage (arg : list Z).
(** @ src/bin/noissh-keygen.rs:44-69 run *)
Fixpoint keygen_args (argv : list (list Z)) (key_path : option (list Z)) : KeygenOutcome :=
  match argv with
  | [] => KeygenRun key_path
  | arg :: argv =>
    if bool_decide (arg = str "--help") || bool_decide (arg = str "-h") then KeygenHelp
    else if bool_decide (arg = str "--version") || bool_decide (arg = str "-V") then KeygenVersion
    else if bool_decide (arg = str "--key") then
      match argv with
      | p :: argv => keygen_args argv (Some p)
      | [] => KeygenUsage arg
      end
    else KeygenUsage arg
  end.

(** ** The two modes *)

Section modes.
Context (char_width : Z → nat) {V : Vte} {N : Snow} {SocketAddr : Type} {B64 : Base64} (p : Process).
Context (addr_port : SocketAddr → Z) (debug : list Z → list Z) (version : list Z).
Local Abbreviation ServerCore := (ServerCore (SocketAddr := SocketAddr)).

(** A key, the files, an address in text, a UDP socket ([None]: any port of any
    interface), its port, a line of output, the step into the background. *)
Inductive DCall :=
| DGenerate
| DLoadKey (path : option (list Z))
| DLoadAuthorized (path : option (list Z))
| DParseAddr (text : list Z)
| DBind (addr : option SocketAddr)
| DLocalPort
| DPrint (line : list Z)
| DDaemonize.

Definition d_answer (c : DCall) : Type :=
  match c with
  | DGenerate => result RuntimeError Keypair
  | DLoadKey _ => result RuntimeError Keypair
  | DLoadAuthorized _ => result RuntimeError AuthorizedKeys
  | DParseAddr _ => option SocketAddr
  | DBind _ => bool
  | DLocalPort => option Z
  | DPrint _ => unit
  | DDaemonize => bool
  end.
Local Abbreviation Script := (Script d_answer).
Local Open Scope script_scope.

(** The core of the one-shot server: one key, and the command if one is given.
    @ src/bin/noisshd.rs:219-230 run_one_shot *)
Definition one_shot_core (kp : Keypair) (key : PublicKey) (cmd : option (list (list Z))) (login : list (result PtyError Z)) : ServerCore :=
  let c := server_core_new kp (authorized_add [] key (str "ssh-bootstrap")) login None in
  match cmd with Some cmd => with_command cmd c | None => c end.

(** The requested port or, if it is taken, any.
    @ src/bin/noisshd.rs:235-242 run_one_shot *)
Definition bind_or_any (addr : SocketAddr) : Script (result RuntimeError unit) :=
  ask ok <- call (DBind (Some addr));
  if (ok : bool) then Done (Ok ())
  else if negb (addr_port addr =? 0) then
    ask ok <- call (DBind None);
    Done (if (ok : bool) then Ok () else Err RtIo)
  else Done (Err RtIo).

(** Up to the loop. @ src/bin/noisshd.rs:194-252 run_one_shot *)
Definition run_one_shot (a : DArgs) (login : list (result PtyError Z)) : Script (result RuntimeError ServerCore) :=
  need kp <- call DGenerate;
  match d_authorize a with
  | None => Done (Err (Usage (str "--one-shot requires --authorize <base64-public-key> (it is normally launched by the noissh client's SSH bootstrap, not by hand)")))
  | Some b64 =>
    match b64_decode b64 with
    | None => Done (Err (Usage (str "--authorize value is not valid base64")))
    | Some raw =>
      match from_bytes raw with
      | Err e => Done (Err (RtAuth e))
      | Ok key =>
        let bind_str := default (str "0.0.0.0:0") (d_bind a) in
        ask addr <- call (DParseAddr bind_str);
        match addr with
        | None => Done (Err (BadAddress (str "invalid --bind address " ++ debug bind_str ++ str " (expected ADDR:PORT)")))
        | Some addr =>
          need _ <- bind_or_any addr;
          ask port <- call DLocalPort;
          match port with
          | None => Done (Err RtIo)
          | Some port =>
            ask _ <- call (DPrint (version_line version));
            ask _ <- call (DPrint (connect_line port (public kp)));
            ask ok <- call DDaemonize;
            Done (if (ok : bool) then Ok (one_shot_core kp key (d_command a) login) else Err RtIo)
          end
        end
      end
    end
  end.

(** Up to the loop. @ src/bin/noisshd.rs:127-163 run_standalone *)
Definition run_standalone (a : DArgs) (login : list (result PtyError Z)) : Script (result RuntimeError ServerCore) :=
  need kp <- call (DLoadKey (d_key a));
  need authorized <- call (DLoadAuthorized (d_authorized_keys a));
  let listen_str := default (str "0.0.0.0:51820") (d_listen a) in
  ask listen <- call (DParseAddr listen_str);
  match listen with
  | None => Done (Err (BadAddress (str "invalid --listen address " ++ debug listen_str ++ str " (expected ADDR:PORT, e.g. 0.0.0.0:51820)")))
  | Some listen =>
    let core := server_core_new kp authorized login None in
    let core := match d_command a with Some cmd => with_command cmd core | None => core end in
    let core := match d_user a with Some _ => with_user (d_user a) core | None => core end in
    ask ok <- call (DBind (Some listen));
    if (ok : bool) then
      ask port <- call DLocalPort;
      Done (match port with Some _ => Ok core | None => Err RtIo end)
    else Done (Err RtIo)
  end.

(** ** The loop of the one-shot server *)

(** What a round finds, and whether the minute of grace is over. *)
Record Round := mkRound {
  r_received : option (option (SocketAddr * list Z));
  r_env : Env;
  r_io : TickIo;
  r_late : bool;
}.

(** A round in the orders in which the session map is walked. *)
Definition round (order : ServerCore → list SessionId) (r : Round) (d : Server) : option (bool * list (SocketAddr * list Z) * Server) :=
  match r_received r with
  | None => poll_once char_width p [] [] None (r_env r) (r_io r) d
  | Some dgram =>
    '(_, d1) ← poll_receive p (order (core d)) dgram (r_env r) d;
    poll_once char_width p (order (core d)) (order (core d1)) (Some dgram) (r_env r) (r_io r) d
  end.

(** The last rounds, for the exit notice; whether they go well does not matter.
    @ src/bin/noisshd.rs:263-265 run_one_shot *)
Fixpoint last_rounds (order : ServerCore → list SessionId) (rounds : list Round) (d : Server) : option Server :=
  match rounds with
  | [] => Some d
  | r :: rounds => '(_, _, d) ← round order r d; last_rounds order rounds d
  end.

(** The server at the end, and whether it ended before the rounds did; [None] is a
    panic. @ src/bin/noisshd.rs:258-271 run_one_shot *)
Fixpoint serve_one_shot (order : ServerCore → list SessionId) (rounds : list Round) (d : Server) : option (Server * bool) :=
  match rounds with
  | [] => Some (d, false)
  | r :: rounds =>
    '(go_on, _, d) ← round order r d;
    if negb (go_on : bool) then Some (d, true)
    else if all_done (core d) then
      d ← last_rounds order (take 20 rounds) d; Some (d, (20 <=? length rounds)%nat)
    else if (session_count (core d) =? 0)%nat && r_late r then Some (d, true)
    else serve_one_shot order rounds d
  end.
End modes.

(** ** The one-shot server serves one key *)

Section one_key.
Context (char_width : Z → nat) {V : Vte} {N : Snow} {SocketAddr : Type} {B64 : Base64} (p : Process).
Local Abbreviation ServerCore := (ServerCore (SocketAddr := SocketAddr)).
Local Abbreviation Server := (@Server V N SocketAddr).

(** A server bound to a socket, over these files. *)
Definition started (c : ServerCore) (disk : Fs) (ans : list Ans) : Server := mkServer c ∅ [] ∅ [] ∅ ∅ disk ans [].

(** The lines that were printed, and the bytes they are. *)
Definition printed (tr : list (Step (d_answer (SocketAddr := SocketAddr)))) : list (list Z) :=
  omap (λ s, match projT1 s with DPrint line => Some line | _ => None end) tr.
Definition output (lines : list (list Z)) : list Z := concat ((λ l, as_bytes l ++ [10]) <$> lines).

Section rounds.
Context (order : ServerCore → list SessionId) (Horder : ∀ c, session_order (order c) c).

Lemma round_runs r (d d' : Server) go out :
  round char_width p order r d = Some (go, out, d') → rtc (daemon_step char_width p) d d'.
Proof.
  unfold round. destruct (r_received r) as [dgram|]; [|intros [= _ _ <-]; apply rtc_refl].
  destruct (poll_receive _ _ _ _ _) as [[out1 d1]|] eqn:Hr; [|done]. cbn [mbind option_bind]. intros Hp.
  assert (go = true) as ->.
  { revert Hp. unfold poll_once. rewrite Hr. cbn [mbind option_bind].
    destruct (tick _ _ _ _ _) as [[out3 c3]|]; [|done]. by intros [= <- _ _]. }
  apply rtc_once. eapply daemon_round; [apply Horder|exact Hr|apply Horder|exact Hp].
Qed.

Lemma last_rounds_run rounds : ∀ d d', last_rounds char_width p order rounds d = Some d' → rtc (daemon_step char_width p) d d'.
Proof.
  induction rounds as [|r rounds IH]; intros d d'; cbn [last_rounds]; [intros [= <-]; apply rtc_refl|].
  destruct (round _ _ _ _ _) as [[[go out] d1]|] eqn:Hr; [|done]. cbn [mbind option_bind]. intros H.
  etrans; [by eapply round_runs|by apply IH].
Qed.

Lemma serve_runs rounds : ∀ d d' ended,
  serve_one_shot char_width p order rounds d = Some (d', ended) → rtc (daemon_step char_width p) d d'.
Proof.
  induction rounds as [|r rounds IH]; intros d d' ended; cbn [serve_one_shot]; [intros [= <- _]; apply rtc_refl|].
  destruct (round _ _ _ _ _) as [[[go out] d1]|] eqn:Hr; [|done]. cbn [mbind option_bind].
  apply round_runs in Hr. destruct (negb go); [by intros [= <- _]|]. destruct (all_done (core d1)).
  { destruct (last_rounds _ _ _ _ _) as [d2|] eqn:Hl; [|done]. cbn [mbind option_bind]. intros [= <- _].
    etrans; [exact Hr|by eapply last_rounds_run]. }
  destruct (_ && _); [by intros [= <- _]|]. intros H. etrans; [exact Hr|by eapply IH].
Qed.
End rounds.

Lemma daemon_steps_run (d d' : Server) :
  rtc (daemon_step char_width p) d d' → rtc (server_step char_width p any_traffic) (core d) (core d').
Proof. induction 1; [apply rtc_refl|]. etrans; [by eapply daemon_step_runs|done]. Qed.

Lemma one_shot_start kp key cmd login : one_shot_core (SocketAddr := SocketAddr) kp key cmd login =
  server_start kp [(key, str "ssh-bootstrap")] login cmd None.
Proof. by destruct cmd. Qed.

Lemma only_key key label k : authorize_client [(key, label)] k = true → k = key.
Proof.
  unfold authorize_client, from_bytes. destruct (_ =? _)%nat; [|done]. unfold authorized_contains. cbn [existsb].
  rewrite orb_false_r. by intros ->%bool_decide_eq_true.
Qed.

Lemma one_shot_sessions kp key cmd login disk ans (d : Server) sid s :
  NoDup (children login) → rtc (daemon_step char_width p) (started (one_shot_core kp key cmd login) disk ans) d →
  sessions (core d) !! sid = Some s → client_key s = key.
Proof.
  intros Hnd Hr%daemon_steps_run Hs. cbn [core started] in Hr. rewrite one_shot_start in Hr.
  destruct (server_reachable_wf _ _ _ _ _ _ _ _ _ Hnd Hr) as [[] Hcfg]. injection Hcfg as _ Ha _ _. rewrite Ha in *.
  destruct (wf_sessions _ _ Hs). by eapply only_key.
Qed.

Lemma bind_or_any_wp addr_port addr (tr : list (Step (d_answer (SocketAddr := SocketAddr)))) Q :
  (∀ r t, printed t = [] → Q r (tr ++ t)) → wp (bind_or_any addr_port addr) tr Q.
Proof.
  intros HQ. unfold bind_or_any. apply wp_bind, wp_call. intros []; [by apply HQ|].
  destruct (negb _); [|by apply HQ]. apply wp_bind, wp_call. intros ok. cbn [wp]. rewrite <- (assoc_L (++)). by apply HQ.
Qed.
End one_key.

(** C19 The one-shot server, from its arguments to any round of its loop, whatever the
    system and the network answer. If it gets to the loop it has printed exactly two
    lines, its version and then its port and public key, which the client takes as
    they are behind any banner; and every session it ever has is of the one client
    key that it was given, of 32 bytes. *)
Theorem one_shot_serves_one_key (char_width : Z → nat) {V : Vte} {N : Snow} {SocketAddr : Type}
    `{B64 : Base64, !Base64Laws} (p : Process) addr_port debug version (a : DArgs) login :
  NoDup (children login) →
  wp (run_one_shot (SocketAddr := SocketAddr) addr_port debug version a login) [] (λ r tr, ∀ c, r = Ok c →
    ∃ raw kp port, d_authorize a ≫= b64_decode = Some raw ∧ length raw = KEY_LEN ∧
      existT DGenerate (Ok kp) ∈ tr ∧ existT DLocalPort (Some port) ∈ tr ∧
      printed tr = [version_line version; connect_line port (public kp)] ∧
      (0 ≤ port < 2 ^ 16 → Forall is_u8 (public kp) → length (public kp) = 32%nat → ∀ banner,
        find_last parse_connect_line (Text.lines (from_utf8_lossy (banner ++ 10 :: output (printed tr)))) = Some (port, public kp)) ∧
      ∀ order rounds disk ans d ended, (∀ c, session_order (order c) c) →
        serve_one_shot char_width p order rounds (started c disk ans) = Some (d, ended) →
        ∀ sid s, sessions (core d) !! sid = Some s → client_key s = raw).
Proof.
  intros Hnd. unfold run_one_shot. apply wp_bind, wp_call. intros [kp|e]; [|done].
  destruct (d_authorize a) as [b64|]; [|done]. cbn [mbind option_bind].
  destruct (b64_decode b64) as [raw|]; [|done]. unfold from_bytes. destruct (Nat.eqb_spec (length raw) KEY_LEN) as [Hl|]; [|done].
  apply wp_bind, wp_call. intros [addr|]; [|done].
  apply wp_bind, bind_or_any_wp. intros [[]|e] t Ht; [|done].
  apply wp_bind, wp_call. intros [port|]; [|done]. do 2 (apply wp_bind, wp_call; intros []).
  apply wp_bind, wp_call. intros []; [|done]. cbn [wp]. intros c Hc. injection Hc as <-.
  match goal with |- context [printed ?x] => set (tr := x) end.
  assert (printed tr = [version_line version; connect_line port (public kp)]) as Hp.
  { unfold tr, printed. rewrite !omap_app. unfold printed in Ht. rewrite Ht. reflexivity. }
  exists raw, kp, port. rewrite Hp. split_and!; [done|done| | |done| |].
  1,2: unfold tr; rewrite !elem_of_app, ?list_elem_of_singleton; tauto.
  - intros Hport Hu Hlen banner. unfold output. cbn [fmap list_fmap concat]. rewrite app_nil_r, <- !(assoc_L (++)).
    change (?x ++ [10] ++ ?y) with (x ++ 10 :: y).
    replace (banner ++ 10 :: as_bytes (version_line version) ++ 10 :: as_bytes (connect_line port (public kp)) ++ [10])
      with ((banner ++ 10 :: as_bytes (version_line version)) ++ 10 :: as_bytes (connect_line port (public kp)) ++ 10 :: [])
      by by rewrite <- (assoc_L (++)).
    apply last_line_wins; [done..|]. constructor.
  - intros order rounds disk ans d ended Hord Hs. apply serve_runs in Hs; [|done]. intros sid s. by eapply one_shot_sessions.
Qed.

(** ** A run *)

Definition sample_one_shot : DArgs :=
  match d_parse_args [str "--one-shot"; str "--authorize"; b64_encode (Base64 := sample_base64) (replicate 32 5); str "--command"; str "top"; str "-h"] with
  | DParsed a => a
  | _ => mkDArgs false None None None None None None None false
  end.

Definition sample_system {N : Snow} (c : DCall (SocketAddr := nat)) : d_answer c :=
  match c with
  | DGenerate => Ok (mkKeypair (replicate 32 3) (replicate 32 7))
  | DLoadKey _ => Err RtIo
  | DLoadAuthorized _ => Err RtIo
  | DParseAddr _ => Some 1%nat
  | DBind _ => true
  | DLocalPort => Some 60001
  | DPrint _ => tt
  | DDaemonize => true
  end.
Definition sample_start := Script.run sample_system
  (@run_one_shot sample_vte sample_xx nat sample_base64 Z.of_nat id (str "0.6.1") sample_one_shot []).

Lemma sample_one_shot_command : d_command sample_one_shot = Some [str "top"; str "-h"].
Proof. vm_compute. reflexivity. Qed.

Lemma one_shot_serves_one_key_witness :
  is_ok sample_start.2 = true ∧
  find_last (parse_connect_line (B64 := sample_base64)) (Text.lines (from_utf8_lossy (forged_banner ++ 10 :: output (printed sample_start.1)))) =
    Some (60001, replicate 32 7).
Proof.
  assert (is_ok sample_start.2 = true) as Hok by (vm_compute; reflexivity). split; [exact Hok|].
  pose proof (wp_run sample_system _ [] _ (@one_shot_serves_one_key sample_width sample_vte sample_xx nat sample_base64 sample_base64_laws
    sample_process Z.of_nat id (str "0.6.1") sample_one_shot [] (NoDup_nil_2))) as H.
  fold sample_start in H. rewrite app_nil_l in H.
  assert (Forall (λ s, match s with existT DGenerate r => r = Ok (mkKeypair (replicate 32 3) (replicate 32 7)) | existT DLocalPort r => r = Some 60001 | _ => True end) sample_start.1) as Hans.
  { repeat (constructor; [exact I || reflexivity|]). constructor. }
  destruct sample_start.2 as [c|e]; [|discriminate Hok].
  destruct (H c eq_refl) as (raw & kp & port & _ & _ & Hkp & Hport & _ & Hline & _).
  rewrite Forall_forall in Hans. apply Hans in Hkp, Hport. injection Hkp as ->. injection Hport as ->.
  apply Hline; [lia|apply is_u8_all; vm_compute; reflexivity|reflexivity].
Defined.
