(* ===== verification/Main.v ===== *)
(** * The client program ([src/bin/noissh.rs])

    What [noissh] does with its arguments: forget a host, copy a key, or connect,
    directly or through ssh, and run what was asked for.  A program of calls
    ([Script]): files, names, ssh, the terminal and the datagrams of a connection
    answer.  What it prints is left out. *)

From Stdlib Require Import Ascii String.
From stdpp Require Import gmap.
From S2P Require Import Prelude Literal Wire NoiseCore Session Handshake Cell Text Predict Shell Control Auth Runtime SshConfig Client ClientProps Forwarder Exec Files Xfer ClientDriver Cli Ssh Script.

Section main.
Context {N : Snow} {SocketAddr : Type} `{B64 : Base64}.
Context (to_lowercase : list Z → list Z) (debug : list Z → list Z) (addr_port : SocketAddr → Z).
Local Abbreviation ClientCore := (ClientCore (SocketAddr := SocketAddr)).

(** What a connection finds: whether the socket could be bound, the random session id,
    the terminal's name and the datagrams of each round. *)
Record ConnectAns := mkConnectAns {
  ca_bound : bool;
  ca_sid : SessionId;
  ca_term : option (list Z);
  ca_dgrams : list (option (list Z));
}.

Inductive MainCall :=
| CallSsh (c : Call)
| CallKeyExists
| CallLoadKey
| CallLoadKnown
| CallSaveKnown (kh : KnownHosts)
| CallSshConfig (path : option (list Z))
| CallAgentSock
| CallConnect (timeout : Z) (addr : SocketAddr) (label : list Z) (known : KnownHosts)
| CallVersion (timeout : Z).

Definition main_answer (c : MainCall) : Type :=
  match c with
  | CallSsh c => answer (SocketAddr := SocketAddr) c
  | CallKeyExists => bool
  | CallLoadKey => result RuntimeError Keypair
  | CallLoadKnown => result RuntimeError KnownHosts
  | CallSaveKnown _ => result RuntimeError unit
  | CallSshConfig _ => option (list Z)
  | CallAgentSock => option (list Z)
  | CallConnect _ _ _ _ => ConnectAns
  | CallVersion _ => list (option (list Z))
  end.
Local Abbreviation Script := (Script main_answer).
Local Open Scope script_scope.

Definition ssh_part {A} (m : SshScript SocketAddr A) : Script A := lift CallSsh (λ _ r, r) m.

(** In milliseconds. @ src/bin/noissh.rs:769-769 DIRECT_CONNECT_TIMEOUT *)
Definition DIRECT_CONNECT_TIMEOUT : Z := 3000.
(** @ src/bin/noissh.rs:772-772 BOOTSTRAP_CONNECT_TIMEOUT *)
Definition BOOTSTRAP_CONNECT_TIMEOUT : Z := 5000.
(** @ src/bin/noissh.rs:777-777 DIRECT_VERSION_WAIT *)
Definition DIRECT_VERSION_WAIT : Z := 400.

(** What is to be done once connected. *)
Inductive Action :=
| ActNothing
| ActExec (cmd : list Z) (opts : ExecOptions) (c : ClientCore)
| ActTransfer (req : XferRequest) (local : list Z) (c : ClientCore)
| ActForward (local remote : list (Z * list Z)) (dynamic : list (list Z * Z)) (c : ClientCore)
| ActShell (c : ClientCore).

(** ** What the arguments ask for *)

(** @ src/bin/noissh.rs:493-495 run *)
Definition has_forwards (a : Args) : bool :=
  negb (bool_decide (a_local_forwards a = [])) || negb (bool_decide (a_remote_forwards a = []))
  || negb (bool_decide (a_dynamic_forwards a = [])).

(** [-N] drops a command that was given. @ src/bin/noissh.rs:497-501 run *)
Definition command (a : Args) : list (list Z) := if a_no_command a then [] else a_command a.

(** @ src/bin/noissh.rs:504-504 run *)
Definition forward_only (a : Args) : bool :=
  a_no_command a || (has_forwards a && bool_decide (command a = [])).

(** @ src/bin/noissh.rs:505-506 run *)
Definition want_shell (a : Args) : bool :=
  negb (forward_only a) && negb (has_forwards a) && bool_decide (a_transfer a = None) && bool_decide (command a = []).

(** [words.join(" ")] *)
Fixpoint join_words (words : list (list Z)) : list Z :=
  match words with
  | [] => []
  | [w] => w
  | w :: words => w ++ 32 :: join_words words
  end.

(** @ src/bin/noissh.rs:728-752 run *)
Definition action (a : Args) (c : ClientCore) : Action :=
  if negb (bool_decide (command a = [])) then
    ActExec (join_words (command a))
      (mkExecOptions (a_local_forwards a) (a_remote_forwards a) (a_dynamic_forwards a) (a_null_stdin a)) c
  else
    match a_transfer a with
    | Some (req, local) => ActTransfer req local c
    | None =>
      if forward_only a then ActForward (a_local_forwards a) (a_remote_forwards a) (a_dynamic_forwards a) c
      else ActShell c
    end.

(** ** Maintenance *)

(** @ src/bin/noissh.rs:426-440 run *)
Definition forget (host : list Z) : Script (result RuntimeError Action) :=
  need known <- call CallLoadKnown;
  let '(removed, known) := remove_matching known host in
  if bool_decide (removed = []) then Done (Ok ActNothing)
  else need _ <- call (CallSaveKnown known); Done (Ok ActNothing).

(** The key, which is made on the first run and then shown.
    @ src/bin/noissh.rs:458-473 run *)
Definition own_key : Script (result RuntimeError Keypair) :=
  ask there <- call CallKeyExists;
  need kp <- call CallLoadKey;
  if (there : bool) then Done (Ok kp)
  else
    match from_bytes (public kp) with
    | Ok _ => Done (Ok kp)
    | Err e => Done (Err (RtAuth e))
    end.

(** @ src/bin/noissh.rs:479-487 run *)
Definition copy_own_key (env : SshEnv) (target : list Z) (kp : Keypair) (a : Args) : Script (result RuntimeError Action) :=
  match from_bytes (public kp) with
  | Err e => Done (Err (RtAuth e))
  | Ok k => need _ <- ssh_part (copy_id env target (key_to_text k) (a_ssh_args a)); Done (Ok ActNothing)
  end.

(** ** Connecting *)

(** [-A] needs a shell and an agent. @ src/bin/noissh.rs:509-519 run *)
Definition agent_sock (a : Args) : Script (option (list Z)) :=
  if a_forward_agent a && want_shell a then
    ask v <- call CallAgentSock;
    Done match v with Some ((_ :: _) as s) => Some s | _ => None end
  else Done None.

(** The host's settings: [-F]'s file must be readable, the usual one may be missing.
    @ src/bin/noissh.rs:531-541 run *)
Definition host_config (a : Args) (alias : list Z) : Script (result RuntimeError HostConfig) :=
  let settings text := default (mkHostConfig None None None) (resolve text alias) in
  ask text <- call (CallSshConfig (a_ssh_config a));
  Done match text, a_ssh_config a with
       | Some text, _ => Ok (settings text)
       | None, Some path =>
         Err (Usage (str "can't read the ssh config file " ++ debug path ++ str " given with -F"))
       | None, None => Ok (mkHostConfig None None None)
       end.

(** A known host's label. @ src/bin/noissh.rs:552-552 run *)
Definition host_port (host : list Z) (port : Z) : list Z := host ++ 58 :: digits port.

(** A connection over UDP, from its answers. @ src/bin/noissh.rs:587-598 run *)
Definition connect (timeout : Z) (kp : Keypair) (known : KnownHosts) (label : list Z) (addr : SocketAddr)
    (rows cols : Z) (shell : bool) (agent : option (list Z)) : Script (result RuntimeError ClientCore) :=
  ask x <- call (CallConnect timeout addr label known);
  Done (connect_with (ca_bound x) (ca_sid x) (ca_term x) kp known label addr rows cols Adaptive shell agent
    (ca_dgrams x)).2.

(** Try a server that is there. [None] when the ssh bootstrap is to follow.
    @ src/bin/noissh.rs:559-632 run *)
Definition try_direct (a : Args) (kp : Keypair) (known : KnownHosts) (host : list Z) (rows cols : Z)
    (agent : option (list Z)) : Script (result RuntimeError (option ClientCore)) :=
  let label := host_port host (a_port a) in
  if a_direct a || (negb (a_ssh a) && bool_decide (is_Some (known !! label))) then
    ask r <- call (CallSsh (CallResolve host (a_port a)));
    match r with
    | Some (Some addr) =>
      ask r <- connect DIRECT_CONNECT_TIMEOUT kp known label addr rows cols (want_shell a) agent;
      Done match r with
           | Ok c => Ok (Some c)
           | Err Timeout =>
             if negb (a_direct a) then Ok None
             else Err (BadAddress (str "no response from " ++ label ++
               str " on UDP. Is noisshd running there with that port reachable? (drop --direct to bootstrap it over SSH.)"))
           | Err e => Err e
           end
    | _ =>
      if a_direct a then Done (Err (BadAddress (str "could not resolve host " ++ debug host)))
      else Done (Ok None)
    end
  else Done (Ok None).

(** Start a server over ssh; its key is trusted for this session only.
    @ src/bin/noissh.rs:640-700 run *)
Definition over_ssh (env : SshEnv) (a : Args) (kp : Keypair) (target host : list Z) (rows cols : Z)
    (agent : option (list Z)) : Script (result RuntimeError ClientCore) :=
  let server_port := default (a_port a) (a_server_port a) in
  need boot <- ssh_part (bootstrap to_lowercase env target host [a_server_cmd a] (public kp) (a_ssh_args a)
    (negb (a_no_install a)) (Some server_port));
  match from_bytes (b_server_pubkey boot) with
  | Err e => Done (Err (RtAuth e))
  | Ok key =>
    let label := host_port host (addr_port (b_server_addr boot)) in
    ask r <- connect BOOTSTRAP_CONNECT_TIMEOUT kp (check_or_add ∅ label key).2 label (b_server_addr boot)
      rows cols (want_shell a) agent;
    Done match r with
         | Ok c => Ok c
         | Err Timeout => Err (BadAddress (str "connected over SSH but the UDP session to " ++ label ++
             str " timed out — that UDP port is likely blocked by a firewall/NAT. Open it (or pick an open one with --server-port N) and retry."))
         | Err e => Err e
         end
  end.

(** A server older than this client may be replaced. @ src/bin/noissh.rs:719-726 run *)
Definition check_version (env : SshEnv) (a : Args) (target : list Z) (direct : bool) (c : ClientCore) :
    Script ClientCore :=
  if direct && want_shell a && negb (a_no_install a) then
    ask t <- call (CallSsh CallIsTerminal);
    if (t : bool) then
      ask dgrams <- call (CallVersion DIRECT_VERSION_WAIT);
      let '(_, v, c) := wait_for_server_version dgrams c in
      match v with
      | Some v => ask _ <- ssh_part (maybe_offer_direct_upgrade env target (a_ssh_args a) v); Done c
      | None => Done c
      end
    else Done c
  else Done c.

(** With a session: keep a new pin, look at the version, and go on.
    @ src/bin/noissh.rs:702-752 run *)
Definition connected (env : SshEnv) (a : Args) (target : list Z) (direct : bool) (c : ClientCore) :
    Script (result RuntimeError Action) :=
  need _ <- (if known_hosts_dirty c then call (CallSaveKnown (c_known c)) else Done (Ok ()));
  ask c <- check_version env a target direct c;
  Done (Ok (action a c)).

(** [cols] and [rows] are the terminal's. @ src/bin/noissh.rs:420-753 run *)
Definition run (env : SshEnv) (a : Args) (cols rows : Z) : Script (result RuntimeError Action) :=
  match a_forget_host a with
  | Some host => forget host
  | None =>
    match a_target a with
    | None => Done (Err (Usage (str "no host given. Specify the host to connect to, for example:")))
    | Some target =>
      need kp <- own_key;
      if a_copy_id a then copy_own_key env target kp a
      else
        ask agent <- agent_sock a;
        let alias := host_of target in
        need cfg <- host_config a alias;
        let host := default alias (hostname cfg) in
        need known <- call CallLoadKnown;
        need c <- try_direct a kp known host rows cols agent;
        match c with
        | Some c => connected env a target true c
        | None =>
          need c <- over_ssh env a kp target host rows cols agent;
          connected env a target false c
        end
    end
  end.

(** ** What a run may do *)

Local Abbreviation Step := (Step main_answer).

Definition ssh_step (s : SshStep SocketAddr) : Step := existT (CallSsh (projT1 s)) (projT2 s).

(** The calls that neither change the known hosts nor connect. *)
Definition quiet (s : Step) : Prop :=
  match projT1 s with CallSaveKnown _ | CallConnect _ _ _ _ => False | _ => True end.

Lemma ssh_part_wp {A} (m : SshScript SocketAddr A) : ∀ t0 Q0 tr Q, wp m t0 Q0 →
  (∀ a t, Q0 a (t0 ++ t) → Q a (tr ++ (ssh_step <$> t))) → wp (ssh_part m) tr Q.
Proof.
  induction m as [a|c k IH]; intros t0 Q0 tr Q; cbn; intros Hm HQ.
  - rewrite <- (app_nil_r tr). apply (HQ a []). by rewrite app_nil_r.
  - intros r. eapply IH; [by apply Hm|]. intros a t Ha. rewrite <- (assoc_L (++)).
    apply (HQ a (existT c r :: t)). by rewrite <- (assoc_L (++)) in Ha.
Qed.

Lemma quiet_ssh t : Forall quiet (ssh_step <$> t).
Proof. apply Forall_fmap, Forall_true. by intros []. Qed.

(** A program that is quiet. *)
Definition calm {A} (m : Script A) (R : A → list Step → Prop) : Prop :=
  ∀ tr Q, (∀ a tr', Forall quiet tr' → R a tr' → Q a (tr ++ tr')) → wp m tr Q.

Lemma ssh_part_calm {A} (m : SshScript SocketAddr A) : calm (ssh_part m) (λ _ _, True).
Proof.
  intros tr Q HQ. eapply (ssh_part_wp m [] (λ _ _, True)).
  - generalize (@nil (SshStep SocketAddr)). induction m as [a|c k IH]; intros t; cbn; [done|]. intros r. apply IH.
  - intros a t _. apply HQ; [apply quiet_ssh|done].
Qed.

Lemma own_key_calm : calm own_key (λ r tr, ∀ kp, r = Ok kp → existT CallLoadKey (Ok kp) ∈ tr).
Proof.
  intros tr Q HQ. unfold own_key. cbn [bind call wp Script.call]. intros there [kp|e]; cbn [wp].
  2: { rewrite <- (assoc_L (++)). apply HQ; [by repeat constructor|done]. }
  destruct there; cbn [wp]; [|destruct (from_bytes _); cbn [wp]]; rewrite <- (assoc_L (++));
    (apply HQ; [by repeat constructor|]); intros kp' [= <-]; cbn; right; by left.
Qed.

Lemma agent_sock_calm a : calm (agent_sock a) (λ _ _, True).
Proof.
  intros tr Q HQ. unfold agent_sock. destruct (_ && _); cbn.
  - intros r. by apply HQ; [repeat constructor|].
  - rewrite <- (app_nil_r tr). by apply HQ.
Qed.

(** The host whose address is looked up. *)
Definition session_host (a : Args) (target : list Z) (text : option (list Z)) : list Z :=
  default (host_of target) (text ≫= λ t, resolve t (host_of target) ≫= hostname).

Lemma host_config_calm a target :
  calm (host_config a (host_of target)) (λ r tr, ∀ cfg, r = Ok cfg →
    ∃ text, existT (CallSshConfig (a_ssh_config a)) text ∈ tr ∧
      default (host_of target) (hostname cfg) = session_host a target text).
Proof.
  intros tr Q HQ. unfold host_config. apply wp_bind, wp_call. intros r. unfold wp.
  apply HQ; [by repeat constructor|]. intros cfg H. exists r. split; [by left|]. unfold session_host.
  destruct r as [text|]; [|destruct (a_ssh_config a); [done|by injection H as <-]].
  injection H as <-. cbn [mbind option_bind]. by destruct (resolve text _).
Qed.

(** *** Connections *)

(** The result of a connection, from what it found. *)
Definition dialled (kp : Keypair) (known : KnownHosts) (label : list Z) (addr : SocketAddr) (rows cols : Z)
    (shell : bool) (agent : option (list Z)) (x : ConnectAns) : result RuntimeError ClientCore :=
  (connect_with (ca_bound x) (ca_sid x) (ca_term x) kp known label addr rows cols Adaptive shell agent (ca_dgrams x)).2.

Lemma pump_once_ok dgram (c : ClientCore) sid label known :
  trust_ok sid label known c → trust_ok sid label known (pump_once dgram c).2.
Proof.
  intros Hc. unfold pump_once.
  assert (trust_ok sid label known (recv_and_handle dgram c).2) as H1.
  { unfold recv_and_handle. destruct dgram as [buf|]; [|done].
    pose proof (client_step_ok _ _ _ _ _ (client_packet buf c) Hc) as H.
    by destruct (c_handle_packet buf c) as [[]]. }
  destruct (recv_and_handle dgram c) as [[out [[]|e]] c1]; [|done]. cbn [snd] in H1.
  pose proof (client_step_ok _ _ _ _ _ (client_tick c1) H1) as H2. unfold flush. by destruct (c_tick c1).
Qed.

Lemma connect_loop_ok dgrams : ∀ (c : ClientCore) sid label known,
  trust_ok sid label known c →
  trust_ok sid label known (connect_loop dgrams c).2 ∧
  ((connect_loop dgrams c).1.2 = Ok () → established (connect_loop dgrams c).2 = true).
Proof.
  induction dgrams as [|d dgrams IH]; intros c sid label known Hc; cbn [connect_loop];
    destruct (established c) eqn:He; try done.
  pose proof (pump_once_ok d _ _ _ _ Hc) as H1. destruct (pump_once d c) as [[out [[]|e]] c1]; [|done].
  specialize (IH c1 sid label known H1). by destruct (connect_loop dgrams c1) as [[out2 r] c2].
Qed.

Lemma dialled_ok kp known label addr rows cols shell agent x c :
  dialled kp known label addr rows cols shell agent x = Ok c →
  (∃ sid, trust_ok sid label known c) ∧ established c = true.
Proof.
  unfold dialled, connect_with. destruct (ca_bound x); [cbn [negb]|done].
  destruct (client_core_new _ _ _ _ _ _ _ _ _) as [[c0 first]|e] eqn:Hnew; [|done].
  apply client_new_ok in Hnew.
  assert (trust_ok (ca_sid x) label known (set_want_agent (bool_decide (is_Some agent)) (set_want_shell shell c0))) as H0.
  { eapply client_step_ok, client_step_ok, Hnew; apply client_call; [apply call_want_agent|apply call_want_shell]. }
  destruct (connect_loop_ok (ca_dgrams x) _ _ _ _ H0) as [H1 H2].
  destruct (connect_loop _ _) as [[out r] c1]. cbn [snd fst] in *. destruct r as [[]|e]; [|done].
  intros [= <-]. split; [by eexists|by apply H2].
Qed.

(** The server that a client talks to. *)
Lemma dialled_key kp known label addr rows cols shell agent x c :
  dialled kp known label addr rows cols shell agent x = Ok c →
  established c = true ∧ c_hs c = None ∧ ∃ key, server_static c = Some key ∧ length key = KEY_LEN ∧
    (known !! label = Some key ∧ known_hosts_dirty c = false ∨
     known !! label = None ∧ c_known c = <[label := key]> known ∧ known_hosts_dirty c = true).
Proof.
  intros [[sid Hc] He]%dialled_ok. split; [done|].
  pose proof Hc as [_ _ Hs Hp Hk]. rewrite He in Hs. symmetry in Hs. apply bool_decide_eq_true in Hs.
  split; [by eapply session_no_handshake|]. destruct Hs as [sn Hsn]. destruct (Hp _ Hsn) as [_ Hst].
  rewrite Hst in Hk. eexists. split; [done|]. destruct Hk as [Hl [(?&_&?)|(?&?&?)]]; split; auto.
Qed.

(** With a session, packets do not change whom the client trusts. *)
Lemma pump_once_trust dgram (c : ClientCore) : c_hs c = None → trust (pump_once dgram c).2 = trust c.
Proof.
  intros Hh. unfold pump_once.
  assert (trust (recv_and_handle dgram c).2 = trust c) as H1.
  { unfold recv_and_handle. destruct dgram as [buf|]; [|done]. rewrite established_packet by done.
    destruct (parse_packet buf) as [[]|]; try done. apply handle_transport_trust. }
  destruct (recv_and_handle dgram c) as [[out [[]|e]] c1]; [|done]. cbn [snd] in H1. rewrite <- H1.
  unfold flush, c_tick. pose proof (outgoing_trust c1) as H2. by destruct (outgoing c1).
Qed.

Lemma version_trust dgrams : ∀ c : ClientCore, c_hs c = None →
  trust (wait_for_server_version dgrams c).2 = trust c.
Proof.
  induction dgrams as [|d dgrams IH]; intros c Hh; cbn [wait_for_server_version];
    destruct (server_version c); try done.
  pose proof (pump_once_trust d c Hh) as H1. destruct (pump_once d c) as [[out [[]|e]] c1]; cbn [snd] in *; [|done].
  assert (c_hs c1 = None) as Hh1 by (unfold trust in H1; congruence).
  rewrite <- H1, <- (IH c1 Hh1). by destruct (wait_for_server_version dgrams c1) as [[]].
Qed.

(** *** What a run leaves *)

(** A saved set of known hosts is the loaded one with a host forgotten, or with the key
    of a server that was reached under [--direct] and had none. *)
Definition save_ok (a : Args) (tr : list Step) (s : Step) : Prop :=
  match projT1 s with
  | CallSaveKnown kh => ∃ known, existT CallLoadKnown (Ok known) ∈ tr ∧
      ((∃ host, a_forget_host a = Some host ∧ kh = (remove_matching known host).2) ∨
       a_direct a = true ∧ ∃ addr label x key, existT (CallConnect DIRECT_CONNECT_TIMEOUT addr label known) x ∈ tr ∧
         known !! label = None ∧ length key = KEY_LEN ∧ kh = <[label := key]> known)
  | _ => True
  end.

(** No connection without ssh was tried, or there was no answer. *)
Definition unanswered (s : Step) : Prop :=
  match s with
  | existT (CallConnect t addr label known) x => t = DIRECT_CONNECT_TIMEOUT →
      ∃ kp rows cols shell agent, dialled kp known label addr rows cols shell agent x = Err Timeout
  | _ => True
  end.

(** The server's key is the pinned one, or becomes it under [--direct]. *)
Definition direct_key (a : Args) (target : list Z) (tr : list Step) (key : list Z) : Prop :=
  ∃ text known addr x, let label := host_port (session_host a target text) (a_port a) in
    existT (CallSshConfig (a_ssh_config a)) text ∈ tr ∧ existT CallLoadKnown (Ok known) ∈ tr ∧
    existT (CallConnect DIRECT_CONNECT_TIMEOUT addr label known) x ∈ tr ∧
    (known !! label = Some key ∨
     known !! label = None ∧ a_direct a = true ∧ existT (CallSaveKnown (<[label := key]> known)) (Ok ()) ∈ tr).

(** The server's key came over ssh, with its address. *)
Definition ssh_key (env : SshEnv) (a : Args) (target : list Z) (tr : list Step) (key : list Z) : Prop :=
  a_direct a = false ∧ Forall unanswered tr ∧
  ∃ text kp cmd boot t x, let host := session_host a target text in
    existT (CallSshConfig (a_ssh_config a)) text ∈ tr ∧ existT CallLoadKey (Ok kp) ∈ tr ∧
    (∀ s, s ∈ t → ssh_step s ∈ tr) ∧
    (cmd = [a_server_cmd a] ∨ cmd = installed_noisshd_cmd env) ∧
    pinned env target host cmd (public kp) (a_ssh_args a) (Some (default (a_port a) (a_server_port a))) boot t ∧
    existT (CallConnect BOOTSTRAP_CONNECT_TIMEOUT (b_server_addr boot)
      (host_port host (addr_port (b_server_addr boot))) {[ host_port host (addr_port (b_server_addr boot)) := key ]}) x ∈ tr ∧
    key = b_server_pubkey boot.

(** What is done once connected is done with a server whose key is known so. *)
Definition action_client (act : Action) : option ClientCore :=
  match act with
  | ActNothing => None
  | ActExec _ _ c | ActTransfer _ _ c | ActForward _ _ _ c | ActShell c => Some c
  end.

Lemma action_keeps a c : action_client (action a c) = Some c.
Proof. unfold action. destruct (negb _); [done|]. destruct (a_transfer a) as [[]|]; [done|]. by destruct (forward_only a). Qed.

Lemma save_ok_app a tr t1 t2 s : save_ok a tr s → save_ok a (t1 ++ tr ++ t2) s.
Proof.
  unfold save_ok. destruct (projT1 s); try done. intros (known & Hk & H). exists known.
  rewrite !elem_of_app. split; [auto|]. destruct H as [?|(? & addr & label & x & key & ? & ? & ? & ?)]; [auto|].
  right. split; [done|]. exists addr, label, x, key. rewrite !elem_of_app. auto.
Qed.

Lemma quiet_save_ok a tr t : Forall quiet t → Forall (save_ok a tr) t.
Proof. intros H. eapply Forall_impl; [exact H|]. by intros [[] ?]. Qed.

Lemma quiet_unanswered t : Forall quiet t → Forall unanswered t.
Proof. intros H. eapply Forall_impl; [exact H|]. by intros [[] ?]. Qed.

Lemma check_version_calm env a target direct (c : ClientCore) :
  c_hs c = None → calm (check_version env a target direct c) (λ c' _, trust c' = trust c).
Proof.
  intros Hh tr Q HQ. unfold check_version.
  assert (∀ t, Forall quiet t → wp (Done c : Script ClientCore) (tr ++ t) Q) as Hdone by (intros t Ht; by apply HQ).
  destruct (direct && _ && _); [|rewrite <- (app_nil_r tr); by apply (Hdone [])].
  apply wp_bind, wp_call. intros []; [|apply Hdone; by repeat constructor].
  apply wp_bind, wp_call. intros dgrams. pose proof (version_trust dgrams c Hh) as Ht.
  destruct (wait_for_server_version dgrams c) as [[out v] c']. cbn [snd] in Ht.
  destruct v as [v|]; [apply wp_bind, ssh_part_calm; intros _ t Hq _|]; cbn [wp];
    rewrite <- !(assoc_L (++)); (apply HQ; [|done]); [apply Forall_app_2, Forall_app_2; [..|done]|]; by repeat constructor.
Qed.

(** With a session: what is saved, and who is at the other end. *)
Lemma connected_wp env a target direct (c : ClientCore) tr Q :
  c_hs c = None →
  (∀ r tr',
    (if known_hosts_dirty c then ∃ x t, tr' = existT (CallSaveKnown (c_known c)) x :: t ∧ Forall quiet t ∧
       (∀ act, r = Ok act → x = Ok ()) else Forall quiet tr') →
    (∀ act c', r = Ok act → action_client act = Some c' → trust c' = trust c) → Q r (tr ++ tr')) →
  wp (connected env a target direct c) tr Q.
Proof.
  intros Hh HQ. unfold connected. destruct (known_hosts_dirty c); apply wp_bind.
  - apply wp_call. intros [[]|e]; cbn [wp].
    + apply wp_bind, check_version_calm; [done|]. intros c1 t Hq Ht. cbn [wp]. rewrite <- (assoc_L (++)).
      apply HQ; [by exists (Ok ()), t|]. intros act c' [= <-]. rewrite action_keeps. by intros [= <-].
    + apply HQ; [by exists (Err e), []|done].
  - cbn [wp]. apply wp_bind, check_version_calm; [done|]. intros c1 t Hq Ht. cbn [wp].
    apply HQ; [done|]. intros act c' [= <-]. rewrite action_keeps. by intros [= <-].
Qed.

(** A direct attempt: a session, or the way to ssh is free, or an error. *)
Lemma try_direct_wp a kp known host rows cols agent tr Q :
  let label := host_port host (a_port a) in
  (∀ r t, Forall (λ s, ¬ quiet s → ∃ addr x, s = existT (CallConnect DIRECT_CONNECT_TIMEOUT addr label known) x) t →
    match r with
    | Ok (Some c) => ∃ addr x, existT (CallConnect DIRECT_CONNECT_TIMEOUT addr label known) x ∈ t ∧
        dialled kp known label addr rows cols (want_shell a) agent x = Ok c ∧
        (known !! label = None → a_direct a = true)
    | Ok None => a_direct a = false ∧ Forall unanswered t
    | Err _ => True
    end → Q r (tr ++ t)) →
  wp (try_direct a kp known host rows cols agent) tr Q.
Proof.
  intros label HQ. unfold try_direct. fold label.
  destruct (a_direct a || _) eqn:Htry; cycle 1.
  { apply orb_false_iff in Htry as [Hd _]. rewrite <- (app_nil_r tr). by apply HQ. }
  assert (known !! label = None → a_direct a = true) as Hnew.
  { apply orb_true_iff in Htry as [?|[_ [? ->]%bool_decide_eq_true]%andb_true_iff]; done. }
  apply wp_bind, wp_call. intros [[addr|]|]; [|destruct (a_direct a) eqn:Hd; apply HQ; by repeat constructor..].
  unfold connect. apply wp_bind, wp_bind, wp_call. intros x. cbn [wp].
  change (connect_with _ _ _ _ _ _ _ _ _ _ _ _ _).2 with (dialled kp known label addr rows cols (want_shell a) agent x).
  rewrite <- (assoc_L (++)). apply HQ.
  { constructor; [by intros []|]. constructor; [|constructor]. intros _. by exists addr, x. }
  destruct (dialled _ _ _ _ _ _ _ _ _) as [c|e] eqn:Hr.
  - exists addr, x. split_and!; [|done..]. right. by left.
  - destruct e; try done. destruct (a_direct a) eqn:Hd; [done|]. split; [done|].
    constructor; [done|]. constructor; [|constructor]. intros _. by exists kp, rows, cols, (want_shell a), agent.
Qed.

(** The calls of the way over ssh. *)
Definition over_ssh_call (s : Step) : Prop :=
  match projT1 s with CallSaveKnown _ => False | CallConnect t _ _ _ => t = BOOTSTRAP_CONNECT_TIMEOUT | _ => True end.

Lemma quiet_over_ssh t : Forall quiet t → Forall over_ssh_call t.
Proof. intros H. eapply Forall_impl; [exact H|]. by intros [[] ?]. Qed.
Lemma over_ssh_save_ok a tr t : Forall over_ssh_call t → Forall (save_ok a tr) t.
Proof. intros H. eapply Forall_impl; [exact H|]. by intros [[] ?]. Qed.
Lemma over_ssh_unanswered t : Forall over_ssh_call t → Forall unanswered t.
Proof. intros H. eapply Forall_impl; [exact H|]. intros [[] ?]; try done. cbn. by intros ->. Qed.

Lemma first_pin (label : list Z) (key : PublicKey) : (check_or_add ∅ label key).2 = {[ label := key ]}.
Proof.
  unfold check_or_add. pose proof (lookup_empty (M := gmap (list Z)) (A := PublicKey) label) as H.
  unfold KnownHosts in *. by rewrite H.
Qed.

Lemma pin_there (label : list Z) (key : PublicKey) : ({[ label := key ]} : KnownHosts) !! label = Some key.
Proof. exact (lookup_singleton_eq (M := gmap (list Z)) label key). Qed.

Lemma over_ssh_wp env a kp target host rows cols agent tr Q :
  (∀ r t, Forall over_ssh_call t →
    (∀ c, r = Ok c → ∃ cmd boot ts x, let label := host_port host (addr_port (b_server_addr boot)) in
      (∀ s, s ∈ ts → ssh_step s ∈ t) ∧
      (cmd = [a_server_cmd a] ∨ cmd = installed_noisshd_cmd env) ∧
      pinned env target host cmd (public kp) (a_ssh_args a) (Some (default (a_port a) (a_server_port a))) boot ts ∧
      existT (CallConnect BOOTSTRAP_CONNECT_TIMEOUT (b_server_addr boot) label {[ label := b_server_pubkey boot ]}) x ∈ t ∧
      dialled kp {[ label := b_server_pubkey boot ]} label (b_server_addr boot) rows cols (want_shell a) agent x = Ok c)
    → Q r (tr ++ t)) →
  wp (over_ssh env a kp target host rows cols agent) tr Q.
Proof.
  intros HQ. unfold over_ssh. apply wp_bind. eapply ssh_part_wp; [apply bootstrap_spec|].
  intros [boot|e] ts [Hb _]; cbn [wp]; cycle 1.
  { apply HQ; [apply quiet_over_ssh, quiet_ssh|done]. }
  rewrite app_nil_l in Hb. destruct Hb as (Hlen & cmd & Hcmd & Hp).
  replace (from_bytes (b_server_pubkey boot)) with (Ok (b_server_pubkey boot) : result AuthError PublicKey)
    by (unfold from_bytes; by rewrite Hlen).
  set (label := host_port host (addr_port (b_server_addr boot))). rewrite first_pin.
  unfold connect. apply wp_bind, wp_bind, wp_call. intros x. cbn [wp snd].
  match goal with |- context [(connect_with ?b ?s ?t ?k ?n ?l ?d ?r ?o ?m ?h ?g ?ds).2] =>
    change (connect_with b s t k n l d r o m h g ds).2 with (dialled kp {[ label := b_server_pubkey boot ]} label
      (b_server_addr boot) rows cols (want_shell a) agent x) end.
  rewrite <- (assoc_L (++)). apply HQ.
  { apply Forall_app_2; [apply quiet_over_ssh, quiet_ssh|]. by repeat constructor. }
  destruct (dialled _ _ _ _ _ _ _ _ _) as [c|e] eqn:Hr; [|by destruct e].
  intros c' [= <-]. exists cmd, boot, ts, x. split_and!; [|done..| |done].
  - intros s Hs. apply elem_of_app. left. by apply list_elem_of_fmap_2.
  - apply elem_of_app. right. by left.
Qed.

(** What a run may end with. *)
Definition careful (env : SshEnv) (a : Args) (r : result RuntimeError Action) (tr : list Step) : Prop :=
  Forall (save_ok a tr) tr ∧
  ∀ act c, r = Ok act → action_client act = Some c →
    established c = true ∧ ∃ target key, a_target a = Some target ∧ server_static c = Some key ∧
      length key = KEY_LEN ∧ (direct_key a target tr key ∨ ssh_key env a target tr key).

Lemma quiet_careful env a (r : result RuntimeError Action) tr :
  Forall quiet tr → (∀ act, r = Ok act → action_client act = None) → careful env a r tr.
Proof. intros Hq Hr. split; [by apply quiet_save_ok|]. intros act c Ha. by rewrite (Hr _ Ha). Qed.

Lemma forget_careful env a host :
  a_forget_host a = Some host → wp (forget host) [] (careful env a).
Proof.
  intros Ha. unfold forget. apply wp_bind, wp_call. intros [known|e]; [|by apply quiet_careful; [repeat constructor|]].
  destruct (remove_matching known host) as [removed known'] eqn:Hr. case_bool_decide.
  { apply quiet_careful; [by repeat constructor|]. by intros act [= <-]. }
  apply wp_bind, wp_call. intros y.
  assert (∀ r : result RuntimeError Action, (∀ act, r = Ok act → action_client act = None) →
    careful env a r [existT CallLoadKnown (Ok known); existT (CallSaveKnown known') y]) as Hc.
  { intros r Hn. split; [|intros act c Hact; by rewrite (Hn _ Hact)].
    constructor; [done|]. constructor; [|constructor]. exists known. split; [by left|]. left.
    exists host. by rewrite Hr. }
  destruct y as [[]|e]; apply Hc; [by intros act [= <-]|done].
Qed.

(** What was found out before the connection. *)
Record prepared (a : Args) (target : list Z) (kp : Keypair) (host : list Z) (known : KnownHosts) (tr : list Step) : Prop := {
  pr_quiet : Forall quiet tr;
  pr_key : existT CallLoadKey (Ok kp) ∈ tr;
  pr_known : existT CallLoadKnown (Ok known) ∈ tr;
  pr_host : ∃ text, existT (CallSshConfig (a_ssh_config a)) text ∈ tr ∧ host = session_host a target text;
}.

Lemma direct_careful env a target kp host known (c : ClientCore) rows cols agent addr x tr t :
  let label := host_port host (a_port a) in
  a_target a = Some target → prepared a target kp host known tr →
  Forall (λ s, ¬ quiet s → ∃ addr x, s = existT (CallConnect DIRECT_CONNECT_TIMEOUT addr label known) x) t →
  existT (CallConnect DIRECT_CONNECT_TIMEOUT addr label known) x ∈ t →
  dialled kp known label addr rows cols (want_shell a) agent x = Ok c →
  (known !! label = None → a_direct a = true) →
  wp (connected env a target true c) (tr ++ t) (careful env a).
Proof.
  intros label Ht [Hq Hk Hl (text & Htext & Hhost)] Hcalls Hx Hd Hnew.
  destruct (dialled_key _ _ _ _ _ _ _ _ _ _ Hd) as (He & Hh & key & Hst & Hlen & Hpin).
  assert (∀ tr', Forall (save_ok a tr') (tr ++ t)) as Hsaves.
  { intros tr'. apply Forall_app_2; [by apply quiet_save_ok|]. eapply Forall_impl; [exact Hcalls|].
    intros [[] ?] Hs; try done. cbn in Hs. destruct Hs as (? & ? & ?); [tauto|done]. }
  apply connected_wp; [done|]. intros r t' Hsave Hact. split.
  - apply Forall_app_2; [done|]. destruct (known_hosts_dirty c).
    2: { by apply quiet_save_ok. }
    destruct Hsave as (y & t2 & -> & Hq2 & _). constructor; [|by apply quiet_save_ok].
    destruct Hpin as [[_ ?]|(Hno & Hkh & _)]; [done|]. exists known. rewrite !elem_of_app. split; [auto|]. right.
    split; [by apply Hnew|]. exists addr, label, x, key. rewrite !elem_of_app. auto.
  - intros act c' Hr Hc'. specialize (Hact _ _ Hr Hc'). unfold trust in Hact.
    split; [congruence|]. exists target, key. split_and!; [done|congruence|done|]. left.
    exists text, known, addr, x. rewrite <- Hhost. fold label. cbv zeta. rewrite !elem_of_app. split_and!; [auto..|].
    destruct Hpin as [[? _]|(Hno & Hkh & Hdirty)]; [by left|]. right. split_and!; [done|by apply Hnew|].
    rewrite Hdirty in Hsave. destruct Hsave as (y & t2 & -> & _ & Hok). rewrite (Hok _ Hr), Hkh.
    right. by left.
Qed.

Lemma ssh_careful env a target kp host known rows cols agent tr :
  a_target a = Some target → a_direct a = false → prepared a target kp host known tr →
  ∀ t, Forall unanswered t →
  Forall (λ s, ¬ quiet s → ∃ addr x, s = existT (CallConnect DIRECT_CONNECT_TIMEOUT addr (host_port host (a_port a)) known) x) t →
  wp (need c <- over_ssh env a kp target host rows cols agent; connected env a target false c) (tr ++ t) (careful env a).
Proof.
  intros Ht Hdir [Hq Hk _ (text & Htext & Hhost)] t Hun Hcalls.
  assert (∀ tr', Forall (save_ok a tr') (tr ++ t)) as Hsaves.
  { intros tr'. apply Forall_app_2; [by apply quiet_save_ok|]. eapply Forall_impl; [exact Hcalls|].
    intros [[] ?] Hs; try done. cbn in Hs. destruct Hs as (? & ? & ?); [tauto|done]. }
  apply wp_bind, over_ssh_wp. intros r t2 Ht2 Hr. destruct r as [c|e]; cbn [wp].
  2: { split; [|done]. apply Forall_app_2; [done|]. by apply over_ssh_save_ok. }
  destruct (Hr c eq_refl) as (cmd & boot & ts & x & Hts & Hcmd & Hp & Hx & Hd).
  destruct (dialled_key _ _ _ _ _ _ _ _ _ _ Hd) as (He & Hh & key & Hst & Hlen & Hpin).
  destruct Hpin as [[Hpin Hclean]|(Hno & _)]; [|by rewrite pin_there in Hno].
  rewrite pin_there in Hpin. injection Hpin as <-.
  apply connected_wp; [done|]. rewrite Hclean. intros r t3 Hq3 Hact. split.
  { apply Forall_app_2; [apply Forall_app_2; [apply Hsaves|by apply over_ssh_save_ok]|by apply quiet_save_ok]. }
  intros act c' Hr' Hc'. specialize (Hact _ _ Hr' Hc'). unfold trust in Hact.
  split; [congruence|]. eexists target, _. split_and!; [done|by etrans; [|exact Hst]; congruence|done|]. right.
  split; [done|]. split.
  { repeat apply Forall_app_2; [by apply quiet_unanswered|done|by apply over_ssh_unanswered|by apply quiet_unanswered]. }
  exists text, kp, cmd, boot, ts, x. rewrite <- Hhost. cbv zeta. rewrite !elem_of_app.
  split_and!; [auto..| |done|done|auto|done]. intros s Hs. rewrite !elem_of_app. auto.
Qed.
End main.

(** Answers of a machine with one known host. *)
Definition one_host {N : Snow} {SocketAddr : Type} (c : MainCall (SocketAddr := SocketAddr)) : main_answer c :=
  match c with
  | CallSsh (CallOutput _) => None
  | CallSsh (CallStatus _) => None
  | CallSsh CallIsTerminal => false
  | CallSsh (CallAsk _) => None
  | CallSsh (CallResolve _ _) => None
  | CallKeyExists => true
  | CallLoadKey => Err RtIo
  | CallLoadKnown => Ok {[ str "h:51820" := replicate 32 7; str "hh:51820" := replicate 32 8 ]}
  | CallSaveKnown _ => Ok ()
  | CallSshConfig _ => None
  | CallAgentSock => None
  | CallConnect _ _ _ _ => mkConnectAns false [] None []
  | CallVersion _ => []
  end.

(** A host is forgotten under all its ports, and nothing else happens. *)
Lemma forget_run {N : Snow} : ∀ c : option KnownHosts, c ∈
  (λ s : Script.Step (main_answer (SocketAddr := nat)), match projT1 s with CallSaveKnown kh => Some kh | _ => None end) <$>
    (Script.run one_host (forget (N := N) (SocketAddr := nat) (str "h"))).1 →
  c = None ∨ c = Some {[ str "hh:51820" := replicate 32 8 ]}.
Proof.
  intros c Hc. apply list_elem_of_In in Hc. vm_compute in Hc. destruct Hc as [<-|[<-|[]]]; [by left|]. right. by vm_compute.
Qed.

(** C17 A run of the client, whatever files, names, ssh, the network and the user
    answer. Known hosts are saved in two cases only: with a host forgotten, as
    asked, or with the key of a server that had none and was reached under
    [--direct]; so a key that came over ssh is never kept. Whatever is done once
    connected is done with a server that proved a key of 32 bytes: the one that is
    pinned for the host and port, or one that has just been pinned under [--direct];
    or else, without that option and with no direct attempt that ended in anything
    but a time-out, the key that an ssh run of this program printed. *)
Theorem run_is_careful {N : Snow} {SocketAddr : Type} {B64 : Base64} (to_lowercase debug : list Z → list Z)
    (addr_port : SocketAddr → Z) (env : SshEnv) (a : Args) cols rows :
  wp (run to_lowercase debug addr_port env a cols rows) [] (careful addr_port env a).
Proof.
  unfold Main.run. destruct (a_forget_host a) as [host|] eqn:Hf; [by apply forget_careful|].
  destruct (a_target a) as [target|] eqn:Ht; [|by apply quiet_careful].
  apply wp_bind, own_key_calm. intros [kp|e] t1 Hq1 Hkp; [|by apply quiet_careful]. rewrite app_nil_l.
  destruct (a_copy_id a).
  { unfold copy_own_key. destruct (from_bytes _); [|by apply quiet_careful].
    apply wp_bind, ssh_part_calm. intros [[]|e] t2 Hq2 _; (apply quiet_careful; [by apply Forall_app_2|]); [|done].
    by intros act [= <-]. }
  apply wp_bind, agent_sock_calm. intros agent t2 Hq2 _.
  apply wp_bind, host_config_calm. intros [cfg|e] t3 Hq3 Hcfg;
    [|apply quiet_careful; [by repeat apply Forall_app_2|done]].
  destruct (Hcfg cfg eq_refl) as (text & Htext & Hhost). rewrite Hhost.
  apply wp_bind, wp_call. intros [known|e]; [|apply quiet_careful; [|done]; repeat apply Forall_app_2; by repeat constructor].
  assert (prepared a target kp (session_host a target text) known
    (((t1 ++ t2) ++ t3) ++ [existT CallLoadKnown (Ok known)])) as Hprep.
  { split; [repeat apply Forall_app_2; by repeat constructor|rewrite !elem_of_app; auto|rewrite !elem_of_app|].
    - right. by left.
    - exists text. rewrite !elem_of_app. auto. }
  apply wp_bind, try_direct_wp. intros [[c|]|e] t4 Hcalls H4.
  - destruct H4 as (addr & x & Hx & Hd & Hnew). by eapply direct_careful.
  - destruct H4 as [Hdir Hun]. by eapply ssh_careful.
  - split; [|done]. apply Forall_app_2; [apply quiet_save_ok, Hprep|]. eapply Forall_impl; [exact Hcalls|].
    intros [[] ?] Hs; try done. cbn in Hs. destruct Hs as (? & ? & ?); [tauto|done].
Qed.
